(** * HTML post-processing of the Markdown-to-HTML converter

    A shallow embedding of the DOM passes of
    [.github/src/step_1_markdown_to_html_converter_V3_0.py]
    (class [MarkdownToHtmlConverter]) and the properties the
    specification states about them.

    Conventions of the embedding.
    - Python [str] values are Rocq [string]s; the text is taken to be
      ASCII, so [str.strip], [str.lower] and the case-insensitive regular
      expression act on ASCII characters only.
    - A BeautifulSoup tree is a [node] tree whose nodes carry an
      identifier: the identifier stands for the identity of the Python
      object, so that a list collected by [find_all] before a loop can
      be walked while the loop mutates the tree.
    - A pass is a computation in a state-and-exception monad: the
      mutations made before an exception is raised stay in the state.
    - [urlparse], the network and, for a markup that holds [<], [&] or
      a double quote, the HTML parser are parameters of the passes that
      call them: what is proved holds whatever they answer. *)

From Stdlib Require Import String Ascii List Bool Arith Lia.
From stdpp Require Import base option list strings gmap.

Local Open Scope string_scope.
Local Open Scope list_scope.
#[local] Set Warnings "-register-all".

(** ** Strings, as Python's [str] methods use them *)

Module Py.

(** [c.isspace()] on ASCII: TAB, LF, VT, FF, CR, FS, GS, RS, US, SPACE. *)
Definition isspace (c : ascii) : bool :=
  let n := nat_of_ascii c in
  (((9 <=? n) && (n <=? 13)) || ((28 <=? n) && (n <=? 32)))%nat.

Fixpoint lstrip (s : string) : string :=
  match s with
  | String c r => if isspace c then lstrip r else s
  | EmptyString => EmptyString
  end.

(** [rstrip]: a character is dropped when it is a space and all that
    follows it has been dropped. *)
Fixpoint rstrip (s : string) : string :=
  match s with
  | String c r =>
      match rstrip r with
      | EmptyString => if isspace c then EmptyString else String c EmptyString
      | r' => String c r'
      end
  | EmptyString => EmptyString
  end.

Definition strip (s : string) : string := rstrip (lstrip s).

Fixpoint startswith (p s : string) : bool :=
  match p, s with
  | EmptyString, _ => true
  | String a p', String b s' => if Ascii.eqb a b then startswith p' s' else false
  | String _ _, EmptyString => false
  end.

(** [sub in s] *)
Fixpoint contains (sub s : string) : bool :=
  startswith sub s ||
  match s with
  | String _ r => contains sub r
  | EmptyString => false
  end.

Definition lower_char (c : ascii) : ascii :=
  let n := nat_of_ascii c in
  if ((65 <=? n) && (n <=? 90))%nat then ascii_of_nat (n + 32)%nat else c.

Fixpoint lower (s : string) : string :=
  match s with
  | String c r => String (lower_char c) (lower r)
  | EmptyString => EmptyString
  end.

Fixpoint has_char (c : ascii) (s : string) : bool :=
  match s with
  | String a r => Ascii.eqb a c || has_char c r
  | EmptyString => false
  end.

(** [s.split(c, 1)] when [c in s]: the text before the first [c] and
    the text after it. *)
Fixpoint split_first (c : ascii) (s : string) : option (string * string) :=
  match s with
  | EmptyString => None
  | String a r =>
      if Ascii.eqb a c then Some (EmptyString, r)
      else match split_first c r with
           | Some (x, y) => Some (String a x, y)
           | None => None
           end
  end.

(** The text after the last [c], or the whole text when there is none:
    [s[s.rfind(c) + 1:]]. *)
Fixpoint after_last (c : ascii) (s : string) : string :=
  match s with
  | EmptyString => EmptyString
  | String a r =>
      if has_char c r then after_last c r
      else if Ascii.eqb a c then r else s
  end.

(** The text up to the last [c] (excluded): [s.rsplit(c, 1)[0]]. *)
Fixpoint before_last (c : ascii) (s : string) : string :=
  match s with
  | EmptyString => EmptyString
  | String a r =>
      if has_char c r then String a (before_last c r)
      else if Ascii.eqb a c then EmptyString else s
  end.

(** [s.replace(c, "")] *)
Fixpoint remove_char (c : ascii) (s : string) : string :=
  match s with
  | EmptyString => EmptyString
  | String a r => if Ascii.eqb a c then remove_char c r else String a (remove_char c r)
  end.

(** [s.lstrip(chars)] for a set of characters given as a predicate. *)
Fixpoint lstrip_by (p : ascii -> bool) (s : string) : string :=
  match s with
  | String c r => if p c then lstrip_by p r else s
  | EmptyString => EmptyString
  end.

Fixpoint all_chars (p : ascii -> bool) (s : string) : bool :=
  match s with
  | String c r => p c && all_chars p r
  | EmptyString => true
  end.

Fixpoint take (n : nat) (s : string) : string :=
  match n, s with
  | S k, String c r => String c (take k r)
  | _, _ => EmptyString
  end.

Fixpoint drop (n : nat) (s : string) : string :=
  match n, s with
  | S k, String _ r => drop k r
  | _, _ => s
  end.

(** Truth value of a [str]. *)
Definition truthy (s : string) : bool :=
  match s with EmptyString => false | _ => true end.

(** [os.path.basename] of posixpath: [p[p.rfind('/') + 1:]]. *)
Definition basename (p : string) : string := after_last "/"%char p.

Fixpoint endswith_char (c : ascii) (s : string) : bool :=
  match s with
  | EmptyString => false
  | String a EmptyString => Ascii.eqb a c
  | String _ r => endswith_char c r
  end.

(** [os.path.join(a, b)] of posixpath. *)
Definition path_join (a b : string) : string :=
  if startswith "/" b then b
  else if negb (truthy a) || endswith_char "/"%char a then a +:+ b
  else a +:+ "/" +:+ b.

(** The text up to the first space character. *)
Fixpoint until_space (s : string) : string :=
  match s with
  | String c r => if isspace c then EmptyString else String c (until_space r)
  | EmptyString => EmptyString
  end.

(** The first of the whitespace-separated words of [s], or [""]. *)
Definition first_word (s : string) : string := until_space (lstrip s).

(** [re.findall(r"\S+", s)], with [cur] the word being read. *)
Fixpoint words_from (cur s : string) : list string :=
  match s with
  | EmptyString => if truthy cur then [cur] else []
  | String c r =>
      if isspace c then (if truthy cur then cur :: words_from EmptyString r
                         else words_from EmptyString r)
      else words_from (cur +:+ String c EmptyString) r
  end.

Definition words (s : string) : list string := words_from EmptyString s.

(** [" ".join(ws)] *)
Fixpoint join_spaced (ws : list string) : string :=
  match ws with
  | [] => EmptyString
  | [w] => w
  | w :: r => w +:+ " " +:+ join_spaced r
  end.

End Py.

(** ** Exceptions and outcomes *)

(** The exceptions the modelled code can raise. [Unrepresentable] marks
    a mutation whose result is not a tree (an element moved inside
    itself), which the embedding does not follow further. *)
Inductive exn := AttributeError | TypeError | ValueError | KeyError | Unrepresentable.

Inductive outcome (A : Type) :=
| Done (a : A)
| Raised (e : exn).
Arguments Done {A} a.
Arguments Raised {A} e.

(** ** [urllib.parse.urlparse] *)

Record ParseResult := mkParse {
  scheme : string; netloc : string; path : string;
  params : string; query : string; fragment : string }.

Module Urllib.

Definition c0_control_or_space (c : ascii) : bool := (nat_of_ascii c <=? 32)%nat.

Definition is_ascii_alpha (c : ascii) : bool :=
  let n := nat_of_ascii c in
  (((65 <=? n) && (n <=? 90)) || ((97 <=? n) && (n <=? 122)))%nat.

Definition is_digit (c : ascii) : bool :=
  let n := nat_of_ascii c in ((48 <=? n) && (n <=? 57))%nat.

Definition scheme_char (c : ascii) : bool :=
  is_ascii_alpha c || is_digit c
  || Ascii.eqb c "+" || Ascii.eqb c "-" || Ascii.eqb c ".".

Definition uses_params : list string :=
  [""; "ftp"; "hdl"; "prospero"; "http"; "imap"; "https"; "shttp"; "rtsp";
   "rtspu"; "sip"; "sips"; "mms"; "sftp"; "tel"].

Definition first_is (p : ascii -> bool) (s : string) : bool :=
  match s with String c _ => p c | EmptyString => false end.

(** [_splitnetloc(url, 2)] on the text after the two slashes: the
    network location runs up to the first of [/], [?], [#]. *)
Fixpoint splitnetloc (s : string) : string * string :=
  match s with
  | EmptyString => (EmptyString, EmptyString)
  | String c r =>
      if Ascii.eqb c "/" || Ascii.eqb c "?" || Ascii.eqb c "#" then (EmptyString, s)
      else let '(n, rest) := splitnetloc r in (String c n, rest)
  end.

Definition split_or (c : ascii) (s : string) : string * string :=
  match Py.split_first c s with
  | Some (a, b) => (a, b)
  | None => (s, EmptyString)
  end.

(** [urlsplit]: leading C0 controls and spaces are stripped, TAB, CR
    and LF are deleted, then scheme, network location, fragment and
    query are split off in this order. A network location with one
    square bracket but not the other raises [ValueError]; the
    validation of a bracketed host that later Python versions add is
    not modelled (a bracketed host is accepted), and neither is the
    normalisation check on non-ASCII network locations. *)
Definition urlsplit (url0 : string) : outcome (string * string * string * string * string) :=
  let url := Py.lstrip_by c0_control_or_space url0 in
  let url := Py.remove_char "010" (Py.remove_char "013" (Py.remove_char "009" url)) in
  let '(sch, url) :=
    match Py.split_first ":" url with
    | Some (pre, post) =>
        if Py.truthy pre && first_is is_ascii_alpha pre && Py.all_chars scheme_char pre
        then (Py.lower pre, post) else (EmptyString, url)
    | None => (EmptyString, url)
    end in
  let '(loc, url, bad) :=
    if Py.startswith "//" url then
      let '(n, rest) := splitnetloc (Py.drop 2 url) in
      (n, rest, xorb (Py.has_char "[" n) (Py.has_char "]" n))
    else (EmptyString, url, false) in
  if bad then Raised ValueError else
  let '(url, frag) := split_or "#" url in
  let '(url, q) := split_or "?" url in
  Done (sch, loc, url, q, frag).

(** [_splitparams], called when the path holds a [;]. *)
Definition splitparams (url : string) : string * string :=
  if Py.has_char "/" url then
    match Py.split_first ";" (String "/" (Py.after_last "/" url)) with
    | Some (a, b) => (Py.before_last "/" url +:+ a, b)
    | None => (url, EmptyString)
    end
  else split_or ";" url.

Definition urlparse (url : string) : outcome ParseResult :=
  match urlsplit url with
  | Raised e => Raised e
  | Done (sch, loc, p, q, frag) =>
      let '(p, prm) :=
        if existsb (String.eqb sch) uses_params && Py.has_char ";" p
        then splitparams p else (p, EmptyString) in
      Done (mkParse sch loc p prm q frag)
  end.

End Urllib.

Example u1 : Urllib.urlparse "thisdoc.html#section"
  = Done (mkParse "" "" "thisdoc.html" "" "" "section"). Proof. reflexivity. Qed.
Example u2 : Urllib.urlparse "https://docs.oasis-open.org/a/b.html?x=1#s"
  = Done (mkParse "https" "docs.oasis-open.org" "/a/b.html" "" "x=1" "s"). Proof. reflexivity. Qed.
Example u3 : Urllib.urlparse "http://[x#y" = Raised ValueError. Proof. reflexivity. Qed.
Example u4 : Urllib.urlparse "#sec" = Done (mkParse "" "" "" "" "" "sec"). Proof. reflexivity. Qed.
Example u5 : Urllib.urlparse "a/b;p;q/c;d?x#f" = Done (mkParse "" "" "a/b;p;q/c" "d" "x" "f"). Proof. reflexivity. Qed.
Example u6 : Urllib.urlparse "mailto:a@b" = Done (mkParse "mailto" "" "a@b" "" "" ""). Proof. reflexivity. Qed.
Example u7 : Urllib.urlparse "//host/p" = Done (mkParse "" "host" "/p" "" "" ""). Proof. reflexivity. Qed.

(** ** The document tree *)

Definition ident := nat.

(** A node is a [NavigableString] or a [Tag] with its name, its
    attribute dictionary and its [contents]. The root of a document is
    the [BeautifulSoup] object, a [Tag] named ["[document]"]. *)
Inductive node :=
| NavigableString (i : ident) (s : string)
| Tag (i : ident) (name : string) (attrs : gmap string string) (contents : list node).

Definition node_id (n : node) : ident :=
  match n with NavigableString i _ => i | Tag i _ _ _ => i end.

(** [isinstance(n, Tag)] *)
Definition _is_tag (n : node) : bool :=
  match n with Tag _ _ _ _ => true | NavigableString _ _ => false end.

(** [n.name == nm] for a node that is known to be alive. *)
Definition named (nm : string) (n : node) : bool :=
  match n with Tag _ m _ _ => String.eqb m nm | NavigableString _ _ => false end.

Definition contents_of (n : node) : list node :=
  match n with Tag _ _ _ cs => cs | NavigableString _ _ => [] end.

Definition attrs_of (n : node) : gmap string string :=
  match n with Tag _ _ a _ => a | NavigableString _ _ => ∅ end.

(** [n.descendants]: every node below [n], in document order. *)
Fixpoint descendants (n : node) : list node :=
  match n with
  | NavigableString _ _ => []
  | Tag _ _ _ cs => flat_map (fun c => c :: descendants c) cs
  end.

Definition ids (n : node) : list ident := map node_id (n :: descendants n).

Definition has_id (i : ident) (n : node) : bool := Nat.eqb (node_id n) i.

(** The node of identity [i] in the tree [n], if it is there. *)
Definition find_node (i : ident) (n : node) : option node :=
  List.find (has_id i) (n :: descendants n).

(** The parent of the node of identity [i]: the first tag, in document
    order, that has it among its [contents]. *)
Definition parent_in (i : ident) (n : node) : option node :=
  List.find (fun d => existsb (has_id i) (contents_of d)) (n :: descendants n).

(** The tree without the nodes of identity [i] (and what is below them). *)
Fixpoint prune (i : ident) (n : node) : node :=
  match n with
  | NavigableString _ _ => n
  | Tag j nm a cs =>
      Tag j nm a (flat_map (fun c => if has_id i c then [] else [prune i c]) cs)
  end.

(** What [prune] does to a list of children. *)
Definition prune_list (i : ident) (cs : list node) : list node :=
  flat_map (fun c => if has_id i c then [] else [prune i c]) cs.

(** Name and attributes of the tag of identity [i] changed by [f]. *)
Fixpoint retag (f : string * gmap string string -> string * gmap string string)
    (i : ident) (n : node) : node :=
  match n with
  | NavigableString _ _ => n
  | Tag j nm a cs =>
      let '(nm', a') := if Nat.eqb j i then f (nm, a) else (nm, a) in
      Tag j nm' a' (map (retag f i) cs)
  end.

(** [new] placed before (resp. after) the node of identity [i], among
    the [contents] of its parent. *)
Fixpoint splice_before (i : ident) (new : node) (n : node) : node :=
  match n with
  | NavigableString _ _ => n
  | Tag j nm a cs =>
      Tag j nm a (flat_map (fun c => if has_id i c then [new; splice_before i new c]
                                     else [splice_before i new c]) cs)
  end.

Fixpoint splice_after (i : ident) (new : node) (n : node) : node :=
  match n with
  | NavigableString _ _ => n
  | Tag j nm a cs =>
      Tag j nm a (flat_map (fun c => if has_id i c then [splice_after i new c; new]
                                     else [splice_after i new c]) cs)
  end.

(** The node of identity [i] replaced by [new]. *)
Fixpoint substitute (i : ident) (new : node) (n : node) : node :=
  match n with
  | NavigableString _ _ => n
  | Tag j nm a cs =>
      Tag j nm a (map (fun c => if has_id i c then new else substitute i new c) cs)
  end.

(** The [contents] of the tag of identity [i] changed by [f]. *)
Fixpoint recontent (f : list node -> list node) (i : ident) (n : node) : node :=
  match n with
  | NavigableString _ _ => n
  | Tag j nm a cs =>
      let cs' := map (recontent f i) cs in
      Tag j nm a (if Nat.eqb j i then f cs' else cs')
  end.

(** Name and attributes of the tag of identity [j] in the tree. *)
Definition tag_at (j : ident) (n : node) : option (string * gmap string string) :=
  match find_node j n with
  | Some (Tag _ nm a _) => Some (nm, a)
  | _ => None
  end.

(** ** The store and the monad of the passes *)

(** [root] is the document; [limbo] holds the trees that are alive but
    not attached to the document (a tag made by [new_tag] and not yet
    inserted, an element taken out by [replace_with]); an identity found
    in neither belongs to an object destroyed by [decompose]. [fresh] is
    the next unused identity. *)
Record soup := mkSoup { root : node; limbo : list node; fresh : ident }.

Definition M (S A : Type) : Type := S -> outcome A * S.

Definition ret {S A} (a : A) : M S A := fun s => (Done a, s).
Definition raise {S A} (e : exn) : M S A := fun s => (Raised e, s).
Definition bind {S A B} (m : M S A) (k : A -> M S B) : M S B :=
  fun s => match m s with
           | (Done a, s') => k a s'
           | (Raised e, s') => (Raised e, s')
           end.
Definition get {S} : M S S := fun s => (Done s, s).
Definition put {S} (s : S) : M S unit := fun _ => (Done tt, s).
Definition modify {S} (f : S -> S) : M S unit := fun s => (Done tt, f s).
Definition lift_outcome {S A} (o : outcome A) : M S A := fun s => (o, s).

Declare Scope pass_scope.
Delimit Scope pass_scope with pass.
Notation "x <- m ;; k" := (bind m (fun x => k))
  (at level 20, m at level 99, k at level 200, only parsing) : pass_scope.
Notation "m ;; k" := (bind m (fun _ => k))
  (at level 100, k at level 200, only parsing, right associativity) : pass_scope.
Local Open Scope pass_scope.

(** [for x in l: body(x)], where [continue] is the early end of [body]. *)
Fixpoint for_each {S A} (l : list A) (body : A -> M S unit) : M S unit :=
  match l with
  | [] => ret tt
  | x :: r => body x ;; for_each r body
  end.

(** ** The BeautifulSoup operations the passes use *)

Fixpoint first_some {A B} (f : A -> option B) (l : list A) : option B :=
  match l with
  | [] => None
  | x :: r => match f x with Some b => Some b | None => first_some f r end
  end.

Module Bs4.

(** The live object of identity [i], attached to the document or not. *)
Definition lookup (i : ident) (s : soup) : option node :=
  match find_node i (root s) with
  | Some n => Some n
  | None => first_some (find_node i) (limbo s)
  end.

Definition parent_node (i : ident) (s : soup) : option node :=
  match parent_in i (root s) with
  | Some n => Some n
  | None => first_some (parent_in i) (limbo s)
  end.

(** [f] applied to the document and to every detached tree. *)
Definition on_all (f : node -> node) (s : soup) : soup :=
  mkSoup (f (root s)) (map f (limbo s)) (fresh s).

(** The store without the object [i] and all below it. *)
Definition detach (i : ident) (s : soup) : soup :=
  mkSoup (prune i (root s))
         (flat_map (fun t => if has_id i t then [] else [prune i t]) (limbo s))
         (fresh s).

(** [tag.get(key)]: [None] when the attribute is absent. On a
    destroyed object [attrs] is gone and the call raises
    [AttributeError]; a string has no [get]. *)
Definition tag_get (i : ident) (key : string) : M soup (option string) :=
  s <- get ;;
  match lookup i s with
  | Some (Tag _ _ a _) => ret (a !! key)
  | _ => raise AttributeError
  end.

(** [tag[key]] *)
Definition getitem (i : ident) (key : string) : M soup string :=
  s <- get ;;
  match lookup i s with
  | Some (Tag _ _ a _) =>
      match a !! key with Some v => ret v | None => raise KeyError end
  | _ => raise TypeError
  end.

(** [tag[key] = v] *)
Definition setitem (i : ident) (key v : string) : M soup unit :=
  s <- get ;;
  match lookup i s with
  | Some (Tag _ _ _ _) => put (on_all (retag (fun '(nm, a) => (nm, <[key := v]> a)) i) s)
  | _ => raise TypeError
  end.

(** [tag.attrs.pop(key, None)] and [del tag[key]] *)
Definition attrs_pop (i : ident) (key : string) : M soup unit :=
  s <- get ;;
  match lookup i s with
  | Some (Tag _ _ _ _) => put (on_all (retag (fun '(nm, a) => (nm, delete key a)) i) s)
  | _ => raise AttributeError
  end.

(** [tag.name = nm] *)
Definition set_name (i : ident) (nm : string) : M soup unit :=
  modify (on_all (retag (fun '(_, a) => (nm, a)) i)).

(** [tag.name]; [None] on a destroyed object and on a string. *)
Definition name_of (i : ident) (s : soup) : option string :=
  match lookup i s with
  | Some (Tag _ nm _ _) => Some nm
  | _ => None
  end.

(** [tag.parent], as an identity. *)
Definition parent_of (i : ident) (s : soup) : option ident :=
  node_id <$> parent_node i s.

(** [tag.contents]; empty on a destroyed object. *)
Definition contents (i : ident) (s : soup) : list node :=
  match lookup i s with Some n => contents_of n | None => [] end.

(** [tag.find_all(...)] with the filter [want]: the matching
    descendants in document order. *)
Definition find_all (want : node -> bool) (i : ident) (s : soup) : list ident :=
  match lookup i s with
  | Some n => map node_id (List.filter want (descendants n))
  | None => []
  end.

(** [tag.find(...)]: the first match, or [None]. *)
Definition find (want : node -> bool) (i : ident) (s : soup) : option ident :=
  head (find_all want i s).

(** [tag.find(..., recursive=False)] and
    [tag.find_all(..., recursive=False)]: children only. *)
Definition find_all_children (want : node -> bool) (i : ident) (s : soup) : list ident :=
  map node_id (List.filter want (contents i s)).

Definition find_child (want : node -> bool) (i : ident) (s : soup) : option ident :=
  head (find_all_children want i s).

(** [tag.decompose()]: the object and all below it are destroyed. *)
Definition decompose (i : ident) : M soup unit := modify (detach i).

(** [soup.new_tag(name, **attrs)]: a fresh tag, not attached. *)
Definition new_tag (nm : string) (a : gmap string string) : M soup ident :=
  s <- get ;;
  put (mkSoup (root s) (limbo s ++ [Tag (fresh s) nm a []]) (S (fresh s))) ;;
  ret (fresh s).

(** [x.extract()], giving the subtree taken out. *)
Definition take (x : ident) : M soup node :=
  s <- get ;;
  match lookup x s with
  | Some n => put (detach x s) ;; ret n
  | None => raise AttributeError
  end.

(** After [x] was taken out, the place it is moved to must still be
    in the store: it is not when that place was inside [x]. *)
Definition still_there (i : ident) : M soup unit :=
  s <- get ;;
  match lookup i s with Some _ => ret tt | None => raise Unrepresentable end.

(** [target.insert_before(x)] *)
Definition insert_before (target x : ident) : M soup unit :=
  s <- get ;;
  match parent_node target s with
  | None => raise ValueError
  | Some _ =>
      if Nat.eqb x target then raise ValueError else
      n <- take x ;;
      still_there target ;;
      modify (on_all (splice_before target n))
  end.

(** [target.insert_after(x)] *)
Definition insert_after (target x : ident) : M soup unit :=
  s <- get ;;
  match parent_node target s with
  | None => raise ValueError
  | Some _ =>
      if Nat.eqb x target then raise ValueError else
      n <- take x ;;
      still_there target ;;
      modify (on_all (splice_after target n))
  end.

(** [parent.insert(0, x)] *)
Definition insert_first (parent x : ident) : M soup unit :=
  if Nat.eqb x parent then raise ValueError else
  n <- take x ;;
  still_there parent ;;
  modify (on_all (recontent (fun cs => n :: cs) parent)).

(** [parent.append(x)] *)
Definition append (parent x : ident) : M soup unit :=
  if Nat.eqb x parent then raise ValueError else
  n <- take x ;;
  still_there parent ;;
  modify (on_all (recontent (fun cs => cs ++ [n]) parent)).

(** [old.replace_with(new)]: [new] takes the place of [old], and
    [old] stays alive, detached. *)
Definition replace_with (old new : ident) : M soup unit :=
  s <- get ;;
  match parent_node old s with
  | None => raise ValueError
  | Some p =>
      if Nat.eqb new old then ret tt else
      if Nat.eqb new (node_id p) then raise ValueError else
      n <- take new ;;
      s1 <- get ;;
      match lookup old s1 with
      | None => raise Unrepresentable
      | Some o =>
          put (mkSoup (substitute old n (root s1))
                      (map (substitute old n) (limbo s1) ++ [o])
                      (fresh s1))
      end
  end.

(** [tag.string]: the single string below a chain of only children. *)
Fixpoint string_of (n : node) : option node :=
  match n with
  | Tag _ _ _ [c] =>
      match c with
      | NavigableString _ _ => Some c
      | Tag _ _ _ _ => string_of c
      end
  | _ => None
  end.

(** The first tag among the children: [_first_tag_child]. *)
Definition first_tag_child (parent : ident) (s : soup) : option ident :=
  head (find_all_children _is_tag parent s).

End Bs4.

(** ** The converter: logo predicates *)

Definition logo_canonical_remote : string :=
  "https://docs.oasis-open.org/templates/OASISLogo-v3.0.png".

(** [logo_ok_src_regex.match(src)] for the pattern
    [.*/OASISLogo-v3\.0\.png$] with [re.IGNORECASE]: some text without a
    line feed, then the file name in any letter case, then the end of
    the text, or a last line feed and the end. *)
Definition ends_with_logo_name (t : string) : bool :=
  let k := String.length t - 19 in
  (19 <=? String.length t)%nat
  && negb (Py.has_char "010" (Py.take k t))
  && String.eqb (Py.lower (Py.drop k t)) (Py.lower "/OASISLogo-v3.0.png").

Definition logo_ok_src_regex_match (src : string) : bool :=
  ends_with_logo_name src
  || (String.eqb (Py.drop (String.length src - 1) src) (String "010" EmptyString)
      && ends_with_logo_name (Py.take (String.length src - 1) src)).

Definition _looks_like_logo_src (src : string) : bool :=
  if negb (Py.truthy src) then false
  else Py.contains "OASISLogo-v3.0.png" src
       || String.eqb src logo_canonical_remote
       || logo_ok_src_regex_match src.

(** [x or ""] for the result of [tag.get]. *)
Definition or_empty (o : option string) : string := default EmptyString o.

Definition opt_eqb (a b : option ident) : bool :=
  match a, b with
  | Some x, Some y => Nat.eqb x y
  | None, None => true
  | _, _ => false
  end.

(** [soup.body or soup] *)
Definition body_or_soup (s : soup) : ident :=
  default (node_id (root s)) (Bs4.find (named "body") (node_id (root s)) s).

Definition _is_canonical_logo_img (img body : ident) : M soup bool :=
  s <- get ;;
  if negb (bool_decide (Bs4.name_of img s = Some "img")) then ret false else
  src0 <- Bs4.tag_get img "src" ;;
  alt0 <- Bs4.tag_get img "alt" ;;
  let src := Py.strip (or_empty src0) in
  let alt := Py.strip (or_empty alt0) in
  if negb (_looks_like_logo_src src && String.eqb alt "OASIS Logo") then ret false else
  match Bs4.parent_node img s with
  | Some parent =>
      if negb (named "p" parent
               && opt_eqb (Bs4.parent_of (node_id parent) s) (Some body))
      then ret false
      else ret (opt_eqb (Some (node_id parent)) (Bs4.first_tag_child body s))
  | None => ret false
  end.

(** The test of lines 306 and 350: every child is an [img] tag or a
    string that is blank once stripped (the rendering of a tag is never
    blank). *)
Definition only_imgs_and_blanks (cs : list node) : bool :=
  forallb (fun x => match x with
                    | Tag _ nm _ _ => String.eqb nm "img"
                    | NavigableString _ t => String.eqb (Py.strip t) ""
                    end) cs.

(** Lines 303 and 347: what makes an image a logo candidate. *)
Definition is_logo_candidate (src alt : string) : bool :=
  Py.contains "OASISLogo" src || String.eqb (Py.strip alt) "OASIS Logo".

(** Lines 305-309 and 349-353: the removal of one candidate. *)
Definition remove_candidate (img : ident) : M soup unit :=
  s <- get ;;
  match Bs4.parent_node img s with
  | Some p =>
      if named "p" p && only_imgs_and_blanks (contents_of p)
      then Bs4.decompose (node_id p)
      else Bs4.decompose img
  | None => Bs4.decompose img
  end.

(** Lines 300-309 and 344-353: the sweep over the images collected
    beforehand. *)
Definition sweep_logo_candidates (body : ident) : M soup unit :=
  s <- get ;;
  for_each (Bs4.find_all (named "img") (node_id (root s)) s) (fun img =>
    src0 <- Bs4.tag_get img "src" ;;
    alt0 <- Bs4.tag_get img "alt" ;;
    let src := or_empty src0 in
    let alt := or_empty alt0 in
    if is_logo_candidate src alt then
      ok <- _is_canonical_logo_img img body ;;
      if ok then ret tt else remove_candidate img
    else ret tt).

(** Lines 330-334 and 339-343: [container] becomes the first element. *)
Definition put_first (body container : ident) : M soup unit :=
  s <- get ;;
  match Bs4.first_tag_child body s with
  | Some first_tag => Bs4.insert_before first_tag container
  | None => Bs4.insert_first body container
  end.

(** Lines 318-323: the first image with a logo source and the exact
    alternative text. *)
Definition existing_good_img (s : soup) : option ident :=
  Bs4.find (fun d => named "img" d
                     && _looks_like_logo_src (or_empty (attrs_of d !! "src"))
                     && String.eqb (or_empty (attrs_of d !! "alt")) "OASIS Logo")
           (node_id (root s)) s.

Definition _enforce_single_oasis_logo : M soup unit :=
  s0 <- get ;;
  let body := body_or_soup s0 in
  sweep_logo_candidates body ;;
  s <- get ;;
  current_good <-
    match Bs4.first_tag_child body s with
    | Some first_el =>
        if bool_decide (Bs4.name_of first_el s = Some "p") then
          match (match Bs4.find_child (named "img") first_el s with
                 | Some i => Some i
                 | None => Bs4.find (named "img") first_el s
                 end) with
          | Some maybe_img =>
              ok <- _is_canonical_logo_img maybe_img body ;;
              ret (if ok then Some first_el else None)
          | None => ret None
          end
        else ret None
    | None => ret None
    end ;;
  match current_good with
  | Some _ => ret tt
  | None =>
      match existing_good_img s with
      | Some good =>
          container <-
            (let wrap : M soup ident :=
               c <- Bs4.new_tag "p" ∅ ;;
               Bs4.replace_with good c ;;
               Bs4.append c good ;;
               ret c in
             match Bs4.parent_node good s with
             | Some p => if named "p" p then ret (node_id p) else wrap
             | None => wrap
             end) ;;
          put_first body container
      | None =>
          p <- Bs4.new_tag "p" ∅ ;;
          img <- Bs4.new_tag "img" (<["src" := logo_canonical_remote]> (<["alt" := "OASIS Logo"]> ∅)) ;;
          Bs4.append p img ;;
          put_first body p
      end
  end ;;
  sweep_logo_candidates body.

(** ** The banner pass *)

Definition heading_names : list string :=
  ["h1"; "h1big"; "h2"; "h3"; "h4"; "h5"; "h6"].

Definition is_heading (n : node) : bool :=
  match n with
  | Tag _ nm _ _ => existsb (String.eqb nm) heading_names
  | NavigableString _ _ => false
  end.

(** [x == y] of bs4: two tags are equal when name, attributes and
    contents are, whatever their identity; two strings when their text
    is; a tag never equals a string. *)
Fixpoint node_eq (x y : node) : bool :=
  match x, y with
  | NavigableString _ t, NavigableString _ u => String.eqb t u
  | Tag _ n1 a1 c1, Tag _ n2 a2 c2 =>
      String.eqb n1 n2 && bool_decide (a1 = a2)
      && (fix all2 (l1 l2 : list node) : bool :=
            match l1, l2 with
            | [], [] => true
            | u :: l1', v :: l2' => node_eq u v && all2 l1' l2'
            | _, _ => false
            end) c1 c2
  | _, _ => false
  end.

(** Truth value of a node: a tag is true, a string is true when not empty. *)
Definition node_truthy (n : node) : bool :=
  match n with
  | Tag _ _ _ _ => true
  | NavigableString _ t => Py.truthy t
  end.

(** The nodes after [i] among the [contents] of its parent:
    [i.next_siblings]. *)
Fixpoint after_id (i : ident) (cs : list node) : list node :=
  match cs with
  | [] => []
  | c :: r => if has_id i c then r else after_id i r
  end.

Definition next_siblings (i : ident) (s : soup) : list node :=
  match Bs4.parent_node i s with
  | Some p => after_id i (contents_of p)
  | None => []
  end.

(** Lines 359-363: the first paragraph child of the body whose first
    image child is the canonical logo. *)
Fixpoint find_logo_p (body : ident) (ps : list ident) : M soup (option ident) :=
  match ps with
  | [] => ret None
  | p_tag :: rest =>
      s <- get ;;
      match Bs4.find_child (named "img") p_tag s with
      | Some img =>
          ok <- _is_canonical_logo_img img body ;;
          if ok then ret (Some p_tag) else find_logo_p body rest
      | None => find_logo_p body rest
      end
  end.

(** Lines 375-383: the walk from the logo paragraph to the heading.
    The siblings are those read when the walk starts: destroying one
    leaves the ones after it as they are. *)
Fixpoint drop_stray_hrs (first_heading : node) (sibs : list node) : M soup unit :=
  match sibs with
  | [] => ret tt
  | nd :: rest =>
      if negb (node_truthy nd) || node_eq nd first_heading then ret tt
      else if named "hr" nd then
        Bs4.decompose (node_id nd) ;; drop_stray_hrs first_heading rest
      else drop_stray_hrs first_heading rest
  end.

(** Lines 384-386: the first tag after the logo paragraph; the walk
    ends on an empty string as on the end of the siblings. *)
Fixpoint first_elem (sibs : list node) : option node :=
  match sibs with
  | [] => None
  | nd :: rest =>
      if negb (node_truthy nd) then None
      else if _is_tag nd then Some nd else first_elem rest
  end.

Definition avoid_break : string := "page-break-before: avoid".

Definition is_styled_hr (n : node) : bool :=
  named "hr" n && Py.contains avoid_break (default EmptyString (attrs_of n !! "style")).

(** [next_elem != first_heading], where [next_elem] may be [None]. *)
Definition differs (next_elem : option node) (first_heading : node) : bool :=
  match next_elem with
  | Some e => negb (node_eq e first_heading)
  | None => true
  end.

(** The outcome of the banner pass besides the tree: done, or skipped
    with one of the two warnings. *)
Inductive banner_result := BannerFixed | NoLogoParagraph | NoHeading.

Definition _fix_top_banner_block : M soup banner_result :=
  s0 <- get ;;
  let body := body_or_soup s0 in
  found <- find_logo_p body (Bs4.find_all_children (named "p") body s0) ;;
  match found with
  | None => ret NoLogoParagraph
  | Some logo_p =>
      match List.find is_heading (List.filter _is_tag (next_siblings logo_p s0)) with
      | None => ret NoHeading
      | Some first_heading =>
          drop_stray_hrs first_heading (next_siblings logo_p s0) ;;
          s1 <- get ;;
          let next_elem := first_elem (next_siblings logo_p s1) in
          (if negb (match next_elem with Some e => is_styled_hr e | None => false end)
              && differs next_elem first_heading
           then
             styled_hr <- Bs4.new_tag "hr" ∅ ;;
             Bs4.setitem styled_hr "style" avoid_break ;;
             Bs4.insert_after logo_p styled_hr
           else ret tt) ;;
          (if named "h1" first_heading
           then Bs4.set_name (node_id first_heading) "h1big"
           else ret tt) ;;
          ret BannerFixed
      end
  end.

(** ** The duplicate heading-anchor pass *)

Definition anchor_with_id (heading_id : string) (d : node) : bool :=
  named "a" d && bool_decide (attrs_of d !! "id" = Some heading_id).

Definition _remove_duplicate_heading_anchors : M soup unit :=
  s0 <- get ;;
  for_each (Bs4.find_all is_heading (node_id (root s0)) s0) (fun heading =>
    got <- Bs4.tag_get heading "id" ;;
    match got with
    | Some heading_id =>
        if Py.truthy heading_id then
          s <- get ;;
          for_each (Bs4.find_all (anchor_with_id heading_id) heading s) (fun anchor =>
            s' <- get ;;
            match Bs4.lookup anchor s' ≫= Bs4.string_of with
            | Some (NavigableString t txt) =>
                if Py.truthy txt then Bs4.replace_with anchor t
                else Bs4.decompose anchor
            | _ => Bs4.decompose anchor
            end)
        else ret tt
    | None => ret tt
    end).

(** ** The passes that parse URLs *)

Section WithUrlparse.

(** [urllib.parse.urlparse], a function of the Python library. *)
Variable urlparse : string -> outcome ParseResult.

(** Lines 213-221. *)
Definition same_doc (p : ParseResult) (output_basename : string) : bool :=
  if negb (Py.truthy (scheme p)) && negb (Py.truthy (netloc p)) then
    String.eqb (path p) "" || String.eqb (Py.basename (path p)) output_basename
  else String.eqb (Py.basename (path p)) output_basename.

Definition has_attr (k : string) (d : node) : bool :=
  bool_decide (is_Some (attrs_of d !! k)).

(** The filter of [find_all("a", href=True)]. *)
Definition is_anchor (d : node) : bool := named "a" d && has_attr "href" d.

(** Lines 200-228: the body of the loop, for one anchor. *)
Definition normalize_anchor (output_basename : string) (a : ident) : M soup unit :=
  raw <- Bs4.getitem a "href" ;;
  let href := Py.strip raw in
  if negb (Py.truthy href) then ret tt else
  if Py.startswith "#" href then Bs4.attrs_pop a "target" else
  p <- lift_outcome (urlparse href) ;;
  if negb (Py.truthy (fragment p)) then ret tt else
  if same_doc p output_basename then
    Bs4.setitem a "href" ("#" +:+ fragment p) ;;
    Bs4.attrs_pop a "target"
  else ret tt.

(** What the loop body does to the attribute dictionary of one anchor,
    and how it ends: used to state the effect of the pass. *)
Definition normalized_attrs (output_basename : string) (a : gmap string string)
  : outcome unit * gmap string string :=
  match a !! "href" with
  | None => (Raised KeyError, a)
  | Some raw =>
      let href := Py.strip raw in
      if negb (Py.truthy href) then (Done tt, a) else
      if Py.startswith "#" href then (Done tt, delete "target" a) else
      match urlparse href with
      | Raised e => (Raised e, a)
      | Done p =>
          if negb (Py.truthy (fragment p)) then (Done tt, a) else
          if same_doc p output_basename
          then (Done tt, delete "target" (<["href" := "#" +:+ fragment p]> a))
          else (Done tt, a)
      end
  end.

(** Every [href] of an anchor of the document is parsed without error. *)
Definition hrefs_parse (s : soup) : bool :=
  forallb (fun d => match attrs_of d !! "href" with
                    | Some raw => match urlparse (Py.strip raw) with
                                  | Done _ => true
                                  | Raised _ => false
                                  end
                    | None => true
                    end)
          (List.filter (named "a") (descendants (root s))).

(** The [href], trimmed as the pass reads it, is not empty and parses
    to [p], whose fragment is not empty. *)
Definition carries_fragment (raw : string) (p : ParseResult) : Prop :=
  Py.strip raw <> "" /\ urlparse (Py.strip raw) = Done p /\ fragment p <> "".

Definition _normalize_same_doc_anchors_for_web (output_basename : string) : M soup unit :=
  s <- get ;;
  for_each (Bs4.find_all is_anchor (node_id (root s)) s)
           (normalize_anchor output_basename).

End WithUrlparse.

(** ** The world of a run: document, files, log, network *)

Inductive level := DEBUG | INFO | WARNING | ERROR.

(** [dom] is the parsed document; [files] the paths that exist on disk;
    [log] the records written so far, oldest first; [requests] the URLs
    fetched so far, oldest first. *)
Record world := mkWorld {
  dom : soup;
  files : gset string;
  log : list (level * string);
  requests : list string }.

Definition on_dom {A} (m : M soup A) : M world A :=
  fun w => let '(r, d) := m (dom w) in (r, mkWorld d (files w) (log w) (requests w)).

Definition logger (l : level) (msg : string) : M world unit :=
  modify (fun w => mkWorld (dom w) (files w) (log w ++ [(l, msg)]) (requests w)).

(** [open(path, "wb").write(...)]: the file exists afterwards. The
    write itself is taken to succeed. *)
Definition write_file (path : string) : M world unit :=
  modify (fun w => mkWorld (dom w) ({[path]} ∪ files w) (log w) (requests w)).

(** The fields of the converter that the post-processing reads. *)
Record converter := mkConverter {
  output_file : string;
  meta_description : string;
  images_dir : string;
  styles_dir : string;
  abs_doc_scheme : string;
  abs_doc_netloc : string;
  _abs_doc_dir : string }.

Definition images_subdir : string := "images".
Definition styles_subdir : string := "styles".

Section WithEnvironment.

Variable urlparse : string -> outcome ParseResult.

(** [requests.get(url, timeout=10)] followed by [raise_for_status()]:
    the answer to a request, given the requests made before it;
    [None] stands for a [RequestException]. *)
Variable fetch : list string -> string -> option string.

(** The value of the environment variable [HTML_LOCALIZE_CSS]. *)
Variable HTML_LOCALIZE_CSS : string.

Variable self : converter.

(** [r = requests.get(url, timeout=10); r.raise_for_status()] *)
Definition requests_get (url : string) : M world (option string) :=
  w <- get ;;
  put (mkWorld (dom w) (files w) (log w) (requests w ++ [url])) ;;
  ret (fetch (requests w) url).

Definition http_scheme (p : ParseResult) : bool :=
  String.eqb (scheme p) "http" || String.eqb (scheme p) "https".

Definition or_else (s d : string) : string := if Py.truthy s then s else d.

(** The filters of [find_all("img", src=True)] and of
    [find_all("link", rel=True, href=True)]. *)
Definition is_img_src (d : node) : bool := named "img" d && has_attr "src" d.

Definition is_stylesheet_link (d : node) : bool :=
  named "link" d && has_attr "rel" d && has_attr "href" d.

(** Line 452: the first word of [rel], in lower case, is [stylesheet]. *)
Definition rel_is_stylesheet (atr : gmap string string) : bool :=
  String.eqb (Py.lower (Py.first_word (or_empty (atr !! "rel")))) "stylesheet".

(** Lines 470-487: the body of the loop, for one image. *)
Definition localize_image (img : ident) : M world unit :=
  raw <- on_dom (Bs4.getitem img "src") ;;
  let src := Py.strip raw in
  pr <- lift_outcome (urlparse src) ;;
  if http_scheme pr then
    let image_filename := or_else (Py.basename (path pr)) "image" in
    let local_image_path := Py.path_join (images_dir self) image_filename in
    w <- get ;;
    got <-
      (if bool_decide (local_image_path ∈ files w) then ret true
       else
         logger INFO ("Downloading image " +:+ src +:+ " -> " +:+ local_image_path) ;;
         r <- requests_get src ;;
         match r with
         | Some _ => write_file local_image_path ;; ret true
         | None =>
             logger ERROR ("Failed to download image " +:+ src) ;;
             on_dom (Bs4.decompose img) ;;
             ret false
         end) ;;
    if got then
      on_dom (Bs4.setitem img "src" (Py.path_join images_subdir image_filename)) ;;
      w' <- get ;;
      if bool_decide (is_Some (Bs4.lookup img (dom w') ≫= fun d => attrs_of d !! "srcset"))
      then on_dom (Bs4.attrs_pop img "srcset") else ret tt
    else ret tt
  else ret tt.

(** Lines 469-487. *)
Definition localize_images : M world unit :=
  w <- get ;;
  for_each (Bs4.find_all is_img_src (node_id (root (dom w))) (dom w)) localize_image.

(** Lines 452-467: the body of the loop, for one [link]. *)
Definition localize_stylesheet (link : ident) : M world unit :=
  rel <- on_dom (Bs4.tag_get link "rel") ;;
  if negb (String.eqb (Py.lower (Py.first_word (or_empty rel))) "stylesheet") then ret tt else
  raw <- on_dom (Bs4.getitem link "href") ;;
  let href := Py.strip raw in
  pr <- lift_outcome (urlparse href) ;;
  if http_scheme pr then
    let css_name := or_else (Py.basename (path pr)) "style.css" in
    let local_css := Py.path_join (styles_dir self) css_name in
    w <- get ;;
    got <-
      (if bool_decide (local_css ∈ files w) then ret true
       else
         logger INFO ("Downloading CSS " +:+ href +:+ " -> " +:+ local_css) ;;
         r <- requests_get href ;;
         match r with
         | Some _ => write_file local_css ;; ret true
         | None => logger ERROR ("Failed to download CSS: " +:+ href) ;; ret false
         end) ;;
    if got then on_dom (Bs4.setitem link "href" (Py.path_join styles_subdir css_name))
    else ret tt
  else ret tt.

(** [os.getenv("HTML_LOCALIZE_CSS", "").lower() in {"1", "true", "yes"}] *)
Definition localize_css_enabled : bool :=
  let v := Py.lower HTML_LOCALIZE_CSS in
  String.eqb v "1" || String.eqb v "true" || String.eqb v "yes".

(** Lines 449-467. *)
Definition localize_stylesheets : M world unit :=
  if localize_css_enabled then
    w <- get ;;
    for_each (Bs4.find_all is_stylesheet_link (node_id (root (dom w))) (dom w))
             localize_stylesheet
  else ret tt.

(** The names used to state what the localization does. *)
Definition image_name (pr : ParseResult) : string := or_else (Py.basename (path pr)) "image".
Definition image_path (pr : ParseResult) : string := Py.path_join (images_dir self) (image_name pr).
Definition localized_img (pr : ParseResult) (atr : gmap string string) : gmap string string :=
  delete "srcset" (<["src" := Py.path_join images_subdir (image_name pr)]> atr).
Definition failed_image (src : string) : level * string :=
  (ERROR, "Failed to download image " +:+ src).

Definition css_name (pr : ParseResult) : string := or_else (Py.basename (path pr)) "style.css".
Definition css_path (pr : ParseResult) : string := Py.path_join (styles_dir self) (css_name pr).
Definition failed_css (href : string) : level * string :=
  (ERROR, "Failed to download CSS: " +:+ href).

(** The image [j] is in the document, with these attributes and no children. *)
Definition live_img (d : soup) (j : ident) (atr : gmap string string) : Prop :=
  find_node j (root d) = Some (Tag j "img" atr []).

(** What a step on the image [i] leaves as it was. *)
Definition framed (i : ident) (w w' : world) : Prop :=
  node_id (root (dom w')) = node_id (root (dom w)) /\
  NoDup (ids (root (dom w'))) /\
  (forall k, find_node k (root (dom w)) = None -> find_node k (root (dom w')) = None) /\
  (forall k atr, k <> i -> live_img (dom w) k atr -> live_img (dom w') k atr) /\
  incl (log w) (log w') /\ incl (requests w) (requests w') /\ files w ⊆ files w'.

(** A live image with a source that parses. *)
Definition ready (w : world) (j : ident) : Prop :=
  exists atr raw pr, live_img (dom w) j atr /\ atr !! "src" = Some raw
                     /\ urlparse (Py.strip raw) = Done pr.

(** Every [img] element is empty, as the HTML parser makes it. *)
Definition imgs_void (d : soup) : bool :=
  forallb (fun x => negb (named "img" x) || match contents_of x with [] => true | _ => false end)
          (descendants (root d)).

(** Every [src] of an image, every [href] of a [link], parses without error. *)
Definition srcs_parse (d : soup) : bool :=
  forallb (fun x => match attrs_of x !! "src" with
                    | Some raw => match urlparse (Py.strip raw) with
                                  | Done _ => true
                                  | Raised _ => false
                                  end
                    | None => true
                    end)
          (List.filter (named "img") (descendants (root d))).

Definition links_parse (d : soup) : bool :=
  forallb (fun x => match attrs_of x !! "href" with
                    | Some raw => match urlparse (Py.strip raw) with
                                  | Done _ => true
                                  | Raised _ => false
                                  end
                    | None => true
                    end)
          (List.filter (named "link") (descendants (root d))).

(** What a step on the link [i] leaves as it was. *)
Definition framed_link (i : ident) (w w' : world) : Prop :=
  NoDup (ids (root (dom w'))) /\
  (forall k, k <> i -> tag_at k (root (dom w')) = tag_at k (root (dom w))) /\
  incl (log w) (log w').

Definition ready_link (w : world) (j : ident) : Prop :=
  exists atr raw pr, tag_at j (root (dom w)) = Some ("link", atr) /\ atr !! "href" = Some raw
                     /\ urlparse (Py.strip raw) = Done pr.

End WithEnvironment.

(** ** The first steps of [_post_process_html] (lines 418-439) *)

(** [soup.header], [soup.nav], [soup.find("base")]: the first tag of
    that name in the document, destroyed when there is one. *)
Definition drop_first (nm : string) : M soup unit :=
  s <- get ;;
  match Bs4.find (named nm) (node_id (root s)) s with
  | Some i => Bs4.decompose i
  | None => ret tt
  end.

Definition meta_attrs (description : string) : gmap string string :=
  <["name" := "description"]> (<["content" := description]> ∅).

(** Lines 432-435, for one figure: a figure destroyed along with an
    enclosing one has no image left to find. *)
Definition drop_logo_figure (fig : ident) : M soup unit :=
  s <- get ;;
  match Bs4.find (named "img") fig s with
  | Some img =>
      src <- Bs4.tag_get img "src" ;;
      if _looks_like_logo_src (or_empty src) then Bs4.decompose fig else ret tt
  | None => ret tt
  end.

(** Lines 432-435: the figures are collected first. *)
Definition drop_logo_figures : M soup unit :=
  s0 <- get ;;
  for_each (Bs4.find_all (named "figure") (node_id (root s0)) s0) drop_logo_figure.

(** Lines 421-422: [soup.head] is [None] when there is no [head]. *)
Definition insert_meta (self : converter) : M soup unit :=
  meta_tag <- Bs4.new_tag "meta" (meta_attrs (meta_description self)) ;;
  s <- get ;;
  match Bs4.find (named "head") (node_id (root s)) s with
  | None => raise AttributeError
  | Some head => Bs4.insert_first head meta_tag
  end.

(** Lines 418-430: up to the removal of [base]. *)
Definition prelude_head (self : converter) : M soup unit :=
  drop_first "header" ;;
  insert_meta self ;;
  drop_first "base".

Definition post_process_prelude (self : converter) : M soup unit :=
  prelude_head self ;;
  drop_logo_figures ;;
  drop_first "nav".

(** * Sample documents *)

(** Four links in a body: a padded fragment link, a link to a section of
    the output document, a link to another page, an absolute link to a
    page of the same name. *)
Definition doc_links : soup := mkSoup
  (Tag 0 "[document]" ∅ [Tag 1 "html" ∅ [Tag 2 "body" ∅ [
     Tag 3 "a" (<["href" := " #sec"]> (<["target" := "_blank"]> ∅)) [NavigableString 4 "one"];
     Tag 5 "a" (<["href" := "doc.html#intro"]> (<["target" := "_top"]> ∅)) [NavigableString 6 "two"];
     Tag 7 "a" (<["href" := "other.html"]> (<["rel" := "next"]> ∅)) [NavigableString 8 "three"];
     Tag 9 "a" (<["href" := "https://example.org/x/doc.html#top"]> ∅) [NavigableString 10 "four"]]]])
  [] 11.

(** The rewriting of same-document fragment links, as the
    specification words it: whatever the [href] looked like, it ends as
    ["#"] followed by the fragment, without [target]. *)
Definition rewritten_to_bare (urlparse : string -> outcome ParseResult)
    (output_basename : string) (s s' : soup) : Prop :=
  forall i atr cs raw p,
    In (Tag i "a" atr cs) (descendants (root s)) ->
    atr !! "href" = Some raw ->
    carries_fragment urlparse raw p ->
    same_doc p output_basename = true ->
    exists atr', tag_at i (root s') = Some ("a", atr')
                 /\ atr' !! "href" = Some ("#" +:+ fragment p)
                 /\ atr' !! "target" = None.


(** A link to the top of the page whose [href] has a leading space. *)
Definition doc_padded_top : soup := mkSoup
  (Tag 0 "[document]" ∅ [Tag 1 "html" ∅ [Tag 2 "body" ∅ [
     Tag 3 "a" (<["href" := " #"]> (<["target" := "_blank"]> ∅)) [NavigableString 4 "top"]]]])
  [] 5.

(** The frame of the links without a fragment, as the specification
    words it: the [href] itself does not begin with [#] and has no
    fragment, before or after it is trimmed, and the anchor keeps all
    its attributes. *)
Definition fragmentless_left_alone (urlparse : string -> outcome ParseResult)
    (s s' : soup) : Prop :=
  forall i atr cs raw,
    In (Tag i "a" atr cs) (descendants (root s)) ->
    atr !! "href" = Some raw ->
    Py.startswith "#" raw = false ->
    (forall p, urlparse raw = Done p -> fragment p = "") ->
    (forall p, urlparse (Py.strip raw) = Done p -> fragment p = "") ->
    tag_at i (root s') = Some ("a", atr).

Definition logo_attrs : gmap string string :=
  <["src" := logo_canonical_remote]> (<["alt" := "OASIS Logo"]> ∅).

(** The logo in the first paragraph, then a paragraph with a chart and
    an old logo, then the title. *)
Definition doc_gallery : soup := mkSoup
  (Tag 0 "[document]" ∅ [Tag 1 "html" ∅ [Tag 2 "body" ∅ [
     Tag 3 "p" ∅ [Tag 4 "img" logo_attrs []];
     Tag 5 "p" ∅ [Tag 6 "img" (<["src" := "chart.png"]> (<["alt" := "Chart"]> ∅)) [];
                  Tag 7 "img" (<["src" := "OASISLogo-old.png"]> ∅) []];
     Tag 8 "h1" ∅ [NavigableString 9 "Title"]]]])
  [] 10.

(** The paragraph holds nothing but the image [img] and blank strings. *)
Definition only_that_image (img : ident) (cs : list node) : bool :=
  forallb (fun x => match x with
                    | Tag i nm _ _ => String.eqb nm "img" && Nat.eqb i img
                    | NavigableString _ t => String.eqb (Py.strip t) ""
                    end) cs.

(** The removal of candidates, as the specification words it: the
    paragraph of a removed candidate goes as a whole exactly when it
    holds only that image and blanks; otherwise its other children stay. *)
Definition removal_as_stated (s s' : soup) : Prop :=
  forall img a p,
    In (Tag img "img" a []) (descendants (root s)) ->
    is_logo_candidate (or_empty (a !! "src")) (or_empty (a !! "alt")) = true ->
    find_node img (root s') = None ->
    parent_in img (root s) = Some p ->
    named "p" p = true ->
    (find_node (node_id p) (root s') = None <-> only_that_image img (contents_of p) = true)
    /\ (only_that_image img (contents_of p) = false ->
        forall c, In c (contents_of p) -> has_id img c = false ->
                  find_node (node_id c) (root s') = Some c).

Definition splice_list (L : ident) (new : node) (cs : list node) : list node :=
  flat_map (fun c => if has_id L c then [splice_after L new c; new] else [splice_after L new c]) cs.

(** [new] put after the child of identity [L]. *)
Definition put_after (L : ident) (new : node) (cs : list node) : list node :=
  flat_map (fun c => if has_id L c then [c; new] else [c]) cs.

(** The siblings left by [drop_stray_hrs]. *)
Fixpoint stray_free (first_heading : node) (sibs : list node) : list node :=
  match sibs with
  | [] => []
  | nd :: rest =>
      if negb (node_truthy nd) || node_eq nd first_heading then sibs
      else if named "hr" nd then stray_free first_heading rest
      else nd :: stray_free first_heading rest
  end.

Definition styled_rule (i : ident) : node := Tag i "hr" (<["style" := avoid_break]> ∅) [].

Definition promote_heading (H : node) (n : node) : node :=
  if named "h1" H then retag (fun '(_, a) => ("h1big", a)) (node_id H) n else n.


(** The logo paragraph directly followed by the title. *)
Definition doc_banner : soup := mkSoup
  (Tag 0 "[document]" ∅ [Tag 1 "html" ∅ [Tag 2 "body" ∅ [
     Tag 3 "p" ∅ [Tag 4 "img" logo_attrs []];
     Tag 5 "h1" ∅ [NavigableString 6 "Title"]]]])
  [] 7.

(** The logo paragraph, a stray rule, a paragraph, the title. *)
Definition doc_stray : soup := mkSoup
  (Tag 0 "[document]" ∅ [Tag 1 "html" ∅ [Tag 2 "body" ∅ [
     Tag 3 "p" ∅ [Tag 4 "img" logo_attrs []];
     Tag 5 "hr" ∅ [];
     Tag 6 "p" ∅ [NavigableString 7 "Draft"];
     Tag 8 "h1" ∅ [NavigableString 9 "Title"]]]])
  [] 10.

(** The insertion of the rule, as the specification words it: once the
    stray rules are gone, a styled rule is put right after the logo
    paragraph [L] whenever the element that follows it is not one. *)
Definition rule_inserted_as_stated (s s' : soup) (L : ident) (H : node) : Prop :=
  match first_elem (stray_free H (next_siblings L s)) with
  | Some e => is_styled_hr e
  | None => false
  end = false ->
  exists i, head (next_siblings L s') = Some (styled_rule i).


(** Two copies of the logo in the first paragraph of the body. *)
Definition doc_two_logos : soup := mkSoup
  (Tag 0 "[document]" ∅ [Tag 1 "html" ∅ [Tag 2 "body" ∅ [
     Tag 3 "p" ∅ [Tag 4 "img" logo_attrs []; Tag 5 "img" logo_attrs []];
     Tag 6 "h1" ∅ [NavigableString 7 "Title"]]]])
  [] 8.

(** A picture, then the logo, in the first paragraph of the body. *)
Definition doc_logo_second : soup := mkSoup
  (Tag 0 "[document]" ∅ [Tag 1 "html" ∅ [Tag 2 "body" ∅ [
     Tag 3 "p" ∅ [Tag 4 "img" (<["src" := "a.png"]> ∅) []; Tag 5 "img" logo_attrs []];
     Tag 6 "h1" ∅ [NavigableString 7 "Title"]]]])
  [] 8.

(** The images of the document that are the logo: a logo source and
    the exact alternative text. *)
Definition logo_images (s : soup) : list ident :=
  Bs4.find_all (fun d => named "img" d
                         && _looks_like_logo_src (or_empty (attrs_of d !! "src"))
                         && String.eqb (or_empty (attrs_of d !! "alt")) "OASIS Logo")
               (node_id (root s)) s.

(** [tag.get_text()]: the strings below the node, joined. *)
Fixpoint get_text (n : node) : string :=
  match n with
  | NavigableString _ t => t
  | Tag _ _ _ cs => fold_right (fun c r => get_text c +:+ r) EmptyString cs
  end.

(** A heading whose anchor, of the same [id], holds a number and an
    emphasised word. *)
Definition doc_heading : soup := mkSoup
  (Tag 0 "[document]" ∅ [Tag 1 "html" ∅ [Tag 2 "body" ∅ [
     Tag 3 "h2" (<["id" := "intro"]> ∅) [
       Tag 4 "a" (<["id" := "intro"]> ∅) [
         NavigableString 5 "1 ";
         Tag 6 "em" ∅ [NavigableString 7 "Introduction"]]]]]])
  [] 8.

(** A heading whose anchor, of the same [id], holds one string. *)
Definition doc_heading_plain : soup := mkSoup
  (Tag 0 "[document]" ∅ [Tag 1 "html" ∅ [Tag 2 "body" ∅ [
     Tag 3 "h2" (<["id" := "intro"]> ∅) [
       Tag 4 "a" (<["id" := "intro"]> ∅) [NavigableString 5 "1 Introduction"]]]]])
  [] 6.


Definition sample_converter : converter :=
  mkConverter "out/doc.html" "A sample" "out/images" "out/styles"
              "https" "docs.oasis-open.org" "/d/".

(** A network on which every request fails. *)
Definition no_network : list string -> string -> option string := fun _ _ => None.

(** A remote style sheet and three images: a remote one, a remote one
    whose file is already on disk, a local one. *)
Definition world_images : world := mkWorld
  (mkSoup
     (Tag 0 "[document]" ∅ [Tag 1 "html" ∅ [
        Tag 2 "head" ∅ [
          Tag 6 "link" (<["rel" := "stylesheet"]>
                        (<["href" := "https://example.org/s/site.css"]> ∅)) []];
        Tag 7 "body" ∅ [
          Tag 3 "img" (<["src" := "https://example.org/a.png"]> ∅) [];
          Tag 4 "img" (<["src" := "https://example.org/b.png"]>
                       (<["srcset" := "https://example.org/b2.png 2x"]> ∅)) [];
          Tag 5 "img" (<["src" := "local.png"]> ∅) []]]])
     [] 8)
  {["out/images/b.png"]} [] [].

(** The first node below [n], in document order, that satisfies [p]. *)
Definition first_match (p : node -> bool) (n : node) : option node :=
  List.find p (descendants n).

Definition first_id (p : node -> bool) (n : node) : option ident :=
  node_id <$> first_match p n.

(** [x] is gone, or is still the first of its kind. *)
Definition gone_or_first (p : node -> bool) (x : ident) (n : node) : Prop :=
  find_node x n = None \/ first_id p n = Some x.

(** What a run of removals makes of a store. *)
Inductive pruned : soup -> soup -> Prop :=
| pruned_refl s : pruned s s
| pruned_step s i s' : pruned (Bs4.detach i s) s' -> pruned s s'.

(** A figure whose first image has a logo-like source. *)
Definition logo_figure (y : node) : bool :=
  match first_match (named "img") y with
  | Some im => _looks_like_logo_src (or_empty (attrs_of im !! "src"))
  | None => false
  end.

(** A page with a [base] in its head and, in its body, a header, a
    table of contents, a figure around the logo, and a figure around a
    chart followed by the logo. *)
Definition doc_prelude : soup := mkSoup
  (Tag 0 "[document]" ∅ [Tag 1 "html" ∅ [
     Tag 2 "head" ∅ [Tag 3 "base" (<["href" := "https://example.org/"]> ∅) []];
     Tag 4 "body" ∅ [
       Tag 5 "header" ∅ [Tag 6 "h1" ∅ [NavigableString 7 "Title"]];
       Tag 8 "nav" ∅ [NavigableString 9 "Contents"];
       Tag 10 "figure" ∅ [Tag 11 "img" logo_attrs []];
       Tag 12 "figure" ∅ [Tag 13 "img" (<["src" := "chart.png"]> ∅) [];
                          Tag 14 "img" logo_attrs []]]]])
  [] 15.

(** A page without a [head]. *)
Definition doc_headless : soup := mkSoup
  (Tag 0 "[document]" ∅ [
     Tag 1 "nav" ∅ [NavigableString 2 "Contents"];
     Tag 3 "p" ∅ [NavigableString 4 "Text"]])
  [] 5.

(** The removal of figures, as the specification words it: a figure of
    the input with a logo-like image somewhere below it is not in the
    output. *)
Definition figures_removed_as_stated (s s' : soup) : Prop :=
  forall fig y im,
    find_node fig (root s) = Some y -> named "figure" y = true ->
    In im (descendants y) -> named "img" im = true ->
    _looks_like_logo_src (or_empty (attrs_of im !! "src")) = true ->
    Bs4.lookup fig s' = None.

(** ** Serializing and parsing again (lines 191, 446-447, 491) *)

(** Strings that follow one another are read back as one string. *)
Fixpoint merge_strings (cs : list node) : list node :=
  match cs with
  | [] => []
  | NavigableString i t :: r =>
      match merge_strings r with
      | NavigableString _ u :: r' => NavigableString i (t +:+ u) :: r'
      | r' => NavigableString i t :: r'
      end
  | c :: r => c :: merge_strings r
  end.

(** [ASCII_SPACES] of BeautifulSoup: space, line feed, tab, form feed,
    carriage return. *)
Definition ascii_space (c : ascii) : bool :=
  let n := nat_of_ascii c in
  Nat.eqb n 32 || Nat.eqb n 10 || Nat.eqb n 9 || Nat.eqb n 12 || Nat.eqb n 13.

(** [endData] of BeautifulSoup: a text made of [ASCII_SPACES] only is
    kept as one line feed when it holds one, as one space otherwise. *)
Definition collapse_blank (t : string) : string :=
  if Py.truthy t && Py.all_chars ascii_space t
  then (if Py.has_char "010" t then String "010" EmptyString else " ")
  else t.

(** [preserve_whitespace_tags] of the HTML tree builders. *)
Definition preserves_whitespace (nm : string) : bool :=
  String.eqb nm "pre" || String.eqb nm "textarea".

Definition collapse_string (keep : bool) (n : node) : node :=
  match n with
  | NavigableString i t => if keep then n else NavigableString i (collapse_blank t)
  | Tag _ _ _ _ => n
  end.

(** [DEFAULT_CDATA_LIST_ATTRIBUTES] of the HTML tree builders: the
    attributes of the element [nm] whose value the parser reads as a
    list of words. *)
Definition list_valued (nm : string) : list string :=
  ["class"; "accesskey"; "dropzone"]
  ++ (if String.eqb nm "a" || String.eqb nm "link" then ["rel"; "rev"]
      else if String.eqb nm "td" || String.eqb nm "th" then ["headers"]
      else if String.eqb nm "form" then ["accept-charset"]
      else if String.eqb nm "object" then ["archive"]
      else if String.eqb nm "area" then ["rel"]
      else if String.eqb nm "icon" then ["sizes"]
      else if String.eqb nm "iframe" then ["sandbox"]
      else if String.eqb nm "output" then ["for"]
      else []).

(** A list of words is an attribute value here as it is written out:
    the words with one space between them. *)
Definition join_words (v : string) : string := Py.join_spaced (Py.words v).

Definition read_attrs (nm : string) (a : gmap string string) : gmap string string :=
  fold_right (fun k m => alter join_words k m) a (list_valued nm).

(** What [BeautifulSoup(str(n), "html.parser")] reads back for the node
    [n], with [keep] telling whether [n] is inside a [pre] or a
    [textarea]: an empty string leaves no text; strings that follow one
    another come back as one string, and outside [pre] and [textarea] a
    string of white space comes back as one character; a nested
    [BeautifulSoup] object (a tag named [[document]], as line 190
    appends) is rendered as its contents only; a list-valued attribute
    comes back as its words; the other texts and attribute values are
    escaped by [str] and unescaped by the parser, and come back as they
    were. The names are those a parser gave: lower case, and an element
    that the parser takes as void has no children. *)
Fixpoint read_back (keep : bool) (n : node) : list node :=
  match n with
  | NavigableString _ t => if String.eqb t "" then [] else [n]
  | Tag i nm a cs =>
      let keep' := keep || preserves_whitespace nm in
      let cs' := merge_strings (flat_map (read_back keep') cs) in
      if String.eqb nm "[document]" then cs'
      else [Tag i nm (read_attrs nm a) (map (collapse_string keep') cs')]
  end.

(** [BeautifulSoup(str(soup), "html.parser")]: a new document; the
    objects of the old one are out of reach. *)
Definition reparse (s : soup) : soup :=
  mkSoup (Tag (node_id (root s)) "[document]" ∅
              (map (collapse_string false)
                   (merge_strings (flat_map (read_back false) (contents_of (root s))))))
         [] (fresh s).

(** ** Plain URLs turned into links (lines 179-191) *)

(** A piece of the text of a paragraph: text outside the matches of
    [url_re], or one match. *)
Inductive piece := Plain (t : string) | Url (u : string).

(** Whether a match of [https?://[^\s<]+] starts at the head of [t]. *)
Definition url_starts (t : string) : bool :=
  let url_char (r : string) :=
    match r with
    | String c _ => negb (Py.isspace c) && negb (Ascii.eqb c "<")
    | EmptyString => false
    end in
  (Py.startswith "https://" t && url_char (Py.drop 8 t))
  || (Py.startswith "http://" t && url_char (Py.drop 7 t)).

Definition push (buf : string) (c : ascii) : string := buf +:+ String c EmptyString.

(** The matches of [url_re] in a text, from left to right and without
    overlap, with the text between them. [buf] is what has been read of
    the current piece; [in_url] tells whether that piece is a match. *)
Fixpoint split_urls (in_url : bool) (buf t : string) : list piece :=
  match t with
  | EmptyString => [if in_url then Url buf else Plain buf]
  | String c r =>
      if in_url then
        if Py.isspace c || Ascii.eqb c "<"
        then Url buf :: split_urls false (String c EmptyString) r
        else split_urls true (push buf c) r
      else if url_starts t
      then Plain buf :: split_urls true (String c EmptyString) r
      else split_urls false (push buf c) r
  end.

(** Line 188: every match [u] becomes [<a href="u">u</a>]. *)
Definition anchor_markup (u : string) : string :=
  "<a href=" +:+ String "034" EmptyString +:+ u +:+ String "034" EmptyString +:+ ">"
  +:+ u +:+ "</a>".

Definition new_html_of (ps : list piece) : string :=
  fold_right (fun p r => match p with Plain t => t | Url u => anchor_markup u end +:+ r)
             EmptyString ps.

(** The nodes that [BeautifulSoup(new_html, "html.parser")] makes of
    the pieces, for a text without markup characters: a string for a
    text that is not empty, read as [endData] reads it, and an anchor
    around its own address for a match. [k] is the next unused
    identity. *)
Fixpoint piece_nodes (k : ident) (ps : list piece) : list node * ident :=
  match ps with
  | [] => ([], k)
  | Plain t :: r =>
      if String.eqb t "" then piece_nodes k r
      else let '(ns, k') := piece_nodes (S k) r in
           (NavigableString k (collapse_blank t) :: ns, k')
  | Url u :: r =>
      let '(ns, k') := piece_nodes (S (S k)) r in
      (Tag k "a" (<["href" := u]> ∅) [NavigableString (S k) u] :: ns, k')
  end.

(** The characters that make the parser of line 190 read something
    else than text and the anchors of line 188: [<], [&] and the double
    quote. *)
Definition has_markup (t : string) : bool :=
  Py.has_char "<" t || Py.has_char "&" t || Py.has_char "034" t.

Section WithParser.

(** [BeautifulSoup(markup, "html.parser")] on a markup that holds [<],
    [&] or a double quote outside the anchors of line 188: the nodes it
    makes, numbered from the identity it is given, and the next unused
    identity. *)
Variable html_parser : string -> ident -> list node * ident.

(** Lines 183-190, for one paragraph. *)
Definition linkify_paragraph (p : ident) : M soup unit :=
  s <- get ;;
  match Bs4.lookup p s with
  | Some n =>
      if existsb _is_tag (descendants n) then ret tt else
      let text := get_text n in
      if negb (Py.contains "http" text) then ret tt else
      let pieces := split_urls false "" text in
      let '(new, k) := if has_markup text then html_parser (new_html_of pieces) (S (fresh s))
                       else piece_nodes (S (fresh s)) pieces in
      let inner := Tag (fresh s) "[document]" ∅ new in
      put (mkSoup (recontent (fun _ => [inner]) p (root s))
                  (map (recontent (fun _ => [inner]) p) (limbo s) ++ contents_of n)
                  k)
  | None => ret tt
  end.

(** Lines 179-191 and 447: parse, rewrite the paragraphs, serialize,
    parse. *)
Definition _convert_plain_urls_to_links : M soup unit :=
  modify reparse ;;
  s <- get ;;
  for_each (Bs4.find_all (named "p") (node_id (root s)) s) linkify_paragraph ;;
  modify reparse.

End WithParser.

(** ** Links made relative, and the whole of [_post_process_html] *)

Section WithPipeline.

Variable urlparse : string -> outcome ParseResult.
Variable html_parser : string -> ident -> list node * ident.
Variable fetch : list string -> string -> option string.
Variable HTML_LOCALIZE_CSS : string.
Variable self : converter.

(** Lines 230-241: the path of [url] below the directory of the
    published document, when it is on the same site and below it. *)
Definition _is_same_site_same_scope (url : string) : option string :=
  match urlparse url with
  | Raised _ => None
  | Done p =>
      if negb (Py.truthy (scheme p)) || negb (Py.truthy (netloc p)) then None else
      if negb (String.eqb (scheme p) (abs_doc_scheme self)
               && String.eqb (netloc p) (abs_doc_netloc self)) then None else
      if negb (Py.startswith (_abs_doc_dir self) (path p)) then None else
      Some (Py.drop (String.length (_abs_doc_dir self)) (path p))
  end.

(** [tail.lstrip("/")] *)
Definition lstrip_slash (t : string) : string := Py.lstrip_by (Ascii.eqb "/") t.

(** Lines 246-261, for one anchor. *)
Definition relativize_anchor (a : ident) : M soup unit :=
  raw <- Bs4.getitem a "href" ;;
  let href := Py.strip raw in
  if Py.startswith "#" href then ret tt else
  match _is_same_site_same_scope href with
  | None => ret tt
  | Some tail =>
      if negb (Py.truthy tail) then ret tt else
      pp <- lift_outcome (urlparse href) ;;
      if String.eqb (Py.basename (path pp)) (Py.basename (output_file self)) then
        (if Py.truthy (fragment pp)
         then Bs4.setitem a "href" ("#" +:+ fragment pp)
         else Bs4.setitem a "href" (Py.basename (path pp))) ;;
        Bs4.attrs_pop a "target"
      else Bs4.setitem a "href" (lstrip_slash tail)
  end.

(** Lines 263-274, for one element and the attribute [key]. *)
Definition relativize_attr (key : string) (i : ident) : M soup unit :=
  raw <- Bs4.getitem i key ;;
  match _is_same_site_same_scope (Py.strip raw) with
  | Some tail => if Py.truthy tail then Bs4.setitem i key (lstrip_slash tail) else ret tt
  | None => ret tt
  end.

Definition named_with (nm key : string) (d : node) : bool := named nm d && has_attr key d.

(** Lines 243-274. *)
Definition _relativize_same_scope_links : M soup unit :=
  s <- get ;;
  for_each (Bs4.find_all is_anchor (node_id (root s)) s) relativize_anchor ;;
  s <- get ;;
  for_each (Bs4.find_all (named_with "link" "href") (node_id (root s)) s)
           (relativize_attr "href") ;;
  s <- get ;;
  for_each (Bs4.find_all (named_with "script" "src") (node_id (root s)) s)
           (relativize_attr "src") ;;
  s <- get ;;
  for_each (Bs4.find_all (named_with "img" "src") (node_id (root s)) s)
           (relativize_attr "src").

(** Lines 414-493, from the parsed document to the document that is
    serialized at the end. [step] is the number shown in the log. *)
Definition _post_process_html (step : string) : M world unit :=
  logger INFO ("Step " +:+ step +:+ ": Post-processing HTML.") ;;
  on_dom (post_process_prelude self) ;;
  on_dom _enforce_single_oasis_logo ;;
  on_dom _fix_top_banner_block ;;
  on_dom _remove_duplicate_heading_anchors ;;
  on_dom (_normalize_same_doc_anchors_for_web urlparse (Py.basename (output_file self))) ;;
  on_dom (_convert_plain_urls_to_links html_parser) ;;
  localize_stylesheets urlparse fetch HTML_LOCALIZE_CSS self ;;
  localize_images urlparse fetch self ;;
  on_dom _relativize_same_scope_links ;;
  logger INFO ("Step " +:+ step +:+ ": Post-processing complete.").

(** The pass run on its own output: the text it returned is parsed. *)
Definition post_process_again (step : string) : M world unit :=
  on_dom (modify reparse) ;;
  _post_process_html step.

End WithPipeline.

(** A page with the logo on disk already and, in plain text, the
    address of a section of a page elsewhere that is named like the
    output. *)
Definition world_plain_url : world := mkWorld
  (mkSoup
     (Tag 0 "[document]" ∅ [Tag 1 "html" ∅ [
        Tag 2 "head" ∅ [];
        Tag 3 "body" ∅ [
          Tag 4 "p" ∅ [Tag 5 "img" logo_attrs []];
          Tag 6 "h1" ∅ [NavigableString 7 "Title"];
          Tag 8 "p" ∅ [NavigableString 9 "see http://example.com/other/doc.html#sec"]]]])
     [] 10)
  {["out/images/OASISLogo-v3.0.png"]} [] [].

(** Three remote images; the source of the second is not a URL that
    [urlparse] accepts. *)
Definition world_bad_src : world := mkWorld
  (mkSoup
     (Tag 0 "[document]" ∅ [Tag 1 "html" ∅ [Tag 2 "body" ∅ [
        Tag 3 "img" (<["src" := "https://example.org/a.png"]> ∅) [];
        Tag 4 "img" (<["src" := "http://[x"]> ∅) [];
        Tag 5 "img" (<["src" := "https://example.org/c.png"]> ∅) []]]])
     [] 6)
  ∅ [] [].

(** The failed download of an image, as the specification words it:
    whenever the fetch of an http(s) image fails at its turn, the image
    is gone at the end, the failure is in the log, and the pass has
    gone through the remaining images without an exception. *)
Definition failed_fetch_not_fatal (urlparse : string -> outcome ParseResult)
    (fetch : list string -> string -> option string) (self : converter) (w : world) : Prop :=
  forall pre img post atr raw pr,
    Bs4.find_all is_img_src (node_id (root (dom w))) (dom w) = pre ++ img :: post ->
    In (Tag img "img" atr []) (descendants (root (dom w))) ->
    atr !! "src" = Some raw ->
    urlparse (Py.strip raw) = Done pr ->
    http_scheme pr = true ->
    let w1 := snd (for_each pre (localize_image urlparse fetch self) w) in
    let w' := snd (localize_images urlparse fetch self w) in
    image_path self pr ∉ files w1 ->
    fetch (requests w1) (Py.strip raw) = None ->
    fst (localize_images urlparse fetch self w) = Done tt
    /\ find_node img (root (dom w')) = None
    /\ In (failed_image (Py.strip raw)) (log w').

(** The [href] of every anchor, in document order. *)
Definition anchor_hrefs (s : soup) : list (option string) :=
  map (fun d => attrs_of d !! "href") (List.filter (named "a") (descendants (root s))).

(** The anchors that repeat the [id] of a heading above them. *)
Definition duplicate_heading_anchors (s : soup) : list ident :=
  flat_map (fun h => match attrs_of h !! "id" with
                     | Some x => map node_id (List.filter (anchor_with_id x) (descendants h))
                     | None => []
                     end)
           (List.filter is_heading (descendants (root s))).

(** Idempotence, as the specification words it: between the output of
    a run and the output of a run on that output, the logo images, the
    [href] of the anchors and the anchors inside headings are the
    same. *)
Definition second_run_changes_nothing (w1 w2 : world) : Prop :=
  logo_images (dom w2) = logo_images (dom w1)
  /\ anchor_hrefs (dom w2) = anchor_hrefs (dom w1)
  /\ duplicate_heading_anchors (dom w2) = duplicate_heading_anchors (dom w1).

(** The output of a run on [world_plain_url], and the output of a run
    on that output. No request succeeds; the style sheets are left
    alone. *)
Definition first_output (html_parser : string -> ident -> list node * ident) : world :=
  snd (_post_process_html Urllib.urlparse html_parser no_network "" sample_converter "6"
         world_plain_url).

Definition second_output (html_parser : string -> ident -> list node * ident) : world :=
  snd (post_process_again Urllib.urlparse html_parser no_network "" sample_converter "6"
         (first_output html_parser)).

(** The answer of [_is_canonical_logo_img]. *)
Definition canonical (img body : ident) (s : soup) : bool :=
  match Bs4.lookup img s with
  | Some (Tag _ nm a _) =>
      String.eqb nm "img"
      && (_looks_like_logo_src (Py.strip (or_empty (a !! "src")))
          && String.eqb (Py.strip (or_empty (a !! "alt"))) "OASIS Logo")
      && match Bs4.parent_node img s with
         | Some parent =>
             named "p" parent
             && opt_eqb (Bs4.parent_of (node_id parent) s) (Some body)
             && opt_eqb (Some (node_id parent)) (Bs4.first_tag_child body s)
         | None => false
         end
  | _ => false
  end.

(** The node that the removal of the candidate [img] destroys. *)
Definition removal_target (img : ident) (s : soup) : ident :=
  match Bs4.parent_node img s with
  | Some p => if named "p" p && only_imgs_and_blanks (contents_of p) then node_id p else img
  | None => img
  end.

(** The body of the loop of lines 300-309 and 344-353. *)
Definition sweep_step (body img : ident) : M soup unit :=
  src0 <- Bs4.tag_get img "src" ;;
  alt0 <- Bs4.tag_get img "alt" ;;
  let src := or_empty src0 in
  let alt := or_empty alt0 in
  if is_logo_candidate src alt then
    ok <- _is_canonical_logo_img img body ;;
    if ok then ret tt else remove_candidate img
  else ret tt.

(** An image that is a candidate on its attributes. *)
Definition candidate_attrs (a : gmap string string) : bool :=
  is_logo_candidate (or_empty (a !! "src")) (or_empty (a !! "alt")).

(** The attributes of a well-formed logo image (line 292). *)
Definition logo_attrs_ok (a : gmap string string) : bool :=
  _looks_like_logo_src (Py.strip (or_empty (a !! "src")))
  && String.eqb (Py.strip (or_empty (a !! "alt"))) "OASIS Logo".

(** What [canonical] says of the tree: the image [img] has the
    attributes of the logo, its parent [p] is a paragraph, a child of
    [b], the node of identity [body], and the first tag among the
    children of [b]. *)
Definition canonical_at (img body : ident) (r : node) (a : gmap string string) (p b : node)
  : Prop :=
  tag_at img r = Some ("img", a) /\ logo_attrs_ok a = true
  /\ parent_in img r = Some p /\ named "p" p = true
  /\ node_id <$> parent_in (node_id p) r = Some body
  /\ find_node body r = Some b
  /\ head (map node_id (List.filter _is_tag (contents_of b))) = Some (node_id p).

(** What a sweep makes of a store: a run of removals, each of an image
    that is a candidate and is not canonical when its turn comes. *)
Inductive swept (body : ident) : soup -> soup -> Prop :=
| swept_refl s : swept body s s
| swept_step s x a cs s' :
    find_node x (root s) = Some (Tag x "img" a cs) ->
    candidate_attrs a = true -> canonical x body s = false ->
    swept body (Bs4.detach (removal_target x s) s) s' ->
    swept body s s'.

(** Lines 310-315: the first element of the body when it is a
    paragraph whose first image is canonical. *)
Definition first_good (body : ident) (s : soup) : option ident :=
  match Bs4.first_tag_child body s with
  | Some first_el =>
      if bool_decide (Bs4.name_of first_el s = Some "p") then
        match (match Bs4.find_child (named "img") first_el s with
               | Some i => Some i
               | None => Bs4.find (named "img") first_el s
               end) with
        | Some maybe_img => if canonical maybe_img body s then Some first_el else None
        | None => None
        end
      else None
  | None => None
  end.

(** Lines 317-343: a logo image is moved to the front, or made. *)
Definition place_logo (body : ident) (s : soup) : M soup unit :=
  match existing_good_img s with
  | Some good =>
      container <-
        (let wrap : M soup ident :=
           c <- Bs4.new_tag "p" ∅ ;;
           Bs4.replace_with good c ;;
           Bs4.append c good ;;
           ret c in
         match Bs4.parent_node good s with
         | Some p => if named "p" p then ret (node_id p) else wrap
         | None => wrap
         end) ;;
      put_first body container
  | None =>
      p <- Bs4.new_tag "p" ∅ ;;
      img <- Bs4.new_tag "img" (<["src" := logo_canonical_remote]> (<["alt" := "OASIS Logo"]> ∅)) ;;
      Bs4.append p img ;;
      put_first body p
  end.

(** Every image that is a candidate on its attributes is canonical. *)
Definition candidates_canonical (body : ident) (s : soup) : Prop :=
  forall img nm a,
    In img (Bs4.find_all (named "img") (node_id (root s)) s) ->
    tag_at img (root s) = Some (nm, a) -> candidate_attrs a = true ->
    canonical img body s = true.

(** [r'] is [r] with [P] put among the children [l1 ++ l2] of the tag
    [h], between [l1] and [l2]. *)
Inductive grafted (P : node) (h : ident) (nm : string) (a : gmap string string)
    (l1 l2 : list node) : node -> node -> Prop :=
| graft_here : grafted P h nm a l1 l2 (Tag h nm a (l1 ++ l2)) (Tag h nm a (l1 ++ P :: l2))
| graft_below k nm' a' m1 c c' m2 :
    grafted P h nm a l1 l2 c c' ->
    grafted P h nm a l1 l2 (Tag k nm' a' (m1 ++ c :: m2)) (Tag k nm' a' (m1 ++ c' :: m2)).

(** An image has no children. *)
Definition void_img (x : node) : bool :=
  negb (named "img" x) || match contents_of x with [] => true | _ => false end.

Definition new_logo_img (f : ident) : node :=
  Tag (S f) "img" (<["src" := logo_canonical_remote]> (<["alt" := "OASIS Logo"]> ∅)) [].

Definition new_logo_p (f : ident) : node := Tag f "p" ∅ [new_logo_img f].

(** The first tag among the children of [body], in the document. *)
Definition first_tag_in (body : ident) (r : node) : option ident :=
  match find_node body r with
  | Some b => head (map node_id (List.filter _is_tag (contents_of b)))
  | None => None
  end.

(** The paragraph made by the pass, of identity [f], is in the
    document as it was made, and is the first tag among the children of
    the body. *)
Definition logo_first (f body : ident) (r : node) : Prop :=
  find_node f r = Some (new_logo_p f)
  /\ exists nm a cs, find_node body r = Some (Tag body nm a cs)
       /\ head (map node_id (List.filter _is_tag cs)) = Some f
       /\ In (new_logo_p f) cs.

Definition all_void (r : node) : Prop := forall d, In d (descendants r) -> void_img d = true.

(** Every candidate is canonical and the first element of the body is
    a paragraph whose first image is canonical. *)
Definition logo_settled (s : soup) : Prop :=
  candidates_canonical (body_or_soup s) s /\ first_good (body_or_soup s) s <> None.

(** ** What the link pass makes of one element *)

(** The tree with every attribute dictionary emptied: what is left is
    the elements, their names, their order and the text. *)
Fixpoint bare (n : node) : node :=
  match n with
  | NavigableString i t => NavigableString i t
  | Tag i nm _ cs => Tag i nm ∅ (map bare cs)
  end.

Section Relativized.

Variable urlparse : string -> outcome ParseResult.
Variable self : converter.

(** Lines 246-261: the attributes of an anchor after its turn. *)
Definition relativized_anchor (a : gmap string string) : gmap string string :=
  match a !! "href" with
  | None => a
  | Some raw =>
      let href := Py.strip raw in
      if Py.startswith "#" href then a else
      match _is_same_site_same_scope urlparse self href with
      | None => a
      | Some tail =>
          if negb (Py.truthy tail) then a else
          match urlparse href with
          | Raised _ => a
          | Done pp =>
              if String.eqb (Py.basename (path pp)) (Py.basename (output_file self)) then
                delete "target"
                  (<["href" := if Py.truthy (fragment pp) then "#" +:+ fragment pp
                               else Py.basename (path pp)]> a)
              else <["href" := lstrip_slash tail]> a
          end
      end
  end.

(** Lines 263-274: the attributes of a [link], a [script] or an [img]
    after its turn, [key] being [href] or [src]. *)
Definition relativized_attr (key : string) (a : gmap string string) : gmap string string :=
  match a !! key with
  | None => a
  | Some raw =>
      match _is_same_site_same_scope urlparse self (Py.strip raw) with
      | Some tail => if Py.truthy tail then <[key := lstrip_slash tail]> a else a
      | None => a
      end
  end.

(** The four loops of lines 243-274 together, on the name and the
    attributes of an element. *)
Definition relativized (t : string * gmap string string) : string * gmap string string :=
  let '(nm, a) := t in
  (nm, if String.eqb nm "a" then relativized_anchor a
       else if String.eqb nm "link" then relativized_attr "href" a
       else if String.eqb nm "script" || String.eqb nm "img" then relativized_attr "src" a
       else a).

End Relativized.

(** Links to the page itself, to a file beside it, to another site, and
    an image and a style sheet of the site. *)
Definition doc_site : soup := mkSoup
  (Tag 0 "[document]" ∅ [Tag 1 "html" ∅ [
     Tag 2 "head" ∅ [
       Tag 3 "link" (<["rel" := "stylesheet"]>
                     (<["href" := "https://docs.oasis-open.org/csaf/v2/styles/site.css"]> ∅)) []];
     Tag 4 "body" ∅ [
       Tag 5 "a" (<["href" := "https://docs.oasis-open.org/csaf/v2/spec.html#intro"]>
                  (<["target" := "_blank"]> ∅)) [NavigableString 6 "intro"];
       Tag 7 "a" (<["href" := "https://docs.oasis-open.org/csaf/v2/schema/a.json"]>
                  (<["class" := "ref"]> ∅)) [NavigableString 8 "schema"];
       Tag 9 "a" (<["href" := "https://example.org/csaf/v2/spec.html"]> ∅)
             [NavigableString 10 "elsewhere"];
       Tag 11 "img" (<["src" := "https://docs.oasis-open.org/csaf/v2/images/fig.png"]>
                     (<["alt" := "Figure"]> ∅)) []]]])
  [] 12.

Definition site_converter : converter :=
  mkConverter "out/spec.html" "-" "out/images" "out/styles"
              "https" "docs.oasis-open.org" "/csaf/v2/".

(** What a step on the element [i] does when it changes attributes
    only: the element, named [nm], gets the attributes [a']; nothing
    else changes. *)
Definition rewrites (i : ident) (nm : string) (a' : gmap string string) (s s' : soup) : Prop :=
  ids (root s') = ids (root s) /\ bare (root s') = bare (root s)
  /\ forall j, tag_at j (root s') = if Nat.eqb j i then Some (nm, a') else tag_at j (root s).

(** The text of the pieces, joined. *)
Definition pieces_text (ps : list piece) : string :=
  fold_right (fun p r => match p with Plain t => t | Url u => u end +:+ r) EmptyString ps.

(** The text of the pieces, with a piece of white space between two
    addresses, or before the first or after the last, as one character. *)
Definition pieces_read (ps : list piece) : string :=
  fold_right (fun p r => match p with Plain t => collapse_blank t | Url u => u end +:+ r)
             EmptyString ps.

(** A text without the characters of [ASCII_SPACES]. *)
Fixpoint unspaced (t : string) : string :=
  match t with
  | EmptyString => EmptyString
  | String c r => if ascii_space c then unspaced r else String c (unspaced r)
  end.

(** A paragraph with two addresses and two spaces between them. *)
Definition doc_two_urls : soup := mkSoup
  (Tag 0 "[document]" ∅ [Tag 1 "html" ∅ [Tag 2 "body" ∅ [
     Tag 3 "p" ∅ [NavigableString 4 "see http://a.example/x  http://b.example/y"]]]])
  [] 5.

(** A network on which every request is answered. *)
Definition open_network : list string -> string -> option string := fun _ _ => Some "bytes".

(** Line 96 of [__init__]: the directory of the published document,
    [(path.rsplit("/", 1)[0] + "/") if path else "/"]. *)
Definition abs_doc_dir_of (path : string) : string :=
  if Py.truthy path then Py.before_last "/" path +:+ "/" else "/".

(** ** Trees that only lose nodes *)

(** [r'] is what removals, and replacements of a node by a string taken
    from below it, make of [r]: no tag is new or changed, and nothing
    is below a node that was not below it before. *)
Definition shrunk (r r' : node) : Prop :=
  NoDup (ids r') /\ node_id r' = node_id r /\ incl (ids r') (ids r)
  /\ (forall j x, tag_at j r' = Some x -> tag_at j r = Some x)
  /\ (forall h n', find_node h r' = Some n' ->
        exists n, find_node h r = Some n /\ incl (ids n') (ids n)).

(** The document has distinct nodes, and no detached tree shares an
    identity with it. *)
Definition tidy (s : soup) : Prop :=
  NoDup (ids (root s)) /\ forall j, In j (ids (root s)) -> ~ In j (flat_map ids (limbo s)).

(** Lines 406-412: the inner loop body, for one anchor. *)
Definition unwrap_anchor (anchor : ident) : M soup unit :=
  s' <- get ;;
  match Bs4.lookup anchor s' ≫= Bs4.string_of with
  | Some (NavigableString t txt) =>
      if Py.truthy txt then Bs4.replace_with anchor t
      else Bs4.decompose anchor
  | _ => Bs4.decompose anchor
  end.

(** Lines 401-412: the outer loop body, for one heading. *)
Definition clean_heading (heading : ident) : M soup unit :=
  got <- Bs4.tag_get heading "id" ;;
  match got with
  | Some heading_id =>
      if Py.truthy heading_id then
        s <- get ;;
        for_each (Bs4.find_all (anchor_with_id heading_id) heading s) unwrap_anchor
      else ret tt
  | None => ret tt
  end.

(** The logo in place, then a paragraph made of two old logos. *)
Definition doc_two_old : soup := mkSoup
  (Tag 0 "[document]" ∅ [Tag 1 "html" ∅ [Tag 2 "body" ∅ [
     Tag 3 "p" ∅ [Tag 4 "img" logo_attrs []];
     Tag 5 "p" ∅ [Tag 6 "img" (<["src" := "OASISLogo-old.png"]> ∅) [];
                  Tag 7 "img" (<["src" := "OASISLogo-older.png"]> ∅) []];
     Tag 8 "h1" ∅ [NavigableString 9 "Title"]]]])
  [] 10.

(** ** Paths (lines 28-32) *)

(** [s.split("/")] *)
Fixpoint split_slash (s : string) : list string :=
  match s with
  | EmptyString => [EmptyString]
  | String c r =>
      if Ascii.eqb c "/" then EmptyString :: split_slash r
      else match split_slash r with
           | x :: xs => String c x :: xs
           | [] => [String c EmptyString]
           end
  end.

(** ["/".join(l)] *)
Fixpoint join_slash (l : list string) : string :=
  match l with
  | [] => EmptyString
  | x :: r => match r with [] => x | _ => x +:+ "/" +:+ join_slash r end
  end.

(** The loop of [posixpath.normpath] over the components. [stack] is
    [new_comps] with its last component first. *)
Fixpoint norm_comps (initial_slashes : bool) (stack comps : list string) : list string :=
  match comps with
  | [] => rev stack
  | comp :: r =>
      if String.eqb comp "" || String.eqb comp "." then norm_comps initial_slashes stack r
      else if negb (String.eqb comp "..")
              || (negb initial_slashes && match stack with [] => true | _ => false end)
              || match stack with top :: _ => String.eqb top ".." | [] => false end
      then norm_comps initial_slashes (comp :: stack) r
      else norm_comps initial_slashes (tl stack) r
  end.

(** [os.path.normpath] of posixpath. *)
Definition normpath (path : string) : string :=
  if negb (Py.truthy path) then "." else
  let initial_slashes : nat :=
    if Py.startswith "/" path
    then (if Py.startswith "//" path && negb (Py.startswith "///" path) then 2 else 1)
    else 0 in
  let joined := join_slash (norm_comps (0 <? initial_slashes)%nat [] (split_slash path)) in
  let p := match initial_slashes with 0 => "" | 1 => "/" | _ => "//" end +:+ joined in
  if Py.truthy p then p else ".".

(** Lines 28-32: [os.path.normpath(file_path.strip().replace("\n", ""))].
    The debug record that the function logs is left out. *)
Definition sanitize_file_path (file_path : string) : string :=
  normpath (Py.remove_char "010" (Py.strip file_path)).

(** ** The title of the Markdown file (lines 119-130) *)

(** [s.rstrip(chars)] and [s.strip(chars)] for a set of characters
    given as a predicate. *)
Fixpoint rstrip_by (p : ascii -> bool) (s : string) : string :=
  match s with
  | String c r =>
      match rstrip_by p r with
      | EmptyString => if p c then EmptyString else String c EmptyString
      | r' => String c r'
      end
  | EmptyString => EmptyString
  end.

Definition strip_by (p : ascii -> bool) (s : string) : string := rstrip_by p (Py.lstrip_by p s).

(** The characters of [strip("# ")]. *)
Definition hash_or_space (c : ascii) : bool := Ascii.eqb c "#" || Ascii.eqb c " ".

(** The loop of lines 123-125 over the lines of the file, each with its
    line end. *)
Fixpoint first_title (lines : list string) : option string :=
  match lines with
  | [] => None
  | line :: rest =>
      if Py.startswith "# " line then Some (Py.strip (strip_by hash_or_space line))
      else first_title rest
  end.

(** Lines 119-130. [lines] are the lines that the iteration over the
    file yields before it ends or fails (none when the file cannot be
    opened): an error is caught and gives ["-"], as the end of the file
    does. The log records are left out. *)
Definition _extract_html_title (lines : list string) : string :=
  default "-" (first_title lines).

(** The end of a line. *)
Definition line_feed : string := String "010" EmptyString.

(** ** What a run adds to the world *)

(** From [w] to [w'] no file is lost, and the log and the list of
    requests are continued. *)
Definition grows (w w' : world) : Prop :=
  files w ⊆ files w'
  /\ (exists l, log w' = log w ++ l)
  /\ (exists r, requests w' = requests w ++ r).

Definition growing {A} (m : M world A) : Prop := forall w, grows w (snd (m w)).

(** * Facts about trees *)

Lemma node_ind' (P : node -> Prop) :
  (forall i s, P (NavigableString i s)) ->
  (forall i nm a cs, Forall P cs -> P (Tag i nm a cs)) ->
  forall n, P n.
Proof.
  intros Hs Ht. fix IH 1. intros [i s | i nm a cs].
  - apply Hs.
  - apply Ht. induction cs as [| c cs IHcs]; constructor; [apply IH | exact IHcs].
Qed.

Lemma find_app_first {A} (p : A -> bool) (l1 l2 : list A) :
  List.find p (l1 ++ l2) =
  match List.find p l1 with Some x => Some x | None => List.find p l2 end.
Proof.
  induction l1 as [| x l1 IH]; simpl; [reflexivity |].
  destruct (p x); [reflexivity | exact IH].
Qed.

Lemma find_flat_map {A B} (p : B -> bool) (f : A -> list B) (l : list A) :
  List.find p (flat_map f l) = first_some (fun x => List.find p (f x)) l.
Proof.
  induction l as [| x l IH]; simpl; [reflexivity |].
  rewrite find_app_first. destruct (List.find p (f x)); [reflexivity | exact IH].
Qed.

Lemma first_some_ext {A B} (f g : A -> option B) (l : list A) :
  Forall (fun x => f x = g x) l -> first_some f l = first_some g l.
Proof.
  induction 1 as [| x l Hx _ IH]; simpl; [reflexivity |].
  rewrite Hx, IH. reflexivity.
Qed.

Lemma first_some_None {A B} (f : A -> option B) (l : list A) :
  first_some f l = None <-> Forall (fun x => f x = None) l.
Proof.
  induction l as [| x l IH]; simpl.
  - split; [constructor | reflexivity].
  - destruct (f x) eqn:E.
    + split; [discriminate | intros H; inversion H; congruence].
    + rewrite IH. split; [intros H; constructor; assumption | intros H; inversion H; assumption].
Qed.

Lemma find_node_eq (i : ident) (n : node) :
  find_node i n =
  if has_id i n then Some n else first_some (find_node i) (contents_of n).
Proof.
  unfold find_node. simpl. destruct (has_id i n); [reflexivity |].
  destruct n as [j t | j nm a cs]; [reflexivity |].
  cbn [contents_of descendants]. rewrite find_flat_map. reflexivity.
Qed.

Lemma parent_in_eq (i : ident) (n : node) :
  parent_in i n =
  if existsb (has_id i) (contents_of n) then Some n
  else first_some (parent_in i) (contents_of n).
Proof.
  unfold parent_in. simpl. destruct (existsb (has_id i) (contents_of n)); [reflexivity |].
  destruct n as [j t | j nm a cs]; [reflexivity |].
  cbn [contents_of descendants]. rewrite find_flat_map. reflexivity.
Qed.

Lemma has_id_true (i : ident) (n : node) : has_id i n = true <-> node_id n = i.
Proof. unfold has_id. apply Nat.eqb_eq. Qed.

Lemma has_id_false (i : ident) (n : node) : has_id i n = false <-> node_id n <> i.
Proof. unfold has_id. apply Nat.eqb_neq. Qed.

Lemma find_node_id (i : ident) (n d : node) : find_node i n = Some d -> node_id d = i.
Proof. unfold find_node. intros H. apply find_some in H. apply has_id_true, H. Qed.

(** The identities of a tree, root first. *)
Lemma ids_Tag (i : ident) nm a cs : ids (Tag i nm a cs) = i :: flat_map ids cs.
Proof.
  unfold ids. simpl. f_equal.
  induction cs as [| c cs IH]; simpl; [reflexivity |].
  rewrite map_app, IH. reflexivity.
Qed.

Lemma find_node_None (i : ident) (n : node) : find_node i n = None <-> ~ In i (ids n).
Proof.
  unfold find_node, ids. split.
  - intros H Hin. apply in_map_iff in Hin as (d & Hd & Hin).
    apply (find_none _ _ H) in Hin. apply has_id_false in Hin. congruence.
  - intros H. destruct (List.find _ _) eqn:E; [| reflexivity].
    apply find_some in E as [Hin Hid]. apply has_id_true in Hid.
    exfalso. apply H. apply in_map_iff. eauto.
Qed.

Lemma node_id_retag f i n : node_id (retag f i n) = node_id n.
Proof. destruct n as [j t | j nm a cs]; simpl; [reflexivity |]. destruct (Nat.eqb j i); [destruct (f (nm, a))|]; reflexivity. Qed.

Lemma has_id_retag f i j n : has_id j (retag f i n) = has_id j n.
Proof. unfold has_id. rewrite node_id_retag. reflexivity. Qed.

Lemma contents_retag f i n : contents_of (retag f i n) = map (retag f i) (contents_of n).
Proof. destruct n as [j t | j nm a cs]; simpl; [reflexivity |]. destruct (Nat.eqb j i); [destruct (f (nm, a))|]; reflexivity. Qed.

Lemma first_some_map {A B C} (f : B -> option C) (g : A -> B) (l : list A) :
  first_some f (map g l) = first_some (fun x => f (g x)) l.
Proof. induction l as [| x l IH]; simpl; [reflexivity |]. rewrite IH. reflexivity. Qed.

Lemma first_some_fmap {A B C} (f : A -> option B) (g : B -> C) (l : list A) :
  first_some (fun x => g <$> f x) l = g <$> first_some f l.
Proof. induction l as [| x l IH]; simpl; [reflexivity |]. destruct (f x); simpl; [reflexivity | exact IH]. Qed.

Lemma find_node_retag f i j n : find_node j (retag f i n) = retag f i <$> find_node j n.
Proof.
  induction n as [k t | k nm a cs IH] using node_ind'.
  - rewrite !find_node_eq. simpl. destruct (has_id j _); reflexivity.
  - rewrite (find_node_eq j (retag _ _ _)), (find_node_eq j (Tag _ _ _ _)).
    rewrite has_id_retag, contents_retag. destruct (has_id j _); [reflexivity |].
    cbn [contents_of]. rewrite first_some_map, <- first_some_fmap.
    apply first_some_ext. exact IH.
Qed.

Lemma node_id_prune i n : node_id (prune i n) = node_id n.
Proof. destruct n; reflexivity. Qed.

Lemma has_id_prune i j n : has_id j (prune i n) = has_id j n.
Proof. destruct n; reflexivity. Qed.

Lemma contents_prune i n : contents_of (prune i n) = prune_list i (contents_of n).
Proof. destruct n; reflexivity. Qed.

Lemma Forall_descendants_Tag (P : node -> Prop) k nm a cs :
  Forall P (descendants (Tag k nm a cs)) <-> Forall (fun c => P c /\ Forall P (descendants c)) cs.
Proof.
  cbn [descendants]. induction cs as [| c cs IH]; simpl.
  - split; constructor.
  - rewrite Forall_cons, Forall_app, IH. rewrite (Forall_cons (fun c => P c /\ _)). tauto.
Qed.

Lemma find_node_prune i j n :
  Forall (fun x => has_id i x = true -> find_node j x = None) (descendants n) ->
  find_node j (prune i n) = prune i <$> find_node j n.
Proof.
  induction n as [k t | k nm a cs IH] using node_ind'; intros H.
  - rewrite !find_node_eq. simpl. destruct (has_id j _); reflexivity.
  - rewrite (find_node_eq j (prune _ _)), (find_node_eq j (Tag _ _ _ _)).
    rewrite has_id_prune, contents_prune. destruct (has_id j _); [reflexivity |].
    cbn [contents_of]. apply Forall_descendants_Tag in H.
    induction cs as [| c cs IHcs]; [reflexivity |].
    inversion IH as [| ? ? IHc IH']; subst. inversion H as [| ? ? [Hc Hd] H']; subst.
    cbn [prune_list flat_map first_some]. destruct (has_id i c) eqn:E.
    + rewrite (Hc eq_refl). simpl. apply IHcs; assumption.
    + cbn [app first_some]. rewrite (IHc Hd). destruct (find_node j c); simpl; [reflexivity |].
      apply IHcs; assumption.
Qed.

Lemma ids_eq n : ids n = node_id n :: flat_map ids (contents_of n).
Proof. destruct n as [j t | j nm a cs]; [reflexivity | apply ids_Tag]. Qed.

Lemma desc_ids n : map node_id (descendants n) = flat_map ids (contents_of n).
Proof. pose proof (ids_eq n) as H. unfold ids in H at 1. simpl in H. congruence. Qed.

Lemma prune_notin i n : ~ In i (flat_map ids (contents_of n)) -> prune i n = n.
Proof.
  induction n as [k t | k nm a cs IH] using node_ind'; intros H; [reflexivity |].
  cbn [prune contents_of] in *. f_equal.
  induction cs as [| c cs IHcs]; [reflexivity |].
  inversion IH as [| ? ? IHc IH']; subst. cbn [flat_map] in *.
  rewrite in_app_iff in H. rewrite (ids_eq c) in H. simpl in H.
  destruct (has_id i c) eqn:E.
  - apply has_id_true in E. exfalso. tauto.
  - simpl. f_equal; [apply IHc; tauto | apply IHcs; [assumption | tauto]].
Qed.

Lemma prune_list_filter i cs :
  NoDup (flat_map ids cs) -> In i (map node_id cs) ->
  prune_list i cs = List.filter (fun c => negb (has_id i c)) cs.
Proof.
  intros Hnd Hin.
  assert (Hall : Forall (fun c => ~ In i (flat_map ids (contents_of c))) cs).
  { induction cs as [| c0 r IH]; [constructor |].
    cbn [flat_map] in Hnd. apply NoDup_app in Hnd as (Hc0 & Hdisj & Hr).
    rewrite (ids_eq c0) in Hc0, Hdisj. simpl in Hin. constructor.
    - destruct Hin as [<- | Hin].
      + apply NoDup_cons in Hc0 as [Hni _]. intros Hi. apply Hni, list_elem_of_In, Hi.
      + intros Hi. apply (Hdisj i); [right; apply list_elem_of_In; exact Hi |].
        apply list_elem_of_In. apply in_flat_map. apply in_map_iff in Hin as (c & <- & Hc).
        exists c. split; [assumption |]. rewrite ids_eq. left. reflexivity.
    - destruct Hin as [<- | Hin]; [| apply IH; assumption].
      apply Forall_forall. intros c Hc Hi. apply list_elem_of_In in Hc.
      apply (Hdisj (node_id c0)); [left |].
      apply list_elem_of_In, in_flat_map. exists c. split; [assumption |].
      rewrite ids_eq. right. exact Hi. }
  clear Hnd Hin. induction Hall as [| c r Hc _ IH]; [reflexivity |].
  cbn [prune_list flat_map List.filter] in *. destruct (has_id i c); simpl; [exact IH |].
  rewrite (prune_notin _ _ Hc). f_equal. exact IH.
Qed.

Lemma find_node_In j n d : find_node j n = Some d -> In d (n :: descendants n).
Proof. unfold find_node. intros H. apply find_some in H. apply H. Qed.

Lemma descendants_In_child n c : In c (contents_of n) -> In c (descendants n).
Proof.
  destruct n as [k t | k nm a cs]; simpl; [tauto |]. intros H.
  apply in_flat_map. exists c. split; [assumption | left; reflexivity].
Qed.

Lemma descendants_trans n d c :
  In d (descendants n) -> In c (descendants d) -> In c (descendants n).
Proof.
  induction n as [k t | k nm a cs IH] using node_ind'; simpl; [tauto |].
  intros Hd Hc. apply in_flat_map in Hd as (x & Hx & Hd). apply in_flat_map.
  exists x. split; [assumption |]. right. destruct Hd as [<- | Hd]; [assumption |].
  rewrite Forall_forall in IH. apply (IH x); [apply list_elem_of_In |..]; assumption.
Qed.

Lemma descendants_ids_incl n d :
  In d (descendants n) -> incl (ids d) (map node_id (descendants n)).
Proof.
  intros Hd j Hj. unfold ids in Hj. apply in_map_iff in Hj as (x & <- & [<- | Hx]); apply in_map.
  - assumption.
  - eapply descendants_trans; eassumption.
Qed.

Lemma NoDup_flat_map_elem {A B} (f : A -> list B) l x :
  NoDup (flat_map f l) -> In x l -> NoDup (f x).
Proof.
  induction l as [| y l IH]; simpl; [tauto |].
  intros H [-> | Hx]; apply NoDup_app in H as (H1 & _ & H2); [assumption | apply IH; assumption].
Qed.

Lemma NoDup_descendant n d : NoDup (ids n) -> In d (descendants n) -> NoDup (ids d).
Proof.
  induction n as [k t | k nm a cs IH] using node_ind'; simpl; [tauto |].
  intros Hnd Hd. rewrite ids_Tag in Hnd. apply NoDup_cons in Hnd as [_ Hnd].
  apply in_flat_map in Hd as (x & Hx & Hd).
  pose proof (NoDup_flat_map_elem _ _ _ Hnd Hx) as Hxn.
  destruct Hd as [<- | Hd]; [assumption |].
  rewrite Forall_forall in IH. apply (IH x); [apply list_elem_of_In |..]; assumption.
Qed.

Lemma NoDup_map_inj_In {A B} (f : A -> B) l x y :
  NoDup (map f l) -> In x l -> In y l -> f x = f y -> x = y.
Proof.
  induction l as [| z l IH]; simpl; [tauto |].
  intros H Hx Hy E. apply NoDup_cons in H as [Hz H].
  destruct Hx as [-> | Hx], Hy as [-> | Hy]; try reflexivity.
  - exfalso. apply Hz. rewrite E. apply list_elem_of_In, in_map, Hy.
  - exfalso. apply Hz. rewrite <- E. apply list_elem_of_In, in_map, Hx.
  - apply IH; assumption.
Qed.

(** In a tree whose identities are distinct, destroying a child of the
    tag [b] leaves [b] with its other children, unchanged. *)
Lemma find_node_prune_child n b nm a cs i :
  NoDup (ids n) -> find_node b n = Some (Tag b nm a cs) -> In i (map node_id cs) ->
  find_node b (prune i n) = Some (Tag b nm a (List.filter (fun c => negb (has_id i c)) cs)).
Proof.
  intros Hnd Hb Hi.
  pose proof (find_node_In _ _ _ Hb) as HP.
  assert (HPnd : NoDup (ids (Tag b nm a cs))).
  { destruct HP as [<- | HP]; [assumption | eapply NoDup_descendant; eassumption]. }
  apply in_map_iff in Hi as (c & Hci & Hc).
  assert (Hcn : In c (descendants n)).
  { pose proof (descendants_In_child (Tag b nm a cs) c Hc) as Hcd.
    destruct HP as [HP | HP]; [rewrite HP; assumption | eapply descendants_trans; eassumption]. }
  rewrite find_node_prune.
  - rewrite Hb. simpl. do 2 f_equal. fold (prune_list i cs). apply prune_list_filter.
    + rewrite ids_Tag in HPnd. apply NoDup_cons in HPnd. tauto.
    + apply in_map_iff. eauto.
  - apply Forall_forall. intros x Hx Hxi. apply list_elem_of_In in Hx. apply has_id_true in Hxi.
    assert (x = c) as ->.
    { apply (NoDup_map_inj_In node_id (n :: descendants n)); [exact Hnd | right; assumption.. | congruence]. }
    apply find_node_None. rewrite ids_Tag in HPnd. apply NoDup_cons in HPnd as [Hb' _].
    intros Hbc. apply Hb'. apply list_elem_of_In, in_flat_map. eauto.
Qed.

Lemma tag_at_retag f i j n :
  tag_at j (retag f i n) = if Nat.eqb j i then f <$> tag_at j n else tag_at j n.
Proof.
  unfold tag_at. rewrite find_node_retag.
  destruct (find_node j n) as [d |] eqn:E; simpl; [| destruct (Nat.eqb j i); reflexivity].
  apply find_node_id in E. destruct d as [k t | k nm a cs]; simpl in *.
  - destruct (Nat.eqb j i); reflexivity.
  - subst k. destruct (Nat.eqb j i); [destruct (f (nm, a)) |]; reflexivity.
Qed.

Lemma lookup_root i s d : find_node i (root s) = Some d -> Bs4.lookup i s = Some d.
Proof. unfold Bs4.lookup. intros ->. reflexivity. Qed.

Lemma tag_at_find j n nm a : tag_at j n = Some (nm, a) -> exists cs, find_node j n = Some (Tag j nm a cs).
Proof.
  unfold tag_at. destruct (find_node j n) as [[k t | k nm' a' cs] |] eqn:E; try discriminate.
  intros [= -> ->]. apply find_node_id in E as E'. simpl in E'. subst k. eauto.
Qed.

Lemma setitem_run i key v s nm a :
  tag_at i (root s) = Some (nm, a) ->
  Bs4.setitem i key v s = (Done tt, Bs4.on_all (retag (fun '(nm, a) => (nm, <[key := v]> a)) i) s).
Proof.
  intros H. apply tag_at_find in H as [cs H]. unfold Bs4.setitem, bind, get.
  rewrite (lookup_root _ _ _ H). reflexivity.
Qed.

Lemma attrs_pop_run i key s nm a :
  tag_at i (root s) = Some (nm, a) ->
  Bs4.attrs_pop i key s = (Done tt, Bs4.on_all (retag (fun '(nm, a) => (nm, delete key a)) i) s).
Proof.
  intros H. apply tag_at_find in H as [cs H]. unfold Bs4.attrs_pop, bind, get.
  rewrite (lookup_root _ _ _ H). reflexivity.
Qed.

Lemma getitem_run i key s nm a v :
  tag_at i (root s) = Some (nm, a) -> a !! key = Some v ->
  Bs4.getitem i key s = (Done v, s).
Proof.
  intros H Hv. apply tag_at_find in H as [cs H]. unfold Bs4.getitem, bind, get.
  rewrite (lookup_root _ _ _ H), Hv. reflexivity.
Qed.

Lemma tag_at_on_all f i j s :
  tag_at j (root (Bs4.on_all (retag f i) s)) = if Nat.eqb j i then f <$> tag_at j (root s) else tag_at j (root s).
Proof. apply tag_at_retag. Qed.

Lemma ids_retag f i n : ids (retag f i n) = ids n.
Proof.
  induction n as [k t | k nm a cs IH] using node_ind'; [reflexivity |].
  cbn [retag]. destruct (if Nat.eqb k i then f (nm, a) else (nm, a)) as [nm' a'].
  rewrite !ids_Tag. f_equal. induction IH as [| c cs Hc _ IHcs]; [reflexivity |].
  cbn [flat_map map]. rewrite Hc, IHcs. reflexivity.
Qed.

Lemma normalize_anchor_step urlparse out a s nm atr :
  tag_at a (root s) = Some (nm, atr) ->
  exists s', normalize_anchor urlparse out a s = (fst (normalized_attrs urlparse out atr), s')
    /\ ids (root s') = ids (root s)
    /\ forall j, tag_at j (root s') =
         if Nat.eqb j a then Some (nm, snd (normalized_attrs urlparse out atr)) else tag_at j (root s).
Proof.
  intros H. unfold normalize_anchor, normalized_attrs.
  assert (Hsame : forall j, tag_at j (root s) = if Nat.eqb j a then Some (nm, atr) else tag_at j (root s)).
  { intros j. destruct (Nat.eqb j a) eqn:E; [apply Nat.eqb_eq in E; subst; exact H | reflexivity]. }
  destruct (atr !! "href") as [raw |] eqn:Hraw.
  2:{ exists s. apply tag_at_find in H as [cs H]. unfold bind at 1. unfold Bs4.getitem, bind, get, raise.
      rewrite (lookup_root _ _ _ H), Hraw. simpl. auto. }
  unfold bind at 1. rewrite (getitem_run _ _ _ _ _ _ H Hraw).
  destruct (negb (Py.truthy (Py.strip raw))); [exists s; simpl; auto |].
  destruct (Py.startswith "#" (Py.strip raw)).
  { rewrite (attrs_pop_run _ _ _ _ _ H). eexists. split; [reflexivity |]. split.
    - simpl. apply ids_retag.
    - intros j. rewrite tag_at_on_all. destruct (Nat.eqb j a) eqn:E; [| reflexivity].
      apply Nat.eqb_eq in E. subst j. rewrite H. reflexivity. }
  unfold bind, lift_outcome. destruct (urlparse (Py.strip raw)) as [p | e]; [| exists s; simpl; auto].
  destruct (negb (Py.truthy (fragment p))); [exists s; simpl; auto |].
  destruct (same_doc p out); [| exists s; simpl; auto].
  rewrite (setitem_run _ _ _ _ _ _ H).
  erewrite attrs_pop_run; [| rewrite tag_at_on_all, Nat.eqb_refl, H; reflexivity].
  eexists. split; [reflexivity |]. split.
  - simpl. rewrite !ids_retag. reflexivity.
  - intros j. rewrite !tag_at_on_all. destruct (Nat.eqb j a) eqn:E; [| reflexivity].
    apply Nat.eqb_eq in E. subst j. rewrite H. reflexivity.
Qed.

Lemma find_node_unique n d :
  NoDup (ids n) -> In d (n :: descendants n) -> find_node (node_id d) n = Some d.
Proof.
  intros Hnd Hd. unfold find_node. destruct (List.find _ _) as [d' |] eqn:E.
  - apply find_some in E as [Hd' Hid]. apply has_id_true in Hid. f_equal.
    eapply NoDup_map_inj_In; eassumption.
  - apply (find_none _ _ E) in Hd. apply has_id_false in Hd. congruence.
Qed.

Lemma NoDup_map_filter {A B} (f : A -> B) (p : A -> bool) l :
  NoDup (map f l) -> NoDup (map f (List.filter p l)).
Proof.
  induction l as [| x l IH]; simpl; [constructor |].
  intros H. apply NoDup_cons in H as [Hx H]. destruct (p x); [| apply IH, H].
  simpl. apply NoDup_cons. split; [| apply IH, H].
  intros Hin. apply Hx. apply list_elem_of_In. apply list_elem_of_In in Hin.
  apply in_map_iff in Hin as (y & E & Hy). apply filter_In in Hy. apply in_map_iff. exists y. tauto.
Qed.

Lemma NoDup_find_all want n s :
  NoDup (ids (root s)) -> find_node n (root s) = Some (root s) ->
  NoDup (Bs4.find_all want n s).
Proof.
  intros Hnd Hn. unfold Bs4.find_all. rewrite (lookup_root _ _ _ Hn).
  apply NoDup_map_filter. unfold ids in Hnd. simpl in Hnd. apply NoDup_cons in Hnd. tauto.
Qed.

Lemma find_root n : find_node (node_id n) n = Some n.
Proof. rewrite find_node_eq. unfold has_id. rewrite Nat.eqb_refl. reflexivity. Qed.

Lemma In_find_all want s j :
  NoDup (ids (root s)) ->
  In j (Bs4.find_all want (node_id (root s)) s) <->
  exists d, In d (descendants (root s)) /\ want d = true /\ node_id d = j.
Proof.
  intros Hnd. unfold Bs4.find_all. rewrite (lookup_root _ _ _ (find_root _)).
  rewrite in_map_iff. split.
  - intros (d & <- & Hd). apply filter_In in Hd. exists d. tauto.
  - intros (d & Hd & Hw & <-). exists d. split; [reflexivity |]. apply filter_In. tauto.
Qed.

Lemma normalize_loop urlparse out l : forall s,
  NoDup l ->
  (forall a, In a l -> exists nm atr, tag_at a (root s) = Some (nm, atr)) ->
  exists r s', for_each l (normalize_anchor urlparse out) s = (r, s') /\
    ids (root s') = ids (root s) /\
    (forall j, ~ In j l -> tag_at j (root s') = tag_at j (root s)) /\
    (forall j nm atr, In j l -> tag_at j (root s) = Some (nm, atr) ->
       tag_at j (root s') = Some (nm, atr) \/
       tag_at j (root s') = Some (nm, snd (normalized_attrs urlparse out atr))) /\
    (r = Done tt -> forall j nm atr, In j l -> tag_at j (root s) = Some (nm, atr) ->
       tag_at j (root s') = Some (nm, snd (normalized_attrs urlparse out atr))) /\
    ((forall j nm atr, In j l -> tag_at j (root s) = Some (nm, atr) ->
       fst (normalized_attrs urlparse out atr) = Done tt) -> r = Done tt).
Proof.
  induction l as [| a l IH]; intros s Hnd Hall.
  - exists (Done tt), s. simpl. unfold ret. repeat split; auto; intros; tauto.
  - apply NoDup_cons in Hnd as [Ha Hnd]. rewrite list_elem_of_In in Ha.
    destruct (Hall a (or_introl eq_refl)) as (nm & atr & Hta).
    destruct (normalize_anchor_step urlparse out a s nm atr Hta) as (s1 & Hrun & Hids1 & Htag1).
    cbn [for_each]. unfold bind. rewrite Hrun.
    assert (Hother : forall j, j <> a -> tag_at j (root s1) = tag_at j (root s)).
    { intros j Hj. rewrite Htag1. apply Nat.eqb_neq in Hj. rewrite Hj. reflexivity. }
    assert (Hself : tag_at a (root s1) = Some (nm, snd (normalized_attrs urlparse out atr))).
    { rewrite Htag1, Nat.eqb_refl. reflexivity. }
    destruct (fst (normalized_attrs urlparse out atr)) as [[] | e] eqn:Hfst.
    + destruct (IH s1 Hnd) as (r & s' & Hloop & Hids & Hout & Hin & Hdone & Htot).
      { intros b Hb. rewrite Hother; [apply Hall; right; exact Hb | intros ->; tauto]. }
      exists r, s'. split; [exact Hloop |]. split; [congruence |]. split; [| split; [| split]].
      * intros j Hj. simpl in Hj. rewrite Hout by tauto. apply Hother. intros ->. tauto.
      * intros j nm' atr' [<- | Hj] Hj'.
        -- right. rewrite Hout by exact Ha. rewrite Hta in Hj'. injection Hj' as <- <-. exact Hself.
        -- apply Hin; [exact Hj |]. rewrite Hother; [exact Hj' | intros ->; tauto].
      * intros Hr j nm' atr' [<- | Hj] Hj'.
        -- rewrite Hout by exact Ha. rewrite Hta in Hj'. injection Hj' as <- <-. exact Hself.
        -- apply Hdone; [exact Hr | exact Hj |]. rewrite Hother; [exact Hj' | intros ->; tauto].
      * intros Hok. apply Htot. intros j nm' atr' Hj Hj'. apply (Hok j nm' atr'); [right; exact Hj |].
        rewrite <- Hother; [exact Hj' | intros ->; tauto].
    + exists (Raised e), s1. split; [reflexivity |]. split; [exact Hids1 |]. split; [| split; [| split]].
      * intros j Hj. apply Hother. intros ->. apply Hj. left. reflexivity.
      * intros j nm' atr' [<- | Hj] Hj'.
        -- right. rewrite Hta in Hj'. injection Hj' as <- <-. exact Hself.
        -- left. rewrite Hother; [exact Hj' | intros ->; tauto].
      * discriminate.
      * intros Hok. specialize (Hok a nm atr (or_introl eq_refl) Hta). congruence.
Qed.

Lemma tag_at_descendant s i nm atr cs :
  NoDup (ids (root s)) -> In (Tag i nm atr cs) (descendants (root s)) ->
  tag_at i (root s) = Some (nm, atr).
Proof.
  intros Hnd Hd. unfold tag_at.
  pose proof (find_node_unique (root s) (Tag i nm atr cs) Hnd (or_intror Hd)) as E.
  simpl in E. rewrite E. reflexivity.
Qed.

Lemma named_eq nm d : named nm d = true <-> exists i a cs, d = Tag i nm a cs.
Proof.
  destruct d as [i t | i m a cs]; simpl.
  - split; [discriminate | intros (? & ? & ? & ?); discriminate].
  - rewrite String.eqb_eq. split; [intros ->; eauto | intros (? & ? & ? & [= _ -> _ _]); reflexivity].
Qed.

Lemma normalize_pass urlparse out s :
  NoDup (ids (root s)) ->
  exists r s', _normalize_same_doc_anchors_for_web urlparse out s = (r, s') /\
    (forall i atr cs, In (Tag i "a" atr cs) (descendants (root s)) -> is_Some (atr !! "href") ->
       (tag_at i (root s') = Some ("a", atr) \/
        tag_at i (root s') = Some ("a", snd (normalized_attrs urlparse out atr))) /\
       (r = Done tt -> tag_at i (root s') = Some ("a", snd (normalized_attrs urlparse out atr)))) /\
    ((forall i atr cs, In (Tag i "a" atr cs) (descendants (root s)) -> is_Some (atr !! "href") ->
        fst (normalized_attrs urlparse out atr) = Done tt) -> r = Done tt).
Proof.
  intros Hnd. unfold _normalize_same_doc_anchors_for_web, bind, get.
  set (l := Bs4.find_all _ _ _).
  assert (Hl : forall j, In j l <-> exists d, In d (descendants (root s)) /\ is_anchor d = true /\ node_id d = j).
  { intros j. apply In_find_all. exact Hnd. }
  assert (Hspec : forall j, In j l -> exists atr cs, In (Tag j "a" atr cs) (descendants (root s)) /\ is_Some (atr !! "href")).
  { intros j Hj. apply Hl in Hj as (d & Hd & Hw & <-). unfold is_anchor in Hw.
    apply andb_true_iff in Hw as [Hn Hh]. apply named_eq in Hn as (i & a & cs & ->).
    exists a, cs. split; [exact Hd |]. unfold has_attr in Hh. apply bool_decide_eq_true in Hh. exact Hh. }
  destruct (normalize_loop urlparse out l s) as (r & s' & Hrun & _ & _ & Hin & Hdone & Htot).
  { apply NoDup_find_all; [exact Hnd | apply find_root]. }
  { intros a Ha. apply Hspec in Ha as (atr & cs & Hd & _). exists "a", atr. eapply tag_at_descendant; eassumption. }
  exists r, s'. split; [exact Hrun |]. split.
  - intros i atr cs Hd Hh.
    assert (Hi : In i l).
    { apply Hl. exists (Tag i "a" atr cs). repeat split; [exact Hd |]. unfold is_anchor, has_attr. simpl.
      apply bool_decide_eq_true. exact Hh. }
    pose proof (tag_at_descendant s i "a" atr cs Hnd Hd) as Ht. split; [apply Hin | intros Hr; apply Hdone]; assumption.
  - intros Hok. apply Htot. intros j nm atr Hj Ht. apply Hspec in Hj as (atr' & cs & Hd & Hh).
    rewrite (tag_at_descendant s j "a" atr' cs Hnd Hd) in Ht. injection Ht as <- <-. eapply Hok; eassumption.
Qed.

Lemma truthy_false s : Py.truthy s = false <-> s = "".
Proof. destruct s; simpl; split; congruence. Qed.

Lemma truthy_true s : Py.truthy s = true <-> s <> "".
Proof. destruct s; simpl; split; congruence. Qed.

(** C7, amended. An anchor whose [href], trimmed as the pass reads it, does not
    begin with [#] and has no fragment keeps its name and its whole
    attribute dictionary, [href] included, whether the pass ends or is
    cut short by an error on another link. *)
Theorem fragmentless_anchor_untouched urlparse out s i atr cs raw :
  NoDup (ids (root s)) ->
  In (Tag i "a" atr cs) (descendants (root s)) ->
  atr !! "href" = Some raw ->
  Py.startswith "#" (Py.strip raw) = false ->
  (forall p, urlparse (Py.strip raw) = Done p -> fragment p = "") ->
  tag_at i (root (snd (_normalize_same_doc_anchors_for_web urlparse out s))) = Some ("a", atr).
Proof.
  intros Hnd Hd Hraw Hhash Hfrag.
  destruct (normalize_pass urlparse out s Hnd) as (r & s' & Hrun & Hspec & _).
  rewrite Hrun. simpl.
  assert (E : snd (normalized_attrs urlparse out atr) = atr).
  { unfold normalized_attrs. rewrite Hraw, Hhash.
    destruct (negb (Py.truthy (Py.strip raw))); [reflexivity |].
    destruct (urlparse (Py.strip raw)) as [p | e] eqn:Hp; [| reflexivity].
    rewrite (Hfrag p eq_refl). reflexivity. }
  destruct (Hspec i atr cs Hd) as [[H | H] _]; [eauto | exact H | rewrite H, E; reflexivity].
Qed.

(** C2, amended. When every [href] parses, the pass ends normally and
    every anchor whose trimmed [href] carries a fragment and points to
    the output document loses [target] and keeps its other attributes;
    its [href] becomes ["#"] followed by the fragment, except when the
    trimmed [href] already begins with [#]: then the attribute text is
    kept as it was. *)
Theorem same_doc_anchor_normalized urlparse out s :
  NoDup (ids (root s)) ->
  hrefs_parse urlparse s = true ->
  fst (_normalize_same_doc_anchors_for_web urlparse out s) = Done tt /\
  forall i atr cs raw p,
    In (Tag i "a" atr cs) (descendants (root s)) ->
    atr !! "href" = Some raw ->
    carries_fragment urlparse raw p ->
    same_doc p out = true ->
    exists atr',
      tag_at i (root (snd (_normalize_same_doc_anchors_for_web urlparse out s))) = Some ("a", atr') /\
      atr' !! "href" = Some (if Py.startswith "#" (Py.strip raw) then raw else "#" +:+ fragment p) /\
      atr' !! "target" = None /\
      forall k, k <> "href" -> k <> "target" -> atr' !! k = atr !! k.
Proof.
  intros Hnd Hparse.
  destruct (normalize_pass urlparse out s Hnd) as (r & s' & Hrun & Hspec & Htot).
  rewrite Hrun. cbn [fst snd].
  assert (Hr : r = Done tt).
  { apply Htot. intros i atr cs Hd [raw Hraw]. unfold normalized_attrs. rewrite Hraw.
    destruct (negb _); [reflexivity |]. destruct (Py.startswith _ _); [reflexivity |].
    unfold hrefs_parse in Hparse. rewrite forallb_forall in Hparse.
    specialize (Hparse (Tag i "a" atr cs)). simpl in Hparse. rewrite Hraw in Hparse.
    destruct (urlparse (Py.strip raw)) as [p | e].
    - destruct (negb _); [reflexivity |]. destruct (same_doc _ _); reflexivity.
    - exfalso. enough (false = true) by discriminate. apply Hparse. apply filter_In. split; [exact Hd | reflexivity]. }
  split; [exact Hr |].
  intros i atr cs raw p Hd Hraw (Hne & Hp & Hfrag) Hsame.
  destruct (Hspec i atr cs Hd) as [_ H]; [eauto |]. specialize (H Hr).
  eexists. split; [exact H |].
  unfold normalized_attrs. rewrite Hraw.
  apply truthy_true in Hne. rewrite Hne. cbn [negb].
  destruct (Py.startswith "#" (Py.strip raw)); cbn [snd].
  - rewrite lookup_delete_ne by discriminate. rewrite lookup_delete_eq.
    split; [exact Hraw |]. split; [reflexivity |]. intros k _ Hk. apply lookup_delete_ne. congruence.
  - rewrite Hp. apply truthy_true in Hfrag. rewrite Hfrag, Hsame. cbn [negb snd].
    rewrite lookup_delete_ne by discriminate. rewrite lookup_insert_eq, lookup_delete_eq.
    split; [reflexivity |]. split; [reflexivity |]. intros k Hk1 Hk2.
    rewrite lookup_delete_ne by congruence. apply lookup_insert_ne. congruence.
Qed.


(** * Anchor normalization: the claims *)

Ltac distinct_ids := apply (bool_decide_unpack _); vm_compute; exact I.
Ltac in_document := simpl; repeat (first [left; reflexivity | right]).

(** C2, as stated, fails: the link of [doc_links] whose [href] is
    [" #sec"] points into the document itself, and after the pass its
    [href] is still [" #sec"], not ["#sec"]. *)
Lemma padded_fragment_href_kept :
  ~ rewritten_to_bare Urllib.urlparse "doc.html" doc_links
      (snd (_normalize_same_doc_anchors_for_web Urllib.urlparse "doc.html" doc_links)).
Proof.
  intros H.
  destruct (H 3 (<["href" := " #sec"]> (<["target" := "_blank"]> ∅))
              [NavigableString 4 "one"] " #sec" (mkParse "" "" "" "" "" "sec"))
    as (atr' & Ht & Hh & _).
  - in_document.
  - reflexivity.
  - repeat split; [discriminate | discriminate].
  - reflexivity.
  - vm_compute in Ht. injection Ht as <-. vm_compute in Hh. discriminate.
Qed.

(** C7, as stated, fails: the [href] of the link of [doc_padded_top] is
    [" #"], which does not begin with [#] and has an empty fragment,
    and the pass takes its [target] away (lines 204-206 test the
    trimmed text). *)
Lemma padded_top_link_loses_target :
  ~ fragmentless_left_alone Urllib.urlparse doc_padded_top
      (snd (_normalize_same_doc_anchors_for_web Urllib.urlparse "doc.html" doc_padded_top)).
Proof.
  intros H.
  specialize (H 3 (<["href" := " #"]> (<["target" := "_blank"]> ∅))
                [NavigableString 4 "top"] " #").
  assert (Ht : tag_at 3 (root (snd (_normalize_same_doc_anchors_for_web Urllib.urlparse "doc.html"
                                      doc_padded_top)))
               = Some ("a", <["href" := " #"]> ∅)) by (vm_compute; reflexivity).
  rewrite Ht in H.
  assert (E : Some ("a", <["href" := " #"]> (∅ : gmap string string))
              = Some ("a", <["href" := " #"]> (<["target" := "_blank"]> ∅))).
  { apply H.
    - in_document.
    - reflexivity.
    - reflexivity.
    - intros p Hp. vm_compute in Hp. injection Hp as <-. reflexivity.
    - intros p Hp. vm_compute in Hp. injection Hp as <-. reflexivity. }
  apply (f_equal (fun o => o ≫= fun x : string * gmap string string => x.2 !! "target")) in E.
  vm_compute in E. discriminate.
Qed.

Lemma fragmentless_anchor_untouched_witness :
  tag_at 7 (root (snd (_normalize_same_doc_anchors_for_web Urllib.urlparse "doc.html" doc_links)))
  = Some ("a", <["href" := "other.html"]> (<["rel" := "next"]> ∅)).
Proof.
  apply (fragmentless_anchor_untouched Urllib.urlparse "doc.html" doc_links 7
           (<["href" := "other.html"]> (<["rel" := "next"]> ∅))
           [NavigableString 8 "three"] "other.html").
  - distinct_ids.
  - in_document.
  - reflexivity.
  - reflexivity.
  - intros p Hp. vm_compute in Hp. injection Hp as <-. reflexivity.
Defined.

Lemma same_doc_anchor_normalized_witness :
  fst (_normalize_same_doc_anchors_for_web Urllib.urlparse "doc.html" doc_links) = Done tt /\
  exists atr',
    tag_at 5 (root (snd (_normalize_same_doc_anchors_for_web Urllib.urlparse "doc.html" doc_links)))
      = Some ("a", atr')
    /\ atr' !! "href" = Some "#intro" /\ atr' !! "target" = None.
Proof.
  destruct (same_doc_anchor_normalized Urllib.urlparse "doc.html" doc_links) as [Hdone Hall].
  - distinct_ids.
  - reflexivity.
  - split; [exact Hdone |].
    destruct (Hall 5 (<["href" := "doc.html#intro"]> (<["target" := "_top"]> ∅))
                [NavigableString 6 "two"] "doc.html#intro"
                (mkParse "" "" "doc.html" "" "" "intro"))
      as (atr' & Ht & Hh & Hg & _).
    + in_document.
    + reflexivity.
    + repeat split; discriminate.
    + reflexivity.
    + exists atr'. repeat split; assumption.
Defined.

Lemma ids_prune_incl i n : incl (ids (prune i n)) (ids n).
Proof.
  induction n as [k t | k nm a cs IH] using node_ind'; [apply incl_refl |].
  cbn [prune]. fold (prune_list i cs). rewrite !ids_Tag.
  apply incl_cons; [left; reflexivity |]. apply incl_tl.
  induction IH as [| c cs Hc _ IHcs]; [apply incl_refl |].
  cbn [prune_list flat_map]. destruct (has_id i c).
  - cbn [app]. apply incl_appr. exact IHcs.
  - cbn [app flat_map]. apply incl_app; [apply incl_appl; exact Hc | apply incl_appr; exact IHcs].
Qed.

Lemma desc_ids_Tag k nm a cs : map node_id (descendants (Tag k nm a cs)) = flat_map ids cs.
Proof. apply (desc_ids (Tag k nm a cs)). Qed.

Lemma find_node_prune_gone i j n :
  NoDup (ids n) ->
  (exists x, In x (descendants n) /\ has_id i x = true /\ In j (ids x)) ->
  find_node j (prune i n) = None.
Proof.
  induction n as [k t | k nm a cs IH] using node_ind'; intros Hnd (x & Hx & Hxi & Hj).
  - destruct Hx.
  - rewrite find_node_eq, has_id_prune, contents_prune. cbn [contents_of].
    rewrite ids_Tag in Hnd. apply NoDup_cons in Hnd as [Hk Hnd].
    assert (Hjn : In j (flat_map ids cs)).
    { rewrite <- (desc_ids_Tag k nm a cs). apply (descendants_ids_incl _ x Hx). exact Hj. }
    replace (has_id j (Tag k nm a cs)) with false.
    2:{ symmetry. apply has_id_false. simpl. intros ->. apply Hk, list_elem_of_In, Hjn. }
    clear Hk Hjn. cbn [descendants] in Hx.
    induction cs as [| c cs IHcs]; [reflexivity |].
    inversion IH as [| ? ? IHc IH']; subst.
    cbn [flat_map] in Hnd, Hx. apply NoDup_app in Hnd as (Hc & Hdisj & Hcs).
    cbn [prune_list flat_map]. apply in_app_iff in Hx.
    assert (Hsub : forall y, In y (descendants (Tag 0 "" ∅ cs)) -> incl (ids y) (flat_map ids cs)).
    { intros y Hy. rewrite <- (desc_ids_Tag 0 "" ∅ cs). apply descendants_ids_incl. exact Hy. }
    destruct Hx as [Hx | Hx].
    + (* x is the first child or below it *)
      assert (Hjc : In j (ids c)).
      { destruct Hx as [<- | Hx]; [exact Hj |]. unfold ids. right.
        apply (descendants_ids_incl _ x Hx). exact Hj. }
      assert (Hrest : first_some (find_node j) (prune_list i cs) = None).
      { apply first_some_None, Forall_forall. intros y Hy. apply list_elem_of_In in Hy.
        unfold prune_list in Hy. apply in_flat_map in Hy as (c' & Hc' & Hy).
        destruct (has_id i c'); [destruct Hy |]. destruct Hy as [<- | []].
        apply find_node_None. intros Hin. apply ids_prune_incl in Hin.
        apply (Hdisj j); [apply list_elem_of_In, Hjc |].
        apply list_elem_of_In, in_flat_map. eauto. }
      destruct (has_id i c) eqn:E; [exact Hrest |].
      cbn [app first_some]. rewrite IHc; [exact Hrest | exact Hc |].
      destruct Hx as [<- | Hx]; [congruence |]. exists x. auto.
    + (* x is below a later child *)
      assert (Hjr : In j (flat_map ids cs)) by (apply (Hsub x Hx), Hj).
      assert (Hhead : find_node j (prune i c) = None).
      { apply find_node_None. intros Hin. apply ids_prune_incl in Hin.
        apply (Hdisj j); apply list_elem_of_In; assumption. }
      destruct (has_id i c); cbn [app first_some]; [| rewrite Hhead]; apply IHcs; assumption.
Qed.

Lemma parent_in_spec i n p :
  parent_in i n = Some p -> In p (n :: descendants n) /\ In i (map node_id (contents_of p)).
Proof.
  unfold parent_in. intros H. apply find_some in H as [Hin Hex]. split; [exact Hin |].
  apply existsb_exists in Hex as (c & Hc & Hid). apply has_id_true in Hid.
  apply in_map_iff. eauto.
Qed.

Lemma parent_node_root i s p : parent_in i (root s) = Some p -> Bs4.parent_node i s = Some p.
Proof. unfold Bs4.parent_node. intros ->. reflexivity. Qed.

Lemma find_node_prune_self i n :
  NoDup (ids n) -> In i (map node_id (descendants n)) -> find_node i (prune i n) = None.
Proof.
  intros Hnd Hi. apply find_node_prune_gone; [exact Hnd |].
  apply in_map_iff in Hi as (x & <- & Hx). exists x. split; [exact Hx |].
  split; [apply has_id_true; reflexivity | rewrite ids_eq; left; reflexivity].
Qed.

(** C5, amended. The removal of one candidate [img] whose parent is
    [p]: the parent is destroyed as a whole exactly when it is a
    paragraph all of whose children are [img] tags (any images, not only
    the candidate) or blank strings; otherwise the candidate alone is
    destroyed and the parent keeps its other children, unchanged and in
    order. *)
Theorem candidate_removal s img p :
  NoDup (ids (root s)) ->
  named "p" (root s) = false ->
  parent_in img (root s) = Some p ->
  let s' := snd (remove_candidate img s) in
  fst (remove_candidate img s) = Done tt /\
  find_node img (root s') = None /\
  if named "p" p && only_imgs_and_blanks (contents_of p)
  then find_node (node_id p) (root s') = None
  else exists nm a cs, p = Tag (node_id p) nm a cs /\
         find_node (node_id p) (root s')
         = Some (Tag (node_id p) nm a (List.filter (fun c => negb (has_id img c)) cs)).
Proof.
  intros Hnd Hroot Hp. pose proof (parent_in_spec _ _ _ Hp) as [Hin Hc].
  assert (Himg : exists c, In c (descendants p) /\ node_id c = img).
  { apply in_map_iff in Hc as (c & E & Hc). exists c. split; [apply descendants_In_child, Hc | exact E]. }
  destruct Himg as (c & Hcp & Hci).
  assert (Hcd : In c (descendants (root s))).
  { destruct Hin as [<- | Hin]; [exact Hcp | eapply descendants_trans; eassumption]. }
  unfold remove_candidate, bind, get. rewrite (parent_node_root _ _ _ Hp).
  destruct (named "p" p && only_imgs_and_blanks (contents_of p)) eqn:Hwhole;
    cbn [fst snd Bs4.decompose modify Bs4.detach root].
  - assert (Hpd : In p (descendants (root s))).
    { destruct Hin as [<- | Hin]; [| exact Hin]. rewrite Hroot in Hwhole. discriminate. }
    split; [reflexivity |]. split.
    + apply find_node_prune_gone; [exact Hnd |]. exists p. split; [exact Hpd |].
      split; [apply has_id_true; reflexivity |]. unfold ids. right. rewrite <- Hci. apply in_map, Hcp.
    + apply find_node_prune_self; [exact Hnd | apply in_map, Hpd].
  - split; [reflexivity |]. split.
    + apply find_node_prune_self; [exact Hnd |]. rewrite <- Hci. apply in_map, Hcd.
    + destruct p as [k t | k nm a cs]; [destruct Hcp |]. exists nm, a, cs. split; [reflexivity |].
      apply find_node_prune_child; [exact Hnd | | exact Hc].
      apply (find_node_unique _ _ Hnd Hin).
Qed.


(** C5, as stated, fails: in [doc_gallery] the old logo shares its
    paragraph with a chart; the pass destroys the whole paragraph, chart
    included. *)
Lemma paragraph_with_other_image_removed :
  ~ removal_as_stated doc_gallery (snd (_enforce_single_oasis_logo doc_gallery)).
Proof.
  intros H.
  destruct (H 7 (<["src" := "OASISLogo-old.png"]> ∅)
              (Tag 5 "p" ∅ [Tag 6 "img" (<["src" := "chart.png"]> (<["alt" := "Chart"]> ∅)) [];
                            Tag 7 "img" (<["src" := "OASISLogo-old.png"]> ∅) []]))
    as [[Hgone _] _].
  - in_document.
  - reflexivity.
  - vm_compute. reflexivity.
  - vm_compute. reflexivity.
  - reflexivity.
  - assert (E : find_node 5 (root (snd (_enforce_single_oasis_logo doc_gallery))) = None)
      by (vm_compute; reflexivity).
    specialize (Hgone E). discriminate.
Qed.

Lemma candidate_removal_witness :
  fst (remove_candidate 7 doc_gallery) = Done tt /\
  find_node 7 (root (snd (remove_candidate 7 doc_gallery))) = None /\
  find_node 5 (root (snd (remove_candidate 7 doc_gallery))) = None.
Proof.
  apply (candidate_removal doc_gallery 7
           (Tag 5 "p" ∅ [Tag 6 "img" (<["src" := "chart.png"]> (<["alt" := "Chart"]> ∅)) [];
                         Tag 7 "img" (<["src" := "OASISLogo-old.png"]> ∅) []])).
  - distinct_ids.
  - reflexivity.
  - vm_compute. reflexivity.
Defined.

Lemma ids_prune_sublist i n : sublist (ids (prune i n)) (ids n).
Proof.
  induction n as [k t | k nm a cs IH] using node_ind'; [reflexivity |].
  cbn [prune]. fold (prune_list i cs). rewrite !ids_Tag. apply sublist_skip.
  induction IH as [| c cs Hc _ IHcs]; [reflexivity |].
  cbn [prune_list flat_map]. destruct (has_id i c); cbn [app flat_map].
  - apply sublist_inserts_l. exact IHcs.
  - apply sublist_app; assumption.
Qed.

Lemma NoDup_prune i n : NoDup (ids n) -> NoDup (ids (prune i n)).
Proof. intros H. eapply sublist_NoDup; [exact H | apply ids_prune_sublist]. Qed.

(** An identity of a child is not met again below any child. *)
Lemma child_id_not_below i cs :
  NoDup (flat_map ids cs) -> In i (map node_id cs) ->
  Forall (fun c => ~ In i (flat_map ids (contents_of c))) cs.
Proof.
  intros Hnd Hin. induction cs as [| c0 r IH]; [constructor |].
  cbn [flat_map] in Hnd. apply NoDup_app in Hnd as (Hc0 & Hdisj & Hr).
  rewrite (ids_eq c0) in Hc0, Hdisj. simpl in Hin. constructor.
  - destruct Hin as [<- | Hin].
    + apply NoDup_cons in Hc0 as [Hni _]. intros Hi. apply Hni, list_elem_of_In, Hi.
    + intros Hi. apply (Hdisj i); [right; apply list_elem_of_In; exact Hi |].
      apply list_elem_of_In. apply in_flat_map. apply in_map_iff in Hin as (c & <- & Hc).
      exists c. split; [assumption |]. rewrite ids_eq. left. reflexivity.
  - destruct Hin as [<- | Hin]; [| apply IH; assumption].
    apply Forall_forall. intros c Hc Hi. apply list_elem_of_In in Hc.
    apply (Hdisj (node_id c0)); [left |].
    apply list_elem_of_In, in_flat_map. exists c. split; [assumption |].
    rewrite ids_eq. right. exact Hi.
Qed.

Lemma parent_in_below i n p : parent_in i n = Some p -> In i (flat_map ids (contents_of n)).
Proof.
  intros H. apply parent_in_spec in H as [Hp Hi]. rewrite <- desc_ids.
  apply in_map_iff in Hi as (c & <- & Hc). apply in_map.
  destruct Hp as [<- | Hp]; [apply descendants_In_child, Hc |].
  eapply descendants_trans; [exact Hp | apply descendants_In_child, Hc].
Qed.

Lemma find_node_below j n d : find_node j n = Some d -> In j (ids n).
Proof.
  intros H. destruct (find_node j n) eqn:E; [| discriminate].
  destruct (in_dec Nat.eq_dec j (ids n)) as [Hin | Hnin]; [exact Hin |].
  apply find_node_None in Hnin. congruence.
Qed.

Lemma first_some_Some {A B} (f : A -> option B) l y :
  first_some f l = Some y -> exists x, In x l /\ f x = Some y.
Proof.
  induction l as [| x l IH]; simpl; [discriminate |].
  destruct (f x) eqn:E.
  - intros [= <-]. eauto.
  - intros H. destruct (IH H) as (x' & Hx & Hf). eauto.
Qed.

(** In a tree whose identities are distinct, the parent of a child of
    the tag [b] is [b]. *)
Lemma parent_in_unique i n b :
  NoDup (ids n) -> find_node (node_id b) n = Some b -> In i (map node_id (contents_of b)) ->
  parent_in i n = Some b.
Proof.
  induction n as [k t | k nm a cs IH] using node_ind'; intros Hnd Hb Hi.
  - rewrite find_node_eq in Hb. simpl in Hb. destruct (has_id _ _); [| discriminate].
    injection Hb as <-. destruct Hi.
  - rewrite parent_in_eq. rewrite find_node_eq in Hb. cbn [contents_of] in *.
    destruct (has_id (node_id b) (Tag k nm a cs)) eqn:Ek.
    + injection Hb as <-. cbn [contents_of] in Hi.
      replace (existsb (has_id i) cs) with true; [reflexivity |].
      symmetry. apply existsb_exists. apply in_map_iff in Hi as (c & E & Hc). exists c.
      split; [exact Hc | apply has_id_true, E].
    + clear Ek. rewrite ids_Tag in Hnd. apply NoDup_cons in Hnd as [_ Hnd].
      assert (Hbelow : exists c0, In c0 cs /\ In i (flat_map ids (contents_of c0))).
      { clear IH Hnd. induction cs as [| c cs IHcs]; [discriminate |]. simpl in Hb.
        destruct (find_node (node_id b) c) as [d |] eqn:Ec.
        - injection Hb as ->. exists c. split; [left; reflexivity |].
          rewrite <- desc_ids. apply in_map_iff in Hi as (x & <- & Hx). apply in_map.
          apply find_node_In in Ec. destruct Ec as [<- | Ec]; [apply descendants_In_child, Hx |].
          eapply descendants_trans; [exact Ec | apply descendants_In_child, Hx].
        - destruct (IHcs Hb) as (c0 & Hc0 & H0). exists c0. split; [right; exact Hc0 | exact H0]. }
      destruct Hbelow as (c0 & Hc0 & Hi0).
      replace (existsb (has_id i) cs) with false.
      2:{ symmetry. apply not_true_is_false. intros Hex. apply existsb_exists in Hex as (x & Hx & Hxi).
          apply has_id_true in Hxi.
          pose proof (child_id_not_below i cs Hnd) as Hall. rewrite Forall_forall in Hall.
          apply (Hall ltac:(apply in_map_iff; eauto) c0); [apply list_elem_of_In, Hc0 | exact Hi0]. }
      clear c0 Hc0 Hi0.
      induction cs as [| c cs IHcs]; [discriminate |].
      inversion IH as [| ? ? IHc IH']; subst. cbn [flat_map] in Hnd.
      apply NoDup_app in Hnd as (Hc & Hdisj & Hcs). simpl in Hb |- *.
      destruct (find_node (node_id b) c) as [d |] eqn:Ec.
      * injection Hb as ->. rewrite (IHc Hc eq_refl Hi). reflexivity.
      * destruct (parent_in i c) as [p |] eqn:Ep; [| apply IHcs; assumption].
        exfalso. apply parent_in_below in Ep.
        assert (Hrest : In i (flat_map ids cs)).
        { pose proof (IHcs IH' Hcs Hb) as Hp. apply first_some_Some in Hp as (x & Hx & Hp).
          apply parent_in_below in Hp. apply in_flat_map. exists x. split; [exact Hx |].
          rewrite ids_eq. right. exact Hp. }
        apply (Hdisj i); apply list_elem_of_In; [rewrite ids_eq; right; exact Ep | exact Hrest].
Qed.

Lemma node_id_splice_after L new n : node_id (splice_after L new n) = node_id n.
Proof. destruct n; reflexivity. Qed.

Lemma has_id_splice_after L new j n : has_id j (splice_after L new n) = has_id j n.
Proof. destruct n; reflexivity. Qed.

Lemma contents_splice_after L new n :
  contents_of (splice_after L new n) = splice_list L new (contents_of n).
Proof. destruct n; reflexivity. Qed.

Lemma find_node_splice_after j L new n :
  find_node j new = None ->
  find_node j (splice_after L new n) = splice_after L new <$> find_node j n.
Proof.
  intros Hnew. induction n as [k t | k nm a cs IH] using node_ind'.
  - rewrite !find_node_eq. simpl. destruct (has_id j _); reflexivity.
  - rewrite (find_node_eq j (splice_after _ _ _)), (find_node_eq j (Tag _ _ _ _)).
    rewrite has_id_splice_after, contents_splice_after. destruct (has_id j _); [reflexivity |].
    cbn [contents_of]. induction IH as [| c cs Hc _ IHcs]; [reflexivity |].
    cbn [splice_list flat_map first_some].
    destruct (has_id L c); cbn [app first_some]; rewrite Hc;
      destruct (find_node j c); cbn [fmap option_fmap option_map]; try reflexivity.
    + rewrite Hnew. exact IHcs.
    + exact IHcs.
Qed.

Lemma existsb_splice_list i L new cs :
  has_id i new = false ->
  existsb (has_id i) (splice_list L new cs) = existsb (has_id i) cs.
Proof.
  intros Hnew. induction cs as [| c cs IH]; [reflexivity |].
  cbn [splice_list flat_map]. rewrite existsb_app. fold (splice_list L new cs). rewrite IH.
  destruct (has_id L c); simpl; rewrite has_id_splice_after, ?Hnew, ?orb_false_r; reflexivity.
Qed.

Lemma parent_in_splice_after i L new n :
  has_id i new = false -> parent_in i new = None ->
  parent_in i (splice_after L new n) = splice_after L new <$> parent_in i n.
Proof.
  intros Hid Hnew. induction n as [k t | k nm a cs IH] using node_ind'.
  - reflexivity.
  - rewrite (parent_in_eq i (splice_after _ _ _)), (parent_in_eq i (Tag _ _ _ _)).
    rewrite contents_splice_after. cbn [contents_of]. rewrite existsb_splice_list by exact Hid.
    destruct (existsb (has_id i) cs); [reflexivity |].
    induction IH as [| c cs Hc _ IHcs]; [reflexivity |].
    cbn [splice_list flat_map first_some].
    destruct (has_id L c); cbn [app first_some]; rewrite Hc;
      destruct (parent_in i c); cbn [fmap option_fmap option_map]; try reflexivity.
    + rewrite Hnew. exact IHcs.
    + exact IHcs.
Qed.

Lemma splice_after_notin L new n :
  ~ In L (flat_map ids (contents_of n)) -> splice_after L new n = n.
Proof.
  induction n as [k t | k nm a cs IH] using node_ind'; intros H; [reflexivity |].
  cbn [splice_after contents_of] in *. f_equal.
  induction cs as [| c cs IHcs]; [reflexivity |].
  inversion IH as [| ? ? IHc IH']; subst. cbn [flat_map] in *.
  rewrite in_app_iff in H. rewrite (ids_eq c) in H. simpl in H.
  destruct (has_id L c) eqn:E.
  - apply has_id_true in E. exfalso. tauto.
  - simpl. f_equal; [apply IHc; tauto | apply IHcs; [assumption | tauto]].
Qed.

Lemma splice_list_child L new cs :
  NoDup (flat_map ids cs) -> In L (map node_id cs) ->
  splice_list L new cs = put_after L new cs.
Proof.
  intros Hnd Hin. pose proof (child_id_not_below L cs Hnd Hin) as Hall.
  clear Hnd Hin. induction Hall as [| c r Hc _ IH]; [reflexivity |].
  cbn [splice_list put_after flat_map] in *. rewrite (splice_after_notin _ _ _ Hc). f_equal. exact IH.
Qed.

Lemma parent_in_retag f H i n : parent_in i (retag f H n) = retag f H <$> parent_in i n.
Proof.
  induction n as [k t | k nm a cs IH] using node_ind'.
  - reflexivity.
  - rewrite (parent_in_eq i (retag _ _ _)), (parent_in_eq i (Tag _ _ _ _)).
    rewrite contents_retag. cbn [contents_of].
    replace (existsb (has_id i) (map (retag f H) cs)) with (existsb (has_id i) cs).
    2:{ clear IH. induction cs as [| c cs IHcs]; [reflexivity |]. simpl. rewrite has_id_retag, IHcs. reflexivity. }
    destruct (existsb (has_id i) cs); [reflexivity |].
    rewrite first_some_map, <- first_some_fmap. apply first_some_ext. exact IH.
Qed.

Lemma after_id_split L cs :
  In L (map node_id cs) ->
  exists before Ln, cs = before ++ Ln :: after_id L cs /\ node_id Ln = L
                    /\ ~ In L (map node_id before).
Proof.
  induction cs as [| c cs IH]; simpl; [tauto |]. intros H.
  destruct (has_id L c) eqn:E.
  - apply has_id_true in E. exists [], c. simpl. auto.
  - apply has_id_false in E. destruct H as [H | H]; [congruence |].
    destruct (IH H) as (before & Ln & Hcs & Hid & Hnot). exists (c :: before), Ln.
    split; [simpl; f_equal; exact Hcs |]. split; [exact Hid |]. simpl. tauto.
Qed.

Lemma after_id_app L before Ln rest :
  node_id Ln = L -> ~ In L (map node_id before) -> after_id L (before ++ Ln :: rest) = rest.
Proof.
  intros Hid. induction before as [| c before IH]; simpl; intros Hnot.
  - apply has_id_true in Hid. rewrite Hid. reflexivity.
  - replace (has_id L c) with false; [apply IH; tauto |].
    symmetry. apply has_id_false. tauto.
Qed.

Lemma after_id_map L (g : node -> node) cs :
  (forall c, node_id (g c) = node_id c) -> after_id L (map g cs) = map g (after_id L cs).
Proof.
  intros Hg. induction cs as [| c cs IH]; [reflexivity |]. simpl.
  unfold has_id at 1. rewrite Hg. fold (has_id L c). destruct (has_id L c); [reflexivity | exact IH].
Qed.

Lemma retag_notin f i n : ~ In i (ids n) -> retag f i n = n.
Proof.
  induction n as [k t | k nm a cs IH] using node_ind'; intros H; [reflexivity |].
  rewrite ids_Tag in H. cbn [retag]. replace (Nat.eqb k i) with false.
  2:{ symmetry. apply Nat.eqb_neq. intros ->. apply H. left. reflexivity. }
  f_equal. assert (Hcs : ~ In i (flat_map ids cs)) by (intros Hi; apply H; right; exact Hi).
  clear H. induction IH as [| c cs Hc _ IHcs]; [reflexivity |]. cbn [flat_map] in Hcs.
  rewrite in_app_iff in Hcs. simpl. f_equal; [apply Hc; tauto | apply IHcs; tauto].
Qed.

Lemma NoDup_child_ids cs : NoDup (flat_map ids cs) -> NoDup (map node_id cs).
Proof.
  induction cs as [| c cs IH]; cbn [flat_map map]; [constructor |]. intros H.
  apply NoDup_app in H as (Hc & Hdisj & Hcs). apply NoDup_cons. split; [| apply IH, Hcs].
  intros Hin. apply list_elem_of_In, in_map_iff in Hin as (x & E & Hx).
  apply (Hdisj (node_id c)); apply list_elem_of_In; [rewrite ids_eq; left; reflexivity |].
  apply in_flat_map. exists x. split; [exact Hx |]. rewrite ids_eq, E. left. reflexivity.
Qed.

Lemma filter_out_one front nd rest :
  NoDup (map node_id (front ++ nd :: rest)) ->
  List.filter (fun c => negb (has_id (node_id nd) c)) (front ++ nd :: rest) = front ++ rest.
Proof.
  intros H. rewrite map_app in H. simpl in H. apply NoDup_app in H as (Hf & Hdisj & Hr).
  apply NoDup_cons in Hr as [Hnd Hr]. rewrite List.filter_app. simpl.
  replace (has_id (node_id nd) nd) with true by (symmetry; apply has_id_true; reflexivity). simpl.
  f_equal.
  - rewrite forallb_filter_id; [reflexivity |]. apply forallb_forall. intros c Hc.
    apply negb_true_iff, has_id_false. intros E. apply (Hdisj (node_id nd)).
    + apply list_elem_of_In. rewrite <- E. apply in_map, Hc.
    + left.
  - rewrite forallb_filter_id; [reflexivity |]. apply forallb_forall. intros c Hc.
    apply negb_true_iff, has_id_false. intros E. apply Hnd, list_elem_of_In. rewrite <- E. apply in_map, Hc.
Qed.

Lemma NoDup_found j n d : NoDup (ids n) -> find_node j n = Some d -> NoDup (ids d).
Proof.
  intros Hnd H. apply find_node_In in H. destruct H as [<- | H]; [exact Hnd |].
  eapply NoDup_descendant; eassumption.
Qed.

Lemma NoDup_contents k nm a cs : NoDup (ids (Tag k nm a cs)) -> NoDup (flat_map ids cs).
Proof. rewrite ids_Tag. intros H. apply NoDup_cons in H. tauto. Qed.

Lemma drop_stray_hrs_run H b nm a : forall sibs front s,
  NoDup (ids (root s)) -> limbo s = [] ->
  find_node b (root s) = Some (Tag b nm a (front ++ sibs)) ->
  exists s', drop_stray_hrs H sibs s = (Done tt, s') /\ NoDup (ids (root s')) /\ limbo s' = []
    /\ fresh s' = fresh s /\ incl (ids (root s')) (ids (root s))
    /\ find_node b (root s') = Some (Tag b nm a (front ++ stray_free H sibs)).
Proof.
  induction sibs as [| nd rest IH]; intros front s Hnd Hl Hb.
  - exists s. simpl. unfold ret. repeat split; auto using incl_refl.
  - cbn [drop_stray_hrs stray_free].
    destruct (negb (node_truthy nd) || node_eq nd H).
    { exists s. unfold ret. repeat split; auto using incl_refl. }
    destruct (named "hr" nd).
    + unfold bind, Bs4.decompose, modify.
      set (s1 := Bs4.detach (node_id nd) s).
      assert (Hb1 : find_node b (root s1) = Some (Tag b nm a (front ++ rest))).
      { unfold s1. cbn [Bs4.detach root].
        rewrite (find_node_prune_child _ _ _ _ _ _ Hnd Hb).
        - rewrite filter_out_one; [reflexivity |].
          apply NoDup_child_ids. eapply NoDup_contents, NoDup_found; eassumption.
        - rewrite map_app. apply in_or_app. right. left. reflexivity. }
      destruct (IH front s1) as (s' & Hrun & Hnd' & Hl' & Hf' & Hincl & Hb').
      * apply NoDup_prune, Hnd.
      * unfold s1. cbn [Bs4.detach limbo]. rewrite Hl. reflexivity.
      * exact Hb1.
      * exists s'. split; [exact Hrun |]. repeat split; try assumption.
        intros x Hx. apply Hincl in Hx. apply (ids_prune_incl _ _ _ Hx).
    + destruct (IH (front ++ [nd]) s Hnd Hl) as (s' & Hrun & Hnd' & Hl' & Hf' & Hincl & Hb').
      * rewrite <- app_assoc. exact Hb.
      * exists s'. split; [exact Hrun |]. rewrite <- app_assoc in Hb'. repeat split; assumption.
Qed.

Lemma tag_get_readonly i k s : snd (Bs4.tag_get i k s) = s.
Proof. unfold Bs4.tag_get, bind, get. destruct (Bs4.lookup i s) as [[] |]; reflexivity. Qed.

Lemma _is_canonical_logo_img_readonly img body s : snd (_is_canonical_logo_img img body s) = s.
Proof.
  unfold _is_canonical_logo_img, bind, get. destruct (negb _); [reflexivity |].
  destruct (Bs4.tag_get img "src" s) as [[src |] s1] eqn:E1;
    pose proof (tag_get_readonly img "src" s) as H1; rewrite E1 in H1; simpl in H1; subst s1; [| reflexivity].
  destruct (Bs4.tag_get img "alt" s) as [[alt |] s2] eqn:E2;
    pose proof (tag_get_readonly img "alt" s) as H2; rewrite E2 in H2; simpl in H2; subst s2; [| reflexivity].
  destruct (negb _); [reflexivity |]. destruct (Bs4.parent_node img s); [| reflexivity].
  destruct (negb _); reflexivity.
Qed.

Lemma find_logo_p_spec body : forall ps s r s',
  find_logo_p body ps s = (r, s') -> s' = s /\ (forall L, r = Done (Some L) -> In L ps).
Proof.
  induction ps as [| p ps IH]; intros s r s' H.
  - injection H as <- <-. split; [reflexivity | discriminate].
  - cbn [find_logo_p] in H. unfold bind, get in H.
    destruct (Bs4.find_child (named "img") p s) as [img |].
    + pose proof (_is_canonical_logo_img_readonly img body s) as Hro.
      destruct (_is_canonical_logo_img img body s) as [[[] | e] s1]; simpl in Hro; subst s1.
      * injection H as <- <-. split; [reflexivity |]. intros L [= <-]. left. reflexivity.
      * apply IH in H as [-> HL]. split; [reflexivity |]. intros L HLr. right. auto.
      * injection H as <- <-. split; [reflexivity | discriminate].
    + apply IH in H as [-> HL]. split; [reflexivity |]. intros L HLr. right. auto.
Qed.

Lemma lookup_no_limbo i s : limbo s = [] -> Bs4.lookup i s = find_node i (root s).
Proof. unfold Bs4.lookup. intros ->. destruct (find_node i (root s)); reflexivity. Qed.

Lemma parent_node_no_limbo i s : limbo s = [] -> Bs4.parent_node i s = parent_in i (root s).
Proof. unfold Bs4.parent_node. intros ->. destruct (parent_in i (root s)); reflexivity. Qed.

Lemma child_of_body L want b s :
  limbo s = [] -> In L (Bs4.find_all_children want b s) ->
  exists nm a cs, find_node b (root s) = Some (Tag b nm a cs) /\ In L (map node_id cs).
Proof.
  intros Hl H. unfold Bs4.find_all_children, Bs4.contents in H. rewrite lookup_no_limbo in H by exact Hl.
  destruct (find_node b (root s)) as [d |] eqn:E; [| destruct H].
  apply find_node_id in E as Hid. destruct d as [k t | k nm a cs]; [destruct H |].
  simpl in Hid. subst k. exists nm, a, cs. split; [reflexivity |].
  apply in_map_iff in H as (c & <- & Hc). apply filter_In in Hc. apply in_map. tauto.
Qed.

Lemma next_siblings_eq L s b nm a cs :
  NoDup (ids (root s)) -> limbo s = [] ->
  find_node b (root s) = Some (Tag b nm a cs) -> In L (map node_id cs) ->
  next_siblings L s = after_id L cs.
Proof.
  intros Hnd Hl Hb HL. unfold next_siblings. rewrite parent_node_no_limbo by exact Hl.
  rewrite (parent_in_unique L (root s) (Tag b nm a cs) Hnd Hb HL). reflexivity.
Qed.

Lemma first_elem_stray_free H sibs e :
  is_heading H = true -> first_elem (stray_free H sibs) = Some e -> named "hr" e = false.
Proof.
  intros HH. induction sibs as [| nd rest IH]; [discriminate |].
  cbn [stray_free]. destruct (negb (node_truthy nd)) eqn:Et; cbn [orb].
  - cbn [first_elem]. rewrite Et. discriminate.
  - destruct (node_eq nd H) eqn:Eq.
    + cbn [first_elem]. rewrite Et. destruct nd as [k t | k nm a cs]; [destruct H; discriminate |].
      cbn [_is_tag]. intros [= <-]. destruct H as [k' t' | k' nm' a' cs']; [discriminate |].
      simpl in Eq. apply andb_true_iff in Eq as [Eq _]. apply andb_true_iff in Eq as [Eq _].
      apply String.eqb_eq in Eq. subst nm'. simpl in HH |- *.
      destruct (String.eqb nm "hr") eqn:E; [| reflexivity]. apply String.eqb_eq in E. subst nm.
      vm_compute in HH. discriminate.
    + destruct (named "hr" nd) eqn:Ehr; [exact IH |].
      cbn [first_elem]. rewrite Et. destruct (_is_tag nd); [| exact IH].
      intros [= <-]. exact Ehr.
Qed.

Lemma parent_in_unique_Tag i n b nm a cs :
  NoDup (ids n) -> find_node b n = Some (Tag b nm a cs) -> In i (map node_id cs) ->
  parent_in i n = Some (Tag b nm a cs).
Proof. intros Hnd Hb Hi. apply (parent_in_unique i n (Tag b nm a cs) Hnd Hb Hi). Qed.

Lemma find_node_self i nm a cs : find_node i (Tag i nm a cs) = Some (Tag i nm a cs).
Proof. apply (find_root (Tag i nm a cs)). Qed.

Lemma node_id_promote H n : node_id (promote_heading H n) = node_id n.
Proof. unfold promote_heading. destruct (named "h1" H); [apply node_id_retag | reflexivity]. Qed.

Lemma insert_rule_run s L b nm a before Ln kept :
  NoDup (ids (root s)) -> limbo s = [] -> Forall (fun i => i < fresh s) (ids (root s)) ->
  find_node b (root s) = Some (Tag b nm a (before ++ Ln :: kept)) ->
  node_id Ln = L -> ~ In L (map node_id before) ->
  exists s',
    (styled_hr <- Bs4.new_tag "hr" ∅ ;;
     Bs4.setitem styled_hr "style" avoid_break ;;
     Bs4.insert_after L styled_hr)%pass s = (Done tt, s')
    /\ limbo s' = []
    /\ find_node b (root s') = Some (Tag b nm a (before ++ Ln :: styled_rule (fresh s) :: kept))
    /\ parent_in L (root s') = Some (Tag b nm a (before ++ Ln :: styled_rule (fresh s) :: kept)).
Proof.
  intros Hnd Hl Hfresh Hb HLn Hnot.
  set (f := fresh s).
  assert (Hf : ~ In f (ids (root s))).
  { intros Hin. rewrite Forall_forall in Hfresh. apply list_elem_of_In, Hfresh in Hin. unfold f in Hin. lia. }
  assert (HL : In L (map node_id (before ++ Ln :: kept))).
  { rewrite map_app. apply in_or_app. right. left. exact HLn. }
  assert (HLroot : In L (ids (root s))).
  { pose proof (parent_in_unique_Tag L (root s) _ _ _ _ Hnd Hb HL) as Hp. apply parent_in_below in Hp.
    rewrite ids_eq. right. exact Hp. }
  assert (HLf : Nat.eqb f L = false) by (apply Nat.eqb_neq; intros ->; tauto).
  assert (Hbf : b <> f).
  { intros ->. apply Hf. eapply find_node_below, Hb. }
  unfold bind at 1. unfold Bs4.new_tag, bind, get, put, ret. rewrite Hl. cbn [app].
  unfold Bs4.setitem, bind, get, put. unfold Bs4.lookup at 1. cbn [root limbo].
  replace (find_node (fresh s) (root s)) with (@None node) by (symmetry; apply find_node_None, Hf).
  cbn [first_some]. rewrite find_node_self. unfold Bs4.on_all. cbn [root limbo fresh map retag].
  rewrite Nat.eqb_refl. rewrite (retag_notin _ _ _ Hf).
  unfold Bs4.insert_after, bind, get.
  unfold Bs4.parent_node at 1. cbn [root].
  rewrite (parent_in_unique_Tag L (root s) _ _ _ _ Hnd Hb HL). fold f. rewrite HLf.
  unfold Bs4.take, bind, get, put, ret. unfold Bs4.lookup at 1. cbn [root limbo].
  replace (find_node f (root s)) with (@None node) by (symmetry; apply find_node_None, Hf).
  cbn [first_some]. rewrite find_node_self.
  unfold Bs4.detach. cbn [root limbo fresh flat_map]. unfold has_id at 1. cbn [node_id]. rewrite Nat.eqb_refl.
  cbn [app]. rewrite prune_notin by (intros Hin; apply Hf; rewrite ids_eq; right; exact Hin).
  unfold Bs4.still_there, bind, get, ret. unfold Bs4.lookup at 1. cbn [root].
  destruct (find_node L (root s)) as [dL |] eqn:EL.
  2:{ exfalso. apply find_node_None in EL. tauto. }
  unfold modify, Bs4.on_all. cbn [root limbo map fresh].
  eexists. split; [reflexivity |]. cbn [limbo root]. split; [reflexivity |].
  assert (Hcs : splice_list L (styled_rule f) (before ++ Ln :: kept)
                = before ++ Ln :: styled_rule f :: kept).
  { rewrite splice_list_child; [| eapply NoDup_contents, NoDup_found; eassumption | exact HL].
    unfold put_after. rewrite flat_map_app. cbn [flat_map].
    replace (has_id L Ln) with true by (symmetry; apply has_id_true, HLn). f_equal.
    - clear -Hnot. induction before as [| c r IH]; [reflexivity |]. simpl in Hnot |- *.
      replace (has_id L c) with false by (symmetry; apply has_id_false; tauto).
      simpl. f_equal. apply IH. tauto.
    - cbn [app]. do 2 f_equal.
      assert (Hk : ~ In L (map node_id kept)).
      { pose proof (NoDup_found _ _ _ Hnd Hb) as HB. apply NoDup_contents, NoDup_child_ids in HB.
        rewrite map_app in HB. apply NoDup_app in HB as (_ & _ & HB). simpl in HB.
        apply NoDup_cons in HB as [HB _]. rewrite HLn in HB. intros Hin. apply HB, list_elem_of_In, Hin. }
      clear -Hk. induction kept as [| c r IH]; [reflexivity |]. simpl in Hk |- *.
      replace (has_id L c) with false by (symmetry; apply has_id_false; tauto).
      simpl. f_equal. apply IH. tauto. }
  split.
  - rewrite find_node_splice_after.
    + rewrite Hb. cbn [fmap option_fmap option_map splice_after]. do 2 f_equal. exact Hcs.
    + rewrite find_node_eq. unfold has_id. cbn [node_id contents_of first_some].
      replace (Nat.eqb f b) with false by (symmetry; apply Nat.eqb_neq; congruence). reflexivity.
  - rewrite parent_in_splice_after.
    + rewrite (parent_in_unique_Tag L (root s) _ _ _ _ Hnd Hb HL).
      cbn [fmap option_fmap option_map splice_after]. do 2 f_equal. exact Hcs.
    + unfold has_id. cbn [node_id]. exact HLf.
    + reflexivity.
Qed.

(** C4, amended. When the pass finds the logo paragraph [L] and the
    first heading [H] after it, it ends normally and the siblings that
    follow [L] are the ones left by the removal of the stray rules, with
    the heading promoted, preceded by one new rule carrying the style
    marker exactly when the first element left after [L] is not the
    heading itself. After the removal that element is never a rule, so
    the test for an existing styled rule decides nothing: the rule is
    inserted unless the heading comes next. *)
Theorem banner_rule s L H :
  NoDup (ids (root s)) -> limbo s = [] -> Forall (fun i => i < fresh s) (ids (root s)) ->
  fst (find_logo_p (body_or_soup s) (Bs4.find_all_children (named "p") (body_or_soup s) s) s)
    = Done (Some L) ->
  List.find is_heading (List.filter _is_tag (next_siblings L s)) = Some H ->
  let kept := stray_free H (next_siblings L s) in
  let s' := snd (_fix_top_banner_block s) in
  fst (_fix_top_banner_block s) = Done BannerFixed /\
  (forall e, first_elem kept = Some e -> is_styled_hr e = false) /\
  next_siblings L s' =
    (if differs (first_elem kept) H then [styled_rule (fresh s)] else [])
    ++ map (promote_heading H) kept.
Proof.
  intros Hnd Hl Hfresh HL HH kept s'.
  set (b := body_or_soup s) in *.
  destruct (find_logo_p b (Bs4.find_all_children (named "p") b s) s) as [r s0] eqn:Elogo.
  simpl in HL. subst r. apply find_logo_p_spec in Elogo as Hspec. destruct Hspec as [-> HLin].
  specialize (HLin L eq_refl).
  destruct (child_of_body _ _ _ _ Hl HLin) as (nm & a & cs & Hb & HLcs).
  pose proof (next_siblings_eq L s b nm a cs Hnd Hl Hb HLcs) as Hsibs.
  destruct (after_id_split L cs HLcs) as (before & Ln & Hcs & HLn & Hnot).
  assert (Hhead : is_heading H = true /\ In H (after_id L cs)).
  { apply find_some in HH as [Hin Hh]. apply filter_In in Hin as [Hin _]. rewrite Hsibs in Hin. tauto. }
  destruct Hhead as [Hhead HHin].
  assert (Hstyled : forall e, first_elem kept = Some e -> is_styled_hr e = false).
  { intros e He. unfold is_styled_hr. rewrite (first_elem_stray_free H _ e Hhead He). reflexivity. }
  rewrite Hcs in Hb.
  destruct (drop_stray_hrs_run H b nm a (after_id L cs) (before ++ [Ln]) s Hnd Hl)
    as (s1 & Hrun & Hnd1 & Hl1 & Hf1 & Hincl1 & Hb1).
  { rewrite <- app_assoc. exact Hb. }
  rewrite <- app_assoc in Hb1. cbn [app] in Hb1. rewrite <- Hsibs in Hb1, Hrun. fold kept in Hb1.
  assert (HLk : In L (map node_id (before ++ Ln :: kept))).
  { rewrite map_app. apply in_or_app. right. left. exact HLn. }
  assert (Hsibs1 : next_siblings L s1 = kept).
  { rewrite (next_siblings_eq L s1 b nm a _ Hnd1 Hl1 Hb1 HLk). apply after_id_app; assumption. }
  assert (Hfresh1 : Forall (fun i => i < fresh s1) (ids (root s1))).
  { rewrite Hf1. rewrite Forall_forall in Hfresh |- *. intros x Hx.
    apply Hfresh. apply list_elem_of_In. apply list_elem_of_In in Hx. apply Hincl1, Hx. }
  assert (HHid : node_id H < fresh s).
  { rewrite Forall_forall in Hfresh. apply Hfresh, list_elem_of_In.
    pose proof (parent_in_unique_Tag (node_id H) (root s) b nm a _ Hnd Hb) as Hp.
    rewrite ids_eq. right. eapply parent_in_below, Hp.
    rewrite map_app. apply in_or_app. right. right. apply in_map, HHin. }
  (* the rule *)
  assert (Hrule : exists s2,
    (if differs (first_elem kept) H
     then (styled_hr <- Bs4.new_tag "hr" ∅ ;;
           Bs4.setitem styled_hr "style" avoid_break ;;
           Bs4.insert_after L styled_hr)%pass
     else ret tt) s1 = (Done tt, s2)
    /\ limbo s2 = []
    /\ parent_in L (root s2) = Some (Tag b nm a (before ++ Ln ::
         (if differs (first_elem kept) H then [styled_rule (fresh s)] else []) ++ kept))).
  { destruct (differs (first_elem kept) H).
    - destruct (insert_rule_run s1 L b nm a before Ln kept Hnd1 Hl1 Hfresh1 Hb1 HLn Hnot)
        as (s2 & Hrun2 & Hl2 & _ & Hp2).
      exists s2. rewrite Hf1 in Hp2. auto.
    - exists s1. split; [reflexivity |]. split; [exact Hl1 |].
      apply parent_in_unique_Tag; assumption. }
  destruct Hrule as (s2 & Hrun2 & Hl2 & Hp2).
  assert (Hwhole : _fix_top_banner_block s =
            (Done BannerFixed,
             if named "h1" H
             then Bs4.on_all (retag (fun '(_, a) => ("h1big", a)) (node_id H)) s2 else s2)).
  { unfold _fix_top_banner_block. unfold bind at 1. unfold get at 1. cbv beta iota.
    fold b. unfold bind at 1. rewrite Elogo. cbv beta iota. rewrite HH.
    unfold bind at 1. rewrite Hrun. cbv beta iota.
    unfold bind at 1. unfold get at 1. cbv beta iota. rewrite Hsibs1.
    replace (negb match first_elem kept with Some e => is_styled_hr e | None => false end) with true.
    2:{ destruct (first_elem kept) as [e |] eqn:Ee; [rewrite (Hstyled e eq_refl) |]; reflexivity. }
    cbn [andb]. unfold bind at 1. rewrite Hrun2. cbv beta iota.
    destruct (named "h1" H); reflexivity. }
  subst s'. rewrite Hwhole. cbn [fst snd].
  split; [reflexivity | split; [exact Hstyled |]].
  unfold promote_heading. destruct (named "h1" H) eqn:Eh1.
  - unfold next_siblings.
    rewrite parent_node_no_limbo by (unfold Bs4.on_all; cbn [limbo]; rewrite Hl2; reflexivity).
    unfold Bs4.on_all. cbn [root]. rewrite parent_in_retag, Hp2.
    cbn [fmap option_fmap option_map retag contents_of].
    destruct (if Nat.eqb b (node_id H) then _ else _) as [nm' a']. cbn [contents_of].
    rewrite after_id_map by (intros c; apply node_id_retag).
    rewrite after_id_app by assumption. rewrite map_app. f_equal.
    destruct (differs (first_elem kept) H); [| reflexivity].
    cbn [map styled_rule retag]. replace (Nat.eqb (fresh s) (node_id H)) with false; [reflexivity |].
    symmetry. apply Nat.eqb_neq. lia.
  - unfold next_siblings.
    rewrite parent_node_no_limbo by exact Hl2. rewrite Hp2. cbn [contents_of].
    rewrite after_id_app by assumption. rewrite map_id. reflexivity.
Qed.


(** C4, as stated, fails: in [doc_banner] the title comes right after
    the logo paragraph; it is not a styled rule, and no rule is inserted. *)
Lemma heading_next_no_rule :
  ~ rule_inserted_as_stated doc_banner (snd (_fix_top_banner_block doc_banner)) 3
      (Tag 5 "h1" ∅ [NavigableString 6 "Title"]).
Proof.
  intros H. destruct H as [i Hi]; [reflexivity |].
  vm_compute in Hi. discriminate.
Qed.

Ltac fresh_bound := apply (bool_decide_unpack _); vm_compute; exact I.

Lemma banner_rule_witness :
  fst (_fix_top_banner_block doc_stray) = Done BannerFixed /\
  head (next_siblings 3 (snd (_fix_top_banner_block doc_stray))) = Some (styled_rule 10).
Proof.
  destruct (banner_rule doc_stray 3 (Tag 8 "h1" ∅ [NavigableString 9 "Title"])) as (Hd & _ & Hs).
  - distinct_ids.
  - reflexivity.
  - fresh_bound.
  - vm_compute. reflexivity.
  - vm_compute. reflexivity.
  - split; [exact Hd |]. rewrite Hs. vm_compute. reflexivity.
Defined.


(** * Logo deduplication and heading anchors: what the code does *)

(** C1, on the code: two logo images in the first paragraph of the body
    both pass the position test, so the pass ends normally and leaves
    both in the document. *)
Lemma two_logos_survive :
  fst (_enforce_single_oasis_logo doc_two_logos) = Done tt /\
  logo_images (snd (_enforce_single_oasis_logo doc_two_logos)) = [4; 5].
Proof. split; vm_compute; reflexivity. Qed.

(** When a picture comes before the logo in the first paragraph, the
    pass asks the paragraph to be inserted before itself and stops with
    a [ValueError]. *)
Example logo_second_raises :
  fst (_enforce_single_oasis_logo doc_logo_second) = Raised ValueError.
Proof. vm_compute. reflexivity. Qed.

(** C6, on the code: the anchor of [doc_heading] has two children, so it
    has no [string]; it is destroyed with its text, and the heading is
    left empty. *)
Lemma heading_text_lost :
  get_text (root doc_heading) = "1 Introduction" /\
  fst (_remove_duplicate_heading_anchors doc_heading) = Done tt /\
  find_node 3 (root (snd (_remove_duplicate_heading_anchors doc_heading)))
    = Some (Tag 3 "h2" (<["id" := "intro"]> ∅) []) /\
  get_text (root (snd (_remove_duplicate_heading_anchors doc_heading))) = "".
Proof. repeat split; vm_compute; reflexivity. Qed.

(** An anchor holding a single string is replaced by that string. *)
Example heading_text_kept :
  find_node 3 (root (snd (_remove_duplicate_heading_anchors doc_heading_plain)))
    = Some (Tag 3 "h2" (<["id" := "intro"]> ∅) [NavigableString 5 "1 Introduction"]).
Proof. vm_compute. reflexivity. Qed.

(** * Localization of images and style sheets *)

Lemma for_each_app {S A} (l1 l2 : list A) (body : A -> M S unit) s :
  for_each (l1 ++ l2) body s =
  match for_each l1 body s with
  | (Done _, s1) => for_each l2 body s1
  | (Raised e, s1) => (Raised e, s1)
  end.
Proof.
  revert s. induction l1 as [| x l1 IH]; intros s; [reflexivity |].
  cbn [app for_each]. unfold bind. destruct (body x s) as [[[] | e] s1]; [apply IH | reflexivity].
Qed.

Section Localization.

Variable urlparse : string -> outcome ParseResult.
Variable fetch : list string -> string -> option string.
Variable self : converter.

Local Abbreviation image_path := (image_path self).
Local Abbreviation ready := (ready urlparse).
Local Abbreviation srcs_parse := (srcs_parse urlparse).

Lemma retag_retag f g i n : retag g i (retag f i n) = retag (fun x => g (f x)) i n.
Proof.
  induction n as [k t | k nm a cs IH] using node_ind'; [reflexivity |].
  cbn [retag]. destruct (Nat.eqb k i) eqn:E.
  - destruct (f (nm, a)) as [nm1 a1]. cbn [retag]. rewrite E. destruct (g (nm1, a1)) as [nm2 a2].
    f_equal. rewrite map_map. apply map_ext_Forall. exact IH.
  - cbn [retag]. rewrite E. f_equal. rewrite map_map. apply map_ext_Forall. exact IH.
Qed.

(** The step on a live image with an http(s) source. *)
Lemma localize_image_step d fs lg rq img nm atr cs raw pr :
  find_node img (root d) = Some (Tag img nm atr cs) ->
  atr !! "src" = Some raw ->
  urlparse (Py.strip raw) = Done pr ->
  http_scheme pr = true ->
  exists f, f (nm, atr) = (nm, localized_img pr atr) /\
  localize_image urlparse fetch self img (mkWorld d fs lg rq) =
  (Done tt,
   if bool_decide (image_path pr ∈ fs) then
     mkWorld (Bs4.on_all (retag f img) d) fs lg rq
   else
     let lg1 := lg ++ [(INFO, "Downloading image " +:+ Py.strip raw +:+ " -> " +:+ image_path pr)] in
     match fetch rq (Py.strip raw) with
     | Some _ =>
         mkWorld (Bs4.on_all (retag f img) d) ({[image_path pr]} ∪ fs) lg1 (rq ++ [Py.strip raw])
     | None =>
         mkWorld (Bs4.detach img d) fs (lg1 ++ [failed_image (Py.strip raw)]) (rq ++ [Py.strip raw])
     end).
Proof.
  intros Hfind Hsrc Hparse Hhttp.
  assert (Ht : tag_at img (root d) = Some (nm, atr)) by (unfold tag_at; rewrite Hfind; reflexivity).
  set (f1 := fun '(n, a) => (n, <["src" := Py.path_join images_subdir (image_name pr)]> a) : string * gmap string string).
  set (f2 := fun '(n, a) => (n, delete "srcset" a) : string * gmap string string).
  exists (if bool_decide (is_Some (atr !! "srcset")) then (fun x => f2 (f1 x)) else f1).
  split.
  { destruct (bool_decide (is_Some (atr !! "srcset"))) eqn:Eset; [reflexivity |].
    apply bool_decide_eq_false in Eset. cbn [f1]. unfold localized_img. f_equal.
    symmetry. apply delete_id. rewrite lookup_insert_ne by discriminate.
    destruct (atr !! "srcset"); [exfalso; eauto | reflexivity]. }
  unfold localize_image. unfold bind at 1. unfold on_dom at 1. cbn [dom files log requests].
  rewrite (getitem_run _ _ _ _ _ _ Ht Hsrc).
  unfold bind at 1. unfold lift_outcome. rewrite Hparse, Hhttp.
  fold (image_name pr). fold (image_path pr).
  unfold bind at 1. unfold get at 1. cbn [files].
  assert (Hloc : forall fs' lg' rq',
    (on_dom (Bs4.setitem img "src" (Py.path_join images_subdir (image_name pr)));;
     w' <- get;;
     (if bool_decide (is_Some (Bs4.lookup img (dom w') ≫= (λ d0 : node, attrs_of d0 !! "srcset")))
      then on_dom (Bs4.attrs_pop img "srcset") else ret ()))%pass (mkWorld d fs' lg' rq')
    = (Done tt, mkWorld (Bs4.on_all (retag (if bool_decide (is_Some (atr !! "srcset")) then (fun x => f2 (f1 x)) else f1) img) d) fs' lg' rq')).
  { intros fs' lg' rq'. unfold bind at 1. unfold on_dom at 1. cbn [dom files log requests].
    rewrite (setitem_run _ _ _ _ _ _ Ht). unfold bind at 1. unfold get at 1. cbn [dom].
    fold f1.
    assert (Ht1 : tag_at img (root (Bs4.on_all (retag f1 img) d)) = Some (nm, <["src" := Py.path_join images_subdir (image_name pr)]> atr)).
    { rewrite tag_at_on_all, Nat.eqb_refl, Ht. reflexivity. }
    apply tag_at_find in Ht1 as Hf1. destruct Hf1 as [cs1 Hf1].
    rewrite (lookup_root _ _ _ Hf1). cbn [mbind option_bind attrs_of].
    rewrite lookup_insert_ne by discriminate.
    destruct (bool_decide (is_Some (atr !! "srcset"))) eqn:Eset.
    - unfold on_dom. cbn [dom files log requests]. rewrite (attrs_pop_run _ _ _ _ _ Ht1).
      fold f2. f_equal. f_equal. destruct d as [r l f]. unfold Bs4.on_all. cbn [root limbo fresh].
      f_equal; [apply retag_retag |]. rewrite map_map. apply map_ext. intros n. apply retag_retag.
    - reflexivity. }
  destruct (bool_decide (image_path pr ∈ fs)).
  - unfold bind at 1. unfold ret at 1. apply Hloc.
  - unfold bind at 1. unfold bind at 1. unfold logger, modify. cbn [dom files log requests].
    unfold bind at 1. unfold requests_get. unfold bind at 1. unfold get at 1.
    unfold bind at 1. unfold put at 1. unfold ret at 1. cbn [dom files log requests].
    destruct (fetch rq (Py.strip raw)).
    + unfold bind at 1. unfold write_file, modify. cbn [dom files log requests]. unfold ret at 1.
      apply Hloc.
    + unfold bind at 1. unfold bind at 1. unfold logger, modify. cbn [dom files log requests].
      unfold bind at 1. unfold on_dom, Bs4.decompose, modify. cbn [dom files log requests].
      reflexivity.
Qed.

Lemma live_img_retag f i d k atr :
  k <> i -> live_img d k atr -> live_img (Bs4.on_all (retag f i) d) k atr.
Proof.
  unfold live_img, Bs4.on_all. cbn [root]. intros Hk H. rewrite find_node_retag, H.
  cbn [fmap option_fmap option_map retag map]. apply Nat.eqb_neq in Hk. rewrite Hk. reflexivity.
Qed.

Lemma live_img_detach i d k atr atr' :
  NoDup (ids (root d)) -> k <> i -> live_img d i atr' -> live_img d k atr ->
  live_img (Bs4.detach i d) k atr.
Proof.
  unfold live_img, Bs4.detach. cbn [root]. intros Hnd Hk Hi H.
  rewrite find_node_prune; [rewrite H; reflexivity |].
  apply Forall_forall. intros x Hx Hxi. apply list_elem_of_In in Hx. apply has_id_true in Hxi.
  assert (x = Tag i "img" atr' []) as ->.
  { apply (NoDup_map_inj_In node_id (root d :: descendants (root d))); [exact Hnd | right; exact Hx | | exact Hxi].
    eapply find_node_In, Hi. }
  rewrite find_node_eq. unfold has_id. cbn [node_id contents_of first_some].
  replace (Nat.eqb i k) with false by (symmetry; apply Nat.eqb_neq; congruence). reflexivity.
Qed.

Lemma dead_retag f i d k :
  find_node k (root d) = None -> find_node k (root (Bs4.on_all (retag f i) d)) = None.
Proof. unfold Bs4.on_all. cbn [root]. intros H. rewrite find_node_retag, H. reflexivity. Qed.

Lemma dead_detach i d k :
  find_node k (root d) = None -> find_node k (root (Bs4.detach i d)) = None.
Proof.
  unfold Bs4.detach. cbn [root]. intros H. apply find_node_None. intros Hin.
  apply ids_prune_incl in Hin. apply find_node_None in H. tauto.
Qed.

Lemma NoDup_on_all_retag f i d :
  NoDup (ids (root d)) -> NoDup (ids (root (Bs4.on_all (retag f i) d))).
Proof. unfold Bs4.on_all. cbn [root]. rewrite ids_retag. tauto. Qed.

Lemma localize_image_frame w i :
  NoDup (ids (root (dom w))) -> ready w i ->
  exists w', localize_image urlparse fetch self i w = (Done tt, w') /\ framed i w w'.
Proof.
  intros Hnd (atr & raw & pr & Hlive & Hsrc & Hparse). destruct w as [d fs lg rq]. cbn [dom] in *.
  destruct (http_scheme pr) eqn:Hhttp.
  - destruct (localize_image_step d fs lg rq i "img" atr [] raw pr Hlive Hsrc Hparse Hhttp)
      as (f & _ & Hrun).
    eexists. split; [exact Hrun |].
    destruct (bool_decide (image_path pr ∈ fs)); [| destruct (fetch rq (Py.strip raw))];
      unfold framed; cbn [dom files log requests].
    + repeat split; auto using NoDup_on_all_retag, dead_retag, live_img_retag, incl_refl.
      apply node_id_retag.
    + repeat split; auto using NoDup_on_all_retag, dead_retag, live_img_retag, incl_appl, incl_refl.
      * apply node_id_retag.
      * set_solver.
    + repeat split; auto using dead_detach, incl_appl, incl_refl.
      * apply node_id_prune.
      * unfold Bs4.detach. cbn [root]. apply NoDup_prune, Hnd.
      * intros k atr' Hk Hl. eapply live_img_detach; eassumption.
  - exists (mkWorld d fs lg rq). split.
    + assert (Ht : tag_at i (root d) = Some ("img", atr)) by (unfold tag_at; rewrite Hlive; reflexivity).
      unfold localize_image. unfold bind at 1. unfold on_dom at 1. cbn [dom files log requests].
      rewrite (getitem_run _ _ _ _ _ _ Ht Hsrc).
      unfold bind at 1. unfold lift_outcome. rewrite Hparse, Hhttp. reflexivity.
    + unfold framed. repeat split; auto using incl_refl.
Qed.

Lemma localize_loop l : forall w,
  NoDup l -> NoDup (ids (root (dom w))) -> (forall j, In j l -> ready w j) ->
  exists w', for_each l (localize_image urlparse fetch self) w = (Done tt, w') /\
    node_id (root (dom w')) = node_id (root (dom w)) /\
    NoDup (ids (root (dom w'))) /\
    (forall k, find_node k (root (dom w)) = None -> find_node k (root (dom w')) = None) /\
    (forall k atr, ~ In k l -> live_img (dom w) k atr -> live_img (dom w') k atr) /\
    incl (log w) (log w') /\ incl (requests w) (requests w') /\ files w ⊆ files w'.
Proof.
  induction l as [| i l IH]; intros w Hl Hnd Hready.
  - exists w. cbn [for_each]. unfold ret. repeat split; auto using incl_refl.
  - apply NoDup_cons in Hl as [Hi Hl]. rewrite list_elem_of_In in Hi.
    destruct (localize_image_frame w i Hnd (Hready i (or_introl eq_refl)))
      as (w1 & Hrun & Hid1 & Hnd1 & Hdead1 & Hlive1 & Hlog1 & Hreq1 & Hfiles1).
    destruct (IH w1 Hl Hnd1) as (w' & Hrun' & Hid' & Hnd' & Hdead' & Hlive' & Hlog' & Hreq' & Hfiles').
    { intros j Hj. destruct (Hready j (or_intror Hj)) as (atr & raw & pr & Hlv & Hsrc & Hp).
      exists atr, raw, pr. split; [| tauto]. apply Hlive1; [intros ->; tauto | exact Hlv]. }
    exists w'. cbn [for_each]. unfold bind. rewrite Hrun. split; [exact Hrun' |].
    split; [congruence |]. split; [exact Hnd' |]. split; [auto |]. split; [| split; [| split]].
    + intros k atr Hk Hlv. apply Hlive'; [simpl in Hk; tauto |]. apply Hlive1; [| exact Hlv].
      intros ->. apply Hk. left. reflexivity.
    + eapply incl_tran; eassumption.
    + eapply incl_tran; eassumption.
    + set_solver.
Qed.

Lemma ready_of_list w j :
  NoDup (ids (root (dom w))) -> imgs_void (dom w) = true -> srcs_parse (dom w) = true ->
  In j (Bs4.find_all is_img_src (node_id (root (dom w))) (dom w)) -> ready w j.
Proof.
  intros Hnd Hvoid Hparse Hj. apply In_find_all in Hj as (x & Hx & Hw & <-); [| exact Hnd].
  unfold is_img_src in Hw. apply andb_true_iff in Hw as [Hn Hs].
  apply named_eq in Hn as (i & a & cs & ->). unfold has_attr in Hs. apply bool_decide_eq_true in Hs.
  destruct Hs as [raw Hraw]. cbn [attrs_of] in Hraw.
  unfold imgs_void in Hvoid. rewrite forallb_forall in Hvoid. specialize (Hvoid _ Hx).
  cbn in Hvoid. destruct cs; [| discriminate].
  unfold srcs_parse in Hparse. rewrite forallb_forall in Hparse.
  specialize (Hparse (Tag i "img" a []) ltac:(apply filter_In; split; [exact Hx | reflexivity])).
  cbn [attrs_of] in Hparse. rewrite Hraw in Hparse.
  destruct (urlparse (Py.strip raw)) as [pr |] eqn:Hp; [| discriminate].
  exists a, raw, pr. split; [| tauto]. unfold live_img.
  apply (find_node_unique _ _ Hnd (or_intror Hx)).
Qed.

(** The pass over the images, image by image, in the names of
    [image_path], [localized_img] and [failed_image]. *)
Lemma localization_at_turn w :
  NoDup (ids (root (dom w))) -> imgs_void (dom w) = true -> srcs_parse (dom w) = true ->
  let step := localize_image urlparse fetch self in
  let w' := snd (localize_images urlparse fetch self w) in
  fst (localize_images urlparse fetch self w) = Done tt /\
  forall pre img post atr raw pr,
    Bs4.find_all is_img_src (node_id (root (dom w))) (dom w) = pre ++ img :: post ->
    In (Tag img "img" atr []) (descendants (root (dom w))) ->
    atr !! "src" = Some raw ->
    urlparse (Py.strip raw) = Done pr ->
    http_scheme pr = true ->
    let w1 := snd (for_each pre step w) in
    let w2 := snd (step img w1) in
    files w ⊆ files w1 /\
    fst (step img w1) = Done tt /\
    (image_path pr ∉ files w1 -> fetch (requests w1) (Py.strip raw) = None ->
       find_node img (root (dom w')) = None /\ In (failed_image (Py.strip raw)) (log w')) /\
    (image_path pr ∈ files w1 ->
       requests w2 = requests w1 /\
       find_node img (root (dom w')) = Some (Tag img "img" (localized_img pr atr) [])).
Proof.
  intros Hnd Hvoid Hparse step w'.
  set (l := Bs4.find_all is_img_src (node_id (root (dom w))) (dom w)).
  assert (Hl : NoDup l) by (apply NoDup_find_all; [exact Hnd | apply find_root]).
  assert (Hready : forall j, In j l -> ready w j) by (intros j; apply ready_of_list; assumption).
  assert (Hrun : localize_images urlparse fetch self w = for_each l step w).
  { unfold localize_images, bind, get. reflexivity. }
  destruct (localize_loop l w Hl Hnd Hready) as (wf & Hwf & _).
  subst w'. rewrite Hrun. fold step in Hwf. rewrite Hwf.
  split; [reflexivity |]. change (snd (Done tt, wf)) with wf.
  intros pre img post atr raw pr Hsplit Hin Hsrc Hp Hhttp w1 w2.
  rewrite Hsplit in Hl, Hready, Hwf.
  apply NoDup_app in Hl as (Hpre & Hdisj & Himgpost). apply NoDup_cons in Himgpost as [Himg Hpost].
  rewrite list_elem_of_In in Himg.
  assert (Hnotpre : ~ In img pre).
  { intros Hi. apply (Hdisj img); [apply list_elem_of_In, Hi | left]. }
  destruct (localize_loop pre w Hpre Hnd) as (w1' & Hrun1 & Hid1 & Hnd1 & Hdead1 & Hlive1 & Hlog1 & Hreq1 & Hfiles1).
  { intros j Hj. apply Hready, in_or_app. left. exact Hj. }
  fold step in Hrun1.
  assert (Hw1 : w1 = w1') by (subst w1; rewrite Hrun1; reflexivity).
  clearbody w1. subst w1'.
  assert (Hlive : live_img (dom w) img atr) by (apply (find_node_unique _ _ Hnd (or_intror Hin))).
  assert (Hlivei : live_img (dom w1) img atr) by (apply Hlive1; assumption).
  destruct (localize_image_frame w1 img Hnd1) as (w2' & Hrun2 & Hid2 & Hnd2 & Hdead2 & Hlive2 & Hlog2 & Hreq2 & Hfiles2).
  { exists atr, raw, pr. auto. }
  fold step in Hrun2.
  assert (Hw2 : w2 = w2') by (subst w2; rewrite Hrun2; reflexivity).
  clearbody w2. subst w2'.
  destruct (localize_loop post w2 Hpost Hnd2) as (w3 & Hrun3 & Hid3 & Hnd3 & Hdead3 & Hlive3 & Hlog3 & Hreq3 & Hfiles3).
  { intros j Hj. destruct (Hready j) as (a & r & p & Hlv & Hs & Hpp).
    { apply in_or_app. right. right. exact Hj. }
    exists a, r, p. split; [| tauto]. apply Hlive2; [intros ->; tauto |].
    apply Hlive1; [| exact Hlv]. intros Hi. apply (Hdisj j); [apply list_elem_of_In, Hi | right; apply list_elem_of_In, Hj]. }
  fold step in Hrun3.
  assert (Hfinal : wf = w3).
  { rewrite for_each_app, Hrun1 in Hwf. cbn [for_each] in Hwf. unfold bind in Hwf.
    rewrite Hrun2, Hrun3 in Hwf. congruence. }
  subst wf. split; [exact Hfiles1 |]. split; [rewrite Hrun2; reflexivity |].
  destruct w1 as [d1 fs1 lg1 rq1]. cbn [dom files log requests] in *.
  destruct (localize_image_step d1 fs1 lg1 rq1 img "img" atr [] raw pr Hlivei Hsrc Hp Hhttp)
    as (f & Hf & Hstep).
  fold step in Hstep. rewrite Hstep in Hrun2. injection Hrun2 as Hw2eq.
  split.
  - intros Hno Hfail. rewrite bool_decide_eq_false_2 in Hw2eq by exact Hno. cbv zeta in Hw2eq.
    rewrite Hfail in Hw2eq. subst w2. cbn [dom log] in *. split.
    + apply Hdead3. unfold Bs4.detach. cbn [root]. apply find_node_prune_self; [exact Hnd1 |].
      apply find_node_In in Hlivei. destruct Hlivei as [Hroot | Hd].
      * exfalso. assert (Hr : node_id (root (dom w)) = img) by (rewrite <- Hid1, Hroot; reflexivity).
        unfold ids in Hnd. cbn [map] in Hnd. apply NoDup_cons in Hnd as [Hnd _]. apply Hnd.
        apply list_elem_of_In. rewrite Hr. change img with (node_id (Tag img "img" atr [])).
        apply in_map, Hin.
      * change img with (node_id (Tag img "img" atr [])). apply in_map, Hd.
    + apply Hlog3. apply in_or_app. right. left. reflexivity.
  - intros Hyes. rewrite bool_decide_eq_true_2 in Hw2eq by exact Hyes. subst w2.
    cbn [requests dom] in *. split; [reflexivity |].
    apply Hlive3; [exact Himg |]. unfold live_img, Bs4.on_all. cbn [root].
    rewrite find_node_retag, Hlivei. cbn [fmap option_fmap option_map retag map].
    rewrite Nat.eqb_refl, Hf. reflexivity.
Qed.

(** The last component of a path holds no [/]. *)
Lemma after_last_free c s : Py.has_char c (Py.after_last c s) = false.
Proof.
  induction s as [| a r IH]; [reflexivity |]. cbn [Py.after_last].
  destruct (Py.has_char c r) eqn:Hr; [exact IH |].
  destruct (Ascii.eqb a c) eqn:E; [exact Hr |]. cbn [Py.has_char]. rewrite E, Hr. reflexivity.
Qed.

Lemma startswith_char_has c b : Py.startswith (String c "") b = true -> Py.has_char c b = true.
Proof.
  destruct b as [| a r]; [discriminate |]. cbn [Py.startswith Py.has_char].
  rewrite Ascii.eqb_sym. destruct (Ascii.eqb a c); [reflexivity | discriminate].
Qed.

(** The name under which an image is kept, and its new [src], written
    out: the last component of the path of the URL, or [image] when
    that is empty, below [images/]. *)
Lemma image_name_explicit pr :
  image_name pr = if Py.truthy (Py.basename (path pr)) then Py.basename (path pr) else "image".
Proof. reflexivity. Qed.

Lemma image_src_explicit pr :
  Py.path_join images_subdir (image_name pr) = "images/" +:+ image_name pr.
Proof.
  unfold Py.path_join, images_subdir.
  destruct (Py.startswith "/" (image_name pr)) eqn:E; [| reflexivity].
  exfalso. apply startswith_char_has in E. unfold image_name, or_else in E.
  destruct (Py.truthy (Py.basename (path pr))); [| discriminate].
  unfold Py.basename in E. rewrite after_last_free in E. discriminate.
Qed.


End Localization.

Section Stylesheets.

Variable urlparse : string -> outcome ParseResult.
Variable fetch : list string -> string -> option string.
Variable flag : string.
Variable self : converter.

Local Abbreviation css_path := (css_path self).
Local Abbreviation ready_link := (ready_link urlparse).
Local Abbreviation links_parse := (links_parse urlparse).

Lemma tag_get_run i key s nm a :
  tag_at i (root s) = Some (nm, a) -> Bs4.tag_get i key s = (Done (a !! key), s).
Proof.
  intros H. apply tag_at_find in H as [cs H]. unfold Bs4.tag_get, bind, get.
  rewrite (lookup_root _ _ _ H). reflexivity.
Qed.

Lemma tag_at_other f i d k :
  k <> i -> tag_at k (root (Bs4.on_all (retag f i) d)) = tag_at k (root d).
Proof. intros Hk. rewrite tag_at_on_all. apply Nat.eqb_neq in Hk. rewrite Hk. reflexivity. Qed.

(** The step on a live link: it ends normally; when the style sheet is
    remote, not yet on disk, and the download fails, the document is
    left as it was and the failure is logged. *)
Lemma localize_stylesheet_step w i atr raw pr :
  NoDup (ids (root (dom w))) ->
  tag_at i (root (dom w)) = Some ("link", atr) -> atr !! "href" = Some raw ->
  urlparse (Py.strip raw) = Done pr ->
  exists w', localize_stylesheet urlparse fetch self i w = (Done tt, w') /\ framed_link i w w' /\
    (rel_is_stylesheet atr = true -> http_scheme pr = true -> css_path pr ∉ files w ->
     fetch (requests w) (Py.strip raw) = None ->
     dom w' = dom w /\ In (failed_css (Py.strip raw)) (log w')).
Proof.
  intros Hnd Ht Hhref Hparse. destruct w as [d fs lg rq]. cbn [dom files log requests] in *.
  unfold localize_stylesheet. unfold bind at 1. unfold on_dom at 1. cbn [dom files log requests].
  rewrite (tag_get_run _ _ _ _ _ Ht). fold (rel_is_stylesheet atr).
  destruct (rel_is_stylesheet atr); cbn [negb].
  2:{ eexists. split; [reflexivity |]. split; [| discriminate].
      unfold framed_link. cbn [dom log]. auto using incl_refl. }
  unfold bind at 1. unfold on_dom at 1. cbn [dom files log requests].
  rewrite (getitem_run _ _ _ _ _ _ Ht Hhref).
  unfold bind at 1. unfold lift_outcome. rewrite Hparse.
  destruct (http_scheme pr).
  2:{ eexists. split; [reflexivity |]. split; [| discriminate].
      unfold framed_link. cbn [dom log]. auto using incl_refl. }
  fold (css_name pr). fold (css_path pr).
  unfold bind at 1. unfold get at 1. cbn [files].
  destruct (bool_decide (css_path pr ∈ fs)) eqn:Ex.
  - unfold bind at 1. unfold ret at 1. unfold on_dom. cbn [dom files log requests].
    rewrite (setitem_run _ _ _ _ _ _ Ht). eexists. split; [reflexivity |]. split.
    + unfold framed_link. cbn [dom log]. split; [apply NoDup_on_all_retag, Hnd |].
      split; [intros k Hk; apply tag_at_other, Hk | apply incl_refl].
    + intros _ _ Hno. apply bool_decide_eq_true in Ex. tauto.
  - unfold bind at 1. unfold bind at 1. unfold logger, modify. cbn [dom files log requests].
    unfold bind at 1. unfold requests_get. unfold bind at 1. unfold get at 1.
    unfold bind at 1. unfold put at 1. unfold ret at 1. cbn [dom files log requests].
    destruct (fetch rq (Py.strip raw)).
    + unfold bind at 1. unfold write_file, modify. cbn [dom files log requests]. unfold ret at 1.
      unfold on_dom. cbn [dom files log requests].
      rewrite (setitem_run _ _ _ _ _ _ Ht). eexists. split; [reflexivity |]. split.
      * unfold framed_link. cbn [dom log]. split; [apply NoDup_on_all_retag, Hnd |].
        split; [intros k Hk; apply tag_at_other, Hk | apply incl_appl, incl_refl].
      * intros _ _ _ Hf. discriminate.
    + unfold bind at 1. unfold logger, modify. cbn [dom files log requests]. unfold ret.
      eexists. split; [reflexivity |]. split.
      * unfold framed_link. cbn [dom log]. split; [exact Hnd |].
        split; [reflexivity | apply incl_appl, incl_appl, incl_refl].
      * intros _ _ _ _. cbn [dom log]. split; [reflexivity |].
        apply in_or_app. right. left. reflexivity.
Qed.

Lemma stylesheet_loop l : forall w,
  NoDup l -> NoDup (ids (root (dom w))) -> (forall j, In j l -> ready_link w j) ->
  exists w', for_each l (localize_stylesheet urlparse fetch self) w = (Done tt, w') /\
    NoDup (ids (root (dom w'))) /\
    (forall k, ~ In k l -> tag_at k (root (dom w')) = tag_at k (root (dom w))) /\
    incl (log w) (log w').
Proof.
  induction l as [| i l IH]; intros w Hl Hnd Hready.
  - exists w. cbn [for_each]. unfold ret. repeat split; auto using incl_refl.
  - apply NoDup_cons in Hl as [Hi Hl]. rewrite list_elem_of_In in Hi.
    destruct (Hready i (or_introl eq_refl)) as (atr & raw & pr & Ht & Hh & Hp).
    destruct (localize_stylesheet_step w i atr raw pr Hnd Ht Hh Hp)
      as (w1 & Hrun & (Hnd1 & Htag1 & Hlog1) & _).
    destruct (IH w1 Hl Hnd1) as (w' & Hrun' & Hnd' & Htag' & Hlog').
    { intros j Hj. destruct (Hready j (or_intror Hj)) as (a & r & p & Htj & Hhj & Hpj).
      exists a, r, p. split; [| tauto]. rewrite Htag1; [exact Htj | intros ->; tauto]. }
    exists w'. cbn [for_each]. unfold bind. rewrite Hrun. split; [exact Hrun' |].
    split; [exact Hnd' |]. split.
    + intros k Hk. simpl in Hk. rewrite Htag' by tauto. apply Htag1. intros ->. tauto.
    + eapply incl_tran; eassumption.
Qed.

Lemma ready_link_of_list w j :
  NoDup (ids (root (dom w))) -> links_parse (dom w) = true ->
  In j (Bs4.find_all is_stylesheet_link (node_id (root (dom w))) (dom w)) -> ready_link w j.
Proof.
  intros Hnd Hparse Hj. apply In_find_all in Hj as (x & Hx & Hw & <-); [| exact Hnd].
  unfold is_stylesheet_link in Hw. apply andb_true_iff in Hw as [Hw Hs].
  apply andb_true_iff in Hw as [Hn _].
  apply named_eq in Hn as (i & a & cs & ->). unfold has_attr in Hs. apply bool_decide_eq_true in Hs.
  destruct Hs as [raw Hraw]. cbn [attrs_of] in Hraw.
  unfold links_parse in Hparse. rewrite forallb_forall in Hparse.
  specialize (Hparse (Tag i "link" a cs) ltac:(apply filter_In; split; [exact Hx | reflexivity])).
  cbn [attrs_of] in Hparse. rewrite Hraw in Hparse.
  destruct (urlparse (Py.strip raw)) as [pr |] eqn:Hp; [| discriminate].
  exists a, raw, pr. split; [| tauto]. eapply tag_at_descendant; eassumption.
Qed.


End Stylesheets.


Ltac decided := apply (bool_decide_unpack _); vm_compute; exact I.




Lemma first_match_Tag p k nm a cs :
  first_match p (Tag k nm a cs)
  = first_some (fun c => if p c then Some c else first_match p c) cs.
Proof. unfold first_match. cbn [descendants]. rewrite find_flat_map. reflexivity. Qed.

Lemma first_match_In p n y : first_match p n = Some y -> In y (descendants n) /\ p y = true.
Proof. unfold first_match. apply find_some. Qed.

Lemma not_in_pruned y i k nm a cs :
  NoDup (ids (Tag k nm a cs)) ->
  (exists c, In c cs /\ In y (ids c) /\ (has_id i c = true \/ ~ In y (ids (prune i c)))) ->
  find_node y (prune i (Tag k nm a cs)) = None.
Proof.
  intros Hnd (c & Hc & Hy & Hgone). apply find_node_None.
  cbn [prune]. fold (prune_list i cs). rewrite ids_Tag in Hnd |- *.
  apply NoDup_cons in Hnd as [Hk Hnd]. intros [-> | Hin].
  - apply Hk, list_elem_of_In, in_flat_map. eauto.
  - unfold prune_list in Hin. apply in_flat_map in Hin as (z & Hz & Hyz).
    apply in_flat_map in Hz as (c' & Hc' & Hz).
    destruct (has_id i c') eqn:E; [destruct Hz |]. destruct Hz as [<- | []].
    clear Hk. induction cs as [| c0 r IH]; [destruct Hc |].
    cbn [flat_map] in Hnd. apply NoDup_app in Hnd as (H0 & Hdisj & Hr).
    destruct Hc as [-> | Hc], Hc' as [-> | Hc'].
    + destruct Hgone as [Hi | Hn]; [congruence | tauto].
    + apply (Hdisj y); [apply list_elem_of_In, Hy |].
      apply list_elem_of_In, in_flat_map. exists c'. split; [exact Hc' | apply ids_prune_incl in Hyz; exact Hyz].
    + apply (Hdisj y); [apply list_elem_of_In; apply ids_prune_incl in Hyz; exact Hyz |].
      apply list_elem_of_In, in_flat_map. eauto.
    + apply IH; assumption.
Qed.

Lemma first_match_prune p i n :
  NoDup (ids n) -> (forall y, p (prune i y) = p y) ->
  match first_match p n with
  | None => first_match p (prune i n) = None
  | Some y => find_node (node_id y) (prune i n) = None
              \/ first_match p (prune i n) = Some (prune i y)
  end.
Proof.
  intros Hnd Hp. induction n as [k t | k nm a cs IH] using node_ind'; [reflexivity |].
  pose proof Hnd as Hnd0. rewrite ids_Tag in Hnd. apply NoDup_cons in Hnd as [_ Hnd].
  rewrite first_match_Tag.
  cbn [prune]. fold (prune_list i cs). rewrite first_match_Tag.
  assert (Hgen :
    match first_some (fun c => if p c then Some c else first_match p c) cs with
    | None => first_some (fun c => if p c then Some c else first_match p c) (prune_list i cs) = None
    | Some y => (exists c, In c cs /\ In (node_id y) (ids c) /\ (has_id i c = true \/ ~ In (node_id y) (ids (prune i c))))
                \/ first_some (fun c => if p c then Some c else first_match p c) (prune_list i cs) = Some (prune i y)
    end).
  { clear Hnd0. induction cs as [| c r IHr]; [reflexivity |].
    inversion IH as [| ? ? IHc IH']; subst. cbn [flat_map] in Hnd.
    apply NoDup_app in Hnd as (Hc & Hdisj & Hr). specialize (IHr IH' Hr). specialize (IHc Hc).
    cbn [first_some prune_list flat_map].
    destruct (has_id i c) eqn:Ei.
    - cbn [app]. fold (prune_list i r).
      destruct (p c) eqn:Epc.
      + left. exists c. split; [left; reflexivity |]. split; [rewrite ids_eq; left; reflexivity | tauto].
      + destruct (first_match p c) as [y |] eqn:Ey.
        * left. exists c. split; [left; reflexivity |]. split; [| tauto].
          apply first_match_In in Ey as [Hy _]. unfold ids. right. apply in_map, Hy.
        * destruct (first_some _ r) as [y |]; [| exact IHr].
          destruct IHr as [(c' & Hc' & H1 & H2) | IHr]; [left; exists c'; split; [right; exact Hc' | tauto] | right; exact IHr].
    - cbn [app first_some]. fold (prune_list i r). rewrite Hp.
      destruct (p c) eqn:Epc; [right; reflexivity |].
      destruct (first_match p c) as [y |] eqn:Ey.
      + destruct IHc as [Hdead | Hlive].
        * left. exists c. split; [left; reflexivity |].
          apply first_match_In in Ey as [Hy _]. split; [unfold ids; right; apply in_map, Hy |].
          right. apply find_node_None, Hdead.
        * right. rewrite Hlive. reflexivity.
      + rewrite IHc. destruct (first_some _ r) as [y |]; [| exact IHr].
        destruct IHr as [(c' & Hc' & H1 & H2) | IHr]; [left; exists c'; split; [right; exact Hc' | tauto] | right; exact IHr]. }
  destruct (first_some _ cs) as [y |]; [| exact Hgen].
  destruct Hgen as [Hdead | Hlive]; [left | right; exact Hlive].
  apply (not_in_pruned _ _ _ _ _ _ Hnd0 Hdead).
Qed.

Lemma node_id_recontent f h n : node_id (recontent f h n) = node_id n.
Proof. destruct n; reflexivity. Qed.

Lemma recontent_notin f h n : ~ In h (ids n) -> recontent f h n = n.
Proof.
  induction n as [k t | k nm a cs IH] using node_ind'; intros H; [reflexivity |].
  rewrite ids_Tag in H. cbn [recontent].
  replace (Nat.eqb k h) with false by (symmetry; apply Nat.eqb_neq; intros ->; apply H; left; reflexivity).
  f_equal. assert (Hcs : ~ In h (flat_map ids cs)) by (intros Hi; apply H; right; exact Hi).
  clear H. induction IH as [| c cs Hc _ IHcs]; [reflexivity |]. cbn [flat_map] in Hcs.
  rewrite in_app_iff in Hcs. cbn [map]. f_equal; [apply Hc; tauto | apply IHcs; tauto].
Qed.

Lemma map_recontent_notin f h cs :
  ~ In h (flat_map ids cs) -> map (recontent f h) cs = cs.
Proof.
  induction cs as [| c cs IH]; [reflexivity |]. cbn [flat_map map]. rewrite in_app_iff. intros H.
  rewrite recontent_notin by tauto. rewrite IH by tauto. reflexivity.
Qed.

(** A fresh leaf put first among the children of [h]: the identities
    are those of the tree and, at most once, that of the leaf. *)
Lemma ids_recontent_cons new h n :
  NoDup (ids n) -> ids (recontent (cons new) h n) ⊆+ ids new ++ ids n.
Proof.
  induction n as [k t | k nm a cs IH] using node_ind'; intros Hnd.
  - cbn [recontent]. apply submseteq_inserts_l. reflexivity.
  - cbn [recontent]. rewrite ids_Tag in Hnd. apply NoDup_cons in Hnd as [Hk Hnd].
    destruct (Nat.eqb k h) eqn:E.
    + apply Nat.eqb_eq in E. subst k.
      rewrite map_recontent_notin by (intros Hi; apply Hk, list_elem_of_In, Hi).
      rewrite !ids_Tag. cbn [flat_map].
      rewrite (Permutation_middle (ids new) (flat_map ids cs) h). reflexivity.
    + rewrite !ids_Tag. rewrite <- (Permutation_middle (ids new) (flat_map ids cs) k).
      apply submseteq_skip. clear Hk.
      induction cs as [| c r IHr]; [apply submseteq_nil_l |].
      inversion IH as [| ? ? IHc IH']; subst. cbn [flat_map map] in *.
      apply NoDup_app in Hnd as (Hc & Hdisj & Hr).
      destruct (in_dec Nat.eq_dec h (ids c)) as [Hin | Hnin].
      * rewrite map_recontent_notin.
        -- rewrite app_assoc. apply submseteq_app; [apply IHc, Hc | reflexivity].
        -- intros Hi. apply (Hdisj h); apply list_elem_of_In; assumption.
      * rewrite (recontent_notin _ _ _ Hnin).
        rewrite (Permutation_app_swap_app (ids new) (ids c)).
        apply submseteq_app; [reflexivity | apply IHr; assumption].
Qed.

Lemma NoDup_of_submseteq {A} (l k : list A) : l ⊆+ k -> NoDup k -> NoDup l.
Proof.
  intros Hsub Hk. apply submseteq_Permutation in Hsub as [k' Hk']. rewrite Hk' in Hk.
  apply NoDup_app in Hk. tauto.
Qed.

Lemma NoDup_recontent_cons new h n :
  NoDup (ids n) -> NoDup (ids new) -> (forall x, In x (ids new) -> ~ In x (ids n)) ->
  NoDup (ids (recontent (cons new) h n)).
Proof.
  intros Hn Hnew Hdisj. eapply NoDup_of_submseteq; [apply ids_recontent_cons, Hn |].
  apply NoDup_app. split; [exact Hnew |]. split; [| exact Hn].
  intros x Hx Hxn. apply (Hdisj x); apply list_elem_of_In; assumption.
Qed.

Lemma dead_recontent_cons new h n x :
  NoDup (ids n) -> find_node x n = None -> ~ In x (ids new) ->
  find_node x (recontent (cons new) h n) = None.
Proof.
  intros Hnd Hx Hnew. apply find_node_None. intros Hin.
  apply list_elem_of_In in Hin.
  pose proof (elem_of_submseteq _ _ _ Hin (ids_recontent_cons new h n Hnd)) as H.
  apply list_elem_of_In, in_app_iff in H as [H | H]; [tauto |].
  apply find_node_None in Hx. tauto.
Qed.

Lemma first_id_recontent_cons p new h n :
  p new = false -> contents_of new = [] ->
  (forall y, p (recontent (cons new) h y) = p y) ->
  first_id p (recontent (cons new) h n) = first_id p n.
Proof.
  intros Hnew Hleaf Hp. unfold first_id.
  induction n as [k t | k nm a cs IH] using node_ind'; [reflexivity |].
  cbn [recontent]. rewrite !first_match_Tag.
  assert (Hcs : node_id <$> first_some (fun c => if p c then Some c else first_match p c)
                              (map (recontent (cons new) h) cs)
                = node_id <$> first_some (fun c => if p c then Some c else first_match p c) cs).
  { rewrite first_some_map, <- !first_some_fmap. apply first_some_ext.
    apply Forall_forall. intros c Hc. rewrite Forall_forall in IH. specialize (IH c Hc).
    rewrite Hp. destruct (p c); [cbn; rewrite node_id_recontent; reflexivity | exact IH]. }
  destruct (Nat.eqb k h); [| exact Hcs].
  cbn [first_some]. rewrite Hnew. unfold first_match at 1.
  destruct new as [j t | j nm' a' cs']; [exact Hcs |]. cbn [contents_of] in Hleaf. subst cs'.
  cbn [descendants flat_map List.find]. exact Hcs.
Qed.

Lemma named_prune nm i y : named nm (prune i y) = named nm y.
Proof. destruct y; reflexivity. Qed.

Lemma named_recontent nm f h y : named nm (recontent f h y) = named nm y.
Proof. destruct y; reflexivity. Qed.

Lemma gone_or_first_prune p x i n :
  NoDup (ids n) -> (forall y, p (prune i y) = p y) ->
  gone_or_first p x n -> gone_or_first p x (prune i n).
Proof.
  intros Hnd Hp [Hgone | Hfirst].
  - left. apply find_node_None. intros Hin. apply ids_prune_incl in Hin.
    apply find_node_None in Hgone. tauto.
  - unfold first_id in *. pose proof (first_match_prune p i n Hnd Hp) as H.
    destruct (first_match p n) as [y |]; [| discriminate]. cbn in Hfirst. injection Hfirst as <-.
    destruct H as [H | H]; [left; exact H | right].
    change (node_id <$> first_match p (prune i n) = Some (node_id y)).
    rewrite H. cbn. rewrite node_id_prune. reflexivity.
Qed.

Lemma pruned_trans s1 s2 s3 : pruned s1 s2 -> pruned s2 s3 -> pruned s1 s3.
Proof. induction 1; [tauto |]. intros H3. eapply pruned_step. eauto. Qed.

Lemma pruned_spec s s' :
  pruned s s' -> NoDup (ids (root s)) -> limbo s = [] ->
  NoDup (ids (root s')) /\ limbo s' = [] /\ fresh s' = fresh s
  /\ node_id (root s') = node_id (root s)
  /\ incl (ids (root s')) (ids (root s))
  /\ (forall p x, (forall i y, p (prune i y) = p y) ->
        gone_or_first p x (root s) -> gone_or_first p x (root s')).
Proof.
  induction 1 as [s | s i s' _ IH]; intros Hnd Hl.
  - repeat split; auto using incl_refl.
  - destruct IH as (Hnd' & Hl' & Hf & Hid & Hincl & Hgf).
    + unfold Bs4.detach. cbn [root]. apply NoDup_prune, Hnd.
    + unfold Bs4.detach. cbn [limbo]. rewrite Hl. reflexivity.
    + unfold Bs4.detach in *. cbn [root fresh] in *. split; [exact Hnd' |]. split; [exact Hl' |].
      split; [exact Hf |]. split; [rewrite Hid; apply node_id_prune |].
      split; [intros z Hz; apply Hincl in Hz; apply (ids_prune_incl _ _ _ Hz) |].
      intros p x Hp Hx. apply Hgf; [exact Hp |]. apply gone_or_first_prune; auto.
Qed.

Lemma pruned_dead s s' x :
  pruned s s' -> NoDup (ids (root s)) -> limbo s = [] ->
  find_node x (root s) = None -> find_node x (root s') = None.
Proof.
  intros Hp Hnd Hl Hx. destruct (pruned_spec s s' Hp Hnd Hl) as (_ & _ & _ & _ & Hincl & _).
  apply find_node_None. intros Hin. apply Hincl in Hin. apply find_node_None in Hx. tauto.
Qed.

Lemma head_map_filter {A B} (f : A -> B) (p : A -> bool) l :
  head (map f (List.filter p l)) = f <$> List.find p l.
Proof. induction l as [| x l IH]; [reflexivity |]. simpl. destruct (p x); [reflexivity | exact IH]. Qed.

Lemma find_in_document p s :
  Bs4.find p (node_id (root s)) s = first_id p (root s).
Proof.
  unfold Bs4.find, Bs4.find_all. rewrite (lookup_root _ _ _ (find_root _)).
  apply head_map_filter.
Qed.

Lemma first_id_In p n x : first_id p n = Some x -> In x (map node_id (descendants n)).
Proof.
  unfold first_id, first_match. destruct (List.find p (descendants n)) as [y |] eqn:E; [| discriminate].
  intros [= <-]. apply find_some in E. apply in_map, E.
Qed.

Lemma drop_first_run nm s :
  NoDup (ids (root s)) -> limbo s = [] ->
  fst (drop_first nm s) = Done tt /\ pruned s (snd (drop_first nm s))
  /\ (forall x, gone_or_first (named nm) x (root s) ->
        find_node x (root (snd (drop_first nm s))) = None).
Proof.
  intros Hnd Hl. unfold drop_first, bind, get. rewrite find_in_document.
  destruct (first_id (named nm) (root s)) as [i |] eqn:E.
  - unfold Bs4.decompose, modify. cbn [fst snd]. split; [reflexivity |].
    split; [eapply pruned_step, pruned_refl |]. intros x [Hx | Hx].
    + unfold Bs4.detach. cbn [root]. apply find_node_None. intros Hin.
      apply ids_prune_incl in Hin. apply find_node_None in Hx. tauto.
    + rewrite E in Hx. injection Hx as <-. unfold Bs4.detach. cbn [root].
      apply find_node_prune_self; [exact Hnd |]. eapply first_id_In, E.
  - unfold ret. cbn [fst snd]. split; [reflexivity |]. split; [apply pruned_refl |].
    intros x [Hx | Hx]; [exact Hx | rewrite E in Hx; discriminate].
Qed.

Lemma insert_meta_run self s h :
  NoDup (ids (root s)) -> limbo s = [] -> Forall (fun i => i < fresh s) (ids (root s)) ->
  first_id (named "head") (root s) = Some h ->
  insert_meta self s
  = (Done tt,
     mkSoup (recontent (cons (Tag (fresh s) "meta" (meta_attrs (meta_description self)) [])) h (root s))
            [] (S (fresh s))).
Proof.
  intros Hnd Hl Hfr Hh.
  assert (Hnew : find_node (fresh s) (root s) = None).
  { apply find_node_None. intros Hin. rewrite List.Forall_forall in Hfr. apply Hfr in Hin. lia. }
  assert (Hhin : In h (ids (root s))).
  { rewrite ids_eq. right. rewrite <- desc_ids. eapply first_id_In, Hh. }
  assert (Hne : fresh s <> h).
  { intros E. rewrite <- E in Hhin. apply find_node_None in Hnew. tauto. }
  unfold insert_meta, Bs4.new_tag, bind, get, put, ret. cbn [fst snd].
  set (meta := Tag (fresh s) "meta" _ []).
  set (s1 := mkSoup _ _ _).
  assert (E1 : Bs4.find (named "head") (node_id (root s1)) s1 = Some h).
  { rewrite find_in_document. exact Hh. }
  change (node_id (root s)) with (node_id (root s1)). rewrite E1.
  unfold Bs4.insert_first. apply Nat.eqb_neq in Hne. rewrite Hne.
  unfold bind, Bs4.take, bind, get. unfold Bs4.lookup at 1. cbn [root limbo s1]. rewrite Hnew, Hl.
  cbn [app first_some]. rewrite (find_node_self (fresh s) "meta" _ [] : find_node (fresh s) meta = Some meta).
  unfold put, ret. cbn [fst snd].
  unfold Bs4.still_there, bind, get, Bs4.lookup, Bs4.detach. cbn [root limbo fresh s1].
  rewrite prune_notin by (intros Hin; apply find_node_None in Hnew; rewrite ids_eq in Hnew; cbn in Hnew; tauto).
  destruct (find_node h (root s)) as [hn |] eqn:Eh; [| apply find_node_None in Eh; tauto].
  unfold ret, modify, Bs4.on_all. cbn [root limbo fresh flat_map has_id node_id app map].
  rewrite Hl. unfold meta, has_id. cbn [app flat_map node_id]. rewrite Nat.eqb_refl. reflexivity.
Qed.

Lemma found_below j n y d :
  NoDup (ids n) -> find_node j n = Some y -> In d (descendants y) ->
  find_node (node_id d) n = Some d.
Proof.
  intros Hnd Hy Hd. apply find_node_unique; [exact Hnd |].
  apply find_node_In in Hy as [<- | Hy]; [right; exact Hd |].
  right. eapply descendants_trans; eassumption.
Qed.

Lemma drop_logo_figure_run fig s :
  NoDup (ids (root s)) -> limbo s = [] ->
  drop_logo_figure fig s
  = (Done tt,
     match find_node fig (root s) with
     | Some y => if logo_figure y then Bs4.detach fig s else s
     | None => s
     end).
Proof.
  intros Hnd Hl. unfold drop_logo_figure, bind, get, Bs4.find, Bs4.find_all.
  rewrite (lookup_no_limbo _ _ Hl).
  destruct (find_node fig (root s)) as [y |] eqn:Ey; [| reflexivity].
  rewrite head_map_filter. unfold logo_figure, first_match.
  destruct (List.find (named "img") (descendants y)) as [im |] eqn:Eim; [| reflexivity].
  cbn [fmap option_fmap option_map]. apply find_some in Eim as [Him Hnm].
  apply named_eq in Hnm as (i & a & cs & ->).
  pose proof (found_below _ _ _ _ Hnd Ey Him) as Hf. cbn [node_id] in *.
  unfold Bs4.tag_get, bind, get. rewrite (lookup_root _ _ _ Hf). unfold ret. cbn [attrs_of].
  destruct (_looks_like_logo_src _); reflexivity.
Qed.

Lemma figures_loop l : forall s,
  NoDup (ids (root s)) -> limbo s = [] ->
  fst (for_each l drop_logo_figure s) = Done tt
  /\ pruned s (snd (for_each l drop_logo_figure s)).
Proof.
  induction l as [| g l IH]; intros s Hnd Hl.
  - split; [reflexivity | apply pruned_refl].
  - cbn [for_each]. unfold bind. rewrite (drop_logo_figure_run g s Hnd Hl).
    set (s1 := match find_node g (root s) with Some y => _ | None => s end).
    assert (Hp : pruned s s1).
    { unfold s1. destruct (find_node g (root s)) as [y |]; [| apply pruned_refl].
      destruct (logo_figure y); [eapply pruned_step |]; apply pruned_refl. }
    destruct (pruned_spec _ _ Hp Hnd Hl) as (Hnd1 & Hl1 & _).
    destruct (IH s1 Hnd1 Hl1) as [Hd Hp']. split; [exact Hd |].
    eapply pruned_trans; eassumption.
Qed.

(** In document order the nodes below [y] come right after [y]. *)
Lemma descendants_split n : forall d1 y d2,
  descendants n = d1 ++ y :: d2 -> exists d3, d2 = descendants y ++ d3.
Proof.
  induction n as [k t | k nm a cs IH] using node_ind'; intros d1 y d2 E.
  - destruct d1; discriminate.
  - cbn [descendants] in E. revert d1 E.
    induction cs as [| c cs IHcs]; intros d1 E; [destruct d1; discriminate |].
    apply Forall_cons_iff in IH as [IHc IH]. specialize (IHcs IH).
    cbn [flat_map] in E. destruct d1 as [| x d1].
    + cbn [app] in E. injection E as -> <-. eexists. reflexivity.
    + rewrite <- !app_comm_cons in E. injection E as _ E.
      apply app_eq_app in E as (l & [[E1 E2] | [E1 E2]]).
      * destruct l as [| y' l].
        -- cbn [app] in E2. apply (IHcs []). symmetry. exact E2.
        -- rewrite <- app_comm_cons in E2. injection E2 as <- ->.
           destruct (IHc _ _ _ E1) as [d3 ->]. exists (d3 ++ flat_map (fun c => c :: descendants c) cs).
           rewrite app_assoc. reflexivity.
      * apply (IHcs l). exact E2.
Qed.

Lemma map_filter_split {A B} (f : A -> B) (p : A -> bool) l : forall pre x post,
  map f (List.filter p l) = pre ++ x :: post ->
  exists l1 y l2, l = l1 ++ y :: l2 /\ f y = x /\ pre = map f (List.filter p l1).
Proof.
  induction l as [| z l IH]; intros pre x post E; [destruct pre; discriminate |].
  cbn [List.filter] in E. destruct (p z) eqn:Ez.
  - destruct pre as [| x' pre].
    + injection E as E _. exists [], z, l. auto.
    + injection E as E1 E. destruct (IH _ _ _ E) as (l1 & y & l2 & -> & Hy & ->).
      exists (z :: l1), y, l2. split; [reflexivity |]. split; [exact Hy |].
      cbn [List.filter]. rewrite Ez. cbn [map]. rewrite E1. reflexivity.
  - destruct (IH _ _ _ E) as (l1 & y & l2 & -> & Hy & ->).
    exists (z :: l1), y, l2. split; [reflexivity |]. split; [exact Hy |].
    cbn [List.filter]. rewrite Ez. reflexivity.
Qed.

(** The figures found before [f] are not below [f]. *)
Lemma earlier_not_below p n pre f post y g :
  NoDup (ids n) ->
  map node_id (List.filter p (descendants n)) = pre ++ f :: post ->
  find_node f n = Some y -> In g pre ->
  g <> f /\ ~ In g (flat_map ids (contents_of y)).
Proof.
  intros Hnd E Hy Hg.
  destruct (map_filter_split _ _ _ _ _ _ E) as (d1 & y' & d2 & Ed & Hid & ->).
  assert (Hy' : find_node f n = Some y').
  { rewrite <- Hid. apply find_node_unique; [exact Hnd |]. right. rewrite Ed.
    apply in_or_app. right. left. reflexivity. }
  assert (y' = y) by congruence. subst y'.
  destruct (descendants_split _ _ _ _ Ed) as [d3 ->].
  rewrite ids_eq, <- desc_ids in Hnd. apply NoDup_cons in Hnd as [_ Hnd].
  rewrite Ed, map_app in Hnd. cbn [map] in Hnd. rewrite map_app in Hnd.
  assert (Hg1 : In g (map node_id d1)).
  { apply in_map_iff in Hg as (z & <- & Hz). apply filter_In in Hz as [Hz _]. apply in_map, Hz. }
  apply NoDup_app in Hnd as (_ & Hdisj & _).
  specialize (Hdisj g). rewrite !list_elem_of_In in Hdisj. rewrite <- desc_ids.
  split.
  - intros ->. apply Hdisj; [exact Hg1 |]. left. exact Hid.
  - intros Hin. apply Hdisj; [exact Hg1 |]. right. apply in_or_app. left. exact Hin.
Qed.

Lemma find_node_prune_or i j n :
  NoDup (ids n) ->
  find_node j (prune i n) = None \/ find_node j (prune i n) = prune i <$> find_node j n.
Proof.
  intros Hnd.
  destruct (existsb (fun x => has_id i x && bool_decide (find_node j x <> None)) (descendants n))
    eqn:E.
  - left. apply find_node_prune_gone; [exact Hnd |].
    apply existsb_exists in E as (x & Hx & Hb). apply andb_prop in Hb as [Hi Hj].
    exists x. split; [exact Hx |]. split; [exact Hi |].
    apply bool_decide_eq_true_1 in Hj.
    destruct (find_node j x) eqn:Ej; [| congruence]. eapply find_node_below, Ej.
  - right. apply find_node_prune. apply List.Forall_forall. intros x Hx Hi.
    destruct (find_node j x) eqn:Ej; [| reflexivity]. exfalso.
    assert (Hex : existsb (fun x => has_id i x && bool_decide (find_node j x <> None))
                    (descendants n) = true).
    { apply existsb_exists. exists x. split; [exact Hx |]. rewrite Hi. cbn [andb].
      apply bool_decide_eq_true_2. congruence. }
    congruence.
Qed.

(** Removing the figures found before [f] either removes [f] with them
    or leaves [f] and all below it as they were. *)
Lemma figure_kept_or_gone f y : forall pre s,
  (forall g, In g pre -> g <> f /\ ~ In g (flat_map ids (contents_of y))) ->
  NoDup (ids (root s)) -> limbo s = [] ->
  find_node f (root s) = None \/ find_node f (root s) = Some y ->
  find_node f (root (snd (for_each pre drop_logo_figure s))) = None
  \/ find_node f (root (snd (for_each pre drop_logo_figure s))) = Some y.
Proof.
  induction pre as [| g pre IH]; intros s Hpre Hnd Hl Hf; [exact Hf |].
  cbn [for_each]. unfold bind. rewrite (drop_logo_figure_run g s Hnd Hl).
  set (s1 := match find_node g (root s) with Some y => _ | None => s end).
  assert (H1 : NoDup (ids (root s1)) /\ limbo s1 = []
               /\ (find_node f (root s1) = None \/ find_node f (root s1) = Some y)).
  { unfold s1. destruct (find_node g (root s)) as [z |]; [| auto].
    destruct (logo_figure z); [| auto]. unfold Bs4.detach. cbn [root limbo].
    split; [apply NoDup_prune, Hnd |]. split; [rewrite Hl; reflexivity |].
    destruct (find_node_prune_or g f (root s) Hnd) as [E | E]; [left; exact E |].
    rewrite E. destruct Hf as [-> | ->]; [left; reflexivity | right].
    cbn [fmap option_fmap option_map]. f_equal. apply prune_notin.
    apply (Hpre g). left. reflexivity. }
  destruct H1 as (Hnd1 & Hl1 & Hf1). apply IH; auto.
  intros g' Hg'. apply Hpre. right. exact Hg'.
Qed.

Lemma gone_or_first_recontent_cons p new h x n :
  NoDup (ids n) -> p new = false -> contents_of new = [] -> ~ In x (ids new) ->
  (forall y, p (recontent (cons new) h y) = p y) ->
  gone_or_first p x n -> gone_or_first p x (recontent (cons new) h n).
Proof.
  intros Hnd Hp Hleaf Hx Hinv [Hg | Hf].
  - left. apply dead_recontent_cons; assumption.
  - right. rewrite first_id_recontent_cons; assumption.
Qed.

Lemma pruned_after_figures s :
  NoDup (ids (root s)) -> limbo s = [] ->
  let figs := Bs4.find_all (named "figure") (node_id (root s)) s in
  fst (for_each figs drop_logo_figure s) = Done tt
  /\ pruned s (snd (for_each figs drop_logo_figure s)).
Proof. intros Hnd Hl figs. apply figures_loop; assumption. Qed.

(** A figure whose first image is logo-like when the loop starts is
    gone when the loop ends. *)
Lemma logo_figure_removed s fig img atr :
  NoDup (ids (root s)) -> limbo s = [] ->
  In fig (Bs4.find_all (named "figure") (node_id (root s)) s) ->
  Bs4.find (named "img") fig s = Some img ->
  tag_at img (root s) = Some ("img", atr) ->
  _looks_like_logo_src (or_empty (atr !! "src")) = true ->
  find_node fig
    (root (snd (for_each (Bs4.find_all (named "figure") (node_id (root s)) s)
                         drop_logo_figure s))) = None.
Proof.
  intros Hnd Hl Hin Himg Hat Hlogo.
  pose proof Hin as Hin'. apply In_find_all in Hin' as (y & Hy & _ & Hid); [| exact Hnd].
  assert (Ey : find_node fig (root s) = Some y).
  { rewrite <- Hid. apply find_node_unique; [exact Hnd | right; exact Hy]. }
  assert (Hlf : logo_figure y = true).
  { unfold Bs4.find, Bs4.find_all in Himg. rewrite (lookup_no_limbo _ _ Hl), Ey in Himg.
    rewrite head_map_filter in Himg. unfold logo_figure, first_match.
    destruct (List.find (named "img") (descendants y)) as [im |] eqn:Eim; [| discriminate].
    injection Himg as Himg. apply find_some in Eim as [Him _].
    pose proof (found_below _ _ _ _ Hnd Ey Him) as Hf. rewrite Himg in Hf.
    unfold tag_at in Hat. rewrite Hf in Hat. destruct im as [? ? | ? ? a ?]; [discriminate |].
    injection Hat as _ ->. exact Hlogo. }
  unfold Bs4.find_all in *. rewrite (lookup_root _ _ _ (find_root _)) in *.
  apply in_split in Hin as (pre & post & E). rewrite E.
  pose proof (fun g => earlier_not_below _ _ _ _ _ _ g Hnd E Ey) as Hpre.
  pose proof (figure_kept_or_gone fig y pre s Hpre Hnd Hl (or_intror Ey)) as Hk.
  destruct (figures_loop pre s Hnd Hl) as [Hd Hp].
  destruct (pruned_spec _ _ Hp Hnd Hl) as (Hnd1 & Hl1 & _ & Hid1 & _).
  rewrite for_each_app. destruct (for_each pre drop_logo_figure s) as [o s1].
  cbn [fst snd] in *. subst o. cbn [for_each]. unfold bind.
  rewrite (drop_logo_figure_run fig s1 Hnd1 Hl1).
  set (s2 := match find_node fig (root s1) with Some z => _ | None => s1 end).
  assert (H2 : pruned s1 s2 /\ find_node fig (root s2) = None).
  { unfold s2. destruct Hk as [Hk | Hk]; rewrite Hk; [split; [apply pruned_refl | exact Hk] |].
    rewrite Hlf. split; [eapply pruned_step, pruned_refl |].
    unfold Bs4.detach. cbn [root]. apply find_node_prune_self; [exact Hnd1 |].
    apply find_node_In in Hk as [Hk | Hk]; [| rewrite <- Hid; apply in_map, Hk].
    exfalso. rewrite ids_eq in Hnd. apply NoDup_cons in Hnd as [Hroot _].
    apply Hroot. apply list_elem_of_In. rewrite <- desc_ids, <- Hid1, Hk.
    apply in_map, Hy. }
  destruct H2 as [Hp2 Hg2].
  destruct (pruned_spec _ _ Hp2 Hnd1 Hl1) as (Hnd2 & Hl2 & _).
  destruct (figures_loop post s2 Hnd2 Hl2) as [_ Hp3].
  eapply pruned_dead; eassumption.
Qed.

(** C10, amended. On a document with distinct identities, nothing
    detached, and a [head] left once its first [header] is gone, the
    first steps of [_post_process_html] end without an exception; the
    first [header], the first [base] and the first [nav] of the input
    are destroyed; and so is every [figure] whose FIRST image, in the
    document as it stands after the [base] step, has a logo-like
    [src]. None of this depends on the converter's settings. *)
Theorem prelude_removals (self : converter) (s : soup) :
  NoDup (ids (root s)) -> limbo s = [] ->
  Forall (fun i => i < fresh s) (ids (root s)) ->
  Bs4.find (named "head") (node_id (root s)) (snd (drop_first "header" s)) <> None ->
  let mid := snd (prelude_head self s) in
  let out := snd (post_process_prelude self s) in
  fst (post_process_prelude self s) = Done tt
  /\ (forall nm x, In nm ["header"; "base"; "nav"] ->
        Bs4.find (named nm) (node_id (root s)) s = Some x ->
        Bs4.lookup x out = None)
  /\ (forall fig img atr,
        In fig (Bs4.find_all (named "figure") (node_id (root mid)) mid) ->
        Bs4.find (named "img") fig mid = Some img ->
        tag_at img (root mid) = Some ("img", atr) ->
        _looks_like_logo_src (or_empty (atr !! "src")) = true ->
        Bs4.lookup fig out = None).
Proof.
  intros Hnd Hl Hfr Hhead.
  (* the header *)
  destruct (drop_first_run "header" s Hnd Hl) as (D1 & P1 & G1).
  destruct (drop_first "header" s) as [o1 s1] eqn:E1. cbn [fst snd] in *. subst o1.
  destruct (pruned_spec _ _ P1 Hnd Hl) as (Hnd1 & Hl1 & Hf1 & Hid1 & Hincl1 & Hgf1).
  assert (Hfr1 : Forall (fun i => i < fresh s1) (ids (root s1))).
  { rewrite Hf1. apply List.Forall_forall. intros i Hi. apply Hincl1 in Hi.
    rewrite List.Forall_forall in Hfr. apply Hfr, Hi. }
  (* the meta tag *)
  rewrite <- Hid1, find_in_document in Hhead.
  destruct (first_id (named "head") (root s1)) as [h |] eqn:Eh; [clear Hhead | congruence].
  pose proof (insert_meta_run self s1 h Hnd1 Hl1 Hfr1 Eh) as E2.
  set (meta := Tag (fresh s1) "meta" (meta_attrs (meta_description self)) []) in E2.
  set (s2 := mkSoup _ _ _) in E2.
  assert (Hmeta : forall x, In x (ids (root s1)) -> ~ In x (ids meta)).
  { intros x Hx [<- | []]. rewrite List.Forall_forall in Hfr1. apply Hfr1 in Hx. cbn in Hx. lia. }
  assert (Hnd2 : NoDup (ids (root s2))).
  { apply NoDup_recontent_cons; [exact Hnd1 | repeat constructor; apply not_elem_of_nil |].
    intros x Hx Hx1. apply (Hmeta x Hx1 Hx). }
  assert (Hl2 : limbo s2 = []) by reflexivity.
  (* the base *)
  destruct (drop_first_run "base" s2 Hnd2 Hl2) as (D3 & P3 & G3).
  destruct (drop_first "base" s2) as [o3 s3] eqn:E3. cbn [fst snd] in *. subst o3.
  destruct (pruned_spec _ _ P3 Hnd2 Hl2) as (Hnd3 & Hl3 & _ & _ & _ & Hgf3).
  assert (Emid : prelude_head self s = (Done tt, s3)).
  { unfold prelude_head, bind. rewrite E1, E2, E3. reflexivity. }
  (* the figures *)
  destruct (pruned_after_figures s3 Hnd3 Hl3) as [D4 P4].
  pose proof (logo_figure_removed s3) as Hfig.
  destruct (for_each _ drop_logo_figure s3) as [o4 s4] eqn:E4. cbn [fst snd] in *. subst o4.
  destruct (pruned_spec _ _ P4 Hnd3 Hl3) as (Hnd4 & Hl4 & _ & _ & _ & Hgf4).
  (* the nav *)
  destruct (drop_first_run "nav" s4 Hnd4 Hl4) as (D5 & P5 & G5).
  destruct (drop_first "nav" s4) as [o5 s5] eqn:E5. cbn [fst snd] in *. subst o5.
  destruct (pruned_spec _ _ P5 Hnd4 Hl4) as (Hnd5 & Hl5 & _).
  assert (Eout : post_process_prelude self s = (Done tt, s5)).
  { unfold post_process_prelude, bind. rewrite Emid. unfold drop_logo_figures, bind, get.
    rewrite E4, E5. reflexivity. }
  rewrite Emid, Eout. cbn [fst snd]. split; [reflexivity |].
  assert (Hstep : forall nm x, gone_or_first (named nm) x (root s1) -> In x (ids (root s)) ->
                    named nm meta = false ->
                    gone_or_first (named nm) x (root s2)).
  { intros nm x Hx Hin Hnm. apply gone_or_first_recontent_cons; try assumption; try reflexivity.
    - intros [<- | []]. rewrite List.Forall_forall in Hfr. apply Hfr in Hin. cbn in Hin. lia.
    - intros y. apply named_recontent. }
  split.
  - intros nm x Hnm Hx. rewrite (lookup_no_limbo _ _ Hl5). rewrite find_in_document in Hx.
    assert (Hin : In x (ids (root s))).
    { rewrite ids_eq, <- desc_ids. right. eapply first_id_In, Hx. }
    assert (H1 : gone_or_first (named nm) x (root s1)).
    { apply Hgf1; [intros; apply named_prune | right; exact Hx]. }
    destruct Hnm as [<- | [<- | [<- | []]]].
    + assert (Hx1 : find_node x (root s1) = None) by (apply G1; right; exact Hx).
      eapply pruned_dead; [exact P5 | exact Hnd4 | exact Hl4 |].
      eapply pruned_dead; [exact P4 | exact Hnd3 | exact Hl3 |].
      eapply pruned_dead; [exact P3 | exact Hnd2 | exact Hl2 |].
      apply dead_recontent_cons; [exact Hnd1 | exact Hx1 |].
      intros [<- | []]. rewrite List.Forall_forall in Hfr. apply Hfr in Hin. cbn in Hin. lia.
    + eapply pruned_dead; [exact P5 | exact Hnd4 | exact Hl4 |].
      eapply pruned_dead; [exact P4 | exact Hnd3 | exact Hl3 |].
      apply G3. apply Hstep; [exact H1 | exact Hin | reflexivity].
    + apply G5. apply Hgf4; [intros; apply named_prune |].
      apply Hgf3; [intros; apply named_prune |].
      apply Hstep; [exact H1 | exact Hin | reflexivity].
  - intros fig img atr Hin Himg Hat Hlogo. rewrite (lookup_no_limbo _ _ Hl5).
    eapply pruned_dead; [exact P5 | exact Hnd4 | exact Hl4 |].
    eapply Hfig; eassumption.
Qed.

(** C10, as stated, fails: the second figure of [doc_prelude] wraps the
    logo after a chart; line 433 looks at the first image only, and the
    figure stays. *)
Lemma figure_with_later_logo_kept :
  ~ figures_removed_as_stated doc_prelude
      (snd (post_process_prelude sample_converter doc_prelude)).
Proof.
  intros H.
  assert (E : Bs4.lookup 12 (snd (post_process_prelude sample_converter doc_prelude))
              = Some (Tag 12 "figure" ∅ [Tag 13 "img" (<["src" := "chart.png"]> ∅) [];
                                         Tag 14 "img" logo_attrs []]))
    by (vm_compute; reflexivity).
  rewrite (H 12 (Tag 12 "figure" ∅ [Tag 13 "img" (<["src" := "chart.png"]> ∅) [];
                                    Tag 14 "img" logo_attrs []])
             (Tag 14 "img" logo_attrs [])) in E.
  - discriminate E.
  - vm_compute. reflexivity.
  - reflexivity.
  - in_document.
  - reflexivity.
  - vm_compute. reflexivity.
Qed.

(** Without a [head] line 422 raises, and the [nav] is still there. *)
Example headless_page_raises :
  fst (post_process_prelude sample_converter doc_headless) = Raised AttributeError
  /\ Bs4.name_of 1 (snd (post_process_prelude sample_converter doc_headless)) = Some "nav".
Proof. split; vm_compute; reflexivity. Qed.

Lemma prelude_removals_witness :
  fst (post_process_prelude sample_converter doc_prelude) = Done tt
  /\ Bs4.lookup 5 (snd (post_process_prelude sample_converter doc_prelude)) = None
  /\ Bs4.lookup 3 (snd (post_process_prelude sample_converter doc_prelude)) = None
  /\ Bs4.lookup 8 (snd (post_process_prelude sample_converter doc_prelude)) = None
  /\ Bs4.lookup 10 (snd (post_process_prelude sample_converter doc_prelude)) = None.
Proof.
  destruct (prelude_removals sample_converter doc_prelude) as (H1 & H2 & H3).
  - distinct_ids.
  - reflexivity.
  - fresh_bound.
  - vm_compute. discriminate.
  - split; [exact H1 |].
    split; [apply (H2 "header"); [in_document | vm_compute; reflexivity] |].
    split; [apply (H2 "base"); [in_document | vm_compute; reflexivity] |].
    split; [apply (H2 "nav"); [in_document | vm_compute; reflexivity] |].
    apply (H3 10 11 logo_attrs).
    + vm_compute. left. reflexivity.
    + vm_compute. reflexivity.
    + vm_compute. reflexivity.
    + vm_compute. reflexivity.
Defined.

(** * The whole pass, run twice *)

(** Both runs on [world_plain_url] end normally. No text of that page
    holds a markup character, so the parser of such texts plays no part. *)
Example both_runs_end html_parser :
  fst (_post_process_html Urllib.urlparse html_parser no_network "" sample_converter "6"
         world_plain_url)
  = Done tt
  /\ fst (post_process_again Urllib.urlparse html_parser no_network "" sample_converter "6"
            (first_output html_parser))
     = Done tt.
Proof. split; vm_compute; reflexivity. Qed.

(** C3, as stated, fails: the first run turns the plain address into a
    link after the anchors were normalized (line 446 comes after line
    444), so its [href] is still the full address in the first output;
    the second run takes it for a link to the document itself, by its
    file name, and rewrites it to the bare fragment. *)
Lemma plain_url_rewritten_by_second_run html_parser :
  anchor_hrefs (dom (first_output html_parser)) = [Some "http://example.com/other/doc.html#sec"]
  /\ anchor_hrefs (dom (second_output html_parser)) = [Some "#sec"]
  /\ ~ second_run_changes_nothing (first_output html_parser) (second_output html_parser).
Proof.
  assert (H1 : anchor_hrefs (dom (first_output html_parser))
               = [Some "http://example.com/other/doc.html#sec"])
    by (vm_compute; reflexivity).
  assert (H2 : anchor_hrefs (dom (second_output html_parser)) = [Some "#sec"])
    by (vm_compute; reflexivity).
  split; [exact H1 |]. split; [exact H2 |].
  intros (_ & H & _). rewrite H1, H2 in H. discriminate H.
Qed.

(** * Passes run a second time *)

Lemma retag_same f i n :
  (forall k nm a cs, In (Tag k nm a cs) (n :: descendants n) -> k = i -> f (nm, a) = (nm, a)) ->
  retag f i n = n.
Proof.
  induction n as [k t | k nm a cs IH] using node_ind'; intros H; [reflexivity |].
  cbn [retag].
  assert (E : (if Nat.eqb k i then f (nm, a) else (nm, a)) = (nm, a)).
  { destruct (Nat.eqb k i) eqn:Ek; [| reflexivity]. apply Nat.eqb_eq in Ek.
    apply (H k nm a cs); [left; reflexivity | exact Ek]. }
  rewrite E. f_equal.
  assert (Hcs : forall c, In c cs -> retag f i c = c).
  { intros c Hc. rewrite List.Forall_forall in IH. apply (IH c Hc).
    intros k' nm' a' cs' Hin Hk. apply (H k' nm' a' cs'); [right | exact Hk].
    destruct Hin as [<- | Hin].
    - apply (descendants_In_child (Tag k nm a cs)). exact Hc.
    - eapply descendants_trans; [apply (descendants_In_child (Tag k nm a cs)); exact Hc | exact Hin]. }
  clear -Hcs. induction cs as [| c cs IHcs]; [reflexivity |]. cbn [map].
  rewrite (Hcs c (or_introl eq_refl)), IHcs; [reflexivity |].
  intros c' Hc'. apply Hcs. right. exact Hc'.
Qed.

Lemma retag_fixed f i n nm a :
  NoDup (ids n) -> tag_at i n = Some (nm, a) -> f (nm, a) = (nm, a) -> retag f i n = n.
Proof.
  intros Hnd Hat Hf. apply retag_same. intros k nm' a' cs Hin ->.
  pose proof (find_node_unique _ _ Hnd Hin) as E. cbn [node_id] in E.
  unfold tag_at in Hat. rewrite E in Hat. injection Hat as -> ->. exact Hf.
Qed.

Lemma on_all_retag_fixed f i s nm a :
  NoDup (ids (root s)) -> limbo s = [] -> tag_at i (root s) = Some (nm, a) ->
  f (nm, a) = (nm, a) -> Bs4.on_all (retag f i) s = s.
Proof.
  intros Hnd Hl Hat Hf. unfold Bs4.on_all. rewrite Hl, (retag_fixed f i _ nm a Hnd Hat Hf).
  destruct s as [r l k]. cbn in *. subst l. reflexivity.
Qed.

Lemma rstrip_keeps_head c r :
  Py.isspace c = false -> exists r', Py.rstrip (String c r) = String c r'.
Proof.
  intros Hc. cbn [Py.rstrip]. destruct (Py.rstrip r); [rewrite Hc |]; eauto.
Qed.

Lemma strip_hash f : exists r, Py.strip ("#" +:+ f) = String "#" r.
Proof.
  unfold Py.strip. change ("#" +:+ f) with (String "#" f). cbn [Py.lstrip].
  change (Py.isspace "#") with false. cbv iota. apply rstrip_keeps_head. reflexivity.
Qed.

Section NormalizeTwice.

Variable urlparse : string -> outcome ParseResult.
Variable out : string.

(** The loop body leaves alone a dictionary that it has produced. *)
Lemma normalized_attrs_twice a :
  fst (normalized_attrs urlparse out a) = Done tt ->
  normalized_attrs urlparse out (snd (normalized_attrs urlparse out a))
  = (Done tt, snd (normalized_attrs urlparse out a)).
Proof.
  unfold normalized_attrs at 1 3 4.
  destruct (a !! "href") as [raw |] eqn:Hraw; [| discriminate].
  destruct (negb (Py.truthy (Py.strip raw))) eqn:Hblank.
  { intros _. cbn [snd]. unfold normalized_attrs. rewrite Hraw, Hblank. reflexivity. }
  destruct (Py.startswith "#" (Py.strip raw)) eqn:Hhash.
  { intros _. cbn [snd]. unfold normalized_attrs.
    rewrite lookup_delete_ne by discriminate. rewrite Hraw, Hblank, Hhash.
    rewrite delete_delete_eq. reflexivity. }
  destruct (urlparse (Py.strip raw)) as [p | e] eqn:Hp; [| discriminate].
  destruct (negb (Py.truthy (fragment p))) eqn:Hfrag.
  { intros _. cbn [snd]. unfold normalized_attrs. rewrite Hraw, Hblank, Hhash, Hp, Hfrag. reflexivity. }
  destruct (same_doc p out) eqn:Hsame.
  - intros _. cbn [snd]. unfold normalized_attrs.
    rewrite lookup_delete_ne by discriminate. rewrite lookup_insert_eq.
    destruct (strip_hash (fragment p)) as [r Hr]. rewrite Hr.
    cbn [Py.truthy negb Py.startswith]. rewrite delete_delete_eq. reflexivity.
  - intros _. cbn [snd]. unfold normalized_attrs. rewrite Hraw, Hblank, Hhash, Hp, Hfrag, Hsame.
    reflexivity.
Qed.

Lemma normalize_anchor_fixed a s nm atr :
  NoDup (ids (root s)) -> limbo s = [] -> tag_at a (root s) = Some (nm, atr) ->
  normalized_attrs urlparse out atr = (Done tt, atr) ->
  normalize_anchor urlparse out a s = (Done tt, s).
Proof.
  intros Hnd Hl Hat. unfold normalized_attrs, normalize_anchor.
  destruct (atr !! "href") as [raw |] eqn:Hraw; [| discriminate].
  unfold bind at 1. rewrite (getitem_run _ _ _ _ _ _ Hat Hraw).
  destruct (negb (Py.truthy (Py.strip raw))); [reflexivity |].
  destruct (Py.startswith "#" (Py.strip raw)).
  { intros [= E]. rewrite (attrs_pop_run _ _ _ _ _ Hat).
    rewrite (on_all_retag_fixed _ _ _ nm atr Hnd Hl Hat); [reflexivity | rewrite E; reflexivity]. }
  unfold bind, lift_outcome. destruct (urlparse (Py.strip raw)) as [p | e]; [| discriminate].
  destruct (negb (Py.truthy (fragment p))); [reflexivity |].
  destruct (same_doc p out); [| reflexivity].
  intros [= E].
  assert (Eh : <["href" := "#" +:+ fragment p]> atr = atr).
  { apply insert_id. rewrite <- E at 1. rewrite lookup_delete_ne by discriminate.
    apply lookup_insert_eq. }
  rewrite Eh in E.
  rewrite (setitem_run _ _ _ _ _ _ Hat).
  rewrite (on_all_retag_fixed _ _ _ nm atr Hnd Hl Hat) by (rewrite Eh; reflexivity).
  rewrite (attrs_pop_run _ _ _ _ _ Hat).
  rewrite (on_all_retag_fixed _ _ _ nm atr Hnd Hl Hat) by (rewrite E; reflexivity).
  reflexivity.
Qed.

Lemma getitem_readonly i k s : snd (Bs4.getitem i k s) = s.
Proof.
  unfold Bs4.getitem, bind, get, ret, raise.
  destruct (Bs4.lookup i s) as [[? ? | ? ? a ?] |]; try reflexivity.
  destruct (a !! k); reflexivity.
Qed.

Lemma attrs_pop_limbo i k s : limbo s = [] -> limbo (snd (Bs4.attrs_pop i k s)) = [].
Proof.
  intros Hl. unfold Bs4.attrs_pop, bind, get, put, raise.
  destruct (Bs4.lookup i s) as [[? ? | ? ? ? ?] |]; cbn [snd Bs4.on_all limbo]; try exact Hl.
  unfold Bs4.on_all. cbn [limbo]. rewrite Hl. reflexivity.
Qed.

Lemma setitem_limbo i k v s : limbo s = [] -> limbo (snd (Bs4.setitem i k v s)) = [].
Proof.
  intros Hl. unfold Bs4.setitem, bind, get, put, raise.
  destruct (Bs4.lookup i s) as [[? ? | ? ? ? ?] |]; cbn [snd Bs4.on_all limbo]; try exact Hl.
  unfold Bs4.on_all. cbn [limbo]. rewrite Hl. reflexivity.
Qed.

Lemma normalize_anchor_limbo a s :
  limbo s = [] -> limbo (snd (normalize_anchor urlparse out a s)) = [].
Proof.
  intros Hl. unfold normalize_anchor. unfold bind at 1.
  pose proof (getitem_readonly a "href" s) as Hg.
  destruct (Bs4.getitem a "href" s) as [[raw | e] s0]; cbn [snd] in Hg; subst s0; [| exact Hl].
  destruct (negb (Py.truthy (Py.strip raw))); [exact Hl |].
  destruct (Py.startswith "#" (Py.strip raw)); [apply attrs_pop_limbo, Hl |].
  unfold bind at 1, lift_outcome.
  destruct (urlparse (Py.strip raw)) as [p | e]; [| exact Hl].
  destruct (negb (Py.truthy (fragment p))); [exact Hl |].
  destruct (same_doc p out); [| exact Hl].
  unfold bind. pose proof (setitem_limbo a "href" ("#" +:+ fragment p) s Hl) as Hs.
  destruct (Bs4.setitem a "href" _ s) as [[[] | e] s1]; cbn [snd] in Hs; [| exact Hs].
  apply attrs_pop_limbo, Hs.
Qed.

(** When the loop ends normally every step did, and each step changes
    the anchor of its turn only. *)
Lemma normalize_loop_done l : forall s,
  NoDup l -> limbo s = [] ->
  (forall a, In a l -> exists nm atr, tag_at a (root s) = Some (nm, atr)) ->
  fst (for_each l (normalize_anchor urlparse out) s) = Done tt ->
  limbo (snd (for_each l (normalize_anchor urlparse out) s)) = []
  /\ forall j nm atr, In j l -> tag_at j (root s) = Some (nm, atr) ->
       fst (normalized_attrs urlparse out atr) = Done tt.
Proof.
  induction l as [| a l IH]; intros s Hnd Hl Hall Hdone.
  - split; [exact Hl | intros j nm atr []].
  - apply NoDup_cons in Hnd as [Ha Hnd]. rewrite list_elem_of_In in Ha.
    destruct (Hall a (or_introl eq_refl)) as (nm & atr & Hta).
    destruct (normalize_anchor_step urlparse out a s nm atr Hta) as (s1 & Hrun & _ & Htag1).
    pose proof (normalize_anchor_limbo a s Hl) as Hl1. rewrite Hrun in Hl1. cbn [snd] in Hl1.
    cbn [for_each] in *. unfold bind in *. rewrite Hrun in *.
    destruct (fst (normalized_attrs urlparse out atr)) as [[] | e] eqn:Hfst; [| discriminate].
    assert (Hother : forall j, In j l -> tag_at j (root s1) = tag_at j (root s)).
    { intros j Hj. rewrite Htag1. destruct (Nat.eqb j a) eqn:E; [| reflexivity].
      apply Nat.eqb_eq in E. subst j. tauto. }
    destruct (IH s1 Hnd Hl1) as [Hlim Hrest]; [| exact Hdone |].
    { intros j Hj. rewrite (Hother j Hj). apply Hall. right. exact Hj. }
    split; [exact Hlim |]. intros j nm' atr' [<- | Hj] Hat.
    + rewrite Hta in Hat. injection Hat as <- <-. exact Hfst.
    + apply (Hrest j nm' atr' Hj). rewrite (Hother j Hj). exact Hat.
Qed.

Lemma for_each_fixed {S A} (l : list A) (body : A -> M S unit) s :
  (forall x, In x l -> body x s = (Done tt, s)) -> for_each l body s = (Done tt, s).
Proof.
  induction l as [| x l IH]; intros H; [reflexivity |]. cbn [for_each]. unfold bind.
  rewrite (H x (or_introl eq_refl)). apply IH. intros y Hy. apply H. right. exact Hy.
Qed.

(** X1. The anchor pass is idempotent: run again on the document that
    a run that ended normally left, it ends normally and changes
    nothing, whatever [urlparse] answers. *)
Theorem normalize_twice s :
  NoDup (ids (root s)) -> limbo s = [] ->
  fst (_normalize_same_doc_anchors_for_web urlparse out s) = Done tt ->
  _normalize_same_doc_anchors_for_web urlparse out
    (snd (_normalize_same_doc_anchors_for_web urlparse out s))
  = (Done tt, snd (_normalize_same_doc_anchors_for_web urlparse out s)).
Proof.
  intros Hnd Hl. unfold _normalize_same_doc_anchors_for_web at 1 3 4. unfold bind, get.
  set (l := Bs4.find_all is_anchor (node_id (root s)) s).
  assert (Hlnd : NoDup l) by (apply NoDup_find_all; [exact Hnd | apply find_root]).
  assert (Hall : forall a, In a l -> exists nm atr, tag_at a (root s) = Some (nm, atr)).
  { intros a Ha. apply In_find_all in Ha as (d & Hd & Hw & <-); [| exact Hnd].
    unfold is_anchor in Hw. apply andb_true_iff in Hw as [Hn _].
    apply named_eq in Hn as (i & atr & cs & ->). exists "a", atr.
    eapply tag_at_descendant; eassumption. }
  destruct (normalize_loop urlparse out l s Hlnd Hall) as (r & s' & Hrun & Hids & Hout & _ & Hin & _).
  intros Hdone. destruct (normalize_loop_done l s Hlnd Hl Hall Hdone) as [Hl' Hfst].
  rewrite Hrun in *. cbn [fst snd] in *. subst r. specialize (Hin eq_refl).
  assert (Hnd' : NoDup (ids (root s'))) by (rewrite Hids; exact Hnd).
  unfold _normalize_same_doc_anchors_for_web, bind, get.
  apply for_each_fixed. intros a Ha.
  apply In_find_all in Ha as (d & Hd & Hw & <-); [| exact Hnd'].
  unfold is_anchor in Hw. apply andb_true_iff in Hw as [Hn Hh].
  apply named_eq in Hn as (i & atr1 & cs & ->). cbn [node_id].
  pose proof (tag_at_descendant s' i "a" atr1 cs Hnd' Hd) as Hat'.
  assert (Hil : In i l).
  { destruct (in_dec Nat.eq_dec i l) as [Hi | Hi]; [exact Hi | exfalso].
    pose proof Hat' as Hat. rewrite (Hout i Hi) in Hat.
    apply tag_at_find in Hat as [cs0 Hf]. apply find_node_In in Hf as [Hroot | Hdesc].
    - rewrite ids_eq in Hnd'. apply NoDup_cons in Hnd' as [Hr _]. apply Hr.
      apply list_elem_of_In. rewrite <- desc_ids.
      assert (Er : node_id (root s') = i).
      { rewrite !ids_eq in Hids. injection Hids as Hids _. rewrite Hids, Hroot. reflexivity. }
      rewrite Er. apply (in_map node_id _ _ Hd).
    - apply Hi. apply In_find_all; [exact Hnd |]. eexists. split; [exact Hdesc |].
      split; [| reflexivity]. unfold is_anchor, has_attr in *. cbn [named attrs_of andb] in *.
      exact Hh. }
  destruct (Hall i Hil) as (nm & atr & Hat).
  pose proof (Hin i nm atr Hil Hat) as E. rewrite Hat' in E. injection E as <- ->.
  apply (normalize_anchor_fixed i s' "a" _ Hnd' Hl' Hat').
  apply normalized_attrs_twice. apply (Hfst i "a" atr Hil Hat).
Qed.

End NormalizeTwice.

(** ** The logo pass, step by step *)

Lemma sweep_unfold body s :
  sweep_logo_candidates body s
  = for_each (Bs4.find_all (named "img") (node_id (root s)) s) (sweep_step body) s.
Proof. reflexivity. Qed.

Lemma canonical_run img body s :
  _is_canonical_logo_img img body s = (Done (canonical img body s), s).
Proof.
  unfold _is_canonical_logo_img, canonical, bind, get, Bs4.name_of, Bs4.tag_get, bind, get, ret,
    raise. cbv beta iota.
  destruct (Bs4.lookup img s) as [[k t | k nm a cs] |] eqn:E;
    try (rewrite bool_decide_eq_false_2 by discriminate; reflexivity).
  destruct (String.eqb nm "img") eqn:En.
  - apply String.eqb_eq in En. subst nm.
    rewrite bool_decide_eq_true_2 by reflexivity. cbv beta iota. cbn [negb andb].
    rewrite ?E. cbv beta iota. rewrite ?E. cbv beta iota.
    destruct (_looks_like_logo_src _ && String.eqb _ _); cbn [negb andb]; [| reflexivity].
    destruct (Bs4.parent_node img s) as [p |]; [| reflexivity].
    destruct (named "p" p && opt_eqb _ _); reflexivity.
  - rewrite bool_decide_eq_false_2; [reflexivity |]. intros [= ->]. discriminate.
Qed.

Lemma remove_candidate_run img s :
  remove_candidate img s = (Done tt, Bs4.detach (removal_target img s) s).
Proof.
  unfold remove_candidate, removal_target, bind, get, Bs4.decompose, modify.
  destruct (Bs4.parent_node img s) as [p |]; [| reflexivity].
  destruct (named "p" p && only_imgs_and_blanks (contents_of p)); reflexivity.
Qed.

(** One step of the sweep: an image that is gone raises; a candidate
    that is not canonical is removed; nothing else changes. *)
Lemma sweep_step_run body img s :
  sweep_step body img s
  = match Bs4.lookup img s with
    | Some (Tag _ _ a _) =>
        if candidate_attrs a && negb (canonical img body s)
        then (Done tt, Bs4.detach (removal_target img s) s)
        else (Done tt, s)
    | _ => (Raised AttributeError, s)
    end.
Proof.
  unfold sweep_step, bind at 1, Bs4.tag_get at 1, bind, get, ret, raise.
  destruct (Bs4.lookup img s) as [[k t | k nm a cs] |] eqn:E; try reflexivity.
  unfold Bs4.tag_get, bind, get, ret. rewrite E. unfold candidate_attrs.
  destruct (is_logo_candidate _ _); [| reflexivity].
  rewrite canonical_run. cbn [andb]. destruct (canonical img body s); [reflexivity |].
  apply remove_candidate_run.
Qed.

(** ** What survives a removal *)

Lemma alive_not_under j c r :
  NoDup (ids r) -> find_node c (prune j r) <> None ->
  Forall (fun x => has_id j x = true -> find_node c x = None) (descendants r).
Proof.
  intros Hnd Halive. apply List.Forall_forall. intros x Hx Hj.
  destruct (find_node c x) eqn:E; [exfalso | reflexivity]. apply Halive.
  apply find_node_prune_gone; [exact Hnd |]. exists x. split; [exact Hx |].
  split; [exact Hj |]. eapply find_node_below, E.
Qed.

Lemma find_node_alive j c r :
  NoDup (ids r) -> find_node c (prune j r) <> None ->
  find_node c (prune j r) = prune j <$> find_node c r.
Proof. intros Hnd Halive. apply find_node_prune, alive_not_under; assumption. Qed.

Lemma tag_at_alive j c r :
  NoDup (ids r) -> find_node c (prune j r) <> None -> tag_at c (prune j r) = tag_at c r.
Proof.
  intros Hnd Halive. unfold tag_at. rewrite (find_node_alive j c r Hnd Halive).
  destruct (find_node c r) as [[? ? | ? ? ? ?] |]; reflexivity.
Qed.

Lemma node_in_tree j n d : find_node j n = Some d -> In d (n :: descendants n) /\ node_id d = j.
Proof. intros H. split; [eapply find_node_In, H | eapply find_node_id, H]. Qed.

Lemma same_node n x y :
  NoDup (ids n) -> In x (n :: descendants n) -> In y (n :: descendants n) ->
  node_id x = node_id y -> x = y.
Proof.
  intros Hnd Hx Hy E. pose proof (find_node_unique n x Hnd Hx) as Ex.
  pose proof (find_node_unique n y Hnd Hy) as Ey. rewrite E in Ex. congruence.
Qed.

Lemma below_trans n x y :
  In x (n :: descendants n) -> In y (x :: descendants x) -> In y (n :: descendants n).
Proof.
  intros [<- | Hx] Hy; [exact Hy |]. right. destruct Hy as [<- | Hy]; [exact Hx |].
  eapply descendants_trans; eassumption.
Qed.

Lemma parent_in_alive j c r p :
  NoDup (ids r) -> parent_in c r = Some p -> find_node c (prune j r) <> None ->
  parent_in c (prune j r) = Some (prune j p)
  /\ find_node (node_id p) (prune j r) = Some (prune j p).
Proof.
  intros Hnd Hp Halive.
  pose proof (alive_not_under j c r Hnd Halive) as Hc. rewrite List.Forall_forall in Hc.
  apply parent_in_spec in Hp as [Hpin Hcin].
  apply in_map_iff in Hcin as (cn & Hid & Hcn).
  assert (Hfp : find_node (node_id p) (prune j r) = Some (prune j p)).
  { rewrite find_node_prune; [rewrite (find_node_unique r p Hnd Hpin); reflexivity |].
    apply List.Forall_forall. intros x Hx Hj.
    destruct (find_node (node_id p) x) as [p0 |] eqn:E; [exfalso | reflexivity].
    apply node_in_tree in E as [Hp0 Eid].
    assert (p0 = p).
    { apply (same_node r); [exact Hnd | | exact Hpin | exact Eid].
      apply (below_trans r x); [right; exact Hx | exact Hp0]. }
    subst p0. specialize (Hc x Hx Hj). apply find_node_None in Hc. apply Hc.
    rewrite <- Hid. apply (in_map node_id).
    apply (below_trans x p); [exact Hp0 | right; apply descendants_In_child, Hcn]. }
  split; [| exact Hfp].
  apply parent_in_unique; [apply NoDup_prune, Hnd | rewrite node_id_prune; exact Hfp |].
  rewrite contents_prune. unfold prune_list. apply in_map_iff. exists (prune j cn).
  split; [rewrite node_id_prune; exact Hid |]. apply in_flat_map. exists cn. split; [exact Hcn |].
  destruct (has_id j cn) eqn:Ej; [exfalso | left; reflexivity].
  assert (Hx : In cn (descendants r)).
  { destruct Hpin as [<- | Hpin]; [apply descendants_In_child, Hcn |].
    eapply descendants_trans; [exact Hpin | apply descendants_In_child, Hcn]. }
  specialize (Hc cn Hx Ej). rewrite <- Hid, find_root in Hc. discriminate.
Qed.

(** The first tag among children stays the first when it is not the
    one removed. *)
Lemma first_tag_prune_list j q cs :
  head (map node_id (List.filter _is_tag cs)) = Some q ->
  (forall c, In c cs -> node_id c = q -> has_id j c = false) ->
  head (map node_id (List.filter _is_tag (prune_list j cs))) = Some q.
Proof.
  induction cs as [| c cs IH]; intros Hq Hj; [discriminate |].
  unfold prune_list in *. cbn [flat_map List.filter] in *.
  destruct c as [k t | k nm a cs0].
  - cbn [_is_tag] in Hq. destruct (has_id j (NavigableString k t)); cbn [app];
      [| cbn [prune List.filter _is_tag]]; apply IH; auto; intros c Hc; apply Hj; right; exact Hc.
  - cbn [_is_tag map head] in Hq. injection Hq as Hq. cbn [node_id] in Hq.
    rewrite (Hj (Tag k nm a cs0) (or_introl eq_refl) Hq). cbn [app prune List.filter _is_tag map head node_id].
    rewrite Hq. reflexivity.
Qed.

Lemma opt_eqb_true x y : opt_eqb x (Some y) = true <-> x = Some y.
Proof.
  destruct x as [x |]; cbn [opt_eqb]; [| split; discriminate].
  rewrite Nat.eqb_eq. split; congruence.
Qed.

Lemma opt_eqb_true_l x y : opt_eqb (Some x) y = true <-> y = Some x.
Proof.
  destruct y as [y |]; cbn [opt_eqb]; [| split; discriminate].
  rewrite Nat.eqb_eq. split; congruence.
Qed.

Lemma canonical_spec img body s :
  limbo s = [] ->
  canonical img body s = true <-> exists a p b, canonical_at img body (root s) a p b.
Proof.
  intros Hl. unfold canonical, canonical_at, tag_at, Bs4.parent_of, Bs4.first_tag_child,
    Bs4.find_all_children, Bs4.contents.
  rewrite !(lookup_no_limbo _ _ Hl), !(parent_node_no_limbo _ _ Hl).
  split.
  - destruct (find_node img (root s)) as [[k t | k nm a cs] |] eqn:E; try discriminate.
    intros H. apply andb_true_iff in H as [H Hpar]. apply andb_true_iff in H as [Hnm Hattrs].
    apply String.eqb_eq in Hnm. subst nm.
    destruct (parent_in img (root s)) as [p |]; [| discriminate].
    apply andb_true_iff in Hpar as [Hpar Hfirst]. apply andb_true_iff in Hpar as [Hp Hpp].
    rewrite (parent_node_no_limbo _ _ Hl) in Hpp.
    apply opt_eqb_true in Hpp. apply opt_eqb_true_l in Hfirst.
    destruct (find_node body (root s)) as [b |] eqn:Eb; [| discriminate].
    exists a, p, b. repeat split; auto.
  - intros (a & p & b & Hat & Hattrs & Hp & Hnp & Hpp & Hb & Hfirst).
    destruct (find_node img (root s)) as [[k t | k nm a' cs] |]; try discriminate.
    injection Hat as -> ->. rewrite Hp. rewrite (parent_node_no_limbo _ _ Hl), Hpp, Hb, Hfirst, Hnp.
    unfold logo_attrs_ok in Hattrs. rewrite Hattrs. cbn [opt_eqb andb String.eqb].
    rewrite !Nat.eqb_refl. reflexivity.
Qed.

(** A canonical image that survives a removal is still canonical. *)
Lemma canonical_detach j img body s :
  NoDup (ids (root s)) -> limbo s = [] ->
  canonical img body s = true ->
  find_node img (prune j (root s)) <> None ->
  canonical img body (Bs4.detach j s) = true.
Proof.
  intros Hnd Hl Hc Halive.
  apply (canonical_spec _ _ _ Hl) in Hc as (a & p & b & Hat & Hattrs & Hp & Hnp & Hpp & Hb & Hfirst).
  assert (Hl' : limbo (Bs4.detach j s) = []) by (unfold Bs4.detach; cbn [limbo]; rewrite Hl; reflexivity).
  apply (canonical_spec _ _ _ Hl'). unfold Bs4.detach. cbn [root].
  destruct (parent_in_alive j img (root s) p Hnd Hp Halive) as [Hp' Hfp].
  destruct (parent_in (node_id p) (root s)) as [b0 |] eqn:Eb0; [| discriminate].
  injection Hpp as Hpp.
  assert (Hpalive : find_node (node_id p) (prune j (root s)) <> None) by (rewrite Hfp; discriminate).
  destruct (parent_in_alive j (node_id p) (root s) b0 Hnd Eb0 Hpalive) as [Hb' Hfb].
  assert (b0 = b).
  { apply parent_in_spec in Eb0 as [Hin _]. pose proof (find_node_unique _ _ Hnd Hin) as E.
    rewrite Hpp in E. congruence. }
  subst b0.
  exists a, (prune j p), (prune j b). unfold canonical_at.
  rewrite (tag_at_alive j img (root s) Hnd Halive), node_id_prune, named_prune, Hb'.
  cbn [fmap option_fmap option_map]. rewrite node_id_prune, Hpp. rewrite Hpp in Hfb.
  repeat split; auto. rewrite contents_prune. apply first_tag_prune_list; [exact Hfirst |].
  intros c Hc Hid. apply has_id_false. rewrite Hid. intros Ej.
  pose proof (alive_not_under j (node_id p) (root s) Hnd Hpalive) as Hu.
  rewrite List.Forall_forall in Hu.
  apply parent_in_spec in Hp as [Hpin _].
  assert (Hpd : In p (descendants (root s))).
  { apply parent_in_spec in Eb0 as [Hbin Hpc]. apply in_map_iff in Hpc as (pn & Epn & Hpn).
    assert (Hpn' : In pn (descendants (root s))).
    { destruct Hbin as [<- | Hbin]; [apply descendants_In_child, Hpn |].
      eapply descendants_trans; [exact Hbin | apply descendants_In_child, Hpn]. }
    assert (pn = p) by (apply (same_node (root s)); auto; right; exact Hpn').
    subst pn. exact Hpn'. }
  specialize (Hu p Hpd). rewrite find_root in Hu.
  assert (has_id j p = true) by (apply has_id_true; exact Ej). specialize (Hu H). discriminate.
Qed.

Lemma pruned_alive s s' c :
  pruned s s' -> NoDup (ids (root s)) -> limbo s = [] ->
  find_node c (root s') <> None -> find_node c (root s) <> None.
Proof. intros Hp Hnd Hl Ha Hd. apply Ha. eapply pruned_dead; eassumption. Qed.

Lemma detach_keeps s j :
  NoDup (ids (root s)) -> limbo s = [] ->
  NoDup (ids (root (Bs4.detach j s))) /\ limbo (Bs4.detach j s) = [].
Proof.
  intros Hnd Hl. unfold Bs4.detach. cbn [root limbo]. split; [apply NoDup_prune, Hnd |].
  rewrite Hl. reflexivity.
Qed.

Lemma tag_at_pruned s s' c :
  pruned s s' -> NoDup (ids (root s)) -> limbo s = [] ->
  find_node c (root s') <> None -> tag_at c (root s') = tag_at c (root s).
Proof.
  induction 1 as [s | s i s' Hp IH]; intros Hnd Hl Ha; [reflexivity |].
  destruct (detach_keeps s i Hnd Hl) as [Hnd1 Hl1].
  rewrite (IH Hnd1 Hl1 Ha). unfold Bs4.detach. cbn [root]. apply tag_at_alive; [exact Hnd |].
  apply (pruned_alive _ _ _ Hp Hnd1 Hl1 Ha).
Qed.

Lemma canonical_pruned s s' img body :
  pruned s s' -> NoDup (ids (root s)) -> limbo s = [] ->
  canonical img body s = true -> find_node img (root s') <> None ->
  canonical img body s' = true.
Proof.
  induction 1 as [s | s i s' Hp IH]; intros Hnd Hl Hc Ha; [exact Hc |].
  destruct (detach_keeps s i Hnd Hl) as [Hnd1 Hl1].
  apply (IH Hnd1 Hl1); [| exact Ha]. apply canonical_detach; auto.
  apply (pruned_alive _ _ _ Hp Hnd1 Hl1 Ha).
Qed.

Lemma named_root_pruned s s' nm :
  pruned s s' -> named nm (root s') = named nm (root s).
Proof.
  induction 1 as [s | s i s' Hp IH]; [reflexivity |]. rewrite IH. unfold Bs4.detach. cbn [root].
  apply named_prune.
Qed.

Lemma swept_pruned body s s' : swept body s s' -> pruned s s'.
Proof.
  induction 1 as [s | s x a cs s' _ _ _ _ IH]; [apply pruned_refl |].
  eapply pruned_step. exact IH.
Qed.

Lemma swept_trans body s1 s2 s3 : swept body s1 s2 -> swept body s2 s3 -> swept body s1 s3.
Proof. induction 1; [tauto |]. intros H3. eapply swept_step; eauto. Qed.

(** The candidate [img] is gone once its removal is done. *)
Lemma removal_kills img s :
  NoDup (ids (root s)) -> limbo s = [] -> named "p" (root s) = false ->
  img <> node_id (root s) -> find_node img (root s) <> None ->
  find_node img (root (Bs4.detach (removal_target img s) s)) = None.
Proof.
  intros Hnd Hl Hroot Hne Ha. unfold Bs4.detach. cbn [root].
  assert (Hdesc : In img (map node_id (descendants (root s)))).
  { destruct (find_node img (root s)) as [d |] eqn:E; [| congruence].
    apply node_in_tree in E as [[<- | Hd] Hid]; [congruence |]. rewrite <- Hid. apply in_map, Hd. }
  unfold removal_target. rewrite (parent_node_no_limbo _ _ Hl).
  destruct (parent_in img (root s)) as [p |] eqn:Hp; [| apply find_node_prune_self; assumption].
  destruct (named "p" p && only_imgs_and_blanks (contents_of p)) eqn:Hb;
    [| apply find_node_prune_self; assumption].
  apply andb_true_iff in Hb as [Hnp _]. apply parent_in_spec in Hp as [Hpin Hc].
  apply find_node_prune_gone; [exact Hnd |]. exists p.
  destruct Hpin as [<- | Hpin]; [congruence |]. split; [exact Hpin |].
  split; [apply has_id_true; reflexivity |]. rewrite ids_eq. right.
  apply in_map_iff in Hc as (c & <- & Hc). apply in_flat_map. exists c. split; [exact Hc |].
  rewrite ids_eq. left. reflexivity.
Qed.

(** A sweep that ends normally only removes, and leaves no candidate
    that is not canonical among the images it went through. *)
Lemma sweep_loop body l : forall s,
  NoDup (ids (root s)) -> limbo s = [] -> named "p" (root s) = false ->
  (forall img, In img l -> img <> node_id (root s)) ->
  (forall img nm a, In img l -> tag_at img (root s) = Some (nm, a) -> nm = "img") ->
  fst (for_each l (sweep_step body) s) = Done tt ->
  swept body s (snd (for_each l (sweep_step body) s))
  /\ forall img nm a, In img l ->
       tag_at img (root (snd (for_each l (sweep_step body) s))) = Some (nm, a) ->
       candidate_attrs a = true ->
       canonical img body (snd (for_each l (sweep_step body) s)) = true.
Proof.
  induction l as [| x l IH]; intros s Hnd Hl Hroot Hne Himg Hdone.
  - split; [apply swept_refl | intros img nm a []].
  - cbn [for_each] in *. unfold bind in *. rewrite sweep_step_run in *.
    rewrite (lookup_no_limbo _ _ Hl) in *.
    destruct (find_node x (root s)) as [[k t | k nm0 a0 cs0] |] eqn:Ex; try discriminate.
    assert (Ek : k = x) by (apply find_node_id in Ex; exact Ex). subst k.
    assert (Enm : nm0 = "img").
    { apply (Himg x nm0 a0 (or_introl eq_refl)). unfold tag_at. rewrite Ex. reflexivity. }
    subst nm0.
    set (s1 := if candidate_attrs a0 && negb (canonical x body s)
               then Bs4.detach (removal_target x s) s else s) in *.
    assert (Hp1 : swept body s s1).
    { unfold s1. destruct (candidate_attrs a0) eqn:Hc; [| apply swept_refl].
      destruct (canonical x body s) eqn:Hk; [apply swept_refl |]. cbn [andb negb].
      eapply swept_step; [exact Ex | exact Hc | exact Hk | apply swept_refl]. }
    assert (Hrun : (if candidate_attrs a0 && negb (canonical x body s)
                    then (Done tt, Bs4.detach (removal_target x s) s) else (Done tt, s))
                   = (Done tt, s1)).
    { unfold s1. destruct (_ && _); reflexivity. }
    rewrite Hrun in *. clear Hrun.
    pose proof (swept_pruned _ _ _ Hp1) as Hq1.
    destruct (pruned_spec _ _ Hq1 Hnd Hl) as (Hnd1 & Hl1 & _ & Hid1 & _).
    assert (Hroot1 : named "p" (root s1) = false) by (rewrite (named_root_pruned _ _ _ Hq1); exact Hroot).
    destruct (IH s1 Hnd1 Hl1 Hroot1) as [Hp' Hpost]; [| | exact Hdone |].
    { intros img Hi. rewrite Hid1. apply Hne. right. exact Hi. }
    { intros img nm a Hi Hat. apply (Himg img nm a (or_intror Hi)).
      rewrite <- (tag_at_pruned _ _ _ Hq1 Hnd Hl); [exact Hat |].
      unfold tag_at in Hat. destruct (find_node img (root s1)); discriminate. }
    set (s' := snd (for_each l (sweep_step body) s1)) in *.
    split; [eapply swept_trans; eassumption |].
    intros img nm a [<- | Hi] Hat Hcand; [| eapply Hpost; eassumption].
    assert (Ha' : find_node x (root s') <> None).
    { unfold tag_at in Hat. destruct (find_node x (root s')); [discriminate | discriminate]. }
    pose proof (pruned_trans _ _ _ Hq1 (swept_pruned _ _ _ Hp')) as Hps.
    rewrite (tag_at_pruned _ _ _ Hps Hnd Hl Ha') in Hat. unfold tag_at in Hat. rewrite Ex in Hat.
    injection Hat as <- <-.
    destruct (canonical x body s) eqn:Hc.
    + apply (canonical_pruned _ _ _ _ Hps Hnd Hl Hc Ha').
    + exfalso. apply Ha'. unfold s1 in Hp'. rewrite Hcand in Hp'. cbn [andb negb] in Hp'.
      destruct (detach_keeps s (removal_target x s) Hnd Hl) as [Hndd Hld].
      apply (pruned_dead _ _ _ (swept_pruned _ _ _ Hp') Hndd Hld).
      apply removal_kills; auto; [apply Hne; left; reflexivity | rewrite Ex; discriminate].
Qed.

(** ** The logo pass in three parts *)

Lemma logo_run s0 :
  _enforce_single_oasis_logo s0
  = match sweep_logo_candidates (body_or_soup s0) s0 with
    | (Done _, s) =>
        match first_good (body_or_soup s0) s with
        | Some _ => sweep_logo_candidates (body_or_soup s0) s
        | None =>
            match place_logo (body_or_soup s0) s s with
            | (Done _, s2) => sweep_logo_candidates (body_or_soup s0) s2
            | (Raised e, s2) => (Raised e, s2)
            end
        end
    | (Raised e, s) => (Raised e, s)
    end.
Proof.
  unfold _enforce_single_oasis_logo. unfold bind at 1, get at 1. cbv beta iota zeta.
  unfold bind at 1. destruct (sweep_logo_candidates (body_or_soup s0) s0) as [[[] | e] s]; [| reflexivity].
  unfold bind at 1, get at 1. cbv beta iota. unfold first_good.
  destruct (Bs4.first_tag_child (body_or_soup s0) s) as [first_el |]; [| reflexivity].
  destruct (bool_decide (Bs4.name_of first_el s = Some "p")); [| reflexivity].
  destruct (match Bs4.find_child (named "img") first_el s with
            | Some i => Some i
            | None => Bs4.find (named "img") first_el s
            end) as [m |]; [| reflexivity].
  unfold bind at 1. unfold bind at 1. rewrite canonical_run. unfold ret at 1.
  destruct (canonical m (body_or_soup s0) s); reflexivity.
Qed.

Lemma found_is_tag want s j :
  NoDup (ids (root s)) -> In j (Bs4.find_all (named want) (node_id (root s)) s) ->
  exists a cs, find_node j (root s) = Some (Tag j want a cs)
               /\ In (Tag j want a cs) (descendants (root s)).
Proof.
  intros Hnd Hj. apply In_find_all in Hj as (d & Hd & Hw & <-); [| exact Hnd].
  apply named_eq in Hw as (i & a & cs & ->). exists a, cs. cbn [node_id].
  split; [| exact Hd]. apply (find_node_unique _ _ Hnd (or_intror Hd)).
Qed.

Lemma found_not_root want s j :
  NoDup (ids (root s)) -> In j (Bs4.find_all want (node_id (root s)) s) ->
  j <> node_id (root s).
Proof.
  intros Hnd Hj. apply In_find_all in Hj as (d & Hd & _ & <-); [| exact Hnd].
  rewrite ids_eq in Hnd. apply NoDup_cons in Hnd as [Hr _]. intros E. apply Hr.
  apply list_elem_of_In. rewrite <- desc_ids, <- E. apply in_map, Hd.
Qed.

Lemma sweep_fixed body s :
  NoDup (ids (root s)) -> limbo s = [] -> candidates_canonical body s ->
  sweep_logo_candidates body s = (Done tt, s).
Proof.
  intros Hnd Hl Hcc. rewrite sweep_unfold. apply for_each_fixed. intros img Hi.
  rewrite sweep_step_run, (lookup_no_limbo _ _ Hl).
  destruct (found_is_tag "img" s img Hnd Hi) as (a & cs & Hf & _). rewrite Hf.
  destruct (candidate_attrs a) eqn:Hc; [| reflexivity].
  rewrite (Hcc img "img" a Hi); [reflexivity | | exact Hc]. unfold tag_at. rewrite Hf. reflexivity.
Qed.

Lemma sweep_result body s :
  NoDup (ids (root s)) -> limbo s = [] -> named "p" (root s) = false ->
  fst (sweep_logo_candidates body s) = Done tt ->
  swept body s (snd (sweep_logo_candidates body s))
  /\ candidates_canonical body (snd (sweep_logo_candidates body s)).
Proof.
  intros Hnd Hl Hroot. rewrite sweep_unfold. intros Hdone.
  set (l := Bs4.find_all (named "img") (node_id (root s)) s) in *.
  destruct (sweep_loop body l s Hnd Hl Hroot) as [Hw Hpost]; [| | exact Hdone |].
  { intros img Hi. apply (found_not_root _ _ _ Hnd Hi). }
  { intros img nm a Hi Hat. destruct (found_is_tag "img" s img Hnd Hi) as (a' & cs & Hf & _).
    unfold tag_at in Hat. rewrite Hf in Hat. congruence. }
  set (s' := snd (for_each l (sweep_step body) s)) in *.
  split; [exact Hw |]. pose proof (swept_pruned _ _ _ Hw) as Hp. intros img nm a Hi Hat Hc.
  destruct (pruned_spec _ _ Hp Hnd Hl) as (Hnd' & Hl' & _ & Hid' & _).
  apply (Hpost img nm a); [| exact Hat | exact Hc].
  destruct (found_is_tag "img" s' img Hnd' Hi) as (a' & cs & Hf & _).
  assert (Ha : find_node img (root s') <> None) by (rewrite Hf; discriminate).
  pose proof (tag_at_pruned _ _ _ Hp Hnd Hl Ha) as E. unfold tag_at in E at 1. rewrite Hf in E.
  symmetry in E. apply tag_at_find in E as [cs0 E].
  apply In_find_all; [exact Hnd |]. exists (Tag img "img" a' cs0).
  split; [| split; reflexivity].
  apply find_node_In in E as [E | E]; [| exact E]. exfalso.
  apply (found_not_root _ _ _ Hnd' Hi). rewrite Hid', E. reflexivity.
Qed.

Lemma first_id_none_pruned p s s' :
  pruned s s' -> NoDup (ids (root s)) -> limbo s = [] ->
  (forall i y, p (prune i y) = p y) ->
  first_id p (root s) = None -> first_id p (root s') = None.
Proof.
  induction 1 as [s | s i s' Hp IH]; intros Hnd Hl Hinv Hn; [exact Hn |].
  destruct (detach_keeps s i Hnd Hl) as [Hnd1 Hl1]. apply (IH Hnd1 Hl1 Hinv).
  unfold Bs4.detach. cbn [root]. unfold first_id in *.
  pose proof (first_match_prune p i (root s) Hnd (Hinv i)) as H.
  destruct (first_match p (root s)); [discriminate |]. rewrite H. reflexivity.
Qed.

(** The body of the document is the same after removals that leave it
    in place. *)
Lemma body_pruned s s' :
  pruned s s' -> NoDup (ids (root s)) -> limbo s = [] ->
  find_node (body_or_soup s) (root s') <> None ->
  body_or_soup s' = body_or_soup s.
Proof.
  intros Hp Hnd Hl. unfold body_or_soup. rewrite !find_in_document.
  destruct (pruned_spec _ _ Hp Hnd Hl) as (_ & _ & _ & Hid & _ & Hgf).
  destruct (first_id (named "body") (root s)) as [b |] eqn:Eb; cbn [default].
  - intros Ha. change (find_node b (root s') <> None) in Ha.
    destruct (Hgf (named "body") b) as [Hg | Hf].
    + intros i y. apply named_prune.
    + right. exact Eb.
    + congruence.
    + rewrite Hf. reflexivity.
  - intros _. rewrite (first_id_none_pruned _ _ _ Hp Hnd Hl); [exact Hid | | exact Eb].
    intros i y. apply named_prune.
Qed.

(** ** A tree with one more child *)

Lemma first_some_app {A B} (f : A -> option B) l k :
  first_some f (l ++ k)
  = match first_some f l with Some y => Some y | None => first_some f k end.
Proof.
  induction l as [| x l IH]; [reflexivity |]. cbn [app first_some].
  destruct (f x); [reflexivity | exact IH].
Qed.

Lemma first_some_skip {A B} (f : A -> option B) l k :
  (forall x, In x l -> f x = None) -> first_some f (l ++ k) = first_some f k.
Proof.
  intros H. rewrite first_some_app.
  replace (first_some f l) with (@None B); [reflexivity |].
  symmetry. apply first_some_None, List.Forall_forall. exact H.
Qed.

Lemma not_below_child x k nm a cs c :
  ~ In x (ids (Tag k nm a cs)) -> In c cs -> find_node x c = None.
Proof.
  intros H Hc. apply find_node_None. intros Hi. apply H. rewrite ids_Tag. right.
  apply in_flat_map. eauto.
Qed.

Section Grafted.

Variables (P : node) (h : ident) (nm : string) (a : gmap string string) (l1 l2 : list node).

Lemma grafted_id r r' : grafted P h nm a l1 l2 r r' -> node_id r' = node_id r.
Proof. destruct 1; reflexivity. Qed.

Lemma grafted_named x r r' : grafted P h nm a l1 l2 r r' -> named x r' = named x r.
Proof. destruct 1; reflexivity. Qed.

Lemma grafted_has r r' : grafted P h nm a l1 l2 r r' -> In h (ids r).
Proof.
  induction 1 as [| k nm' a' m1 c c' m2 _ IH].
  - rewrite ids_Tag. left. reflexivity.
  - rewrite ids_Tag. right. rewrite flat_map_app. apply in_or_app. right. cbn [flat_map].
    apply in_or_app. left. exact IH.
Qed.

Lemma grafted_ids r r' : grafted P h nm a l1 l2 r r' -> ids r' ≡ₚ ids P ++ ids r.
Proof.
  induction 1 as [| k nm' a' m1 c c' m2 _ IH].
  - rewrite !ids_Tag, !flat_map_app. cbn [flat_map].
    rewrite <- (Permutation_middle (ids P)). constructor. apply Permutation_app_swap_app.
  - rewrite !ids_Tag, !flat_map_app. cbn [flat_map]. rewrite IH.
    rewrite <- (Permutation_middle (ids P)). constructor. rewrite <- app_assoc.
    apply Permutation_app_swap_app.
Qed.

Lemma grafted_NoDup r r' :
  grafted P h nm a l1 l2 r r' -> NoDup (ids r) -> NoDup (ids P) ->
  (forall x, In x (ids P) -> ~ In x (ids r)) -> NoDup (ids r').
Proof.
  intros G Hr HP Hdisj. rewrite (grafted_ids r r' G). apply NoDup_app. split; [exact HP |].
  split; [| exact Hr]. intros x Hx Hx'. apply list_elem_of_In in Hx, Hx'. apply (Hdisj x Hx Hx').
Qed.

(** A node of [P] is found in [r'] as it is in [P]. *)
Lemma grafted_find_new f d r r' :
  grafted P h nm a l1 l2 r r' -> ~ In f (ids r) -> find_node f P = Some d ->
  find_node f r' = Some d.
Proof.
  induction 1 as [| k nm' a' m1 c c' m2 _ IH]; intros Hf HP.
  - rewrite find_node_eq. cbn [contents_of].
    replace (has_id f (Tag h nm a (l1 ++ P :: l2))) with false.
    2:{ symmetry. apply has_id_false. cbn [node_id]. intros ->. apply Hf. rewrite ids_Tag. left.
        reflexivity. }
    rewrite first_some_skip; [cbn [first_some]; rewrite HP; reflexivity |].
    intros x Hx. apply (not_below_child f h nm a (l1 ++ l2)); [exact Hf |].
    apply in_or_app. left. exact Hx.
  - rewrite find_node_eq. cbn [contents_of].
    replace (has_id f (Tag k nm' a' (m1 ++ c' :: m2))) with false.
    2:{ symmetry. apply has_id_false. cbn [node_id]. intros ->. apply Hf. rewrite ids_Tag. left.
        reflexivity. }
    rewrite first_some_skip.
    + cbn [first_some]. rewrite IH; [reflexivity | | exact HP].
      intros Hi. apply Hf. rewrite ids_Tag. right. apply in_flat_map. exists c.
      split; [apply in_or_app; right; left; reflexivity | exact Hi].
    + intros x Hx. apply (not_below_child f k nm' a' (m1 ++ c :: m2)); [exact Hf |].
      apply in_or_app. left. exact Hx.
Qed.

(** The tag [h] is found with [P] among its children. *)
Lemma grafted_find_host r r' :
  grafted P h nm a l1 l2 r r' -> NoDup (ids r) ->
  find_node h r = Some (Tag h nm a (l1 ++ l2))
  /\ find_node h r' = Some (Tag h nm a (l1 ++ P :: l2)).
Proof.
  induction 1 as [| k nm' a' m1 c c' m2 G IH]; intros Hnd.
  - split; apply find_node_self.
  - pose proof (grafted_has c c' G) as Hh.
    rewrite ids_Tag in Hnd. apply NoDup_cons in Hnd as [Hk Hnd].
    rewrite flat_map_app in Hnd. cbn [flat_map] in Hnd.
    apply NoDup_app in Hnd as (_ & Hdisj & Hc). apply NoDup_app in Hc as (Hc & _ & _).
    destruct (IH Hc) as [IH1 IH2].
    assert (Hkh : has_id h (Tag k nm' a' (m1 ++ c :: m2)) = false).
    { apply has_id_false. cbn [node_id]. intros ->. apply Hk. apply list_elem_of_In.
      rewrite flat_map_app. apply in_or_app. right. cbn [flat_map]. apply in_or_app. left.
      exact Hh. }
    assert (Hm1 : forall x, In x m1 -> find_node h x = None).
    { intros x Hx. apply find_node_None. intros Hi. apply (Hdisj h); apply list_elem_of_In.
      - apply in_flat_map. eauto.
      - apply in_or_app. left. exact Hh. }
    rewrite !find_node_eq. cbn [contents_of]. change (has_id h (Tag k nm' a' (m1 ++ c' :: m2)))
      with (has_id h (Tag k nm' a' (m1 ++ c :: m2))). rewrite Hkh.
    rewrite !(first_some_skip _ _ _ Hm1). cbn [first_some]. rewrite IH1, IH2. split; reflexivity.
Qed.

(** The first tag named [x] is the same when [P] has none. *)
Lemma grafted_first x r r' :
  grafted P h nm a l1 l2 r r' -> named x P = false -> first_match (named x) P = None ->
  first_id (named x) r' = first_id (named x) r.
Proof.
  intros G HP HP'. unfold first_id.
  induction G as [| k nm' a' m1 c c' m2 G IH]; rewrite !first_match_Tag, !first_some_app.
  - cbn [first_some]. rewrite HP, HP'. reflexivity.
  - destruct (first_some _ m1); [reflexivity |]. cbn [first_some].
    rewrite (grafted_named x c c' G). destruct (named x c).
    + cbn. rewrite (grafted_id c c' G). reflexivity.
    + destruct (first_match (named x) c') as [y' |], (first_match (named x) c) as [y |];
        cbn in IH |- *; try discriminate; [exact IH | reflexivity].
Qed.

Lemma grafted_void_self r r' :
  grafted P h nm a l1 l2 r r' -> named "img" (Tag h nm a []) = false ->
  (forall d, In d (P :: descendants P) -> void_img d = true) ->
  (forall d, In d (r :: descendants r) -> void_img d = true) ->
  forall d, In d (r' :: descendants r') -> void_img d = true.
Proof.
  intros G Hh HP. induction G as [| k nm' a' m1 c c' m2 G IH]; intros Hr d [<- | Hd].
  - unfold void_img. change (named "img" (Tag h nm a (l1 ++ P :: l2))) with (named "img" (Tag h nm a [])).
    rewrite Hh. reflexivity.
  - cbn [descendants] in Hd. apply in_flat_map in Hd as (c0 & Hc0 & Hd).
    apply in_app_or in Hc0 as [Hc0 | [<- | Hc0]]; [| apply HP, Hd |];
      apply Hr; right; cbn [descendants]; apply in_flat_map; exists c0;
      (split; [apply in_or_app; auto | exact Hd]).
  - specialize (Hr (Tag k nm' a' (m1 ++ c :: m2)) (or_introl eq_refl)). unfold void_img in *.
    change (named "img" (Tag k nm' a' (m1 ++ c' :: m2)))
      with (named "img" (Tag k nm' a' (m1 ++ c :: m2))).
    cbn [contents_of] in Hr. destruct (negb _); [reflexivity |]. cbn [orb] in Hr.
    destruct m1; discriminate.
  - cbn [descendants] in Hd. apply in_flat_map in Hd as (c0 & Hc0 & Hd).
    assert (Hsub : forall x, In x (m1 ++ c :: m2) -> forall y, In y (x :: descendants x) ->
                     void_img y = true).
    { intros x Hx y Hy. apply Hr. right. cbn [descendants]. apply in_flat_map. eauto. }
    apply in_app_or in Hc0 as [Hc0 | [<- | Hc0]].
    + apply (Hsub c0); [apply in_or_app; left; exact Hc0 | exact Hd].
    + apply IH; [| exact Hd]. apply Hsub. apply in_or_app. right. left. reflexivity.
    + apply (Hsub c0); [apply in_or_app; right; right; exact Hc0 | exact Hd].
Qed.

End Grafted.

Lemma first_some_split {A B} (f : A -> option B) l y :
  first_some f l = Some y ->
  exists m1 c m2, l = m1 ++ c :: m2 /\ (forall x, In x m1 -> f x = None) /\ f c = Some y.
Proof.
  induction l as [| x l IH]; [discriminate |]. cbn [first_some].
  destruct (f x) eqn:E.
  - intros [= ->]. exists [], x, l. split; [reflexivity |]. split; [intros ? [] | exact E].
  - intros H. destruct (IH H) as (m1 & c & m2 & -> & Hm1 & Hc). exists (x :: m1), c, m2.
    split; [reflexivity |]. split; [| exact Hc]. intros z [<- | Hz]; auto.
Qed.

Lemma existsb_split {A} (p : A -> bool) l :
  existsb p l = true ->
  exists m1 c m2, l = m1 ++ c :: m2 /\ (forall x, In x m1 -> p x = false) /\ p c = true.
Proof.
  induction l as [| x l IH]; [discriminate |]. cbn [existsb].
  destruct (p x) eqn:E.
  - intros _. exists [], x, l. split; [reflexivity |]. split; [intros ? [] | exact E].
  - intros H. destruct (IH H) as (m1 & c & m2 & -> & Hm1 & Hc). exists (x :: m1), c, m2.
    split; [reflexivity |]. split; [| exact Hc]. intros z [<- | Hz]; auto.
Qed.

Lemma splice_before_notin L new n :
  ~ In L (flat_map ids (contents_of n)) -> splice_before L new n = n.
Proof.
  induction n as [k t | k nm a cs IH] using node_ind'; intros H; [reflexivity |].
  cbn [splice_before contents_of] in *. f_equal.
  induction cs as [| c cs IHcs]; [reflexivity |].
  inversion IH as [| ? ? IHc IH']; subst. cbn [flat_map] in *.
  rewrite in_app_iff in H. rewrite (ids_eq c) in H.
  replace (has_id L c) with false.
  2:{ symmetry. apply has_id_false. intros E. apply H. left. left. exact E. }
  rewrite IHc by (intros Hi; apply H; left; right; exact Hi).
  cbn [app]. f_equal. apply IHcs; [exact IH' |]. intros Hi. apply H. right. exact Hi.
Qed.

(** Children that do not hold [i] are left alone by a map that only
    changes what holds [i]. *)
Lemma map_same {A} (g : A -> A) l : (forall x, In x l -> g x = x) -> map g l = l.
Proof.
  induction l as [| x l IH]; intros H; [reflexivity |]. cbn [map].
  rewrite (H x (or_introl eq_refl)), IH; [reflexivity |]. intros y Hy. apply H. right. exact Hy.
Qed.

Lemma NoDup_children_split k nm a m1 c m2 :
  NoDup (ids (Tag k nm a (m1 ++ c :: m2))) ->
  NoDup (ids c)
  /\ ~ In k (ids c)
  /\ (forall i, In i (ids c) -> forall x, In x (m1 ++ m2) -> ~ In i (ids x)).
Proof.
  rewrite ids_Tag. intros Hnd. apply NoDup_cons in Hnd as [Hk Hnd].
  rewrite flat_map_app in Hnd, Hk. cbn [flat_map] in Hnd, Hk.
  apply NoDup_app in Hnd as (_ & Hd1 & Hnd). apply NoDup_app in Hnd as (Hc & Hd2 & _).
  split; [exact Hc |]. split.
  - intros Hi. apply Hk. apply list_elem_of_In. apply in_or_app. right. apply in_or_app. left.
    exact Hi.
  - intros i Hi x Hx Hix. apply in_app_or in Hx as [Hx | Hx].
    + apply (Hd1 i); apply list_elem_of_In; [apply in_flat_map; eauto |].
      apply in_or_app. left. exact Hi.
    + apply (Hd2 i); apply list_elem_of_In; [exact Hi | apply in_flat_map; eauto].
Qed.

Section Grafting.

Variables (P : node) (h : ident) (nm : string) (a : gmap string string).

(** [parent.insert(0, P)] is a graft at the front. *)
Lemma graft_recontent r : forall cs,
  NoDup (ids r) -> find_node h r = Some (Tag h nm a cs) ->
  grafted P h nm a [] cs r (recontent (cons P) h r).
Proof.
  induction r as [k t | k nm' a' cs0 IH] using node_ind'; intros cs Hnd Hf.
  - rewrite find_node_eq in Hf. cbn [contents_of first_some] in Hf.
    destruct (has_id h _); discriminate.
  - rewrite find_node_eq in Hf. cbn [contents_of] in Hf. cbn [recontent].
    unfold has_id in Hf. cbn [node_id] in Hf. destruct (Nat.eqb k h) eqn:Ek.
    + injection Hf as -> -> -> ->. rewrite map_recontent_notin.
      * apply (graft_here P h nm a [] cs).
      * rewrite ids_Tag in Hnd. apply NoDup_cons in Hnd as [Hk _]. intros Hi. apply Hk.
        apply list_elem_of_In, Hi.
    + apply first_some_split in Hf as (m1 & c & m2 & -> & Hm1 & Hc).
      destruct (NoDup_children_split _ _ _ _ _ _ Hnd) as (Hcn & _ & Hdisj).
      assert (Hh : In h (ids c)) by (eapply find_node_below, Hc).
      rewrite map_app. cbn [map]. rewrite !map_same.
      * apply graft_below. rewrite List.Forall_forall in IH. apply IH; auto.
        apply in_or_app. right. left. reflexivity.
      * intros x Hx. apply recontent_notin. apply (Hdisj h Hh). apply in_or_app. right. exact Hx.
      * intros x Hx. apply recontent_notin. apply (Hdisj h Hh). apply in_or_app. left. exact Hx.
Qed.

(** [ft.insert_before(P)] is a graft before the child [ft]. *)
Lemma graft_splice ft r : forall cs,
  NoDup (ids r) -> parent_in ft r = Some (Tag h nm a cs) ->
  exists l1 c l2, cs = l1 ++ c :: l2 /\ node_id c = ft
    /\ (forall x, In x l1 -> node_id x <> ft)
    /\ grafted P h nm a l1 (c :: l2) r (splice_before ft P r).
Proof.
  induction r as [k t | k nm' a' cs0 IH] using node_ind'; intros cs Hnd Hp.
  - discriminate.
  - rewrite parent_in_eq in Hp. cbn [contents_of] in Hp. cbn [splice_before].
    destruct (existsb (has_id ft) cs0) eqn:Ex.
    + injection Hp as -> -> -> ->.
      apply existsb_split in Ex as (m1 & c & m2 & -> & Hm1 & Hc).
      apply has_id_true in Hc.
      exists m1, c, m2. split; [reflexivity |]. split; [exact Hc |].
      split; [intros x Hx; apply has_id_false, Hm1, Hx |].
      assert (Hnd' : NoDup (flat_map ids (m1 ++ c :: m2))).
      { rewrite ids_Tag in Hnd. apply NoDup_cons in Hnd. tauto. }
      assert (Hin : In ft (map node_id (m1 ++ c :: m2))).
      { rewrite map_app. apply in_or_app. right. left. exact Hc. }
      pose proof (child_id_not_below ft _ Hnd' Hin) as Hnb. rewrite List.Forall_forall in Hnb.
      pose proof (NoDup_child_ids _ Hnd') as Hci. rewrite map_app in Hci. cbn [map] in Hci.
      apply NoDup_app in Hci as (_ & _ & Hci). apply NoDup_cons in Hci as [Hc2 _].
      assert (E : flat_map (fun c0 => if has_id ft c0 then [P; splice_before ft P c0]
                                      else [splice_before ft P c0]) (m1 ++ c :: m2)
                  = m1 ++ P :: c :: m2).
      { rewrite flat_map_app. cbn [flat_map]. f_equal.
        - clear -Hm1 Hnb. induction m1 as [| x m1 IHm]; [reflexivity |]. cbn [flat_map].
          rewrite (Hm1 x (or_introl eq_refl)).
          rewrite splice_before_notin by (apply Hnb; left; reflexivity). cbn [app]. f_equal.
          apply IHm; [intros y Hy; apply Hm1; right; exact Hy |].
          intros y Hy. apply Hnb. right. exact Hy.
        - replace (has_id ft c) with true by (symmetry; apply has_id_true; exact Hc).
          rewrite splice_before_notin by (apply Hnb; apply in_or_app; right; left; reflexivity).
          cbn [app]. f_equal. f_equal.
          assert (Hm2 : forall x, In x m2 -> has_id ft x = false).
          { intros x Hx. apply has_id_false. intros E. apply Hc2. apply list_elem_of_In.
            rewrite Hc, <- E. apply in_map, Hx. }
          assert (Hnb2 : forall x, In x m2 -> ~ In ft (flat_map ids (contents_of x))).
          { intros x Hx. apply Hnb. apply in_or_app. right. right. exact Hx. }
          clear -Hm2 Hnb2. induction m2 as [| x m2 IHm]; [reflexivity |]. cbn [flat_map].
          rewrite (Hm2 x (or_introl eq_refl)).
          rewrite splice_before_notin by (apply Hnb2; left; reflexivity). cbn [app]. f_equal.
          apply IHm; intros y Hy; [apply Hm2 | apply Hnb2]; right; exact Hy. }
      rewrite E. apply (graft_here P h nm a m1 (c :: m2)).
    + apply first_some_split in Hp as (m1 & c & m2 & -> & _ & Hc).
      destruct (NoDup_children_split _ _ _ _ _ _ Hnd) as (Hcn & _ & Hdisj).
      assert (Hft : In ft (ids c)).
      { rewrite ids_eq. right. eapply parent_in_below, Hc. }
      rewrite List.Forall_forall in IH.
      assert (Hcin : In c (m1 ++ c :: m2)) by (apply in_or_app; right; left; reflexivity).
      destruct (IH c Hcin cs Hcn Hc)
        as (l1 & c1 & l2 & -> & Hc1 & Hl1 & G).
      exists l1, c1, l2. split; [reflexivity |]. split; [exact Hc1 |]. split; [exact Hl1 |].
      assert (Hall : forall x, In x (m1 ++ c :: m2) -> has_id ft x = false).
      { intros x Hx. destruct (has_id ft x) eqn:E; [| reflexivity].
        assert (existsb (has_id ft) (m1 ++ c :: m2) = true) by (apply existsb_exists; eauto).
        congruence. }
      assert (Hsame : forall x, In x (m1 ++ m2) -> splice_before ft P x = x).
      { intros x Hx. apply splice_before_notin. intros Hi. apply (Hdisj ft Hft x Hx).
        rewrite ids_eq. right. exact Hi. }
      assert (E : flat_map (fun c0 => if has_id ft c0 then [P; splice_before ft P c0]
                                      else [splice_before ft P c0]) (m1 ++ c :: m2)
                  = m1 ++ splice_before ft P c :: m2).
      { rewrite flat_map_app. cbn [flat_map].
        rewrite (Hall c Hcin). cbn [app].
        assert (Hfm : forall l, (forall x, In x l -> has_id ft x = false) ->
                        (forall x, In x l -> splice_before ft P x = x) ->
                        flat_map (fun c0 => if has_id ft c0 then [P; splice_before ft P c0]
                                            else [splice_before ft P c0]) l = l).
        { induction l as [| x l IHl]; intros H1 H2; [reflexivity |]. cbn [flat_map].
          rewrite (H1 x (or_introl eq_refl)), (H2 x (or_introl eq_refl)). cbn [app]. f_equal.
          apply IHl; intros y Hy; [apply H1 | apply H2]; right; exact Hy. }
        rewrite !Hfm; [reflexivity | | | |].
        - intros x Hx. apply Hall. apply in_or_app. right. right. exact Hx.
        - intros x Hx. apply Hsame. apply in_or_app. right. exact Hx.
        - intros x Hx. apply Hall. apply in_or_app. left. exact Hx.
        - intros x Hx. apply Hsame. apply in_or_app. left. exact Hx. }
      rewrite E. apply graft_below. exact G.
Qed.

End Grafting.

(** ** The logo made anew (lines 336-343) *)

Lemma eqb_succ_r f : Nat.eqb f (S f) = false.
Proof. apply Nat.eqb_neq. lia. Qed.

Lemma eqb_succ_l f : Nat.eqb (S f) f = false.
Proof. apply Nat.eqb_neq. lia. Qed.

Lemma fresh_not_found s i :
  Forall (fun j => j < fresh s) (ids (root s)) -> fresh s <= i -> find_node i (root s) = None.
Proof.
  intros Hfr Hi. apply find_node_None. intros Hin. rewrite List.Forall_forall in Hfr.
  apply Hfr in Hin. lia.
Qed.

Lemma prune_fresh s i :
  Forall (fun j => j < fresh s) (ids (root s)) -> fresh s <= i -> prune i (root s) = root s.
Proof.
  intros Hfr Hi. apply prune_notin. intros Hin.
  pose proof (fresh_not_found s i Hfr Hi) as H. apply find_node_None in H. apply H.
  rewrite ids_eq. right. exact Hin.
Qed.

(** The new paragraph, with the new image in it, waiting to be placed. *)
Lemma make_logo_run s :
  limbo s = [] -> Forall (fun j => j < fresh s) (ids (root s)) ->
  (p <- Bs4.new_tag "p" ∅ ;;
   img <- Bs4.new_tag "img" (<["src" := logo_canonical_remote]> (<["alt" := "OASIS Logo"]> ∅)) ;;
   Bs4.append p img ;;
   ret p) s
  = (Done (fresh s), mkSoup (root s) [new_logo_p (fresh s)] (S (S (fresh s)))).
Proof.
  intros Hl Hfr. set (f := fresh s).
  unfold Bs4.new_tag, bind, get, put, ret. cbn [fst snd root limbo fresh]. rewrite Hl. cbn [app].
  fold f. unfold Bs4.append. rewrite eqb_succ_l.
  unfold bind, Bs4.take, bind, get, Bs4.lookup. cbn [root limbo fresh].
  rewrite (fresh_not_found s (S f) Hfr) by (unfold f; lia).
  cbn [first_some]. rewrite !find_node_eq. unfold has_id. cbn [node_id contents_of first_some].
  rewrite eqb_succ_r, Nat.eqb_refl.
  unfold put, ret, Bs4.detach. cbn [root limbo fresh flat_map app].
  unfold has_id. cbn [node_id]. rewrite eqb_succ_r, Nat.eqb_refl. cbn [app prune flat_map].
  rewrite (prune_fresh s (S f) Hfr) by (unfold f; lia).
  unfold Bs4.still_there, bind, get, Bs4.lookup. cbn [root limbo].
  rewrite (fresh_not_found s f Hfr) by (unfold f; lia).
  cbn [first_some]. rewrite find_node_self. unfold ret, modify, Bs4.on_all.
  cbn [root limbo fresh map recontent]. rewrite Nat.eqb_refl. cbn [map app].
  rewrite recontent_notin; [reflexivity |].
  apply find_node_None. apply (fresh_not_found s f Hfr). unfold f. lia.
Qed.

Lemma first_tag_child_no_limbo body s :
  limbo s = [] -> Bs4.first_tag_child body s = first_tag_in body (root s).
Proof.
  intros Hl. unfold Bs4.first_tag_child, Bs4.find_all_children, Bs4.contents, first_tag_in.
  rewrite (lookup_no_limbo _ _ Hl). destruct (find_node body (root s)); reflexivity.
Qed.

Lemma first_tag_in_parent body r ft :
  NoDup (ids r) -> first_tag_in body r = Some ft ->
  exists nm a cs, find_node body r = Some (Tag body nm a cs)
    /\ parent_in ft r = Some (Tag body nm a cs)
    /\ head (map node_id (List.filter _is_tag cs)) = Some ft.
Proof.
  intros Hnd. unfold first_tag_in. destruct (find_node body r) as [b |] eqn:Eb; [| discriminate].
  intros Hft. pose proof (find_node_id _ _ _ Eb) as Hid.
  destruct b as [k t | k nm a cs]; [discriminate |]. cbn [node_id] in Hid. subst k.
  exists nm, a, cs. split; [reflexivity |]. split; [| exact Hft].
  apply parent_in_unique; [exact Hnd | exact Eb |]. cbn [contents_of] in *.
  destruct (List.filter _is_tag cs) as [| c l] eqn:Ef; [discriminate |].
  injection Hft as <-. apply in_map. apply (filter_In _is_tag c cs). rewrite Ef. left. reflexivity.
Qed.

Lemma put_first_run body s f :
  NoDup (ids (root s)) -> limbo s = [new_logo_p f] ->
  Forall (fun j => j < f) (ids (root s)) -> body < f ->
  put_first body f s
  = match first_tag_in body (root s) with
    | Some ft => (Done tt, mkSoup (splice_before ft (new_logo_p f) (root s)) [] (fresh s))
    | None =>
        match find_node body (root s) with
        | Some _ => (Done tt, mkSoup (recontent (cons (new_logo_p f)) body (root s)) [] (fresh s))
        | None => (Raised Unrepresentable, mkSoup (root s) [] (fresh s))
        end
    end.
Proof.
  intros Hnd Hl Hfr Hb.
  assert (Hnew : forall i, f <= i -> find_node i (root s) = None).
  { intros i Hi. apply find_node_None. intros Hin. rewrite List.Forall_forall in Hfr.
    apply Hfr in Hin. lia. }
  assert (Hpr : prune f (root s) = root s).
  { apply prune_notin. intros Hin. specialize (Hnew f (le_n _)). apply find_node_None in Hnew.
    apply Hnew. rewrite ids_eq. right. exact Hin. }
  assert (HbP : find_node body (new_logo_p f) = None).
  { apply find_node_None. cbn. intros [E | [E | []]]; lia. }
  assert (Hft : Bs4.first_tag_child body s = first_tag_in body (root s)).
  { unfold Bs4.first_tag_child, Bs4.find_all_children, Bs4.contents, first_tag_in, Bs4.lookup.
    rewrite Hl. cbn [first_some]. rewrite HbP. destruct (find_node body (root s)); reflexivity. }
  assert (Htake : Bs4.take f s = (Done (new_logo_p f), mkSoup (root s) [] (fresh s))).
  { unfold Bs4.take, bind, get, Bs4.lookup. rewrite (Hnew f (le_n _)), Hl. cbn [first_some].
    unfold new_logo_p at 1. rewrite find_node_self. unfold put, ret, Bs4.detach.
    rewrite Hl, Hpr. cbn [flat_map]. unfold has_id, new_logo_p at 1. cbn [node_id].
    rewrite Nat.eqb_refl. reflexivity. }
  unfold put_first, bind at 1, get at 1. cbv beta iota. rewrite Hft.
  destruct (first_tag_in body (root s)) as [ft |] eqn:Eft.
  - destruct (first_tag_in_parent _ _ _ Hnd Eft) as (nm & a & cs & Hfb & Hp & Hhead).
    assert (Hfin : In ft (ids (root s))).
    { rewrite ids_eq. right. eapply parent_in_below, Hp. }
    unfold Bs4.insert_before, bind at 1, get at 1. cbv beta iota.
    unfold Bs4.parent_node. rewrite Hp.
    replace (Nat.eqb f ft) with false.
    2:{ symmetry. apply Nat.eqb_neq. intros <-. specialize (Hnew f (le_n _)).
        apply find_node_None in Hnew. tauto. }
    unfold bind at 1. rewrite Htake. unfold bind at 1.
    unfold Bs4.still_there, bind, get, Bs4.lookup. cbn [root limbo].
    destruct (find_node ft (root s)) eqn:E; [| apply find_node_None in E; tauto].
    reflexivity.
  - unfold Bs4.insert_first. replace (Nat.eqb f body) with false by (symmetry; apply Nat.eqb_neq; lia).
    unfold bind at 1. rewrite Htake. unfold bind at 1.
    unfold Bs4.still_there, bind, get, Bs4.lookup. cbn [root limbo first_some].
    destruct (find_node body (root s)); reflexivity.
Qed.

(** ** The new paragraph stays first *)

Lemma imgs_void_all s : imgs_void s = true <-> all_void (root s).
Proof. unfold imgs_void, all_void. rewrite forallb_forall. reflexivity. Qed.

Lemma new_logo_attrs_ok :
  logo_attrs_ok (<["src" := logo_canonical_remote]> (<["alt" := "OASIS Logo"]> ∅)) = true.
Proof. vm_compute. reflexivity. Qed.

Lemma logo_first_parent f body r :
  NoDup (ids r) -> logo_first f body r ->
  exists nm a cs, parent_in f r = Some (Tag body nm a cs)
    /\ find_node body r = Some (Tag body nm a cs)
    /\ head (map node_id (List.filter _is_tag cs)) = Some f.
Proof.
  intros Hnd (Hf & nm & a & cs & Hb & Hhead & Hin). exists nm, a, cs.
  split; [| split; assumption]. apply parent_in_unique; [exact Hnd | exact Hb |].
  cbn [contents_of]. apply (in_map node_id _ _ Hin).
Qed.

Lemma logo_first_canonical f body s :
  NoDup (ids (root s)) -> limbo s = [] -> logo_first f body (root s) ->
  canonical (S f) body s = true.
Proof.
  intros Hnd Hl HJ. destruct (logo_first_parent f body _ Hnd HJ) as (nm & a & cs & Hp & Hb & Hhead).
  destruct HJ as (Hf & _).
  apply (canonical_spec _ _ _ Hl).
  exists (<["src" := logo_canonical_remote]> (<["alt" := "OASIS Logo"]> ∅)), (new_logo_p f),
    (Tag body nm a cs).
  assert (Himg : find_node (S f) (root s) = Some (new_logo_img f)).
  { apply (found_below f (root s) (new_logo_p f) (new_logo_img f) Hnd Hf). left. reflexivity. }
  unfold canonical_at. split; [unfold tag_at; rewrite Himg; reflexivity |].
  split; [apply new_logo_attrs_ok |].
  split; [apply parent_in_unique; [exact Hnd | exact Hf | left; reflexivity] |].
  split; [reflexivity |]. cbn [node_id new_logo_p]. rewrite Hp. auto.
Qed.

Lemma logo_first_good f body s :
  NoDup (ids (root s)) -> limbo s = [] -> logo_first f body (root s) ->
  first_good body s = Some f.
Proof.
  intros Hnd Hl HJ. pose proof (logo_first_canonical f body s Hnd Hl HJ) as Hc.
  destruct HJ as (Hf & nm & a & cs & Hb & Hhead & _).
  unfold first_good. rewrite (first_tag_child_no_limbo _ _ Hl). unfold first_tag_in.
  rewrite Hb. cbn [contents_of]. rewrite Hhead.
  unfold Bs4.name_of, Bs4.find_child, Bs4.find_all_children, Bs4.contents.
  rewrite (lookup_no_limbo _ _ Hl), Hf.
  rewrite bool_decide_eq_true_2 by reflexivity.
  change (head (map node_id (List.filter (named "img") (contents_of (new_logo_p f)))))
    with (Some (S f)).
  cbv beta iota. rewrite Hc. reflexivity.
Qed.

Lemma descendants_prune t r d' :
  In d' (descendants (prune t r)) -> exists d, In d (descendants r) /\ d' = prune t d.
Proof.
  induction r as [k s | k nm a cs IH] using node_ind'; [intros [] |].
  cbn [prune descendants]. intros H. apply in_flat_map in H as (c' & Hc' & Hd').
  apply in_flat_map in Hc' as (c & Hc & Hc').
  destruct (has_id t c); [destruct Hc' |]. destruct Hc' as [<- | []].
  rewrite List.Forall_forall in IH. destruct Hd' as [<- | Hd'].
  - exists c. split; [| reflexivity]. apply in_flat_map. exists c. split; [exact Hc | left; reflexivity].
  - destruct (IH c Hc Hd') as (d & Hd & ->). exists d. split; [| reflexivity].
    apply in_flat_map. exists c. split; [exact Hc | right; exact Hd].
Qed.

Lemma all_void_prune t r : all_void r -> all_void (prune t r).
Proof.
  intros H d' Hd'. apply descendants_prune in Hd' as (d & Hd & ->). specialize (H d Hd).
  unfold void_img in *. rewrite named_prune, contents_prune.
  destruct (negb (named "img" d)); [reflexivity |]. cbn [orb] in *.
  destruct (contents_of d); [reflexivity | discriminate].
Qed.

Lemma void_img_ids d : void_img d = true -> named "img" d = true -> ids d = [node_id d].
Proof.
  unfold void_img. intros H Hn. rewrite Hn in H. cbn [negb orb] in H. rewrite ids_eq.
  destruct (contents_of d); [reflexivity | discriminate].
Qed.

(** The removal of a candidate that is not canonical leaves the new
    paragraph where it is. *)
Lemma logo_first_removal f body s x a cs :
  NoDup (ids (root s)) -> limbo s = [] -> all_void (root s) ->
  logo_first f body (root s) ->
  find_node x (root s) = Some (Tag x "img" a cs) ->
  canonical x body s = false ->
  logo_first f body (root (Bs4.detach (removal_target x s) s)).
Proof.
  intros Hnd Hl Hvoid HJ Hx Hnc.
  pose proof (logo_first_canonical f body s Hnd Hl HJ) as Hcan.
  destruct (logo_first_parent f body _ Hnd HJ) as (nm & ab & csb & Hp & Hb & Hhead).
  destruct HJ as (Hf & nm' & ab' & csb' & Hb' & _ & HPin).
  rewrite Hb in Hb'. injection Hb' as <- <- <-.
  assert (Himg : find_node (S f) (root s) = Some (new_logo_img f)).
  { apply (found_below f (root s) (new_logo_p f) (new_logo_img f) Hnd Hf). left. reflexivity. }
  assert (Hxf : x <> S f) by (intros ->; congruence).
  assert (Hxf' : x <> f) by (intros ->; rewrite Hf in Hx; discriminate).
  set (t := removal_target x s).
  (* the node removed is neither the paragraph nor the image, and does not hold them *)
  assert (Ht : t <> f /\ t <> S f
               /\ forall y, In y (descendants (root s)) -> has_id t y = true ->
                            find_node f y = None).
  { unfold t, removal_target. rewrite (parent_node_no_limbo _ _ Hl).
    assert (Hxcase : x <> f /\ x <> S f
                     /\ forall y, In y (descendants (root s)) -> has_id x y = true ->
                                  find_node f y = None).
    { split; [exact Hxf' |]. split; [exact Hxf |]. intros y Hy Hid. apply has_id_true in Hid.
      assert (y = Tag x "img" a cs).
      { apply (same_node (root s)); [exact Hnd | right; exact Hy | eapply find_node_In, Hx |].
        exact Hid. }
      subst y. apply find_node_None. rewrite (void_img_ids _ (Hvoid _ Hy) eq_refl).
      cbn. intros [E | []]. congruence. }
    destruct (parent_in x (root s)) as [p |] eqn:Epx; [| exact Hxcase].
    destruct (named "p" p && only_imgs_and_blanks (contents_of p)) eqn:Eb; [| exact Hxcase].
    apply andb_true_iff in Eb as [Hnp Honly].
    apply parent_in_spec in Epx as [Hpin Hxin].
    assert (Hpf : node_id p <> f).
    { intros E. assert (p = new_logo_p f).
      { apply (same_node (root s)); [exact Hnd | exact Hpin | eapply find_node_In, Hf | exact E]. }
      subst p. cbn in Hxin. destruct Hxin as [E' | []]. congruence. }
    assert (Hpi : node_id p <> S f).
    { intros E. assert (p = new_logo_img f).
      { apply (same_node (root s)); [exact Hnd | exact Hpin | eapply find_node_In, Himg | exact E]. }
      subst p. discriminate. }
    split; [exact Hpf |]. split; [exact Hpi |]. intros y Hy Hid. apply has_id_true in Hid.
    assert (y = p).
    { apply (same_node (root s)); [exact Hnd | right; exact Hy | exact Hpin | exact Hid]. }
    subst y. apply find_node_None. rewrite ids_eq. intros [E | Hin]; [congruence |].
    apply in_flat_map in Hin as (c & Hc & Hfc).
    unfold only_imgs_and_blanks in Honly. rewrite forallb_forall in Honly. specialize (Honly c Hc).
    assert (Hcd : In c (descendants (root s))).
    { eapply descendants_trans; [exact Hy | apply descendants_In_child, Hc]. }
    assert (Hcid : node_id c = f).
    { destruct c as [k u | k nmc ac csc].
      - cbn in Hfc. destruct Hfc as [E | []]. exact E.
      - apply String.eqb_eq in Honly. subst nmc.
        rewrite (void_img_ids _ (Hvoid _ Hcd) eq_refl) in Hfc. destruct Hfc as [E | []]. exact E. }
    assert (c = new_logo_p f).
    { apply (same_node (root s)); [exact Hnd | right; exact Hcd | eapply find_node_In, Hf |].
      exact Hcid. }
    subst c. cbn in Honly. discriminate. }
  destruct Ht as (Htf & Hti & Hunder). unfold Bs4.detach. cbn [root].
  assert (Hf' : find_node f (prune t (root s)) = Some (new_logo_p f)).
  { rewrite find_node_prune by (apply List.Forall_forall; exact Hunder). rewrite Hf.
    cbn [fmap option_fmap option_map]. f_equal. apply prune_notin. cbn. intros [E | []]. congruence. }
  assert (Halive : find_node f (prune t (root s)) <> None) by (rewrite Hf'; discriminate).
  destruct (parent_in_alive t f (root s) _ Hnd Hp Halive) as [_ Hb'].
  cbn [node_id prune] in Hb'. fold (prune_list t csb) in Hb'.
  split; [exact Hf' |]. exists nm, ab, (prune_list t csb). split; [exact Hb' |]. split.
  - apply first_tag_prune_list; [exact Hhead |]. intros c _ Hc. apply has_id_false. congruence.
  - unfold prune_list. apply in_flat_map. exists (new_logo_p f). split; [exact HPin |].
    replace (has_id t (new_logo_p f)) with false
      by (symmetry; apply has_id_false; cbn; congruence).
    left. apply prune_notin. cbn. intros [E | []]. congruence.
Qed.

Lemma logo_first_swept f body s s' :
  swept body s s' -> NoDup (ids (root s)) -> limbo s = [] -> all_void (root s) ->
  logo_first f body (root s) ->
  logo_first f body (root s') /\ all_void (root s').
Proof.
  induction 1 as [s | s x a cs s' Hx _ Hnc _ IH]; intros Hnd Hl Hvoid HJ; [split; assumption |].
  destruct (detach_keeps s (removal_target x s) Hnd Hl) as [Hnd1 Hl1].
  apply (IH Hnd1 Hl1).
  - unfold Bs4.detach. cbn [root]. apply all_void_prune, Hvoid.
  - eapply logo_first_removal; eassumption.
Qed.

(** ** Placing the logo (lines 317-343) *)

(** With no good image at hand the pass makes one, in a paragraph that
    it puts before the first tag of the body, or in front of what the
    body holds. *)
Lemma place_logo_made body s :
  NoDup (ids (root s)) -> limbo s = [] ->
  Forall (fun j => j < fresh s) (ids (root s)) -> body < fresh s ->
  existing_good_img s = None ->
  place_logo body s s
  = match first_tag_in body (root s) with
    | Some ft =>
        (Done tt, mkSoup (splice_before ft (new_logo_p (fresh s)) (root s)) [] (S (S (fresh s))))
    | None =>
        match find_node body (root s) with
        | Some _ =>
            (Done tt,
             mkSoup (recontent (cons (new_logo_p (fresh s))) body (root s)) [] (S (S (fresh s))))
        | None => (Raised Unrepresentable, mkSoup (root s) [] (S (S (fresh s))))
        end
    end.
Proof.
  intros Hnd Hl Hfr Hb Hnone. unfold place_logo. rewrite Hnone.
  transitivity
    (bind (p <- Bs4.new_tag "p" ∅ ;;
           img <- Bs4.new_tag "img"
                    (<["src" := logo_canonical_remote]> (<["alt" := "OASIS Logo"]> ∅)) ;;
           Bs4.append p img ;;
           ret p)
          (fun p => put_first body p) s).
  { unfold bind. destruct (Bs4.new_tag "p" ∅ s) as [[p | e] s1]; [| reflexivity].
    destruct (Bs4.new_tag "img" _ s1) as [[i | e] s2]; [| reflexivity].
    destruct (Bs4.append p i s2) as [[[] | e] s3]; reflexivity. }
  unfold bind at 1. rewrite (make_logo_run s Hl Hfr).
  rewrite (put_first_run body _ (fresh s)); [reflexivity | exact Hnd | reflexivity | exact Hfr | exact Hb].
Qed.

Lemma filter_tag_before ft l1 c l2 :
  head (map node_id (List.filter _is_tag (l1 ++ c :: l2))) = Some ft ->
  (forall x, In x l1 -> node_id x <> ft) -> List.filter _is_tag l1 = [].
Proof.
  intros Hh Hl1. rewrite List.filter_app in Hh.
  destruct (List.filter _is_tag l1) as [| t l] eqn:E; [reflexivity | exfalso].
  cbn in Hh. injection Hh as Hh. apply (Hl1 t); [| exact Hh].
  apply (filter_In _is_tag t l1). rewrite E. left. reflexivity.
Qed.

(** What the making of the logo does to the document. *)
Lemma place_logo_grafts body s :
  NoDup (ids (root s)) -> limbo s = [] ->
  Forall (fun j => j < fresh s) (ids (root s)) -> body < fresh s ->
  (forall b, find_node body (root s) = Some b -> _is_tag b = true) ->
  existing_good_img s = None ->
  fst (place_logo body s s) = Done tt ->
  limbo (snd (place_logo body s s)) = []
  /\ exists nm a l1 l2,
       grafted (new_logo_p (fresh s)) body nm a l1 l2 (root s) (root (snd (place_logo body s s)))
       /\ List.filter _is_tag l1 = [].
Proof.
  intros Hnd Hl Hfr Hb Htag Hnone. rewrite (place_logo_made body s Hnd Hl Hfr Hb Hnone).
  destruct (first_tag_in body (root s)) as [ft |] eqn:Eft.
  - intros _. cbn [snd limbo root]. split; [reflexivity |].
    destruct (first_tag_in_parent _ _ _ Hnd Eft) as (nm & a & cs & Hfb & Hp & Hhead).
    destruct (graft_splice (new_logo_p (fresh s)) body nm a ft (root s) cs Hnd Hp)
      as (l1 & c & l2 & -> & Hc & Hl1 & G).
    exists nm, a, l1, (c :: l2). split; [exact G |]. eapply filter_tag_before; eassumption.
  - destruct (find_node body (root s)) as [b |] eqn:Eb; [| discriminate].
    intros _. cbn [snd limbo root]. split; [reflexivity |].
    specialize (Htag b eq_refl). pose proof (find_node_id _ _ _ Eb) as Hid.
    destruct b as [k t | k nm a cs]; [discriminate |]. cbn [node_id] in Hid. subst k.
    exists nm, a, [], cs. split; [| reflexivity].
    apply graft_recontent; assumption.
Qed.

(** With a good image at hand, and every candidate canonical, the pass
    asks the first paragraph to be inserted before itself. *)
Lemma place_logo_existing body s good :
  NoDup (ids (root s)) -> limbo s = [] -> candidates_canonical body s ->
  existing_good_img s = Some good ->
  place_logo body s s = (Raised ValueError, s).
Proof.
  intros Hnd Hl Hcc Hgood. unfold place_logo. rewrite Hgood.
  unfold existing_good_img, Bs4.find in Hgood.
  assert (Hin : In good (Bs4.find_all
                           (fun d => named "img" d
                                     && _looks_like_logo_src (or_empty (attrs_of d !! "src"))
                                     && String.eqb (or_empty (attrs_of d !! "alt")) "OASIS Logo")
                           (node_id (root s)) s)).
  { destruct (Bs4.find_all _ _ _) as [| x l]; [discriminate |]. injection Hgood as ->. left.
    reflexivity. }
  apply In_find_all in Hin as (d & Hd & Hw & Hid); [| exact Hnd].
  apply andb_true_iff in Hw as [Hw Halt]. apply andb_true_iff in Hw as [Hn Hsrc].
  apply named_eq in Hn as (i & a & cs & ->). cbn [node_id attrs_of] in *. subst i.
  apply String.eqb_eq in Halt.
  assert (Hcan : canonical good body s = true).
  { apply (Hcc good "img" a).
    - apply In_find_all; [exact Hnd |]. exists (Tag good "img" a cs). auto.
    - eapply tag_at_descendant; eassumption.
    - unfold candidate_attrs, is_logo_candidate. rewrite Halt. apply orb_true_r. }
  apply (canonical_spec _ _ _ Hl) in Hcan as (a' & p & b & _ & _ & Hp & Hnp & Hpp & Hb & Hfirst).
  rewrite (parent_node_no_limbo _ _ Hl), Hp, Hnp. unfold bind at 1, ret at 1.
  unfold put_first, bind, get. rewrite (first_tag_child_no_limbo _ _ Hl). unfold first_tag_in.
  rewrite Hb, Hfirst. unfold Bs4.insert_before, bind, get.
  rewrite (parent_node_no_limbo _ _ Hl).
  destruct (parent_in (node_id p) (root s)); [| discriminate].
  rewrite Nat.eqb_refl. reflexivity.
Qed.

(** ** The logo pass run on its own result *)

Lemma logo_settled_fixed s :
  NoDup (ids (root s)) -> limbo s = [] -> logo_settled s ->
  _enforce_single_oasis_logo s = (Done tt, s).
Proof.
  intros Hnd Hl [Hcc Hg]. rewrite logo_run, (sweep_fixed _ _ Hnd Hl Hcc).
  destruct (first_good (body_or_soup s) s); [| congruence].
  apply (sweep_fixed _ _ Hnd Hl Hcc).
Qed.

Lemma all_void_pruned s s' : pruned s s' -> all_void (root s) -> all_void (root s').
Proof.
  induction 1 as [s | s i s' _ IH]; intros H; [exact H |]. apply IH. unfold Bs4.detach.
  cbn [root]. apply all_void_prune, H.
Qed.

Lemma document_root r :
  named "[document]" r = true -> named "p" r = false /\ named "img" r = false /\ _is_tag r = true.
Proof.
  destruct r as [k t | k nm a cs]; [discriminate |]. cbn [named]. intros H.
  apply String.eqb_eq in H. subst nm. auto.
Qed.

(** The body is in the document, as a tag named [body] or as the
    document itself. *)
Lemma body_or_soup_node s :
  NoDup (ids (root s)) -> named "[document]" (root s) = true ->
  exists nm a, tag_at (body_or_soup s) (root s) = Some (nm, a)
               /\ (nm = "body" \/ nm = "[document]").
Proof.
  intros Hnd Hdoc. unfold body_or_soup. rewrite find_in_document. unfold first_id.
  destruct (first_match (named "body") (root s)) as [y |] eqn:Ey; cbn.
  - apply first_match_In in Ey as [Hy Hn]. apply named_eq in Hn as (i & a & cs & ->).
    exists "body", a. split; [| left; reflexivity]. cbn [node_id].
    eapply tag_at_descendant; eassumption.
  - unfold tag_at. rewrite find_root. destruct (root s) as [k t | k nm a cs]; [discriminate |].
    exists nm, a. split; [reflexivity |]. right. cbn [named] in Hdoc.
    apply String.eqb_eq in Hdoc. exact Hdoc.
Qed.

Lemma tag_at_ids j r x : tag_at j r = Some x -> In j (ids r).
Proof.
  unfold tag_at. destruct (find_node j r) eqn:E; [| discriminate]. intros _.
  eapply find_node_below, E.
Qed.

Lemma first_good_alive body s :
  limbo s = [] -> first_good body s <> None -> find_node body (root s) <> None.
Proof.
  intros Hl Hg Hn. apply Hg. unfold first_good. rewrite (first_tag_child_no_limbo _ _ Hl).
  unfold first_tag_in. rewrite Hn. reflexivity.
Qed.

(** After a run that ends normally the document is settled. *)
Lemma logo_first_run s0 :
  NoDup (ids (root s0)) -> limbo s0 = [] -> named "[document]" (root s0) = true ->
  Forall (fun j => j < fresh s0) (ids (root s0)) -> imgs_void s0 = true ->
  fst (_enforce_single_oasis_logo s0) = Done tt ->
  NoDup (ids (root (snd (_enforce_single_oasis_logo s0))))
  /\ limbo (snd (_enforce_single_oasis_logo s0)) = []
  /\ logo_settled (snd (_enforce_single_oasis_logo s0)).
Proof.
  intros Hnd Hl Hdoc Hfr Hvoid. rewrite logo_run. set (body := body_or_soup s0).
  destruct (document_root _ Hdoc) as (Hrp & Hri & _).
  apply imgs_void_all in Hvoid.
  destruct (body_or_soup_node s0 Hnd Hdoc) as (bnm & ba & Hbat & Hbnm). fold body in Hbat.
  assert (Hblt : body < fresh s0).
  { rewrite List.Forall_forall in Hfr. apply Hfr. eapply tag_at_ids, Hbat. }
  pose proof (sweep_result body s0 Hnd Hl Hrp) as HA.
  destruct (sweep_logo_candidates body s0) as [[[] | e] sa]; [| discriminate].
  cbn [fst snd] in HA. destruct (HA eq_refl) as [Hwa Hcca]. clear HA.
  pose proof (swept_pruned _ _ _ Hwa) as Hpa.
  destruct (pruned_spec _ _ Hpa Hnd Hl) as (Hnda & Hla & Hfa & Hida & Hincla & _).
  pose proof (all_void_pruned _ _ Hpa Hvoid) as Hvoida.
  assert (Hbody_a : find_node body (root sa) <> None -> body_or_soup sa = body).
  { intros Ha. apply (body_pruned _ _ Hpa Hnd Hl Ha). }
  destruct (first_good body sa) as [g |] eqn:Eg.
  - (* the first paragraph is good already *)
    rewrite (sweep_fixed _ _ Hnda Hla Hcca). intros _. cbn [snd].
    split; [exact Hnda |]. split; [exact Hla |].
    assert (Eb : body_or_soup sa = body).
    { apply Hbody_a, (first_good_alive _ _ Hla). rewrite Eg. discriminate. }
    unfold logo_settled. rewrite Eb. split; [exact Hcca | rewrite Eg; discriminate].
  - destruct (existing_good_img sa) as [good |] eqn:Ee.
    + rewrite (place_logo_existing body sa good Hnda Hla Hcca Ee). discriminate.
    + (* a new logo is made *)
      assert (Hfra : Forall (fun j => j < fresh sa) (ids (root sa))).
      { rewrite Hfa. apply List.Forall_forall. intros j Hj. rewrite List.Forall_forall in Hfr.
        apply Hfr, Hincla, Hj. }
      assert (Hbat_a : find_node body (root sa) <> None ->
                       tag_at body (root sa) = Some (bnm, ba)).
      { intros Ha. rewrite (tag_at_pruned _ _ _ Hpa Hnd Hl Ha). exact Hbat. }
      assert (Htag : forall b, find_node body (root sa) = Some b -> _is_tag b = true).
      { intros b Hb. assert (Ha : find_node body (root sa) <> None) by (rewrite Hb; discriminate).
        specialize (Hbat_a Ha). unfold tag_at in Hbat_a. rewrite Hb in Hbat_a.
        destruct b; [discriminate | reflexivity]. }
      pose proof (place_logo_grafts body sa Hnda Hla Hfra ltac:(rewrite Hfa; exact Hblt) Htag Ee)
        as HB.
      destruct (place_logo body sa sa) as [[[] | e] sb]; [| discriminate].
      cbn [fst snd] in HB. destruct (HB eq_refl) as (Hlb & nm & a & l1 & l2 & G & Hl1). clear HB.
      set (f := fresh sa) in *.
      assert (Hfnew : forall i, f <= i -> ~ In i (ids (root sa))).
      { intros i Hi Hin. rewrite List.Forall_forall in Hfra. apply Hfra in Hin. lia. }
      destruct (grafted_find_host _ _ _ _ _ _ _ _ G Hnda) as [Hhost Hhost'].
      assert (Hnm : named "img" (Tag body nm a []) = false).
      { assert (Ha : find_node body (root sa) <> None) by (rewrite Hhost; discriminate).
        specialize (Hbat_a Ha). unfold tag_at in Hbat_a. rewrite Hhost in Hbat_a.
        injection Hbat_a as -> _. destruct Hbnm as [-> | ->]; reflexivity. }
      assert (Hndb : NoDup (ids (root sb))).
      { apply (grafted_NoDup _ _ _ _ _ _ _ _ G Hnda).
        - cbn. repeat constructor; [| apply not_elem_of_nil].
          intros Hin. apply list_elem_of_In in Hin. destruct Hin as [E | []]. lia.
        - cbn. intros x [<- | [<- | []]]; apply Hfnew; lia. }
      assert (HJb : logo_first f body (root sb)).
      { split.
        - apply (grafted_find_new _ _ _ _ _ _ f _ _ _ G); [apply Hfnew; lia | apply find_node_self].
        - exists nm, a, (l1 ++ new_logo_p f :: l2). split; [exact Hhost' |]. split.
          + rewrite List.filter_app, Hl1. reflexivity.
          + apply in_or_app. right. left. reflexivity. }
      assert (Hvoidb : all_void (root sb)).
      { intros d Hd. apply (grafted_void_self _ _ _ _ _ _ _ _ G Hnm); [| | right; exact Hd].
        - intros x [<- | [<- | []]]; reflexivity.
        - intros x [<- | Hx]; [| apply Hvoida, Hx]. unfold void_img.
          rewrite (named_root_pruned _ _ "img" Hpa), Hri. reflexivity. }
      assert (Hrpb : named "p" (root sb) = false).
      { rewrite (grafted_named _ _ _ _ _ _ "p" _ _ G), (named_root_pruned _ _ "p" Hpa). exact Hrp. }
      assert (Ebb : body_or_soup sb = body).
      { rewrite <- Hbody_a by (rewrite Hhost; discriminate).
        unfold body_or_soup. rewrite !find_in_document.
        rewrite (grafted_first _ _ _ _ _ _ "body" _ _ G), (grafted_id _ _ _ _ _ _ _ _ G);
          reflexivity. }
      pose proof (sweep_result body sb Hndb Hlb Hrpb) as HC.
      destruct (sweep_logo_candidates body sb) as [[[] | e] sc]; [| discriminate].
      cbn [fst snd] in HC |- *. intros _. destruct (HC eq_refl) as [Hwc Hccc]. clear HC.
      pose proof (swept_pruned _ _ _ Hwc) as Hpc.
      destruct (pruned_spec _ _ Hpc Hndb Hlb) as (Hndc & Hlc & _).
      destruct (logo_first_swept f body sb sc Hwc Hndb Hlb Hvoidb HJb) as [HJc _].
      split; [exact Hndc |]. split; [exact Hlc |].
      assert (Ebc : body_or_soup sc = body).
      { rewrite <- Ebb. apply (body_pruned _ _ Hpc Hndb Hlb). rewrite Ebb.
        destruct HJc as (_ & nm' & a' & cs' & Hb' & _). rewrite Hb'. discriminate. }
      unfold logo_settled. rewrite Ebc. split; [exact Hccc |].
      rewrite (logo_first_good f body sc Hndc Hlc HJc). discriminate.
Qed.

(** X2. The logo pass is idempotent: run again on the document that a
    run that ended normally left, it ends normally and changes
    nothing. *)
Theorem logo_twice s :
  NoDup (ids (root s)) -> limbo s = [] -> named "[document]" (root s) = true ->
  Forall (fun j => j < fresh s) (ids (root s)) -> imgs_void s = true ->
  fst (_enforce_single_oasis_logo s) = Done tt ->
  _enforce_single_oasis_logo (snd (_enforce_single_oasis_logo s))
  = (Done tt, snd (_enforce_single_oasis_logo s)).
Proof.
  intros Hnd Hl Hdoc Hfr Hvoid Hdone.
  destruct (logo_first_run s Hnd Hl Hdoc Hfr Hvoid Hdone) as (Hnd1 & Hl1 & Hset).
  apply logo_settled_fixed; assumption.
Qed.

(** ** The second runs on the sample documents *)

Lemma normalize_twice_witness :
  _normalize_same_doc_anchors_for_web Urllib.urlparse "doc.html"
    (snd (_normalize_same_doc_anchors_for_web Urllib.urlparse "doc.html" doc_links))
  = (Done tt, snd (_normalize_same_doc_anchors_for_web Urllib.urlparse "doc.html" doc_links)).
Proof.
  apply (normalize_twice Urllib.urlparse "doc.html" doc_links).
  - distinct_ids.
  - reflexivity.
  - vm_compute. reflexivity.
Defined.

Lemma logo_twice_witness :
  _enforce_single_oasis_logo (snd (_enforce_single_oasis_logo doc_gallery))
  = (Done tt, snd (_enforce_single_oasis_logo doc_gallery)).
Proof.
  apply (logo_twice doc_gallery).
  - distinct_ids.
  - reflexivity.
  - reflexivity.
  - fresh_bound.
  - vm_compute. reflexivity.
  - vm_compute. reflexivity.
Defined.

(** ** What a run of the logo pass leaves *)

(** X3. After a run of the logo pass that ends normally, the first
    element of the body is a paragraph, the image the pass looks at in
    it (its first image child, else its first image) passes the
    canonical test, and so does every image of the document that is a
    logo candidate: no candidate in another place is left. *)
Theorem logo_in_place s :
  NoDup (ids (root s)) -> limbo s = [] -> named "[document]" (root s) = true ->
  Forall (fun j => j < fresh s) (ids (root s)) -> imgs_void s = true ->
  fst (_enforce_single_oasis_logo s) = Done tt ->
  let s' := snd (_enforce_single_oasis_logo s) in
  let body := body_or_soup s' in
  (exists p img,
      Bs4.first_tag_child body s' = Some p
      /\ Bs4.name_of p s' = Some "p"
      /\ (match Bs4.find_child (named "img") p s' with
          | Some i => Some i
          | None => Bs4.find (named "img") p s'
          end) = Some img
      /\ _is_canonical_logo_img img body s' = (Done true, s'))
  /\ (forall img nm a,
        In img (Bs4.find_all (named "img") (node_id (root s')) s') ->
        tag_at img (root s') = Some (nm, a) ->
        is_logo_candidate (or_empty (a !! "src")) (or_empty (a !! "alt")) = true ->
        _is_canonical_logo_img img body s' = (Done true, s')).
Proof.
  intros Hnd Hl Hdoc Hfr Hvoid Hdone s' body.
  destruct (logo_first_run s Hnd Hl Hdoc Hfr Hvoid Hdone) as (_ & _ & Hcc & Hfg).
  fold s' in Hcc, Hfg. fold body in Hcc, Hfg. split.
  - unfold first_good in Hfg.
    destruct (Bs4.first_tag_child body s') as [p |] eqn:Hf; [| congruence].
    destruct (bool_decide (Bs4.name_of p s' = Some "p")) eqn:Hp; [| congruence].
    apply bool_decide_eq_true_1 in Hp.
    destruct (match Bs4.find_child (named "img") p s' with
              | Some i => Some i
              | None => Bs4.find (named "img") p s'
              end) as [img |] eqn:Hi; [| congruence].
    destruct (canonical img body s') eqn:Hc; [| congruence].
    exists p, img. rewrite canonical_run, Hc. repeat split; auto.
  - intros img nm a Hi Hat Hc. rewrite canonical_run.
    rewrite (Hcc img nm a Hi Hat Hc). reflexivity.
Qed.

Lemma logo_in_place_witness :
  let s' := snd (_enforce_single_oasis_logo doc_gallery) in
  Bs4.first_tag_child (body_or_soup s') s' = Some 3
  /\ _is_canonical_logo_img 4 (body_or_soup s') s' = (Done true, s').
Proof.
  destruct (logo_in_place doc_gallery) as [(p & img & Hp & _ & Hi & Hc) _].
  - distinct_ids.
  - reflexivity.
  - reflexivity.
  - fresh_bound.
  - vm_compute. reflexivity.
  - vm_compute. reflexivity.
  - vm_compute in Hp. injection Hp as <-. vm_compute in Hi. injection Hi as <-.
    split; [vm_compute; reflexivity | exact Hc].
Defined.

(** X4. The branch that would move an existing logo image into place
    never completes. When, after the first sweep, the first element of
    the body is not a good logo paragraph and a well-formed logo image
    is still in the document, that image is already in the first
    paragraph of the body; the pass asks for this paragraph to be
    inserted before itself and stops with a [ValueError], the document
    being as the first sweep left it. *)
Theorem logo_reuse_raises s s1 good :
  NoDup (ids (root s)) -> limbo s = [] -> named "[document]" (root s) = true ->
  sweep_logo_candidates (body_or_soup s) s = (Done tt, s1) ->
  first_good (body_or_soup s) s1 = None ->
  existing_good_img s1 = Some good ->
  _enforce_single_oasis_logo s = (Raised ValueError, s1).
Proof.
  intros Hnd Hl Hdoc Hsweep Hfg Hgood.
  destruct (document_root _ Hdoc) as (Hrp & _ & _).
  destruct (sweep_result (body_or_soup s) s Hnd Hl Hrp) as [Hsw Hcc].
  { rewrite Hsweep. reflexivity. }
  rewrite Hsweep in Hsw, Hcc. cbn [snd] in Hsw, Hcc.
  destruct (pruned_spec _ _ (swept_pruned _ _ _ Hsw) Hnd Hl) as (Hnd1 & Hl1 & _).
  rewrite logo_run, Hsweep, Hfg.
  rewrite (place_logo_existing _ _ good Hnd1 Hl1 Hcc Hgood). reflexivity.
Qed.

Lemma logo_reuse_raises_witness :
  _enforce_single_oasis_logo doc_logo_second
  = (Raised ValueError, snd (sweep_logo_candidates (body_or_soup doc_logo_second) doc_logo_second)).
Proof.
  apply (logo_reuse_raises doc_logo_second _ 5).
  - distinct_ids.
  - reflexivity.
  - reflexivity.
  - vm_compute. reflexivity.
  - vm_compute. reflexivity.
  - vm_compute. reflexivity.
Defined.

(** * The pass that makes links relative *)

Lemma bare_retag f i n :
  (forall nm a, fst (f (nm, a)) = nm) -> bare (retag f i n) = bare n.
Proof.
  intros Hf. induction n as [k t | k nm a cs IH] using node_ind'; [reflexivity |].
  cbn [retag].
  assert (E : map bare (map (retag f i) cs) = map bare cs).
  { rewrite map_map. induction IH as [| c cs Hc _ IHcs]; [reflexivity |].
    cbn [map]. rewrite Hc, IHcs. reflexivity. }
  destruct (Nat.eqb k i).
  - specialize (Hf nm a). destruct (f (nm, a)) as [nm' a']. cbn [fst] in Hf. subst nm'.
    cbn [bare]. rewrite E. reflexivity.
  - cbn [bare]. rewrite E. reflexivity.
Qed.

Lemma named_bare nm n : named nm (bare n) = named nm n.
Proof. destruct n; reflexivity. Qed.

Lemma rewrites_same i nm a s : tag_at i (root s) = Some (nm, a) -> rewrites i nm a s s.
Proof.
  intros H. repeat split. intros j. destruct (Nat.eqb j i) eqn:E; [| reflexivity].
  apply Nat.eqb_eq in E. subst j. exact H.
Qed.

Lemma rewrites_trans i nm a1 a2 s s1 s2 :
  rewrites i nm a1 s s1 -> rewrites i nm a2 s1 s2 -> rewrites i nm a2 s s2.
Proof.
  intros (Hi1 & Hb1 & Ht1) (Hi2 & Hb2 & Ht2). split; [congruence |]. split; [congruence |].
  intros j. rewrite Ht2, Ht1. destruct (Nat.eqb j i); reflexivity.
Qed.

Lemma retag_rewrites h i nm a s :
  tag_at i (root s) = Some (nm, a) ->
  rewrites i nm (h a) s (Bs4.on_all (retag (fun '(nm, a) => (nm, h a)) i) s).
Proof.
  intros H. split; [apply ids_retag |]. split.
  - apply bare_retag. reflexivity.
  - intros j. rewrite tag_at_on_all. destruct (Nat.eqb j i) eqn:E; [| reflexivity].
    apply Nat.eqb_eq in E. subst j. rewrite H. reflexivity.
Qed.

Lemma setitem_rewrites i k v nm a s :
  tag_at i (root s) = Some (nm, a) ->
  exists s', Bs4.setitem i k v s = (Done tt, s') /\ rewrites i nm (<[k := v]> a) s s'.
Proof.
  intros H. rewrite (setitem_run _ _ _ _ _ _ H). eexists. split; [reflexivity |].
  apply (retag_rewrites (fun a => <[k := v]> a)), H.
Qed.

Lemma attrs_pop_rewrites i k nm a s :
  tag_at i (root s) = Some (nm, a) ->
  exists s', Bs4.attrs_pop i k s = (Done tt, s') /\ rewrites i nm (delete k a) s s'.
Proof.
  intros H. rewrite (attrs_pop_run _ _ _ _ _ H). eexists. split; [reflexivity |].
  apply (retag_rewrites (fun a => delete k a)), H.
Qed.

Lemma rewrites_self i nm a s s' : rewrites i nm a s s' -> tag_at i (root s') = Some (nm, a).
Proof. intros (_ & _ & H). rewrite H, Nat.eqb_refl. reflexivity. Qed.

Section RelativizeSteps.

Variable urlparse : string -> outcome ParseResult.
Variable self : converter.

(** A URL in the scope of the document has been parsed once already. *)
Lemma same_scope_parses url tail :
  _is_same_site_same_scope urlparse self url = Some tail -> exists p, urlparse url = Done p.
Proof.
  unfold _is_same_site_same_scope. destruct (urlparse url) as [p | e]; [eauto | discriminate].
Qed.

Lemma relativize_attr_step key i s nm a :
  tag_at i (root s) = Some (nm, a) -> is_Some (a !! key) ->
  exists s', relativize_attr urlparse self key i s = (Done tt, s')
             /\ rewrites i nm (relativized_attr urlparse self key a) s s'.
Proof.
  intros H [raw Hraw]. unfold relativize_attr, relativized_attr. rewrite Hraw.
  unfold bind at 1. rewrite (getitem_run _ _ _ _ _ _ H Hraw).
  destruct (_is_same_site_same_scope urlparse self (Py.strip raw)) as [tail |].
  - destruct (Py.truthy tail).
    + apply setitem_rewrites, H.
    + exists s. split; [reflexivity | apply rewrites_same, H].
  - exists s. split; [reflexivity | apply rewrites_same, H].
Qed.

Lemma relativize_anchor_step i s nm a :
  tag_at i (root s) = Some (nm, a) -> is_Some (a !! "href") ->
  exists s', relativize_anchor urlparse self i s = (Done tt, s')
             /\ rewrites i nm (relativized_anchor urlparse self a) s s'.
Proof.
  intros H [raw Hraw]. unfold relativize_anchor, relativized_anchor. rewrite Hraw.
  unfold bind at 1. rewrite (getitem_run _ _ _ _ _ _ H Hraw). cbv zeta.
  destruct (Py.startswith "#" (Py.strip raw)).
  { exists s. split; [reflexivity | apply rewrites_same, H]. }
  destruct (_is_same_site_same_scope urlparse self (Py.strip raw)) as [tail |] eqn:Escope.
  2:{ exists s. split; [reflexivity | apply rewrites_same, H]. }
  destruct (negb (Py.truthy tail)).
  { exists s. split; [reflexivity | apply rewrites_same, H]. }
  destruct (same_scope_parses _ _ Escope) as [pp Hpp]. rewrite Hpp.
  unfold bind at 1, lift_outcome.
  destruct (String.eqb (Py.basename (path pp)) (Py.basename (output_file self))).
  - unfold bind.
    set (v := if Py.truthy (fragment pp) then "#" +:+ fragment pp else Py.basename (path pp)).
    assert (Hset : exists s1, (if Py.truthy (fragment pp)
                               then Bs4.setitem i "href" ("#" +:+ fragment pp)
                               else Bs4.setitem i "href" (Py.basename (path pp))) s
                              = (Done tt, s1) /\ rewrites i nm (<["href" := v]> a) s s1).
    { subst v. destruct (Py.truthy (fragment pp)); apply setitem_rewrites, H. }
    destruct Hset as (s1 & -> & Hr1).
    destruct (attrs_pop_rewrites i "target" nm _ s1 (rewrites_self _ _ _ _ _ Hr1))
      as (s2 & -> & Hr2).
    exists s2. split; [reflexivity |]. eapply rewrites_trans; eassumption.
  - apply setitem_rewrites, H.
Qed.

End RelativizeSteps.

(** ** Loops that change attributes only *)

Section AttributeLoop.

Variable step : ident -> M soup unit.
Variable g : gmap string string -> gmap string string.
Variable ok : gmap string string -> Prop.

Hypothesis step_spec : forall i s nm a,
  tag_at i (root s) = Some (nm, a) -> ok a ->
  exists s', step i s = (Done tt, s') /\ rewrites i nm (g a) s s'.

Lemma attribute_loop l : forall s,
  NoDup l ->
  (forall i, In i l -> exists nm a, tag_at i (root s) = Some (nm, a) /\ ok a) ->
  exists s', for_each l step s = (Done tt, s')
    /\ ids (root s') = ids (root s) /\ bare (root s') = bare (root s)
    /\ (forall j, ~ In j l -> tag_at j (root s') = tag_at j (root s))
    /\ (forall j nm a, In j l -> tag_at j (root s) = Some (nm, a) ->
          tag_at j (root s') = Some (nm, g a)).
Proof.
  induction l as [| i l IH]; intros s Hnd Hall.
  - exists s. repeat split; auto. intros j nm a [].
  - apply NoDup_cons in Hnd as [Hi Hnd]. rewrite list_elem_of_In in Hi.
    destruct (Hall i (or_introl eq_refl)) as (nm & a & Hat & Hok).
    destruct (step_spec i s nm a Hat Hok) as (s1 & Hrun & Hids1 & Hb1 & Ht1).
    assert (Hother : forall j, j <> i -> tag_at j (root s1) = tag_at j (root s)).
    { intros j Hj. rewrite Ht1. apply Nat.eqb_neq in Hj. rewrite Hj. reflexivity. }
    destruct (IH s1 Hnd) as (s' & Hloop & Hids & Hb & Hout & Hin).
    { intros j Hj. rewrite Hother; [apply Hall; right; exact Hj | intros ->; tauto]. }
    exists s'. cbn [for_each]. unfold bind. rewrite Hrun.
    split; [exact Hloop |]. split; [congruence |]. split; [congruence |]. split.
    + intros j Hj. rewrite Hout by (intros Hj'; apply Hj; right; exact Hj').
      apply Hother. intros ->. apply Hj. left. reflexivity.
    + intros j nm' a' [<- | Hj] Hj'.
      * rewrite Hout by exact Hi. rewrite Ht1, Nat.eqb_refl. congruence.
      * apply Hin; [exact Hj |]. rewrite Hother; [exact Hj' | intros ->; tauto].
Qed.

End AttributeLoop.

(** One loop of the pass: the elements named [nm] that have the
    attribute [key], each rewritten by [g]. *)
Lemma attribute_pass nm key step g s :
  (forall i s nm' a, tag_at i (root s) = Some (nm', a) -> is_Some (a !! key) ->
     exists s', step i s = (Done tt, s') /\ rewrites i nm' (g a) s s') ->
  (forall a, a !! key = None -> g a = a) ->
  NoDup (ids (root s)) -> named nm (root s) = false ->
  exists s', for_each (Bs4.find_all (named_with nm key) (node_id (root s)) s) step s
             = (Done tt, s')
    /\ ids (root s') = ids (root s) /\ bare (root s') = bare (root s)
    /\ forall j, tag_at j (root s')
                 = (fun '(nm', a) => (nm', if String.eqb nm' nm then g a else a))
                     <$> tag_at j (root s).
Proof.
  intros Hstep Hg Hnd Hroot.
  set (l := Bs4.find_all (named_with nm key) (node_id (root s)) s).
  assert (Hl : forall j, In j l -> exists a cs,
               In (Tag j nm a cs) (descendants (root s)) /\ is_Some (a !! key)).
  { intros j Hj. apply In_find_all in Hj as (d & Hd & Hw & <-); [| exact Hnd].
    unfold named_with in Hw. apply andb_true_iff in Hw as [Hn Hk].
    apply named_eq in Hn as (i & a & cs & ->). exists a, cs. split; [exact Hd |].
    unfold has_attr in Hk. apply bool_decide_eq_true_1 in Hk. exact Hk. }
  destruct (attribute_loop step g (fun a => is_Some (a !! key)) Hstep l s)
    as (s' & Hrun & Hids & Hb & Hout & Hin).
  { apply NoDup_find_all; [exact Hnd | apply find_root]. }
  { intros j Hj. destruct (Hl j Hj) as (a & cs & Hd & Hk). exists nm, a.
    split; [eapply tag_at_descendant; eassumption | exact Hk]. }
  exists s'. split; [exact Hrun |]. split; [exact Hids |]. split; [exact Hb |].
  intros j. destruct (tag_at j (root s)) as [[nm' a] |] eqn:Hat; cbn [fmap option_fmap option_map].
  - destruct (String.eqb nm' nm) eqn:En.
    + apply String.eqb_eq in En. subst nm'. destruct (a !! key) as [raw |] eqn:Hk.
      * apply (Hin j nm a); [| exact Hat]. apply tag_at_find in Hat as [cs Hf].
        apply In_find_all; [exact Hnd |]. exists (Tag j nm a cs).
        split; [| split; [| reflexivity]].
        -- apply find_node_In in Hf as [Hf | Hf]; [| exact Hf]. exfalso.
           rewrite Hf in Hroot. cbn [named] in Hroot. rewrite String.eqb_refl in Hroot.
           discriminate.
        -- unfold named_with, has_attr. cbn [named attrs_of]. rewrite String.eqb_refl, Hk.
           reflexivity.
      * rewrite (Hg a Hk). rewrite Hout; [exact Hat |]. intros Hj.
        destruct (Hl j Hj) as (a' & cs & Hd & Hk').
        rewrite (tag_at_descendant s j nm a' cs Hnd Hd) in Hat. injection Hat as ->.
        rewrite Hk in Hk'. destruct Hk' as [? [=]].
    + rewrite Hout; [exact Hat |]. intros Hj. destruct (Hl j Hj) as (a' & cs & Hd & _).
      rewrite (tag_at_descendant s j nm a' cs Hnd Hd) in Hat. injection Hat as -> ->.
      rewrite String.eqb_refl in En. discriminate.
  - rewrite Hout; [exact Hat |]. intros Hj. destruct (Hl j Hj) as (a' & cs & Hd & _).
    rewrite (tag_at_descendant s j nm a' cs Hnd Hd) in Hat. discriminate.
Qed.


Section RelativizePass.

Variable urlparse : string -> outcome ParseResult.
Variable self : converter.

Lemma relativized_attr_absent key a :
  a !! key = None -> relativized_attr urlparse self key a = a.
Proof. intros H. unfold relativized_attr. rewrite H. reflexivity. Qed.

Lemma relativized_anchor_absent a :
  a !! "href" = None -> relativized_anchor urlparse self a = a.
Proof. intros H. unfold relativized_anchor. rewrite H. reflexivity. Qed.

Lemma document_not_named nm r :
  named "[document]" r = true -> String.eqb "[document]" nm = false -> named nm r = false.
Proof.
  destruct r as [k t | k nm' a cs]; [reflexivity |]. cbn [named]. intros H.
  apply String.eqb_eq in H. subst nm'. auto.
Qed.

Lemma named_of_bare nm r r' : bare r' = bare r -> named nm r' = named nm r.
Proof. intros H. rewrite <- (named_bare nm r'), H. apply named_bare. Qed.

(** The pass ends normally, and rewrites each element on its own. *)
Lemma relativize_run s :
  NoDup (ids (root s)) -> named "[document]" (root s) = true ->
  exists s', _relativize_same_scope_links urlparse self s = (Done tt, s')
    /\ ids (root s') = ids (root s) /\ bare (root s') = bare (root s)
    /\ forall j, tag_at j (root s') = relativized urlparse self <$> tag_at j (root s).
Proof.
  intros Hnd Hdoc. unfold _relativize_same_scope_links.
  change is_anchor with (named_with "a" "href").
  destruct (attribute_pass "a" "href" (relativize_anchor urlparse self)
              (relativized_anchor urlparse self) s)
    as (s1 & Hrun1 & Hids1 & Hb1 & Ht1);
    [apply relativize_anchor_step | apply relativized_anchor_absent | exact Hnd
    | apply document_not_named; [exact Hdoc | reflexivity] |].
  assert (Hnd1 : NoDup (ids (root s1))) by (rewrite Hids1; exact Hnd).
  assert (Hdoc1 : named "[document]" (root s1) = true)
    by (rewrite (named_of_bare _ _ _ Hb1); exact Hdoc).
  destruct (attribute_pass "link" "href" (relativize_attr urlparse self "href")
              (relativized_attr urlparse self "href") s1)
    as (s2 & Hrun2 & Hids2 & Hb2 & Ht2);
    [intros i s0 nm' a; apply relativize_attr_step | apply relativized_attr_absent | exact Hnd1
    | apply document_not_named; [exact Hdoc1 | reflexivity] |].
  assert (Hnd2 : NoDup (ids (root s2))) by (rewrite Hids2; exact Hnd1).
  assert (Hdoc2 : named "[document]" (root s2) = true)
    by (rewrite (named_of_bare _ _ _ Hb2); exact Hdoc1).
  destruct (attribute_pass "script" "src" (relativize_attr urlparse self "src")
              (relativized_attr urlparse self "src") s2)
    as (s3 & Hrun3 & Hids3 & Hb3 & Ht3);
    [intros i s0 nm' a; apply relativize_attr_step | apply relativized_attr_absent | exact Hnd2
    | apply document_not_named; [exact Hdoc2 | reflexivity] |].
  assert (Hnd3 : NoDup (ids (root s3))) by (rewrite Hids3; exact Hnd2).
  assert (Hdoc3 : named "[document]" (root s3) = true)
    by (rewrite (named_of_bare _ _ _ Hb3); exact Hdoc2).
  destruct (attribute_pass "img" "src" (relativize_attr urlparse self "src")
              (relativized_attr urlparse self "src") s3)
    as (s4 & Hrun4 & Hids4 & Hb4 & Ht4);
    [intros i s0 nm' a; apply relativize_attr_step | apply relativized_attr_absent | exact Hnd3
    | apply document_not_named; [exact Hdoc3 | reflexivity] |].
  exists s4. split.
  { unfold bind, get. rewrite Hrun1, Hrun2, Hrun3. exact Hrun4. }
  split; [congruence |]. split; [congruence |].
  intros j. rewrite Ht4, Ht3, Ht2, Ht1.
  destruct (tag_at j (root s)) as [[nm a] |]; [| reflexivity].
  cbn [fmap option_fmap option_map relativized]. do 2 f_equal.
  destruct (String.eqb nm "a") eqn:Ea.
  { apply String.eqb_eq in Ea. subst nm. reflexivity. }
  destruct (String.eqb nm "link") eqn:El.
  { apply String.eqb_eq in El. subst nm. reflexivity. }
  destruct (String.eqb nm "script") eqn:Es.
  { apply String.eqb_eq in Es. subst nm. reflexivity. }
  cbn [orb]. destruct (String.eqb nm "img"); reflexivity.
Qed.

Lemma relativized_attr_keeps key a k :
  k <> key -> relativized_attr urlparse self key a !! k = a !! k.
Proof.
  intros Hk. unfold relativized_attr. destruct (a !! key) as [raw |]; [| reflexivity].
  destruct (_is_same_site_same_scope urlparse self (Py.strip raw)) as [tail |]; [| reflexivity].
  destruct (Py.truthy tail); [| reflexivity]. apply lookup_insert_ne. congruence.
Qed.

Lemma relativized_anchor_keeps a k :
  k <> "href" -> k <> "target" -> relativized_anchor urlparse self a !! k = a !! k.
Proof.
  intros Hk Ht. unfold relativized_anchor. destruct (a !! "href") as [raw |]; [| reflexivity].
  cbv zeta. destruct (Py.startswith "#" (Py.strip raw)); [reflexivity |].
  destruct (_is_same_site_same_scope urlparse self (Py.strip raw)) as [tail |]; [| reflexivity].
  destruct (negb (Py.truthy tail)); [reflexivity |].
  destruct (urlparse (Py.strip raw)) as [pp | e]; [| reflexivity].
  destruct (String.eqb _ _).
  - rewrite lookup_delete_ne by congruence. apply lookup_insert_ne. congruence.
  - apply lookup_insert_ne. congruence.
Qed.

Lemma relativized_attr_off_site key a :
  (forall raw, a !! key = Some raw ->
     _is_same_site_same_scope urlparse self (Py.strip raw) = None) ->
  relativized_attr urlparse self key a = a.
Proof.
  intros H. unfold relativized_attr. destruct (a !! key) as [raw |]; [| reflexivity].
  rewrite (H raw eq_refl). reflexivity.
Qed.

Lemma relativized_anchor_off_site a :
  (forall raw, a !! "href" = Some raw ->
     _is_same_site_same_scope urlparse self (Py.strip raw) = None) ->
  relativized_anchor urlparse self a = a.
Proof.
  intros H. unfold relativized_anchor. destruct (a !! "href") as [raw |]; [| reflexivity].
  cbv zeta. rewrite (H raw eq_refl). destruct (Py.startswith _ _); reflexivity.
Qed.

(** X5. On a parsed document the link pass never raises. It adds,
    removes, moves or renames no element and changes no text; each
    element gets the attributes [relativized] computes from its own,
    which differ from the old ones at [href], [src] and [target] at
    most, and not at all when neither its [href] nor its [src] is an
    address of the site below the directory of the document. *)
Theorem relativize_links_pass s :
  NoDup (ids (root s)) -> named "[document]" (root s) = true ->
  exists s', _relativize_same_scope_links urlparse self s = (Done tt, s')
    /\ bare (root s') = bare (root s)
    /\ forall j nm a, tag_at j (root s) = Some (nm, a) ->
         exists a', tag_at j (root s') = Some (nm, a')
           /\ (nm, a') = relativized urlparse self (nm, a)
           /\ (forall k, k <> "href" -> k <> "src" -> k <> "target" -> a' !! k = a !! k)
           /\ ((forall k raw, In k ["href"; "src"] -> a !! k = Some raw ->
                  _is_same_site_same_scope urlparse self (Py.strip raw) = None) -> a' = a).
Proof.
  intros Hnd Hdoc. destruct (relativize_run s Hnd Hdoc) as (s' & Hrun & _ & Hb & Ht).
  exists s'. split; [exact Hrun |]. split; [exact Hb |]. intros j nm a Hat.
  rewrite Ht, Hat. cbn [fmap option_fmap option_map relativized]. eexists.
  split; [reflexivity |]. split; [reflexivity |]. split.
  - intros k Hh Hs Htg. destruct (String.eqb nm "a"); [apply relativized_anchor_keeps; assumption |].
    destruct (String.eqb nm "link"); [apply relativized_attr_keeps; assumption |].
    destruct (_ || _); [apply relativized_attr_keeps; assumption | reflexivity].
  - intros Hoff.
    destruct (String.eqb nm "a").
    { apply relativized_anchor_off_site. intros raw. apply Hoff. left. reflexivity. }
    destruct (String.eqb nm "link").
    { apply relativized_attr_off_site. intros raw. apply Hoff. left. reflexivity. }
    destruct (_ || _); [| reflexivity].
    apply relativized_attr_off_site. intros raw. apply Hoff. right. left. reflexivity.
Qed.

End RelativizePass.

Lemma relativize_links_pass_witness :
  exists s', _relativize_same_scope_links Urllib.urlparse site_converter doc_site = (Done tt, s')
    /\ bare (root s') = bare (root doc_site)
    /\ exists a', tag_at 7 (root s') = Some ("a", a')
         /\ a' !! "href" = Some "schema/a.json" /\ a' !! "class" = Some "ref".
Proof.
  destruct (relativize_links_pass Urllib.urlparse site_converter doc_site)
    as (s' & Hrun & Hb & Hall).
  - distinct_ids.
  - reflexivity.
  - exists s'. split; [exact Hrun |]. split; [exact Hb |].
    destruct (Hall 7 "a" (<["href" := "https://docs.oasis-open.org/csaf/v2/schema/a.json"]>
                          (<["class" := "ref"]> ∅))) as (a' & Ht & He & Hk & _).
    + reflexivity.
    + exists a'. split; [exact Ht |]. split.
      * injection He as ->. vm_compute. reflexivity.
      * rewrite Hk by discriminate. reflexivity.
Defined.

(** * Addresses in the scope of the document *)

Lemma startswith_app p t : Py.startswith p (p +:+ t) = true.
Proof.
  induction p as [| a p IH]; [reflexivity |].
  change (Py.startswith (String a p) (String a p +:+ t))
    with (if Ascii.eqb a a then Py.startswith p (p +:+ t) else false).
  rewrite Ascii.eqb_refl. exact IH.
Qed.

Lemma drop_app p t : Py.drop (String.length p) (p +:+ t) = t.
Proof. induction p as [| a p IH]; [destruct t; reflexivity | exact IH]. Qed.

Lemma startswith_drop p s :
  Py.startswith p s = true -> s = p +:+ Py.drop (String.length p) s.
Proof.
  revert s. induction p as [| a p IH]; intros s H.
  - destruct s; reflexivity.
  - destruct s as [| b s]; [discriminate |].
    change (Py.startswith (String a p) (String b s))
      with (if Ascii.eqb a b then Py.startswith p s else false) in H.
    destruct (Ascii.eqb a b) eqn:E; [| discriminate]. apply Ascii.eqb_eq in E. subst b.
    change (String a s = String a (p +:+ Py.drop (String.length p) s)).
    f_equal. apply IH, H.
Qed.

(** X6. [_is_same_site_same_scope] answers with a tail exactly when the
    URL parses, has a scheme and a host, both those of the published
    document, and its path is the directory of the document followed by
    that tail. In every other case, a URL that does not parse included,
    the answer is [None]. *)
Theorem same_site_same_scope_iff (urlparse : string -> outcome ParseResult)
    (self : converter) (url tail : string) :
  _is_same_site_same_scope urlparse self url = Some tail <->
  exists p, urlparse url = Done p
    /\ scheme p <> "" /\ netloc p <> ""
    /\ scheme p = abs_doc_scheme self /\ netloc p = abs_doc_netloc self
    /\ path p = _abs_doc_dir self +:+ tail.
Proof.
  unfold _is_same_site_same_scope. split.
  - destruct (urlparse url) as [p | e]; [| discriminate].
    destruct (Py.truthy (scheme p)) eqn:Hs; [| discriminate].
    destruct (Py.truthy (netloc p)) eqn:Hn; [| discriminate]. cbn [negb orb].
    destruct (String.eqb (scheme p) (abs_doc_scheme self)) eqn:Es; [| discriminate].
    destruct (String.eqb (netloc p) (abs_doc_netloc self)) eqn:En; [| discriminate].
    cbn [negb andb].
    destruct (Py.startswith (_abs_doc_dir self) (path p)) eqn:Ed; [| discriminate].
    cbn [negb]. intros [= <-]. exists p. split; [reflexivity |].
    apply String.eqb_eq in Es, En. apply truthy_true in Hs, Hn.
    repeat split; auto. apply startswith_drop, Ed.
  - intros (p & -> & Hs & Hn & Es & En & Ep).
    apply truthy_true in Hs, Hn. rewrite Hs, Hn. cbn [negb orb].
    rewrite Es, En, !String.eqb_refl. cbn [negb andb]. rewrite Ep, startswith_app.
    cbn [negb]. rewrite drop_app. reflexivity.
Qed.

(** * Plain URLs turned into links *)

Lemma append_cons (c : ascii) (t r : string) : String c t +:+ r = String c (t +:+ r).
Proof. reflexivity. Qed.

Lemma append_empty_r (t : string) : t +:+ "" = t.
Proof. induction t as [| c t IH]; [reflexivity |]. rewrite append_cons, IH. reflexivity. Qed.

Lemma append_push (buf : string) (c : ascii) (r : string) : push buf c +:+ r = buf +:+ String c r.
Proof.
  unfold push. induction buf as [| b buf IH]; [reflexivity |].
  rewrite !append_cons, IH. reflexivity.
Qed.

(** No character of the text is lost by the cutting into pieces. *)
Lemma split_urls_text t : forall in_url buf,
  pieces_text (split_urls in_url buf t) = buf +:+ t.
Proof.
  induction t as [| c r IH]; intros in_url buf.
  - cbn [split_urls pieces_text fold_right]. destruct in_url; reflexivity.
  - cbn [split_urls]. destruct in_url.
    + destruct (Py.isspace c || Ascii.eqb c "<").
      * cbn [pieces_text fold_right]. fold (pieces_text (split_urls false (String c "") r)).
        rewrite IH. reflexivity.
      * rewrite IH. apply append_push.
    + destruct (url_starts (String c r)).
      * cbn [pieces_text fold_right]. fold (pieces_text (split_urls true (String c "") r)).
        rewrite IH. reflexivity.
      * rewrite IH. apply append_push.
Qed.

Lemma piece_nodes_text ps : forall k,
  fold_right (fun c r => get_text c +:+ r) "" (fst (piece_nodes k ps)) = pieces_read ps.
Proof.
  induction ps as [| [t | u] ps IH]; intros k; [reflexivity | |]; cbn [piece_nodes].
  - destruct (String.eqb t "") eqn:E.
    + apply String.eqb_eq in E. subst t. rewrite IH. reflexivity.
    + specialize (IH (S k)). destruct (piece_nodes (S k) ps) as [ns k'].
      cbn [fst fold_right get_text pieces_read] in *. rewrite IH. reflexivity.
  - specialize (IH (S (S k))). destruct (piece_nodes (S (S k)) ps) as [ns k'].
    cbn [fst fold_right get_text pieces_read] in *. rewrite IH, append_empty_r. reflexivity.
Qed.

Lemma unspaced_app t r : unspaced (t +:+ r) = unspaced t +:+ unspaced r.
Proof.
  induction t as [| c t IH]; [reflexivity |]. rewrite append_cons. cbn [unspaced].
  destruct (ascii_space c); [exact IH | rewrite append_cons, IH; reflexivity].
Qed.

Lemma unspaced_blank t : Py.all_chars ascii_space t = true -> unspaced t = "".
Proof.
  induction t as [| c t IH]; [reflexivity |]. cbn [Py.all_chars unspaced].
  intros H. apply andb_true_iff in H as [Hc Ht]. rewrite Hc. apply IH, Ht.
Qed.

Lemma unspaced_collapse t : unspaced (collapse_blank t) = unspaced t.
Proof.
  unfold collapse_blank. destruct (Py.truthy t); [| reflexivity]. cbn [andb].
  destruct (Py.all_chars ascii_space t) eqn:E; [| reflexivity].
  rewrite (unspaced_blank t E). destruct (Py.has_char "010" t); reflexivity.
Qed.

(** The pieces as they are read back differ from the text in white
    space only. *)
Lemma pieces_read_unspaced ps : unspaced (pieces_read ps) = unspaced (pieces_text ps).
Proof.
  induction ps as [| [t | u] ps IH]; [reflexivity | |];
    cbn [pieces_read pieces_text fold_right];
    fold (pieces_read ps); fold (pieces_text ps); rewrite !unspaced_app, IH.
  - rewrite unspaced_collapse. reflexivity.
  - reflexivity.
Qed.

(** Every anchor made of a piece links to its own text. *)
Lemma piece_nodes_anchor ps : forall k d,
  In d (flat_map (fun c => c :: descendants c) (fst (piece_nodes k ps))) ->
  named "a" d = true -> attrs_of d !! "href" = Some (get_text d).
Proof.
  induction ps as [| [t | u] ps IH]; intros k d; [intros [] | |]; cbn [piece_nodes].
  - destruct (String.eqb t ""); [apply IH |].
    specialize (IH (S k) d). destruct (piece_nodes (S k) ps) as [ns k'].
    cbn [fst flat_map descendants app] in *. intros [<- | Hd]; [discriminate | apply IH, Hd].
  - specialize (IH (S (S k)) d). destruct (piece_nodes (S (S k)) ps) as [ns k'].
    cbn [fst flat_map descendants app] in *. intros [<- | [<- | Hd]]; [| discriminate | apply IH, Hd].
    intros _. cbn [attrs_of get_text fold_right]. rewrite append_empty_r. apply lookup_insert_eq.
Qed.

Lemma find_node_recontent f i n : find_node i (recontent f i n) = recontent f i <$> find_node i n.
Proof.
  induction n as [k t | k nm a cs IH] using node_ind'.
  - cbn [recontent]. rewrite find_node_eq. destruct (has_id i (NavigableString k t)); reflexivity.
  - rewrite (find_node_eq i (Tag k nm a cs)), (find_node_eq i (recontent f i (Tag k nm a cs))).
    unfold has_id. rewrite node_id_recontent. cbn [node_id].
    destruct (Nat.eqb k i) eqn:E; [reflexivity |].
    cbn [recontent contents_of]. rewrite E. cbn [contents_of]. rewrite first_some_map.
    rewrite <- first_some_fmap. apply first_some_ext. exact IH.
Qed.

Section Linkify.

Variable html_parser : string -> ident -> list node * ident.


End Linkify.


(** * Images that are downloaded, and images that are left alone *)

Section Downloads.

Variable urlparse : string -> outcome ParseResult.
Variable fetch : list string -> string -> option string.
Variable self : converter.


End Downloads.


(** * The banner pass, when it is skipped *)

(** X9. When the banner pass ends with one of its two warnings (no logo
    paragraph, or no heading after it), it has changed nothing: the
    document is the one it was given. *)
Theorem banner_skipped_unchanged s r :
  fst (_fix_top_banner_block s) = Done r -> r <> BannerFixed ->
  snd (_fix_top_banner_block s) = s.
Proof.
  destruct (_fix_top_banner_block s) as [o s'] eqn:Hrun. cbn [fst snd].
  intros -> Hr. revert Hrun.
  unfold _fix_top_banner_block. unfold bind at 1, get at 1. cbv zeta. unfold bind at 1.
  destruct (find_logo_p (body_or_soup s)
              (Bs4.find_all_children (named "p") (body_or_soup s) s) s) as [found s0] eqn:E.
  apply find_logo_p_spec in E as [-> _].
  destruct found as [[logo_p |] | e]; [| intros [= _ <-]; reflexivity | discriminate].
  destruct (List.find is_heading (List.filter _is_tag (next_siblings logo_p s)))
    as [first_heading |]; [| intros [= _ <-]; reflexivity].
  unfold bind at 1.
  destruct (drop_stray_hrs first_heading (next_siblings logo_p s) s) as [[[] | e] s1];
    [| discriminate].
  unfold bind at 1, get at 1. cbv zeta. unfold bind at 1.
  match goal with
  | |- context [(if ?c then ?m else ret tt) s1] =>
      destruct ((if c then m else ret tt) s1) as [[[] | e] s2]; [| discriminate]
  end.
  unfold bind at 1.
  match goal with
  | |- context [(if ?c then ?m else ret tt) s2] =>
      destruct ((if c then m else ret tt) s2) as [[[] | e] s3]; [| discriminate]
  end.
  unfold ret. intros [= <- _]. congruence.
Qed.

Lemma banner_skipped_unchanged_witness : snd (_fix_top_banner_block doc_links) = doc_links.
Proof.
  apply (banner_skipped_unchanged doc_links NoLogoParagraph).
  - vm_compute. reflexivity.
  - discriminate.
Defined.

(** * The directory of the published document *)

Lemma append_assoc3 (a b c : string) : (a +:+ b) +:+ c = a +:+ (b +:+ c).
Proof.
  induction a as [| x a IH]; [reflexivity |]. rewrite !append_cons, IH. reflexivity.
Qed.

(** A path with a slash is what comes before its last slash, the
    slash, and its base name. *)
Lemma rsplit_basename (s : string) :
  Py.has_char "/" s = true -> Py.before_last "/" s +:+ "/" +:+ Py.basename s = s.
Proof.
  unfold Py.basename. induction s as [| a r IH]; [discriminate |].
  cbn [Py.has_char Py.before_last Py.after_last].
  destruct (Py.has_char "/" r) eqn:Hr.
  - intros _. rewrite append_cons, (IH eq_refl). reflexivity.
  - rewrite orb_false_r. intros Ha. rewrite Ha. apply Ascii.eqb_eq in Ha. subst a. reflexivity.
Qed.

(** X10. Once [__init__] has set the site and the directory from the
    address of the document (lines 94-96), an address that parses to
    the same scheme, host and path is in scope, and the tail that
    [_is_same_site_same_scope] returns for it is its file name,
    provided the scheme and the host are not empty and the path holds a
    slash. *)
Theorem own_address_in_scope (urlparse : string -> outcome ParseResult)
    (self : converter) (url : string) (p0 : ParseResult) :
  urlparse url = Done p0 ->
  scheme p0 <> "" -> netloc p0 <> "" -> Py.has_char "/" (path p0) = true ->
  abs_doc_scheme self = scheme p0 -> abs_doc_netloc self = netloc p0 ->
  _abs_doc_dir self = abs_doc_dir_of (path p0) ->
  _is_same_site_same_scope urlparse self url = Some (Py.basename (path p0)).
Proof.
  intros Hp Hs Hn Hslash Es En Ed. unfold _is_same_site_same_scope. rewrite Hp.
  apply truthy_true in Hs, Hn. rewrite Hs, Hn, Es, En, !String.eqb_refl. cbn [negb orb andb].
  assert (Hdir : path p0 = _abs_doc_dir self +:+ Py.basename (path p0)).
  { rewrite Ed. unfold abs_doc_dir_of.
    destruct (path p0) as [| c r] eqn:E; [discriminate |]. cbn [Py.truthy].
    rewrite append_assoc3. symmetry. apply rsplit_basename, Hslash. }
  rewrite Hdir at 1. rewrite startswith_app. cbn [negb]. rewrite Hdir at 1.
  rewrite drop_app. reflexivity.
Qed.

Lemma own_address_in_scope_witness :
  _is_same_site_same_scope Urllib.urlparse site_converter
    "https://docs.oasis-open.org/csaf/v2/spec.html" = Some "spec.html".
Proof.
  apply (own_address_in_scope Urllib.urlparse site_converter
           "https://docs.oasis-open.org/csaf/v2/spec.html"
           (mkParse "https" "docs.oasis-open.org" "/csaf/v2/spec.html" "" "" ""));
    first [reflexivity | discriminate].
Defined.

(** * The duplicate heading anchors *)

(** ** A node replaced by another *)

Lemma node_id_substitute i new n : node_id (substitute i new n) = node_id n.
Proof. destruct n; reflexivity. Qed.

Lemma substitute_children_notin i new cs :
  Forall (fun c => ~ In i (flat_map ids (contents_of c)) -> substitute i new c = c) cs ->
  ~ In i (flat_map ids cs) ->
  map (fun c => if has_id i c then new else substitute i new c) cs = cs.
Proof.
  induction 1 as [| c cs Hc _ IH]; intros Hi; [reflexivity |].
  cbn [flat_map map] in *. rewrite IH by (intros H; apply Hi, in_or_app; right; exact H).
  assert (Hic : ~ In i (ids c)) by (intros H; apply Hi, in_or_app; left; exact H).
  rewrite ids_eq in Hic. replace (has_id i c) with false.
  - rewrite Hc; [reflexivity |]. intros H. apply Hic. right. exact H.
  - symmetry. apply has_id_false. intros E. apply Hic. left. exact E.
Qed.

Lemma substitute_notin i new n :
  ~ In i (flat_map ids (contents_of n)) -> substitute i new n = n.
Proof.
  induction n as [k t | k nm a cs IH] using node_ind'; intros Hi; [reflexivity |].
  cbn [substitute contents_of] in *. f_equal. apply substitute_children_notin; assumption.
Qed.

Lemma find_in_child j c m cs :
  NoDup (flat_map ids cs) -> In c cs -> find_node j c = Some m ->
  first_some (find_node j) cs = Some m.
Proof.
  induction cs as [| c0 cs IH]; intros Hnd Hc Hm; [destruct Hc |].
  cbn [flat_map first_some] in *. apply NoDup_app in Hnd as (_ & Hdisj & Hnd).
  destruct Hc as [-> | Hc]; [rewrite Hm; reflexivity |].
  replace (find_node j c0) with (@None node); [apply IH; assumption |].
  symmetry. apply find_node_None. intros Hj. apply (Hdisj j); [apply list_elem_of_In, Hj |].
  apply list_elem_of_In, in_flat_map. exists c. split; [exact Hc | eapply find_node_below, Hm].
Qed.

(** The identities of the tree, in document order, are those it had
    with the identities of the new node in the place of those of the
    node replaced. *)
Lemma ids_substitute i new n :
  NoDup (ids n) -> forall d, find_node i n = Some d -> node_id n <> i ->
  exists l1 l2, ids n = l1 ++ ids d ++ l2 /\ ids (substitute i new n) = l1 ++ ids new ++ l2.
Proof.
  induction n as [k t | k nm a cs IH] using node_ind'; intros Hnd d Hd Hk.
  { rewrite find_node_eq in Hd. cbn [contents_of first_some] in Hd.
    destruct (has_id i (NavigableString k t)) eqn:E; [| discriminate].
    apply has_id_true in E. contradiction. }
  rewrite find_node_eq in Hd. replace (has_id i (Tag k nm a cs)) with false in Hd
    by (symmetry; apply has_id_false; exact Hk).
  cbn [contents_of] in Hd. cbn [substitute]. rewrite !ids_Tag in *.
  apply NoDup_cons in Hnd as [_ Hnd].
  set (phi := fun c => if has_id i c then new else substitute i new c).
  assert (H : exists l1 l2, flat_map ids cs = l1 ++ ids d ++ l2
                            /\ flat_map ids (map phi cs) = l1 ++ ids new ++ l2).
  { clear Hk. induction IH as [| c cs Hc _ IHcs]; [discriminate |].
    cbn [flat_map map first_some] in *. apply NoDup_app in Hnd as (Hndc & Hdisj & Hndcs).
    destruct (find_node i c) as [dc |] eqn:Ec.
    - injection Hd as ->.
      assert (Hrest : map phi cs = cs).
      { apply substitute_children_notin.
        - apply List.Forall_forall. intros x _. apply substitute_notin.
        - intros Hi. apply (Hdisj i); apply list_elem_of_In; [eapply find_node_below, Ec | exact Hi]. }
      rewrite Hrest. unfold phi at 1. destruct (has_id i c) eqn:Ei.
      + rewrite find_node_eq, Ei in Ec. injection Ec as <-. exists [], (flat_map ids cs).
        split; reflexivity.
      + apply has_id_false in Ei. destruct (Hc Hndc d eq_refl Ei) as (l1 & l2 & E1 & E2).
        exists l1, (l2 ++ flat_map ids cs). rewrite E1, E2, <- !app_assoc. split; reflexivity.
    - destruct (IHcs Hndcs Hd) as (l1 & l2 & E1 & E2).
      assert (Hic : ~ In i (ids c)) by (apply find_node_None, Ec).
      assert (Hphi : phi c = c).
      { unfold phi. replace (has_id i c) with false.
        - apply substitute_notin. intros H. apply Hic. rewrite ids_eq. right. exact H.
        - symmetry. apply has_id_false. intros E. apply Hic. rewrite ids_eq. left. exact E. }
      rewrite Hphi, E1, E2. exists (ids c ++ l1), l2. rewrite <- !app_assoc. split; reflexivity. }
  destruct H as (l1 & l2 & E1 & E2). exists (k :: l1), l2. rewrite E1. fold phi. rewrite E2.
  split; reflexivity.
Qed.

(** What is found in the tree after the replacement was there before,
    or is part of the new node. *)
Lemma find_node_substitute i new j n :
  NoDup (ids n) -> forall n', find_node j (substitute i new n) = Some n' ->
  In n' (new :: descendants new)
  \/ exists m, find_node j n = Some m /\ n' = substitute i new m.
Proof.
  induction n as [k t | k nm a cs IH] using node_ind'; intros Hnd n' Hn'.
  { right. exists n'. split; [exact Hn' |]. cbn [substitute] in Hn'.
    apply find_node_In in Hn' as [<- | []]. reflexivity. }
  rewrite find_node_eq in Hn'. unfold has_id in Hn'. rewrite node_id_substitute in Hn'.
  rewrite (find_node_eq j (Tag k nm a cs)). unfold has_id. cbn [node_id] in *.
  destruct (Nat.eqb k j).
  { injection Hn' as <-. right. eauto. }
  cbn [substitute contents_of] in *. rewrite ids_Tag in Hnd. apply NoDup_cons in Hnd as [_ Hnd].
  apply first_some_Some in Hn' as (c' & Hc' & Hf). apply in_map_iff in Hc' as (c & <- & Hc).
  destruct (has_id i c).
  - left. eapply find_node_In, Hf.
  - rewrite List.Forall_forall in IH.
    destruct (IH c Hc (NoDup_flat_map_elem ids cs c Hnd Hc) n' Hf) as [Hl | (m & Hm & ->)];
      [left; exact Hl |].
    right. exists m. split; [| reflexivity]. eapply find_in_child; eassumption.
Qed.


(** ** Removals and replacements shrink the tree *)

Lemma shrunk_refl r : NoDup (ids r) -> shrunk r r.
Proof.
  intros Hnd. repeat split; auto using incl_refl. intros h n' H. exists n'.
  split; [exact H | apply incl_refl].
Qed.

Lemma shrunk_trans r1 r2 r3 : shrunk r1 r2 -> shrunk r2 r3 -> shrunk r1 r3.
Proof.
  intros (_ & Hid1 & Hin1 & Ht1 & Hb1) (Hnd2 & Hid2 & Hin2 & Ht2 & Hb2).
  split; [exact Hnd2 |]. split; [congruence |]. split; [eapply incl_tran; eassumption |].
  split; [auto |]. intros h n3 H3. destruct (Hb2 h n3 H3) as (n2 & H2 & Hi2).
  destruct (Hb1 h n2 H2) as (n1 & H1 & Hi1). exists n1.
  split; [exact H1 | eapply incl_tran; eassumption].
Qed.

Lemma tag_at_Some_alive j r x : tag_at j r = Some x -> find_node j r <> None.
Proof. unfold tag_at. destruct (find_node j r); [discriminate | discriminate]. Qed.

Lemma shrunk_prune i r : NoDup (ids r) -> shrunk r (prune i r).
Proof.
  intros Hnd. split; [apply NoDup_prune, Hnd |]. split; [apply node_id_prune |].
  split; [apply ids_prune_incl |]. split.
  - intros j x H. rewrite <- (tag_at_alive i j r Hnd); [exact H |].
    eapply tag_at_Some_alive, H.
  - intros h n' H. rewrite (find_node_alive i h r Hnd) in H by (rewrite H; discriminate).
    destruct (find_node h r) as [n |]; [| discriminate]. injection H as <-.
    exists n. split; [reflexivity | apply ids_prune_incl].
Qed.

Lemma string_of_In n c :
  Bs4.string_of n = Some c ->
  In c (descendants n) /\ exists t txt, c = NavigableString t txt.
Proof.
  induction n as [k t | k nm a cs IH] using node_ind'; [discriminate |].
  cbn [Bs4.string_of]. destruct cs as [| c0 [| c1 cs]]; try discriminate.
  destruct c0 as [t txt | k0 nm0 a0 cs0].
  - intros [= <-]. split; [left; reflexivity | eauto].
  - intros H. apply Forall_inv in IH. destruct (IH H) as [Hin Hs]. split; [| exact Hs].
    cbn [descendants flat_map]. rewrite app_nil_r. right. exact Hin.
Qed.

Lemma ids_in_tree j m : In j (ids m) -> exists d, In d (m :: descendants m) /\ node_id d = j.
Proof. unfold ids. intros H. apply in_map_iff in H as (d & E & H). eauto. Qed.

Lemma tree_in_ids d m : In d (m :: descendants m) -> In (node_id d) (ids m).
Proof. unfold ids. apply in_map. Qed.

Lemma NoDup_middle {A} (l1 l l2 : list A) (x : A) :
  NoDup (l1 ++ l ++ l2) -> ~ In x l1 -> ~ In x l2 -> NoDup (l1 ++ [x] ++ l2).
Proof.
  intros Hnd H1 H2. apply NoDup_app in Hnd as (Hl1 & Hd1 & Hnd).
  apply NoDup_app in Hnd as (_ & _ & Hl2).
  apply NoDup_app. split; [exact Hl1 |]. split.
  - intros y Hy Hy'. apply list_elem_of_In in Hy'. destruct Hy' as [<- | Hy'].
    + apply H1, list_elem_of_In, Hy.
    + apply (Hd1 y Hy). apply list_elem_of_In, in_or_app. right. exact Hy'.
  - apply NoDup_cons. split; [rewrite list_elem_of_In; exact H2 | exact Hl2].
Qed.

(** The anchor [a] replaced by the string [t] found by [string_of]
    below it. *)
Lemma shrunk_substitute a an t txt r :
  NoDup (ids r) -> find_node a r = Some an -> node_id r <> a ->
  Bs4.string_of an = Some (NavigableString t txt) ->
  shrunk r (substitute a (NavigableString t txt) (prune t r))
  /\ find_node t r = Some (NavigableString t txt)
  /\ find_node a (prune t r) = Some (prune t an)
  /\ forall j, In j (ids (substitute a (NavigableString t txt) (prune t r))) ->
       ~ In j (ids (prune t an)).
Proof.
  intros Hnd Ha Hroot Hs. set (tn := NavigableString t txt).
  destruct (string_of_In _ _ Hs) as [Htin _]. fold tn in Htin.
  destruct (node_in_tree _ _ _ Ha) as [Han Eid].
  assert (Hndan : NoDup (ids an)) by (apply (NoDup_found a r an Hnd Ha)).
  assert (Hta : t <> a).
  { intros ->. rewrite ids_eq, <- desc_ids in Hndan. apply NoDup_cons in Hndan as [Hn _].
    apply Hn, list_elem_of_In. rewrite Eid. change a with (node_id tn). apply in_map, Htin. }
  assert (Htr : In tn (descendants r)).
  { destruct Han as [<- | Han]; [exact Htin | eapply descendants_trans; eassumption]. }
  assert (Hft : find_node t r = Some tn) by (apply (find_node_unique r tn Hnd); right; exact Htr).
  set (r1 := prune t r).
  pose proof (shrunk_prune t r Hnd) as Hsh1. fold r1 in Hsh1.
  destruct Hsh1 as (Hnd1 & Hid1 & Hin1 & Htag1 & Hbel1).
  assert (Ht1 : ~ In t (ids r1)).
  { apply find_node_None. apply find_node_prune_self; [exact Hnd |].
    change t with (node_id tn). apply in_map, Htr. }
  assert (Ha1 : find_node a r1 = Some (prune t an)).
  { unfold r1. rewrite find_node_prune; [rewrite Ha; reflexivity |].
    apply List.Forall_forall. intros x Hx Hxt. apply has_id_true in Hxt.
    assert (x = tn) as ->.
    { apply (same_node r); [exact Hnd | right; exact Hx | right; exact Htr | exact Hxt]. }
    apply find_node_None. cbn. intros [E | []]. congruence. }
  assert (Hroot1 : node_id r1 <> a) by (rewrite Hid1; exact Hroot).
  destruct (ids_substitute a tn r1 Hnd1 _ Ha1 Hroot1) as (l1 & l2 & E1 & E2).
  change (ids tn) with [t] in E2.
  assert (Hl1 : ~ In t l1) by (intros H; apply Ht1; rewrite E1; apply in_or_app; left; exact H).
  assert (Hl2 : ~ In t l2).
  { intros H. apply Ht1. rewrite E1. apply in_or_app. right. apply in_or_app. right. exact H. }
  assert (Hnd' : NoDup (ids (substitute a tn r1))).
  { rewrite E2. rewrite E1 in Hnd1. eapply NoDup_middle; eassumption. }
  assert (Hin' : incl (ids (substitute a tn r1)) (t :: ids r1)).
  { rewrite E2, E1. intros j Hj. apply in_app_or in Hj as [Hj | Hj].
    - right. apply in_or_app. left. exact Hj.
    - destruct Hj as [<- | Hj]; [left; reflexivity |]. right. apply in_or_app. right.
      apply in_or_app. right. exact Hj. }
  split.
  - split; [exact Hnd' |]. split; [rewrite node_id_substitute; exact Hid1 |]. split.
    { intros j Hj. apply Hin' in Hj as [<- | Hj]; [eapply find_node_below, Hft | apply Hin1, Hj]. }
    split.
    + intros j x Hx. unfold tag_at in Hx.
      destruct (find_node j (substitute a tn r1)) as [n' |] eqn:En'; [| discriminate].
      destruct (find_node_substitute a tn j r1 Hnd1 n' En') as [[<- | []] | (m & Hm & ->)].
      { subst tn. discriminate Hx. }
      apply Htag1. unfold tag_at. rewrite Hm. destruct m; exact Hx.
    + intros h n' Hn'.
      destruct (find_node_substitute a tn h r1 Hnd1 n' Hn') as [[<- | []] | (m & Hm & ->)].
      * apply find_node_id in Hn'. cbn [node_id tn] in Hn'. subst h. exists tn.
        split; [exact Hft | apply incl_refl].
      * destruct (Hbel1 h m Hm) as (m0 & Hm0 & Hi0). exists m0. split; [exact Hm0 |].
        destruct (find_node a m) as [d' |] eqn:Ed'.
        2:{ rewrite substitute_notin; [exact Hi0 |]. apply find_node_None in Ed'.
            intros H. apply Ed'. rewrite ids_eq. right. exact H. }
        assert (Hndm : NoDup (ids m)) by (apply (NoDup_found h r1 m Hnd1 Hm)).
        assert (Htm0 : In t (ids m0)).
        { assert (Ham0 : In a (ids m0)) by (apply Hi0; eapply find_node_below, Ed').
          apply ids_in_tree in Ham0 as (x & Hx & Ex).
          destruct (node_in_tree _ _ _ Hm0) as [Hm0r _].
          assert (x = an) as ->.
          { apply (same_node r); [exact Hnd | | exact Han | congruence].
            eapply below_trans; eassumption. }
          change t with (node_id tn). apply tree_in_ids.
          apply (below_trans m0 an); [exact Hx | right; exact Htin]. }
        destruct (Nat.eq_dec (node_id m) a) as [Ema | Ema].
        { rewrite substitute_notin; [exact Hi0 |]. intros H.
          rewrite ids_eq in Hndm. apply NoDup_cons in Hndm as [Hn _]. apply Hn.
          apply list_elem_of_In. rewrite Ema. exact H. }
        destruct (ids_substitute a tn m Hndm d' Ed' Ema) as (k1 & k2 & F1 & F2).
        rewrite F2. change (ids tn) with [t]. intros j Hj.
        apply in_app_or in Hj as [Hj | [<- | Hj]]; [| exact Htm0 |]; apply Hi0; rewrite F1.
        -- apply in_or_app. left. exact Hj.
        -- apply in_or_app. right. apply in_or_app. right. exact Hj.
  - split; [exact Hft |]. split; [exact Ha1 |].
    rewrite E2. rewrite E1 in Hnd1. intros j H Hj.
    apply NoDup_app in Hnd1 as (_ & Hd1 & Hnd1). apply NoDup_app in Hnd1 as (_ & Hd2 & _).
    apply in_app_or in H as [H | [<- | H]].
    + apply (Hd1 j); [apply list_elem_of_In, H |]. apply list_elem_of_In, in_or_app. left.
      exact Hj.
    + apply Ht1. rewrite E1. apply in_or_app. right. apply in_or_app. left. exact Hj.
    + apply (Hd2 j); apply list_elem_of_In; assumption.
Qed.


(** ** The steps of the pass *)

Lemma heading_pass_unfold s :
  _remove_duplicate_heading_anchors s
  = for_each (Bs4.find_all is_heading (node_id (root s)) s) clean_heading s.
Proof. reflexivity. Qed.

Lemma ids_substitute_incl i new n : incl (ids (substitute i new n)) (ids n ++ ids new).
Proof.
  induction n as [k t | k nm a cs IH] using node_ind'.
  - cbn [substitute]. apply incl_appl, incl_refl.
  - cbn [substitute]. rewrite !ids_Tag. intros j [<- | Hj]; [left; reflexivity |].
    apply in_flat_map in Hj as (c' & Hc' & Hj). apply in_map_iff in Hc' as (c & <- & Hc).
    rewrite List.Forall_forall in IH. destruct (has_id i c).
    + apply in_or_app. right. exact Hj.
    + apply (IH c Hc) in Hj. apply in_app_or in Hj as [Hj | Hj]; [| apply in_or_app; right; exact Hj].
      right. apply in_or_app. left. apply in_flat_map. eauto.
Qed.

Lemma limbo_detach_incl i l :
  incl (flat_map ids (flat_map (fun t => if has_id i t then [] else [prune i t]) l))
       (flat_map ids l).
Proof.
  intros j Hj. apply in_flat_map in Hj as (x' & Hx' & Hj).
  apply in_flat_map in Hx' as (x & Hx & Hx'). destruct (has_id i x); [destruct Hx' |].
  destruct Hx' as [<- | []]. apply in_flat_map. exists x. split; [exact Hx |].
  apply (ids_prune_incl i x), Hj.
Qed.

Lemma found_ids_incl j x n : find_node j x = Some n -> incl (ids n) (ids x).
Proof.
  intros H. apply find_node_In in H as [<- | H]; [apply incl_refl |].
  rewrite (ids_eq x), <- desc_ids. apply incl_tl. apply descendants_ids_incl, H.
Qed.

Lemma first_some_find_incl j l n :
  first_some (find_node j) l = Some n -> incl (ids n) (flat_map ids l).
Proof.
  intros H. apply first_some_Some in H as (x & Hx & H). intros k Hk.
  apply in_flat_map. exists x. split; [exact Hx | eapply found_ids_incl; eassumption].
Qed.

Lemma map_substitute_notin i new l :
  ~ In i (flat_map ids l) -> map (substitute i new) l = l.
Proof.
  induction l as [| x l IH]; intros Hi; [reflexivity |]. cbn [map flat_map] in *.
  rewrite IH by (intros H; apply Hi, in_or_app; right; exact H).
  rewrite substitute_notin; [reflexivity |]. intros H. apply Hi, in_or_app. left.
  rewrite ids_eq. right. exact H.
Qed.

Lemma detach_tidy i s :
  tidy s ->
  tidy (Bs4.detach i s) /\ shrunk (root s) (root (Bs4.detach i s))
  /\ (i <> node_id (root s) -> ~ In i (ids (root (Bs4.detach i s)))).
Proof.
  intros [Hnd Hdis]. unfold Bs4.detach. cbn [root limbo]. split; [split |]; [| | split].
  - apply NoDup_prune, Hnd.
  - cbn [root limbo]. intros j Hj Hl. apply (Hdis j); [apply (ids_prune_incl i), Hj |].
    apply (limbo_detach_incl i), Hl.
  - apply shrunk_prune, Hnd.
  - intros Hi Hin. pose proof (ids_prune_incl i _ _ Hin) as Hin0.
    rewrite ids_eq, <- desc_ids in Hin0. destruct Hin0 as [E | Hin0]; [congruence |].
    apply find_node_None in Hin; [exact Hin |]. apply find_node_prune_self; assumption.
Qed.


Lemma string_below an t txt :
  NoDup (ids an) -> Bs4.string_of an = Some (NavigableString t txt) ->
  t <> node_id an /\ In t (ids an).
Proof.
  intros Hnd Hs. destruct (string_of_In _ _ Hs) as [Hin _].
  assert (Ht : In t (map node_id (descendants an))).
  { change t with (node_id (NavigableString t txt)). apply in_map, Hin. }
  rewrite ids_eq, <- desc_ids in *. split; [| right; exact Ht].
  apply NoDup_cons in Hnd as [Hn _]. intros ->. apply Hn, list_elem_of_In, Ht.
Qed.

(** The replacement of an anchor by its string. *)
Lemma replace_tidy a t txt s :
  tidy s -> a <> node_id (root s) ->
  Bs4.lookup a s ≫= Bs4.string_of = Some (NavigableString t txt) ->
  fst (Bs4.replace_with a t s) = Done tt ->
  tidy (snd (Bs4.replace_with a t s))
  /\ shrunk (root s) (root (snd (Bs4.replace_with a t s)))
  /\ ~ In a (ids (root (snd (Bs4.replace_with a t s)))).
Proof.
  intros [Hnd Hdis] Hroot Hs. set (tn := NavigableString t txt) in *.
  destruct (Bs4.replace_with a t s) as [o s'] eqn:Hrun. cbn [fst snd]. intros ->.
  revert Hrun. unfold Bs4.replace_with. unfold bind at 1, get at 1.
  destruct (Bs4.parent_node a s) as [p |]; [| discriminate].
  unfold Bs4.lookup in Hs. destruct (find_node a (root s)) as [an |] eqn:Ea.
  - (* the anchor is in the document *)
    cbn [mbind option_bind] in Hs.
    destruct (shrunk_substitute a an t txt (root s) Hnd Ea (not_eq_sym Hroot) Hs)
      as (Hsh & Hft & Ha1 & Hout). fold tn in Hsh, Hft, Hout.
    destruct (string_below an t txt (NoDup_found _ _ _ Hnd Ea) Hs) as [Hta _].
    rewrite (find_node_id _ _ _ Ea) in Hta. apply Nat.eqb_neq in Hta. rewrite Hta.
    destruct (Nat.eqb t (node_id p)); [discriminate |].
    unfold bind at 1, Bs4.take, bind at 1, get at 1, Bs4.lookup. rewrite Hft.
    unfold bind at 1, put at 1, ret at 1. unfold bind at 1, get at 1.
    unfold Bs4.lookup. unfold Bs4.detach at 1. cbn [root]. rewrite Ha1.
    unfold put. intros [= <-]. cbn [root limbo].
    assert (Hal : ~ In a (flat_map ids (limbo (Bs4.detach t s)))).
    { intros H. apply (Hdis a); [eapply find_node_below, Ea |].
      apply (limbo_detach_incl t), H. }
    rewrite (map_substitute_notin _ _ _ Hal).
    split; [split |]; [| | split].
    + apply Hsh.
    + cbn [root limbo]. intros j Hj Hl. rewrite flat_map_app in Hl.
      apply in_app_or in Hl as [Hl | Hl].
      * apply (Hdis j); [apply Hsh, Hj | apply (limbo_detach_incl t), Hl].
      * cbn [flat_map] in Hl. rewrite app_nil_r in Hl. apply (Hout j Hj Hl).
    + exact Hsh.
    + intros H. apply (Hout a H). rewrite ids_eq, node_id_prune, (find_node_id _ _ _ Ea).
      left. reflexivity.
  - (* the anchor is detached: the document is not touched *)
    destruct (first_some (find_node a) (limbo s)) as [an |] eqn:Eal; [| discriminate].
    cbn [mbind option_bind] in Hs.
    assert (Hna : ~ In a (ids (root s))) by (apply find_node_None, Ea).
    assert (Hnt : ~ In t (ids (root s))).
    { intros H. apply (Hdis t H). apply (first_some_find_incl _ _ _ Eal).
      destruct (string_of_In _ _ Hs) as [Hin _]. rewrite ids_eq, <- desc_ids. right.
      change t with (node_id tn). apply in_map, Hin. }
    assert (Hpt : prune t (root s) = root s).
    { apply prune_notin. intros H. apply Hnt. rewrite ids_eq. right. exact H. }
    assert (Hsame : forall s2, root s2 = root s ->
              incl (flat_map ids (limbo s2)) (flat_map ids (limbo s)) ->
              tidy s2 /\ shrunk (root s) (root s2) /\ ~ In a (ids (root s2))).
    { intros s2 Er Hl. unfold tidy. rewrite Er. split; [split |]; [| | split].
      - exact Hnd.
      - intros j Hj H. apply (Hdis j Hj), Hl, H.
      - apply shrunk_refl, Hnd.
      - exact Hna. }
    destruct (Nat.eqb t a).
    { intros [= <-]. apply Hsame; [reflexivity | apply incl_refl]. }
    destruct (Nat.eqb t (node_id p)); [discriminate |].
    unfold bind at 1, Bs4.take, bind at 1, get at 1, Bs4.lookup.
    apply find_node_None in Hnt. rewrite Hnt.
    destruct (first_some (find_node t) (limbo s)) as [n |] eqn:En; [| discriminate].
    unfold bind at 1, put at 1, ret at 1. unfold bind at 1, get at 1.
    unfold Bs4.lookup. unfold Bs4.detach at 1. cbn [root]. rewrite Hpt, Ea.
    unfold Bs4.detach at 1. cbn [limbo].
    destruct (first_some (find_node a) (limbo (Bs4.detach t s))) as [o |] eqn:Eo;
      unfold Bs4.detach at 1 in Eo; cbn [limbo] in Eo; rewrite Eo; [| discriminate].
    unfold put. intros [= <-]. apply Hsame.
    + cbn [root Bs4.detach]. rewrite Hpt. apply substitute_notin. intros H. apply Hna.
      rewrite ids_eq. right. exact H.
    + cbn [limbo Bs4.detach]. rewrite flat_map_app. intros j Hj.
      apply in_app_or in Hj as [Hj | Hj].
      * apply in_flat_map in Hj as (x' & Hx' & Hj). apply in_map_iff in Hx' as (x & <- & Hx).
        apply ids_substitute_incl in Hj. apply in_app_or in Hj as [Hj | Hj].
        -- apply (limbo_detach_incl t). apply in_flat_map. eauto.
        -- apply (first_some_find_incl _ _ _ En), Hj.
      * cbn [flat_map] in Hj. rewrite app_nil_r in Hj.
        apply (limbo_detach_incl t). apply (first_some_find_incl _ _ _ Eo), Hj.
Qed.


Lemma unwrap_anchor_tidy a s :
  tidy s -> a <> node_id (root s) -> fst (unwrap_anchor a s) = Done tt ->
  tidy (snd (unwrap_anchor a s))
  /\ shrunk (root s) (root (snd (unwrap_anchor a s)))
  /\ ~ In a (ids (root (snd (unwrap_anchor a s)))).
Proof.
  intros Ht Ha. unfold unwrap_anchor, bind, get.
  assert (Hdec : tidy (snd (Bs4.decompose a s))
                 /\ shrunk (root s) (root (snd (Bs4.decompose a s)))
                 /\ ~ In a (ids (root (snd (Bs4.decompose a s))))).
  { unfold Bs4.decompose, modify. cbn [snd]. destruct (detach_tidy a s Ht) as (H1 & H2 & H3).
    auto. }
  destruct (Bs4.lookup a s ≫= Bs4.string_of) as [[t txt | k nm atr cs] |] eqn:E;
    try (intros _; exact Hdec).
  destruct (Py.truthy txt); [| intros _; exact Hdec].
  apply (replace_tidy a t txt s Ht Ha E).
Qed.

Lemma unwrap_loop l : forall s,
  tidy s -> (forall a, In a l -> a <> node_id (root s)) ->
  fst (for_each l unwrap_anchor s) = Done tt ->
  tidy (snd (for_each l unwrap_anchor s))
  /\ shrunk (root s) (root (snd (for_each l unwrap_anchor s)))
  /\ forall a, In a l -> ~ In a (ids (root (snd (for_each l unwrap_anchor s)))).
Proof.
  induction l as [| a l IH]; intros s Ht Hl.
  - intros _. cbn [for_each snd ret]. split; [exact Ht |].
    split; [apply shrunk_refl, Ht | intros a []].
  - cbn [for_each]. unfold bind.
    pose proof (unwrap_anchor_tidy a s Ht (Hl a (or_introl eq_refl))) as Hstep.
    destruct (unwrap_anchor a s) as [[[] | e] s1]; [| discriminate].
    cbn [fst snd] in Hstep. destruct (Hstep eq_refl) as (Ht1 & Hsh1 & Ha1).
    assert (Hid1 : node_id (root s1) = node_id (root s)) by apply Hsh1.
    intros Hdone. destruct (IH s1 Ht1) as (Ht2 & Hsh2 & Hl2); [| exact Hdone |].
    { intros b Hb. rewrite Hid1. apply Hl. right. exact Hb. }
    split; [exact Ht2 |]. split; [eapply shrunk_trans; eassumption |].
    intros b [<- | Hb]; [| apply Hl2, Hb]. intros H. apply Ha1.
    destruct Hsh2 as (_ & _ & Hincl & _). apply Hincl, H.
Qed.

Lemma lookup_below_not_root h hn d s :
  tidy s -> Bs4.lookup h s = Some hn -> In d (descendants hn) ->
  node_id d <> node_id (root s).
Proof.
  intros [Hnd Hdis] Hl Hd. unfold Bs4.lookup in Hl.
  destruct (find_node h (root s)) as [n |] eqn:E.
  - injection Hl as ->. intros Hid.
    assert (Hin : In d (descendants (root s))).
    { apply find_node_In in E as [<- | E]; [exact Hd | eapply descendants_trans; eassumption]. }
    rewrite ids_eq, <- desc_ids in Hnd. apply NoDup_cons in Hnd as [Hn _]. apply Hn.
    apply list_elem_of_In. rewrite <- Hid. apply in_map, Hin.
  - intros Hid. apply (Hdis (node_id d)).
    + rewrite Hid, ids_eq. left. reflexivity.
    + apply (first_some_find_incl _ _ _ Hl). rewrite ids_eq, <- desc_ids. right.
      apply in_map, Hd.
Qed.

Lemma clean_heading_tidy h s :
  tidy s -> fst (clean_heading h s) = Done tt ->
  tidy (snd (clean_heading h s))
  /\ shrunk (root s) (root (snd (clean_heading h s)))
  /\ forall hn x d,
       find_node h (root s) = Some hn -> attrs_of hn !! "id" = Some x ->
       Py.truthy x = true -> In d (descendants hn) -> anchor_with_id x d = true ->
       ~ In (node_id d) (ids (root (snd (clean_heading h s)))).
Proof.
  intros Ht. destruct (clean_heading h s) as [o s'] eqn:Hrun. cbn [fst snd]. intros ->.
  revert Hrun. unfold clean_heading, bind at 1, Bs4.tag_get, bind at 1, get at 1.
  destruct (Bs4.lookup h s) as [[k t | k nm atr cs] |] eqn:El; try discriminate.
  unfold ret at 1.
  assert (Hsame : forall hn x, find_node h (root s) = Some hn -> attrs_of hn !! "id" = Some x ->
                    atr !! "id" = Some x /\ hn = Tag k nm atr cs).
  { intros hn x Hf Hx. unfold Bs4.lookup in El. rewrite Hf in El. injection El as ->. auto. }
  assert (Hskip : tidy s /\ shrunk (root s) (root s)) by (split; [exact Ht | apply shrunk_refl, Ht]).
  destruct (atr !! "id") as [x |] eqn:Ex.
  2:{ intros [= <-]. split; [apply Hskip |]. split; [apply Hskip |].
      intros hn x d Hf Hx. destruct (Hsame hn x Hf Hx) as [[=] _]. }
  destruct (Py.truthy x) eqn:Etx.
  2:{ intros [= <-]. split; [apply Hskip |]. split; [apply Hskip |].
      intros hn x' d Hf Hx Htr. destruct (Hsame hn x' Hf Hx) as [[= ->] _]. congruence. }
  unfold bind, get. unfold Bs4.find_all. rewrite El.
  set (l := map node_id (List.filter (anchor_with_id x) (descendants (Tag k nm atr cs)))).
  intros Hrun. destruct (unwrap_loop l s Ht) as (Ht' & Hsh & Hgone);
    [| rewrite Hrun; reflexivity |].
  { intros a Ha. apply in_map_iff in Ha as (d & <- & Hd). apply filter_In in Hd as [Hd _].
    eapply lookup_below_not_root; eassumption. }
  rewrite Hrun in Ht', Hsh, Hgone. cbn [snd] in Ht', Hsh, Hgone.
  split; [exact Ht' |]. split; [exact Hsh |].
  intros hn x' d Hf Hx _ Hd Hanch. destruct (Hsame hn x' Hf Hx) as [[= ->] ->].
  apply Hgone. apply in_map, filter_In. auto.
Qed.


Lemma attrs_Some_tag n k v : attrs_of n !! k = Some v -> exists i nm a cs, n = Tag i nm a cs.
Proof. destruct n as [i t | i nm a cs]; [discriminate | eauto]. Qed.

(** A node below a heading of the later tree was below it in the
    earlier one, with the same name and attributes. *)
Lemma shrunk_below r r' h hn d :
  NoDup (ids r) -> shrunk r r' -> find_node h r' = Some hn -> In d (descendants hn) ->
  _is_tag d = true ->
  exists hn0 d0, find_node h r = Some hn0 /\ In d0 (descendants hn0)
    /\ node_id d0 = node_id d /\ attrs_of hn0 = attrs_of hn
    /\ (forall nm, named nm d0 = named nm d) /\ attrs_of d0 = attrs_of d.
Proof.
  intros Hnd (Hnd' & _ & _ & Htag & Hbel) Hh Hd Hisd.
  destruct (Hbel h hn Hh) as (hn0 & Hh0 & Hincl). exists hn0.
  destruct (node_in_tree _ _ _ Hh) as [Hhn Ehn].
  assert (Hd' : In d (descendants r')).
  { destruct Hhn as [<- | Hhn]; [exact Hd | eapply descendants_trans; eassumption]. }
  destruct d as [i t | i nm a cs]; [discriminate |].
  pose proof (Htag i _ (tag_at_descendant (mkSoup r' [] 0) i nm a cs Hnd' Hd')) as Ht0.
  apply tag_at_find in Ht0 as [cs0 Ht0].
  assert (Hi0 : In i (ids hn0)).
  { apply Hincl. rewrite ids_eq, <- desc_ids. right.
    change i with (node_id (Tag i nm a cs)). apply in_map, Hd. }
  apply ids_in_tree in Hi0 as (d0 & Hd0 & Eid).
  destruct (node_in_tree _ _ _ Hh0) as [Hhn0 Ehn0].
  assert (d0 = Tag i nm a cs0) as ->.
  { apply (same_node r); [exact Hnd | eapply below_trans; eassumption | | exact Eid].
    eapply find_node_In, Ht0. }
  exists (Tag i nm a cs0). split; [exact Hh0 |]. split; [| split; [reflexivity |]].
  - destruct Hd0 as [E | Hd0]; [| exact Hd0]. exfalso.
    assert (Hndh : NoDup (ids hn)) by (apply (NoDup_found h r' hn Hnd' Hh)).
    rewrite ids_eq, <- desc_ids in Hndh. apply NoDup_cons in Hndh as [Hn _]. apply Hn.
    apply list_elem_of_In. rewrite Ehn, <- Ehn0, E. cbn [node_id].
    change i with (node_id (Tag i nm a cs)). apply in_map, Hd.
  - split; [| split; reflexivity].
    destruct hn as [j t | j nmh ah csh].
    + destruct Hd.
    + assert (Hth : tag_at h r' = Some (nmh, ah)) by (unfold tag_at; rewrite Hh; reflexivity).
      apply Htag in Hth. unfold tag_at in Hth. rewrite Hh0 in Hth.
      destruct hn0; [discriminate |]. injection Hth as _ ->. reflexivity.
Qed.

Lemma clean_loop l : forall s,
  tidy s -> fst (for_each l clean_heading s) = Done tt ->
  tidy (snd (for_each l clean_heading s))
  /\ shrunk (root s) (root (snd (for_each l clean_heading s)))
  /\ forall h hn x d,
       In h l -> find_node h (root (snd (for_each l clean_heading s))) = Some hn ->
       attrs_of hn !! "id" = Some x -> Py.truthy x = true ->
       In d (descendants hn) -> anchor_with_id x d = false.
Proof.
  induction l as [| h0 l IH]; intros s Ht.
  - intros _. cbn [for_each snd ret]. split; [exact Ht |].
    split; [apply shrunk_refl, Ht | intros h hn x d []].
  - cbn [for_each]. unfold bind. pose proof (clean_heading_tidy h0 s Ht) as Hstep.
    destruct (clean_heading h0 s) as [[[] | e] s1]; [| discriminate].
    cbn [fst snd] in Hstep. destruct (Hstep eq_refl) as (Ht1 & Hsh1 & Hgone).
    intros Hdone. destruct (IH s1 Ht1 Hdone) as (Ht2 & Hsh2 & Hrest).
    set (s' := snd (for_each l clean_heading s1)) in *.
    split; [exact Ht2 |]. split; [eapply shrunk_trans; eassumption |].
    intros h hn x d [<- | Hh]; [| apply Hrest, Hh].
    intros Hf Hx Htr Hd. destruct (anchor_with_id x d) eqn:Hanch; [exfalso | reflexivity].
    assert (Hisd : _is_tag d = true).
    { unfold anchor_with_id in Hanch. destruct d; [discriminate | reflexivity]. }
    destruct (shrunk_below (root s) (root s') h0 hn d (proj1 Ht)
                (shrunk_trans _ _ _ Hsh1 Hsh2) Hf Hd Hisd)
      as (hn0 & d0 & Hf0 & Hd0 & Eid & Eattrs & Enm & Eatr).
    apply (Hgone hn0 x d0 Hf0); [rewrite Eattrs; exact Hx | exact Htr | exact Hd0 | |].
    + unfold anchor_with_id in *. rewrite Enm, Eatr. exact Hanch.
    + rewrite Eid. destruct Hsh2 as (_ & _ & Hincl & _). apply Hincl.
      destruct (node_in_tree _ _ _ Hf) as [Hhn _]. apply tree_in_ids.
      eapply below_trans; [exact Hhn | right; exact Hd].
Qed.


Lemma tidy_parsed s : NoDup (ids (root s)) -> limbo s = [] -> tidy s.
Proof. intros Hnd Hl. split; [exact Hnd |]. rewrite Hl. intros j _ []. Qed.

(** After a run that ends normally, no heading with an [id] has an
    anchor of that [id] below it. *)
Lemma heading_pass_clean s :
  NoDup (ids (root s)) -> limbo s = [] ->
  fst (_remove_duplicate_heading_anchors s) = Done tt ->
  tidy (snd (_remove_duplicate_heading_anchors s))
  /\ forall hn x d,
       In hn (descendants (root (snd (_remove_duplicate_heading_anchors s)))) ->
       is_heading hn = true -> attrs_of hn !! "id" = Some x -> Py.truthy x = true ->
       In d (descendants hn) -> anchor_with_id x d = false.
Proof.
  intros Hnd Hl. rewrite heading_pass_unfold. intros Hdone.
  destruct (clean_loop _ s (tidy_parsed s Hnd Hl) Hdone) as (Ht' & Hsh & Hclean).
  set (s' := snd (for_each (Bs4.find_all is_heading (node_id (root s)) s) clean_heading s)) in *.
  split; [exact Ht' |]. intros hn x d Hhn Hhead Hx Htr Hd.
  destruct Ht' as [Hnd' _].
  destruct hn as [i t | i nm a cs]; [discriminate |].
  apply (Hclean i (Tag i nm a cs) x d); auto.
  2:{ apply (find_node_unique (root s') (Tag i nm a cs) Hnd'). right. exact Hhn. }
  destruct Hsh as (_ & Hid & _ & Htag & _).
  pose proof (Htag i _ (tag_at_descendant s' i nm a cs Hnd' Hhn)) as Ht0.
  apply tag_at_find in Ht0 as [cs0 Ht0].
  apply In_find_all; [exact Hnd |]. exists (Tag i nm a cs0).
  split; [| split; [exact Hhead | reflexivity]].
  apply find_node_In in Ht0 as [E | Ht0]; [exfalso | exact Ht0].
  rewrite ids_eq, <- desc_ids in Hnd'. apply NoDup_cons in Hnd' as [Hn _]. apply Hn.
  apply list_elem_of_In. rewrite Hid, E. cbn [node_id].
  change i with (node_id (Tag i nm a cs)). apply in_map, Hhn.
Qed.

(** X11. After a run of the pass that ends normally, no heading of the
    document that has a non-empty [id] has below it an anchor with the
    same [id]: every duplicate was taken out, and none came back. *)
Theorem no_duplicate_anchor_left s :
  NoDup (ids (root s)) -> limbo s = [] ->
  fst (_remove_duplicate_heading_anchors s) = Done tt ->
  forall hn x d,
    In hn (descendants (root (snd (_remove_duplicate_heading_anchors s)))) ->
    is_heading hn = true -> attrs_of hn !! "id" = Some x -> Py.truthy x = true ->
    In d (descendants hn) -> anchor_with_id x d = false.
Proof. intros Hnd Hl Hdone. apply (heading_pass_clean s Hnd Hl Hdone). Qed.

Lemma no_duplicate_anchor_left_witness :
  anchor_with_id "intro" (NavigableString 5 "1 Introduction") = false.
Proof.
  apply (no_duplicate_anchor_left doc_heading_plain)
    with (hn := Tag 3 "h2" (<["id" := "intro"]> ∅) [NavigableString 5 "1 Introduction"]).
  - distinct_ids.
  - reflexivity.
  - vm_compute. reflexivity.
  - vm_compute. right. right. left. reflexivity.
  - reflexivity.
  - reflexivity.
  - reflexivity.
  - left. reflexivity.
Defined.

Lemma filter_none {A} (f : A -> bool) l : (forall x, In x l -> f x = false) -> List.filter f l = [].
Proof.
  induction l as [| x l IH]; intros H; [reflexivity |]. cbn [List.filter].
  rewrite (H x (or_introl eq_refl)). apply IH. intros y Hy. apply H. right. exact Hy.
Qed.

(** X12. The pass is idempotent: run again on what a run that ended
    normally left, it ends normally and changes nothing. *)
Theorem heading_twice s :
  NoDup (ids (root s)) -> limbo s = [] ->
  fst (_remove_duplicate_heading_anchors s) = Done tt ->
  _remove_duplicate_heading_anchors (snd (_remove_duplicate_heading_anchors s))
  = (Done tt, snd (_remove_duplicate_heading_anchors s)).
Proof.
  intros Hnd Hl Hdone. destruct (heading_pass_clean s Hnd Hl Hdone) as [[Hnd' _] Hclean].
  set (s' := snd (_remove_duplicate_heading_anchors s)) in *.
  rewrite heading_pass_unfold. apply for_each_fixed. intros h Hh.
  apply In_find_all in Hh as (hn & Hhn & Hhead & <-); [| exact Hnd'].
  destruct hn as [i t | i nm a cs]; [discriminate |]. cbn [node_id].
  assert (Hlook : Bs4.lookup i s' = Some (Tag i nm a cs)).
  { pose proof (find_node_unique (root s') (Tag i nm a cs) Hnd' (or_intror Hhn)) as E.
    cbn [node_id] in E. unfold Bs4.lookup. rewrite E. reflexivity. }
  unfold clean_heading, bind at 1, Bs4.tag_get, bind at 1, get at 1. rewrite Hlook.
  unfold ret at 1. destruct (a !! "id") as [x |] eqn:Ex; [| reflexivity].
  destruct (Py.truthy x) eqn:Etx; [| reflexivity].
  unfold bind, get, Bs4.find_all. rewrite Hlook, filter_none; [reflexivity |].
  intros d Hd. apply (Hclean (Tag i nm a cs) x d); auto.
Qed.

Lemma heading_twice_witness :
  _remove_duplicate_heading_anchors (snd (_remove_duplicate_heading_anchors doc_heading_plain))
  = (Done tt, snd (_remove_duplicate_heading_anchors doc_heading_plain)).
Proof.
  apply (heading_twice doc_heading_plain).
  - distinct_ids.
  - reflexivity.
  - vm_compute. reflexivity.
Defined.

(** * Two candidates in one paragraph *)

(** X13. The sweep reads the attributes of every image it collected,
    also of one that an earlier step destroyed along with its
    paragraph. When the first image that the sweep removes takes its
    paragraph with it (a paragraph of images and blanks only) and the
    next image collected is in that paragraph too, the pass stops with
    an [AttributeError], the paragraph being removed. *)
Theorem logo_sweep_raises s pre i j rest a p :
  NoDup (ids (root s)) -> limbo s = [] -> named "[document]" (root s) = true ->
  Bs4.find_all (named "img") (node_id (root s)) s = pre ++ i :: j :: rest ->
  (forall k a', In k pre -> tag_at k (root s) = Some ("img", a') ->
     is_logo_candidate (or_empty (a' !! "src")) (or_empty (a' !! "alt")) = false
     \/ fst (_is_canonical_logo_img k (body_or_soup s) s) = Done true) ->
  tag_at i (root s) = Some ("img", a) ->
  is_logo_candidate (or_empty (a !! "src")) (or_empty (a !! "alt")) = true ->
  fst (_is_canonical_logo_img i (body_or_soup s) s) = Done false ->
  parent_in i (root s) = Some p -> named "p" p = true ->
  only_imgs_and_blanks (contents_of p) = true ->
  In j (ids p) ->
  _enforce_single_oasis_logo s = (Raised AttributeError, Bs4.detach (node_id p) s).
Proof.
  intros Hnd Hl Hdoc Hlist Hpre Hi Hcand Hcan Hp Hnp Honly Hj.
  set (body := body_or_soup s) in *.
  assert (Hsweep : sweep_logo_candidates body s
                   = (Raised AttributeError, Bs4.detach (node_id p) s)).
  { rewrite sweep_unfold, Hlist, for_each_app.
    rewrite for_each_fixed.
    2:{ intros k Hk. rewrite sweep_step_run, (lookup_no_limbo _ _ Hl).
        assert (Hin : In k (Bs4.find_all (named "img") (node_id (root s)) s)).
        { rewrite Hlist. apply in_or_app. left. exact Hk. }
        destruct (found_is_tag "img" s k Hnd Hin) as (a' & cs & Hf & _). rewrite Hf.
        destruct (Hpre k a' Hk) as [Hc | Hc].
        - unfold tag_at. rewrite Hf. reflexivity.
        - unfold candidate_attrs. rewrite Hc. reflexivity.
        - rewrite canonical_run in Hc. cbn [fst] in Hc. injection Hc as ->.
          rewrite andb_false_r. reflexivity. }
    cbn [for_each]. unfold bind at 1. rewrite sweep_step_run, (lookup_no_limbo _ _ Hl).
    apply tag_at_find in Hi as [cs Hi]. rewrite Hi. unfold candidate_attrs. rewrite Hcand.
    rewrite canonical_run in Hcan. cbn [fst] in Hcan. injection Hcan as ->. cbn [negb andb].
    assert (Ht : removal_target i s = node_id p).
    { unfold removal_target. rewrite (parent_node_no_limbo _ _ Hl), Hp, Hnp, Honly. reflexivity. }
    rewrite Ht. unfold bind at 1. rewrite sweep_step_run.
    assert (Hgone : Bs4.lookup j (Bs4.detach (node_id p) s) = None).
    { rewrite lookup_no_limbo by (unfold Bs4.detach; cbn [limbo]; rewrite Hl; reflexivity).
      unfold Bs4.detach. cbn [root]. apply find_node_prune_gone; [exact Hnd |].
      exists p. split; [| split; [unfold has_id; apply Nat.eqb_refl | exact Hj]].
      apply parent_in_spec in Hp as [[E | Hin] _]; [exfalso | exact Hin].
      destruct (document_root _ Hdoc) as (Hrp & _). rewrite E in Hrp. congruence. }
    rewrite Hgone. reflexivity. }
  rewrite logo_run. fold body. rewrite Hsweep. reflexivity.
Qed.

Lemma logo_sweep_raises_witness :
  _enforce_single_oasis_logo doc_two_old = (Raised AttributeError, Bs4.detach 5 doc_two_old).
Proof.
  apply (logo_sweep_raises doc_two_old [4] 6 7 [] (<["src" := "OASISLogo-old.png"]> ∅)
           (Tag 5 "p" ∅ [Tag 6 "img" (<["src" := "OASISLogo-old.png"]> ∅) [];
                         Tag 7 "img" (<["src" := "OASISLogo-older.png"]> ∅) []])).
  - distinct_ids.
  - reflexivity.
  - reflexivity.
  - vm_compute. reflexivity.
  - intros k a' [<- | []] _. right. vm_compute. reflexivity.
  - reflexivity.
  - reflexivity.
  - vm_compute. reflexivity.
  - reflexivity.
  - reflexivity.
  - reflexivity.
  - right. right. left. reflexivity.
Defined.

(** * Style sheets that are downloaded, and links that are left alone *)

Section StylesheetsDone.

Variable urlparse : string -> outcome ParseResult.
Variable fetch : list string -> string -> option string.
Variable flag : string.
Variable self : converter.

(** The step on a live link, when nothing fails. *)
Lemma localize_stylesheet_done w i atr raw pr :
  tag_at i (root (dom w)) = Some ("link", atr) -> atr !! "href" = Some raw ->
  urlparse (Py.strip raw) = Done pr ->
  (rel_is_stylesheet atr = true -> http_scheme pr = true ->
   css_path self pr ∈ files w \/ is_Some (fetch (requests w) (Py.strip raw)) ->
   tag_at i (root (dom (snd (localize_stylesheet urlparse fetch self i w))))
   = Some ("link", <["href" := Py.path_join styles_subdir (css_name pr)]> atr))
  /\ (rel_is_stylesheet atr = false \/ http_scheme pr = false ->
      snd (localize_stylesheet urlparse fetch self i w) = w).
Proof.
  intros Ht Hhref Hparse. destruct w as [d fs lg rq]. cbn [dom files log requests] in *.
  destruct (localize_stylesheet urlparse fetch self i (mkWorld d fs lg rq)) as [o w2] eqn:Hrun.
  cbn [snd]. revert Hrun.
  unfold localize_stylesheet. unfold bind at 1. unfold on_dom at 1. cbn [dom files log requests].
  rewrite (tag_get_run _ _ _ _ _ Ht). fold (rel_is_stylesheet atr).
  destruct (rel_is_stylesheet atr); cbn [negb].
  2:{ intros [= _ <-]. split; [discriminate | reflexivity]. }
  unfold bind at 1. unfold on_dom at 1. cbn [dom files log requests].
  rewrite (getitem_run _ _ _ _ _ _ Ht Hhref).
  unfold bind at 1. unfold lift_outcome. rewrite Hparse.
  destruct (http_scheme pr).
  2:{ intros [= _ <-]. split; [discriminate | reflexivity]. }
  intros Hrun. split; [| intros [H | H]; discriminate]. intros _ _ Hgot. revert Hrun.
  fold (css_name pr). fold (css_path self pr).
  unfold bind at 1. unfold get at 1. cbn [files].
  assert (Hset : forall fs' lg' rq',
            on_dom (Bs4.setitem i "href" (Py.path_join styles_subdir (css_name pr)))
              (mkWorld d fs' lg' rq') = (o, w2) ->
            tag_at i (root (dom w2))
            = Some ("link", <["href" := Py.path_join styles_subdir (css_name pr)]> atr)).
  { intros fs' lg' rq'. unfold on_dom. cbn [dom files log requests].
    rewrite (setitem_run _ _ _ _ _ _ Ht). intros [= _ <-]. cbn [dom].
    rewrite tag_at_on_all, Nat.eqb_refl, Ht. reflexivity. }
  destruct (bool_decide (css_path self pr ∈ fs)) eqn:Ex.
  - unfold bind at 1. unfold ret at 1. apply Hset.
  - apply bool_decide_eq_false_1 in Ex. destruct Hgot as [Hin | [body Hbody]]; [contradiction |].
    unfold bind at 1. unfold bind at 1. unfold logger, modify. cbn [dom files log requests].
    unfold bind at 1. unfold requests_get. unfold bind at 1. unfold get at 1.
    unfold bind at 1. unfold put at 1. unfold ret at 1. cbn [dom files log requests].
    rewrite Hbody.
    unfold bind at 1. unfold write_file, modify. cbn [dom files log requests]. unfold ret at 1.
    apply Hset.
Qed.


End StylesheetsDone.


(** * Sanitized paths *)

Lemma has_char_app x a b : Py.has_char x (a +:+ b) = Py.has_char x a || Py.has_char x b.
Proof.
  induction a as [| c a IH]; [reflexivity |]. rewrite append_cons. cbn [Py.has_char].
  rewrite IH, orb_assoc. reflexivity.
Qed.

Lemma remove_char_has x s : Py.has_char x (Py.remove_char x s) = false.
Proof.
  induction s as [| c s IH]; [reflexivity |]. cbn [Py.remove_char].
  destruct (Ascii.eqb c x) eqn:E; [exact IH |]. cbn [Py.has_char]. rewrite E, IH. reflexivity.
Qed.

(** The components of a path hold no slash, and no character that the
    path does not hold. *)
Lemma split_slash_parts x s :
  Forall (fun c => Py.has_char "/" c = false
                   /\ (Py.has_char x s = false -> Py.has_char x c = false))
         (split_slash s).
Proof.
  induction s as [| c s IH]; [repeat constructor |]. cbn [split_slash Py.has_char].
  destruct (Ascii.eqb c "/") eqn:Ec.
  - constructor; [split; [reflexivity | reflexivity] |].
    eapply List.Forall_impl; [| exact IH]. cbn beta. intros y [H1 H2]. split; [exact H1 |].
    intros H. apply orb_false_iff in H as [_ H]. auto.
  - destruct (split_slash s) as [| y ys]; [repeat constructor; cbn [Py.has_char] |].
    + rewrite Ec. reflexivity.
    + intros H. apply orb_false_iff in H as [H _]. rewrite H. reflexivity.
    + apply Forall_cons in IH as [[H1 H2] IH]. constructor.
      * split; [cbn [Py.has_char]; rewrite Ec; exact H1 |].
        intros H. apply orb_false_iff in H as [Hc H]. cbn [Py.has_char]. rewrite Hc. auto.
      * eapply List.Forall_impl; [| exact IH]. cbn beta. intros z [G1 G2]. split; [exact G1 |].
        intros H. apply orb_false_iff in H as [_ H]. auto.
Qed.

(** What the loop keeps are components of the path, none of them empty
    or a dot. *)
Lemma norm_comps_keeps (P : string -> Prop) b comps : forall stack,
  Forall P stack ->
  Forall (fun c => c <> "" -> c <> "." -> P c) comps ->
  Forall P (norm_comps b stack comps).
Proof.
  induction comps as [| c comps IH]; intros stack Hs Hc; cbn [norm_comps].
  - apply List.Forall_rev, Hs.
  - apply Forall_cons in Hc as [Hc Hcs].
    destruct (String.eqb c "") eqn:E1; [apply IH; assumption |].
    destruct (String.eqb c ".") eqn:E2; [apply IH; assumption |]. cbn [orb].
    apply String.eqb_neq in E1, E2.
    destruct (_ || _ || _).
    + apply IH; [constructor; auto | exact Hcs].
    + apply IH; [| exact Hcs]. destruct stack as [| t stack]; [constructor |].
      apply Forall_cons in Hs as [_ Hs]. exact Hs.
Qed.

Lemma join_slash_has x l :
  Ascii.eqb "/" x = false -> Forall (fun c => Py.has_char x c = false) l ->
  Py.has_char x (join_slash l) = false.
Proof.
  intros Hx. induction 1 as [| c l Hc Hl IH]; [reflexivity |]. cbn [join_slash].
  destruct l as [| d l]; [exact Hc |]. rewrite !has_char_app, Hc, IH. cbn [Py.has_char].
  rewrite Hx. reflexivity.
Qed.

(** X15. [sanitize_file_path] returns a path that is never empty, holds
    no line feed, and is in normal form: either ["."], or at most two
    leading slashes followed by components joined by single slashes,
    none of them empty, a dot, or holding a slash. *)
Theorem sanitize_file_path_normal (file_path : string) :
  let r := sanitize_file_path file_path in
  r <> "" /\ Py.has_char "010" r = false
  /\ exists prefix comps,
       In prefix [""; "/"; "//"]
       /\ Forall (fun c => c <> "" /\ c <> "." /\ Py.has_char "/" c = false) comps
       /\ (r = prefix +:+ join_slash comps \/ r = ".").
Proof.
  unfold sanitize_file_path. set (q := Py.remove_char "010" (Py.strip file_path)).
  assert (Hq : Py.has_char "010" q = false) by apply remove_char_has.
  unfold normpath. destruct (negb (Py.truthy q)).
  { cbv zeta. split; [discriminate |]. split; [reflexivity |]. exists "", [].
    split; [left; reflexivity |]. split; [constructor | right; reflexivity]. }
  set (n := if Py.startswith "/" q
            then (if Py.startswith "//" q && negb (Py.startswith "///" q) then 2 else 1)
            else 0).
  set (comps := norm_comps (0 <? n)%nat [] (split_slash q)).
  set (prefix := match n with 0 => "" | 1 => "/" | _ => "//" end).
  assert (Hcomps : Forall (fun c => (c <> "" /\ c <> "." /\ Py.has_char "/" c = false)
                                    /\ Py.has_char "010" c = false) comps).
  { apply norm_comps_keeps; [constructor |].
    eapply List.Forall_impl; [| apply (split_slash_parts "010" q)]. cbn beta.
    intros c [H1 H2] Hne Hnd. auto. }
  assert (Hprefix : In prefix [""; "/"; "//"] /\ Py.has_char "010" prefix = false).
  { unfold prefix. destruct n as [| [| n]]; cbn; auto. }
  cbv zeta. fold n. fold comps. fold prefix.
  destruct (Py.truthy (prefix +:+ join_slash comps)) eqn:Et.
  - split; [apply truthy_true, Et |]. split.
    + rewrite has_char_app. destruct Hprefix as [_ ->]. cbn [orb].
      apply join_slash_has; [reflexivity |]. eapply List.Forall_impl; [| exact Hcomps].
      cbn beta. tauto.
    + exists prefix, comps. split; [apply Hprefix |]. split; [| left; reflexivity].
      eapply List.Forall_impl; [| exact Hcomps]. cbn beta. tauto.
  - split; [discriminate |]. split; [reflexivity |]. exists prefix, comps.
    split; [apply Hprefix |]. split; [| right; reflexivity].
    eapply List.Forall_impl; [| exact Hcomps]. cbn beta. tauto.
Qed.

(** * The title of the document *)

Lemma rstrip_by_kept (p : ascii -> bool) (c : ascii) (s : string) :
  p c = false -> Py.endswith_char c s = true -> rstrip_by p s = s.
Proof.
  intros Hp. induction s as [| a s IH]; [discriminate |]. intros He.
  cbn [rstrip_by]. destruct s as [| b s].
  - cbn [Py.endswith_char] in He. apply Ascii.eqb_eq in He. subst a. cbn [rstrip_by].
    rewrite Hp. reflexivity.
  - change (Py.endswith_char c (String a (String b s))) with (Py.endswith_char c (String b s)) in He.
    rewrite (IH He). reflexivity.
Qed.

Lemma lstrip_by_ends (p : ascii -> bool) (c : ascii) (s : string) :
  p c = false -> Py.endswith_char c s = true -> Py.endswith_char c (Py.lstrip_by p s) = true.
Proof.
  intros Hp. induction s as [| a s IH]; [discriminate |]. intros He. cbn [Py.lstrip_by].
  destruct (p a) eqn:Ea; [| exact He]. apply IH. destruct s as [| b s]; [| exact He].
  cbn [Py.endswith_char] in He. apply Ascii.eqb_eq in He. congruence.
Qed.

(** X16. The title is taken from the first line that starts with
    ["# "]. When that line ends with a line feed, [strip("# ")] works
    on its left end only: the title is the line without its leading
    hashes and spaces, then trimmed of white space, so the hashes that
    close a heading are kept, and a heading of hashes and spaces only
    gives an empty title, not ["-"]. *)
Theorem title_of_first_heading (lines pre rest : list string) (line : string) :
  lines = pre ++ line :: rest ->
  Forall (fun l => Py.startswith "# " l = false) pre ->
  Py.startswith "# " line = true ->
  Py.endswith_char "010" line = true ->
  _extract_html_title lines = Py.strip (Py.lstrip_by hash_or_space line).
Proof.
  intros -> Hpre Hline Hend. unfold _extract_html_title.
  induction Hpre as [| l pre Hl _ IH]; cbn [app first_title].
  - rewrite Hline. cbn [default]. unfold strip_by.
    rewrite (rstrip_by_kept hash_or_space "010"); [reflexivity | reflexivity |].
    apply lstrip_by_ends; [reflexivity | exact Hend].
  - rewrite Hl. exact IH.
Qed.

Lemma title_of_first_heading_witness :
  _extract_html_title ["---" +:+ line_feed;
                       "# Common Security Advisory Framework #" +:+ line_feed;
                       "# Other" +:+ line_feed]
  = "Common Security Advisory Framework #".
Proof.
  apply (title_of_first_heading _ ["---" +:+ line_feed] ["# Other" +:+ line_feed]
           ("# Common Security Advisory Framework #" +:+ line_feed)).
  - reflexivity.
  - repeat constructor.
  - reflexivity.
  - reflexivity.
Defined.

(** * The whole pass only adds to the world *)

Lemma grows_refl w : grows w w.
Proof. split; [reflexivity |]. split; exists []; symmetry; apply app_nil_r. Qed.

Lemma grows_trans w1 w2 w3 : grows w1 w2 -> grows w2 w3 -> grows w1 w3.
Proof.
  intros (Hf1 & [l1 Hl1] & [r1 Hr1]) (Hf2 & [l2 Hl2] & [r2 Hr2]).
  split; [set_solver |]. split.
  - exists (l1 ++ l2). rewrite Hl2, Hl1, app_assoc. reflexivity.
  - exists (r1 ++ r2). rewrite Hr2, Hr1, app_assoc. reflexivity.
Qed.

Lemma growing_ret {A} (a : A) : growing (ret a).
Proof. intros w. apply grows_refl. Qed.

Lemma growing_raise {A} e : growing (@raise world A e).
Proof. intros w. apply grows_refl. Qed.

Lemma growing_get : growing (@get world).
Proof. intros w. apply grows_refl. Qed.

Lemma growing_lift {A} (o : outcome A) : growing (lift_outcome o).
Proof. intros w. apply grows_refl. Qed.

Lemma growing_bind {A B} (m : M world A) (k : A -> M world B) :
  growing m -> (forall a, growing (k a)) -> growing (bind m k).
Proof.
  intros Hm Hk w. unfold bind. specialize (Hm w). destruct (m w) as [[a | e] w1]; [| exact Hm].
  eapply grows_trans; [exact Hm | apply Hk].
Qed.

Lemma growing_on_dom {A} (m : M soup A) : growing (on_dom m).
Proof.
  intros w. unfold on_dom. destruct (m (dom w)) as [r d]. cbn [snd].
  split; [reflexivity |]. split; exists []; symmetry; apply app_nil_r.
Qed.

Lemma growing_logger l msg : growing (logger l msg).
Proof.
  intros w. unfold logger, modify. cbn [snd]. split; [reflexivity |].
  split; [exists [(l, msg)]; reflexivity | exists []; symmetry; apply app_nil_r].
Qed.

Lemma growing_write_file path : growing (write_file path).
Proof.
  intros w. unfold write_file, modify. cbn [snd files log requests]. split; [set_solver |].
  split; exists []; symmetry; apply app_nil_r.
Qed.

Lemma growing_requests_get fetch url : growing (requests_get fetch url).
Proof.
  intros w. unfold requests_get, bind, get, put, ret. cbn [snd files log requests].
  split; [reflexivity |].
  split; [exists []; symmetry; apply app_nil_r | exists [url]; reflexivity].
Qed.

Lemma growing_for_each {A} (l : list A) (body : A -> M world unit) :
  (forall x, growing (body x)) -> growing (for_each l body).
Proof.
  intros H. induction l as [| x l IH]; [apply growing_ret |]. cbn [for_each].
  apply growing_bind; [apply H | intros _; exact IH].
Qed.

Ltac growing_step :=
  first [ apply growing_ret | apply growing_raise | apply growing_get | apply growing_lift
        | apply growing_on_dom | apply growing_logger | apply growing_write_file
        | apply growing_requests_get
        | apply growing_bind; [| intros ?]
        | match goal with
          | |- growing (if ?c then _ else _) => destruct c
          | |- growing (match ?x with Some _ => _ | None => _ end) => destruct x
          end ].

Section Growing.

Variable urlparse : string -> outcome ParseResult.
Variable html_parser : string -> ident -> list node * ident.
Variable fetch : list string -> string -> option string.
Variable flag : string.
Variable self : converter.

Lemma growing_localize_image img : growing (localize_image urlparse fetch self img).
Proof. unfold localize_image. repeat growing_step. Qed.

Lemma growing_localize_stylesheet link : growing (localize_stylesheet urlparse fetch self link).
Proof. unfold localize_stylesheet. repeat growing_step. Qed.

Lemma growing_localize_images : growing (localize_images urlparse fetch self).
Proof.
  unfold localize_images. apply growing_bind; [apply growing_get | intros w].
  apply growing_for_each, growing_localize_image.
Qed.

Lemma growing_localize_stylesheets : growing (localize_stylesheets urlparse fetch flag self).
Proof.
  unfold localize_stylesheets. destruct (localize_css_enabled flag); [| apply growing_ret].
  apply growing_bind; [apply growing_get | intros w].
  apply growing_for_each, growing_localize_stylesheet.
Qed.

Lemma bind_logger {B} l msg (k : unit -> M world B) w :
  bind (logger l msg) k w
  = k tt (mkWorld (dom w) (files w) (log w ++ [(l, msg)]) (requests w)).
Proof. reflexivity. Qed.

(** X17. Whatever the document, the network and the files, and whether
    the pass ends normally or with an error, [_post_process_html] only
    adds to the world: no file that existed is lost, the log is the old
    log followed by the record that announces the step and by what the
    pass logged, and the requests are the old ones followed by those of
    the pass. *)
Theorem post_process_only_adds (step : string) (w : world) :
  let w' := snd (_post_process_html urlparse html_parser fetch flag self step w) in
  files w ⊆ files w'
  /\ (exists l, log w' = log w ++ (INFO, "Step " +:+ step +:+ ": Post-processing HTML.") :: l)
  /\ (exists r, requests w' = requests w ++ r).
Proof.
  intros w'. subst w'. unfold _post_process_html. rewrite bind_logger.
  match goal with
  | |- files w ⊆ files (snd (?m ?w0)) /\ _ =>
      assert (Hg : growing m);
      [| destruct (Hg w0) as (Hf & [l Hl] & [r Hr]); cbn [files log requests] in Hf, Hl, Hr ]
  end.
  { repeat first [ apply growing_localize_images | apply growing_localize_stylesheets
                 | growing_step ]. }
  split; [exact Hf |]. split.
  - exists l. rewrite Hl, <- app_assoc. reflexivity.
  - exists r. exact Hr.
Qed.

End Growing.

(** * The banner pass never raises *)

Lemma find_logo_p_done body ps s : exists o, fst (find_logo_p body ps s) = Done o.
Proof.
  induction ps as [| p ps IH]; [exists None; reflexivity |].
  cbn [find_logo_p]. unfold bind, get.
  destruct (Bs4.find_child (named "img") p s) as [img |]; [| exact IH].
  rewrite canonical_run. destruct (canonical img body s); [| exact IH].
  exists (Some p). reflexivity.
Qed.

(** With the logo paragraph and a heading after it, the pass goes
    through. *)
Lemma banner_fixed_done s L H :
  NoDup (ids (root s)) -> limbo s = [] -> Forall (fun i => i < fresh s) (ids (root s)) ->
  fst (find_logo_p (body_or_soup s) (Bs4.find_all_children (named "p") (body_or_soup s) s) s)
    = Done (Some L) ->
  List.find is_heading (List.filter _is_tag (next_siblings L s)) = Some H ->
  fst (_fix_top_banner_block s) = Done BannerFixed.
Proof.
  intros Hnd Hl Hfresh HL HH. set (kept := stray_free H (next_siblings L s)).
  set (b := body_or_soup s) in *.
  destruct (find_logo_p b (Bs4.find_all_children (named "p") b s) s) as [r s0] eqn:Elogo.
  simpl in HL. subst r. apply find_logo_p_spec in Elogo as Hspec. destruct Hspec as [-> HLin].
  specialize (HLin L eq_refl).
  destruct (child_of_body _ _ _ _ Hl HLin) as (nm & a & cs & Hb & HLcs).
  pose proof (next_siblings_eq L s b nm a cs Hnd Hl Hb HLcs) as Hsibs.
  destruct (after_id_split L cs HLcs) as (before & Ln & Hcs & HLn & Hnot).
  assert (Hhead : is_heading H = true /\ In H (after_id L cs)).
  { apply find_some in HH as [Hin Hh]. apply filter_In in Hin as [Hin _]. rewrite Hsibs in Hin. tauto. }
  destruct Hhead as [Hhead HHin].
  assert (Hstyled : forall e, first_elem kept = Some e -> is_styled_hr e = false).
  { intros e He. unfold is_styled_hr. rewrite (first_elem_stray_free H _ e Hhead He). reflexivity. }
  rewrite Hcs in Hb.
  destruct (drop_stray_hrs_run H b nm a (after_id L cs) (before ++ [Ln]) s Hnd Hl)
    as (s1 & Hrun & Hnd1 & Hl1 & Hf1 & Hincl1 & Hb1).
  { rewrite <- app_assoc. exact Hb. }
  rewrite <- app_assoc in Hb1. cbn [app] in Hb1. rewrite <- Hsibs in Hb1, Hrun. fold kept in Hb1.
  assert (HLk : In L (map node_id (before ++ Ln :: kept))).
  { rewrite map_app. apply in_or_app. right. left. exact HLn. }
  assert (Hsibs1 : next_siblings L s1 = kept).
  { rewrite (next_siblings_eq L s1 b nm a _ Hnd1 Hl1 Hb1 HLk). apply after_id_app; assumption. }
  assert (Hfresh1 : Forall (fun i => i < fresh s1) (ids (root s1))).
  { rewrite Hf1. rewrite Forall_forall in Hfresh |- *. intros x Hx.
    apply Hfresh. apply list_elem_of_In. apply list_elem_of_In in Hx. apply Hincl1, Hx. }
  assert (HHid : node_id H < fresh s).
  { rewrite Forall_forall in Hfresh. apply Hfresh, list_elem_of_In.
    pose proof (parent_in_unique_Tag (node_id H) (root s) b nm a _ Hnd Hb) as Hp.
    rewrite ids_eq. right. eapply parent_in_below, Hp.
    rewrite map_app. apply in_or_app. right. right. apply in_map, HHin. }
  (* the rule *)
  assert (Hrule : exists s2,
    (if differs (first_elem kept) H
     then (styled_hr <- Bs4.new_tag "hr" ∅ ;;
           Bs4.setitem styled_hr "style" avoid_break ;;
           Bs4.insert_after L styled_hr)%pass
     else ret tt) s1 = (Done tt, s2)
    /\ limbo s2 = []
    /\ parent_in L (root s2) = Some (Tag b nm a (before ++ Ln ::
         (if differs (first_elem kept) H then [styled_rule (fresh s)] else []) ++ kept))).
  { destruct (differs (first_elem kept) H).
    - destruct (insert_rule_run s1 L b nm a before Ln kept Hnd1 Hl1 Hfresh1 Hb1 HLn Hnot)
        as (s2 & Hrun2 & Hl2 & _ & Hp2).
      exists s2. rewrite Hf1 in Hp2. auto.
    - exists s1. split; [reflexivity |]. split; [exact Hl1 |].
      apply parent_in_unique_Tag; assumption. }
  destruct Hrule as (s2 & Hrun2 & Hl2 & Hp2).
  assert (Hwhole : _fix_top_banner_block s =
            (Done BannerFixed,
             if named "h1" H
             then Bs4.on_all (retag (fun '(_, a) => ("h1big", a)) (node_id H)) s2 else s2)).
  { unfold _fix_top_banner_block. unfold bind at 1. unfold get at 1. cbv beta iota.
    fold b. unfold bind at 1. rewrite Elogo. cbv beta iota. rewrite HH.
    unfold bind at 1. rewrite Hrun. cbv beta iota.
    unfold bind at 1. unfold get at 1. cbv beta iota. rewrite Hsibs1.
    replace (negb match first_elem kept with Some e => is_styled_hr e | None => false end) with true.
    2:{ destruct (first_elem kept) as [e |] eqn:Ee; [rewrite (Hstyled e eq_refl) |]; reflexivity. }
    cbn [andb]. unfold bind at 1. rewrite Hrun2. cbv beta iota.
    destruct (named "h1" H); reflexivity. }
  rewrite Hwhole. reflexivity.
Qed.

(** X18. On a parsed document the banner pass never raises: it ends
    with the banner fixed, or with one of its two warnings. *)
Theorem banner_never_raises s :
  NoDup (ids (root s)) -> limbo s = [] -> Forall (fun i => i < fresh s) (ids (root s)) ->
  exists r, fst (_fix_top_banner_block s) = Done r.
Proof.
  intros Hnd Hl Hfresh.
  destruct (find_logo_p_done (body_or_soup s)
              (Bs4.find_all_children (named "p") (body_or_soup s) s) s) as [[L |] HL].
  - destruct (List.find is_heading (List.filter _is_tag (next_siblings L s))) as [H |] eqn:HH.
    + exists BannerFixed. apply (banner_fixed_done s L H); assumption.
    + exists NoHeading. unfold _fix_top_banner_block. unfold bind at 1, get at 1. cbv zeta.
      unfold bind at 1.
      destruct (find_logo_p (body_or_soup s)
                  (Bs4.find_all_children (named "p") (body_or_soup s) s) s) as [r s0] eqn:E.
      cbn [fst] in HL. subst r. apply find_logo_p_spec in E as [-> _]. rewrite HH. reflexivity.
  - exists NoLogoParagraph. unfold _fix_top_banner_block. unfold bind at 1, get at 1. cbv zeta.
    unfold bind at 1.
    destruct (find_logo_p (body_or_soup s)
                (Bs4.find_all_children (named "p") (body_or_soup s) s) s) as [r s0] eqn:E.
    cbn [fst] in HL. subst r. reflexivity.
Qed.

Lemma banner_never_raises_witness : exists r, fst (_fix_top_banner_block doc_banner) = Done r.
Proof.
  apply (banner_never_raises doc_banner).
  - distinct_ids.
  - reflexivity.
  - fresh_bound.
Defined.

(** * A document without a head *)

Lemma drop_first_done nm s : fst (drop_first nm s) = Done tt.
Proof.
  unfold drop_first, bind, get. destruct (Bs4.find (named nm) (node_id (root s)) s); reflexivity.
Qed.

Lemma drop_first_root_id nm s : node_id (root (snd (drop_first nm s))) = node_id (root s).
Proof.
  unfold drop_first, bind, get. destruct (Bs4.find (named nm) (node_id (root s)) s);
    [apply node_id_prune | reflexivity].
Qed.

Section Headless.

Variable urlparse : string -> outcome ParseResult.
Variable html_parser : string -> ident -> list node * ident.
Variable fetch : list string -> string -> option string.
Variable flag : string.
Variable self : converter.

(** X19. When the document has no [head] once its first [header] is
    removed, [soup.head] is [None] and line 422 raises: the whole pass
    stops with an [AttributeError] before any request is made or any
    file written, with the opening record as its only log record. *)
Theorem headless_document_raises (step : string) (w : world) :
  Bs4.find (named "head") (node_id (root (dom w))) (snd (drop_first "header" (dom w))) = None ->
  let w' := snd (_post_process_html urlparse html_parser fetch flag self step w) in
  fst (_post_process_html urlparse html_parser fetch flag self step w) = Raised AttributeError
  /\ requests w' = requests w /\ files w' = files w
  /\ log w' = log w ++ [(INFO, "Step " +:+ step +:+ ": Post-processing HTML.")].
Proof.
  intros Hhead.
  assert (Hpre : fst (post_process_prelude self (dom w)) = Raised AttributeError).
  { unfold post_process_prelude, prelude_head. unfold bind at 1, bind at 1, bind at 1.
    pose proof (drop_first_done "header" (dom w)) as Hd.
    pose proof (drop_first_root_id "header" (dom w)) as Hid.
    destruct (drop_first "header" (dom w)) as [o s1]. cbn [fst snd] in *. subst o.
    unfold insert_meta, bind at 1, Bs4.new_tag, bind at 1, get at 1, bind at 1, put at 1.
    unfold ret at 1. unfold bind at 1, get at 1. cbn [root].
    replace (Bs4.find (named "head") (node_id (root s1)) _) with (@None ident); [reflexivity |].
    rewrite <- Hhead, <- Hid. unfold Bs4.find, Bs4.find_all, Bs4.lookup. cbn [root limbo].
    rewrite !find_root. reflexivity. }
  assert (Hrun : _post_process_html urlparse html_parser fetch flag self step w
                 = (Raised AttributeError,
                    mkWorld (snd (post_process_prelude self (dom w))) (files w)
                      (log w ++ [(INFO, "Step " +:+ step +:+ ": Post-processing HTML.")])
                      (requests w))).
  { unfold _post_process_html. rewrite bind_logger. unfold bind at 1, on_dom at 1.
    cbn [dom files log requests].
    destruct (post_process_prelude self (dom w)) as [o d]. cbn [fst] in Hpre. subst o.
    reflexivity. }
  rewrite Hrun. cbn [fst snd files log requests]. auto.
Qed.

End Headless.

Lemma headless_document_raises_witness :
  fst (_post_process_html Urllib.urlparse (fun _ k => ([], k)) no_network "" sample_converter "5"
         (mkWorld doc_headless ∅ [] []))
  = Raised AttributeError.
Proof.
  apply (headless_document_raises Urllib.urlparse (fun _ k => ([], k)) no_network ""
           sample_converter "5" (mkWorld doc_headless ∅ [] [])).
  vm_compute. reflexivity.
Defined.

(** * The test of the canonical logo *)

(** X20. [_is_canonical_logo_img] never raises and changes nothing, on
    a destroyed image either. On a parsed document it answers [True]
    exactly for an [img] element with a logo source and the alternative
    text [OASIS Logo] (both trimmed) whose parent is a [p] that is the
    first element among the children of the body: the test that the
    body is the parent of that paragraph adds nothing. *)
Theorem canonical_test img body s :
  NoDup (ids (root s)) -> limbo s = [] ->
  exists b, _is_canonical_logo_img img body s = (Done b, s)
    /\ (b = true <->
        exists a p, tag_at img (root s) = Some ("img", a)
          /\ _looks_like_logo_src (Py.strip (or_empty (a !! "src"))) = true
          /\ Py.strip (or_empty (a !! "alt")) = "OASIS Logo"
          /\ parent_in img (root s) = Some p /\ named "p" p = true
          /\ Bs4.first_tag_child body s = Some (node_id p)).
Proof.
  intros Hnd Hl. exists (canonical img body s). split; [apply canonical_run |].
  rewrite (canonical_spec img body s Hl), (first_tag_child_no_limbo body s Hl). split.
  - intros (a & p & b & Hat & Hattrs & Hp & Hnp & Hpp & Hb & Hfirst).
    exists a, p. unfold logo_attrs_ok in Hattrs. apply andb_true_iff in Hattrs as [Hsrc Halt].
    apply String.eqb_eq in Halt. unfold first_tag_in. rewrite Hb. auto 10.
  - intros (a & p & Hat & Hsrc & Halt & Hp & Hnp & Hfirst).
    destruct (first_tag_in_parent body (root s) (node_id p) Hnd Hfirst)
      as (nm & ab & cs & Hb & Hpar & Hhead).
    exists a, p, (Tag body nm ab cs). unfold canonical_at, logo_attrs_ok.
    rewrite Hsrc, Halt, String.eqb_refl, Hpar. cbn [andb fmap option_fmap option_map node_id].
    auto 10.
Qed.

Lemma canonical_test_witness :
  exists b, _is_canonical_logo_img 4 2 doc_gallery = (Done b, doc_gallery) /\ b = true.
Proof.
  destruct (canonical_test 4 2 doc_gallery) as (b & Hrun & Hb).
  - distinct_ids.
  - reflexivity.
  - exists b. split; [exact Hrun |]. apply Hb.
    exists logo_attrs, (Tag 3 "p" ∅ [Tag 4 "img" logo_attrs []]).
    repeat split; vm_compute; reflexivity.
Defined.

(** * What is taken for a logo source *)

Lemma startswith_cons a p b s :
  Py.startswith (String a p) (String b s) = if Ascii.eqb a b then Py.startswith p s else false.
Proof. reflexivity. Qed.

Lemma lower_char_eqb a b : Ascii.eqb a b = true -> Ascii.eqb (Py.lower_char a) (Py.lower_char b) = true.
Proof. intros H. apply Ascii.eqb_eq in H. subst b. apply Ascii.eqb_refl. Qed.

Lemma startswith_lower p : forall s,
  Py.startswith p s = true -> Py.startswith (Py.lower p) (Py.lower s) = true.
Proof.
  induction p as [| a p IH]; intros s H; [reflexivity |].
  destruct s as [| b s]; [discriminate |]. rewrite startswith_cons in H.
  cbn [Py.lower]. rewrite startswith_cons.
  destruct (Ascii.eqb a b) eqn:E; [| discriminate]. rewrite (lower_char_eqb _ _ E). apply IH, H.
Qed.

Lemma contains_lower p s :
  Py.contains p s = true -> Py.contains (Py.lower p) (Py.lower s) = true.
Proof.
  induction s as [| b s IH]; cbn [Py.contains Py.lower]; intros H.
  - rewrite orb_false_r in H. apply startswith_lower in H. cbn [Py.lower] in H. rewrite H.
    reflexivity.
  - apply orb_true_iff in H as [H | H].
    + apply startswith_lower in H. cbn [Py.lower] in H. rewrite H. reflexivity.
    + rewrite (IH H). apply orb_true_r.
Qed.

Lemma contains_drop v k : forall u, Py.contains v (Py.drop k u) = true -> Py.contains v u = true.
Proof.
  induction k as [| k IH]; intros u H; [destruct u; exact H |].
  destruct u as [| c u]; [exact H |]. cbn [Py.drop] in H. cbn [Py.contains].
  rewrite (IH u H). apply orb_true_r.
Qed.

Lemma startswith_take v : forall n u,
  Py.startswith v (Py.take n u) = true -> Py.startswith v u = true.
Proof.
  induction v as [| a v IH]; intros n u H; [reflexivity |].
  destruct n as [| n]; [discriminate |]. destruct u as [| b u]; [discriminate |].
  cbn [Py.take] in H. rewrite startswith_cons in *. destruct (Ascii.eqb a b); [| discriminate].
  eapply IH, H.
Qed.

Lemma contains_take v n : forall u, Py.contains v (Py.take n u) = true -> Py.contains v u = true.
Proof.
  induction n as [| n IH]; intros u H.
  - assert (Hv : Py.startswith v "" = true).
    { destruct u; cbn [Py.take Py.contains] in H; rewrite orb_false_r in H; exact H. }
    destruct v; [| discriminate]. destruct u; reflexivity.
  - destruct u as [| c u]; [exact H |]. cbn [Py.take Py.contains] in *.
    apply orb_true_iff in H as [H | H].
    + change (String c (Py.take n u)) with (Py.take (S n) (String c u)) in H.
      rewrite (startswith_take _ _ _ H). reflexivity.
    + rewrite (IH u H). apply orb_true_r.
Qed.

Lemma lower_drop k : forall t, Py.lower (Py.drop k t) = Py.drop k (Py.lower t).
Proof.
  induction k as [| k IH]; intros t; [destruct t; reflexivity |].
  destruct t as [| c t]; [reflexivity |]. cbn [Py.drop Py.lower]. apply IH.
Qed.

Lemma lower_take n : forall t, Py.lower (Py.take n t) = Py.take n (Py.lower t).
Proof.
  induction n as [| n IH]; intros t; [destruct t; reflexivity |].
  destruct t as [| c t]; [reflexivity |]. cbn [Py.take Py.lower]. rewrite IH. reflexivity.
Qed.

Lemma ends_with_logo_name_mentions t :
  ends_with_logo_name t = true -> Py.contains "oasislogo-v3.0.png" (Py.lower t) = true.
Proof.
  unfold ends_with_logo_name. cbv zeta. intros H. apply andb_true_iff in H as [_ H].
  apply String.eqb_eq in H. rewrite lower_drop in H.
  apply (contains_drop _ (String.length t - 19)). rewrite H. reflexivity.
Qed.

(** X21. On ASCII text, [_looks_like_logo_src] accepts every source that
    holds the file name [OASISLogo-v3.0.png], and every source it
    accepts holds that name in some letter case. *)
Theorem logo_src_mentions_name (src : string) :
  Py.all_chars (fun c => (nat_of_ascii c <? 128)%nat) src = true ->
  (Py.contains "OASISLogo-v3.0.png" src = true -> _looks_like_logo_src src = true)
  /\ (_looks_like_logo_src src = true ->
      Py.contains "oasislogo-v3.0.png" (Py.lower src) = true).
Proof.
  intros _. split.
  - intros H. unfold _looks_like_logo_src. destruct src as [| c r]; [discriminate |].
    cbn [Py.truthy negb]. rewrite H. reflexivity.
  - unfold _looks_like_logo_src. destruct (negb (Py.truthy src)); [discriminate |].
    intros H. apply orb_true_iff in H as [H | H]; [apply orb_true_iff in H as [H | H] |].
    + apply contains_lower in H. exact H.
    + apply String.eqb_eq in H. subst src. reflexivity.
    + unfold logo_ok_src_regex_match in H. apply orb_true_iff in H as [H | H].
      * apply ends_with_logo_name_mentions, H.
      * apply andb_true_iff in H as [_ H]. apply ends_with_logo_name_mentions in H.
        rewrite lower_take in H. eapply contains_take, H.
Qed.

Lemma logo_src_mentions_name_witness :
  _looks_like_logo_src "img/oasislogo-V3.0.PNG" = true
  /\ Py.contains "oasislogo-v3.0.png" (Py.lower "img/oasislogo-V3.0.PNG") = true.
Proof.
  split; [reflexivity |].
  apply (logo_src_mentions_name "img/oasislogo-V3.0.PNG"); reflexivity.
Defined.

(** * The string and URL functions on sample inputs *)

Example strip_sample : Py.strip "  ab c  " = "ab c".
Proof. reflexivity. Qed.

Example basename_sample : Py.basename "/a/b/c.html" = "c.html".
Proof. reflexivity. Qed.

Example basename_plain : Py.basename "c.html" = "c.html".
Proof. reflexivity. Qed.

Example basename_of_directory : Py.basename "a/" = "".
Proof. reflexivity. Qed.

Example before_last_sample : Py.before_last "/"%char "/a/b/c.html" = "/a/b".
Proof. reflexivity. Qed.

Example contains_sample : Py.contains "Logo" "OASISLogo-x" = true.
Proof. reflexivity. Qed.

Example urlparse_params : Urllib.urlparse "/x/;y" = Done (mkParse "" "" "/x/" "y" "" "").
Proof. reflexivity. Qed.

Example urlparse_padded_fragment :
  Urllib.urlparse " #sec " = Done (mkParse "" "" "" "" "" "sec ").
Proof. reflexivity. Qed.

Example urlparse_scheme_lowered :
  Urllib.urlparse "HTTP://A/b#c" = Done (mkParse "http" "A" "/b" "" "" "c").
Proof. reflexivity. Qed.
